(** * Well/group control helpers of the flow simulator

    A shallow embedding of [opm/simulators/wells/WellGroupHelpers.cpp]
    (namespace [Opm::WellGroupHelpers]) together with the properties that
    the specification states about it.

    Conventions of the embedding.

    - A C++ [double] is an exact rational number ([Qc], the canonical
      rationals, whose equality is Leibniz equality).  Rounding, infinities
      and NaN are outside the model: a statement that equates two ways of
      computing a number is a statement about exact arithmetic, and a
      quotient by zero, which is an infinity in the source, is [0] here.
      The module [Binary64] has the rate sums in the arithmetic of the
      machine.
    - A function that may throw, or whose recursion or loop is not bounded
      by its arguments, returns a [res]: [Ok v], [Throw e] for a C++
      exception, or [OutOfFuel] when the explicit recursion budget is used
      up.  The budget ([fuel]) bounds the depth of the recursion over the
      group tree, respectively the number of turns of a [while] loop.
    - [assert] is compiled out (an [NDEBUG] build).  The one assertion
      whose condition depends on the arguments, in
      [FractionCalculator::localFraction], is kept beside the function as
      [localFraction_assertion].
    - Reading a [std::vector] outside its bounds is undefined behaviour in
      the source; the model reads [0] there, and a write changes nothing.
    - The classes of the schedule library ([Group], [Well], [Schedule],
      [GuideRate], [ExtNetwork]) and the well state are records of the
      observers the helpers call. *)

From Stdlib Require Import QArith Qcanon Floats Uint63.
From stdpp Require Import gmap strings list.

Local Open Scope Qc_scope.
Local Open Scope string_scope.

(** ** Numbers *)

Abbreviation double := Qc.

Definition dbl (n : Z) (d : positive) : double := Q2Qc (n # d).

(** [std::max(a, b)], which is [(a < b) ? b : a]. *)
Definition std_max (a b : double) : double :=
  if Qclt_le_dec a b then b else a.

(** [v[i]] on a [std::vector<double>]. *)
Definition vec_at (v : list double) (i : nat) : double := default 0 (v !! i).

(** [v[i] += x]. *)
Definition vec_add_at (v : list double) (i : nat) (x : double) : list double :=
  alter (fun y => y + x) i v.

(** [std::vector<double>(n, 0.0)]. *)
Definition vec_zero (n : nat) : list double := replicate n 0.

(** ** Exceptions and the recursion budget *)

Inductive exception : Type :=
| runtime_error (what : string)
| logic_error (what : string)
| invalid_argument (what : string).

Inductive res (A : Type) : Type :=
| Ok (a : A)
| Throw (e : exception)
| OutOfFuel.
Arguments Ok {A} a.
Arguments Throw {A} e.
Arguments OutOfFuel {A}.

#[global] Instance res_ret : MRet res := fun A a => Ok a.
#[global] Instance res_bind : MBind res := fun A B f m =>
  match m with
  | Ok a => f a
  | Throw e => Throw e
  | OutOfFuel => OutOfFuel
  end.

(** A range-based [for] loop whose body updates the loop-carried state and
    may throw. *)
Fixpoint for_each {A S : Type} (l : list A) (body : A -> S -> res S) (s : S) : res S :=
  match l with
  | [] => Ok s
  | x :: l' => s' ← body x s; for_each l' body s'
  end.

(** ** Enumerations *)

Inductive Phase : Type :=
| OIL | GAS | WATER | SOLVENT | POLYMER | ENERGY | POLYMW | FOAM | BRINE | ZFRACTION.

#[global] Instance Phase_eq_dec : EqDecision Phase.
Proof. solve_decision. Defined.

Definition Phase_to_nat (p : Phase) : nat :=
  match p with
  | OIL => 0 | GAS => 1 | WATER => 2 | SOLVENT => 3 | POLYMER => 4
  | ENERGY => 5 | POLYMW => 6 | FOAM => 7 | BRINE => 8 | ZFRACTION => 9
  end%nat.

Definition Phase_of_nat (n : nat) : option Phase :=
  match n with
  | 0 => Some OIL | 1 => Some GAS | 2 => Some WATER | 3 => Some SOLVENT
  | 4 => Some POLYMER | 5 => Some ENERGY | 6 => Some POLYMW | 7 => Some FOAM
  | 8 => Some BRINE | 9 => Some ZFRACTION | _ => None
  end%nat.

#[global] Program Instance Phase_countable : Countable Phase :=
  inj_countable Phase_to_nat Phase_of_nat _.
Next Obligation. by intros []. Qed.

(** [const Phase all[] = {Phase::WATER, Phase::OIL, Phase::GAS}]. *)
Definition all_phases : list Phase := [WATER; OIL; GAS].

Module BlackoilPhases.
Inductive t : Type := Aqua | Liquid | Vapour.
(** The enumerators are also used as vector indices. *)
Definition index (p : t) : nat :=
  match p with Aqua => 0 | Liquid => 1 | Vapour => 2 end%nat.
End BlackoilPhases.

Record PhaseUsage : Type := {
  phase_used : BlackoilPhases.t -> bool;
  phase_pos : BlackoilPhases.t -> nat
}.

Module ScheduleEvents.
Inductive Events : Type :=
| GROUP_INJECTION_UPDATE
| GROUP_PRODUCTION_UPDATE.
End ScheduleEvents.

(** The summary state supplies the values of the symbols that control
    targets may refer to. *)
Definition SummaryState : Type := gmap string double.

(** ** Groups and wells of the schedule *)

Module Group.
Module ProductionCMode.
Inductive t : Type := NONE | ORAT | WRAT | GRAT | LRAT | CRAT | RESV | PRBL | FLD.
End ProductionCMode.

Module InjectionCMode.
Inductive t : Type := NONE | RATE | RESV | REIN | VREP | FLD | SALE.
End InjectionCMode.

Module GuideRateInjTarget.
Inductive t : Type := RATE | RESV | VOID | NETV | POTN | NO_GUIDE_RATE.
End GuideRateInjTarget.

Record GroupInjectionControls : Type := {
  inj_cmode : InjectionCMode.t;
  surface_max_rate : double;
  resv_max_rate : double;
  target_reinj_fraction : double;
  target_void_fraction : double;
  guide_rate_def : GuideRateInjTarget.t
}.

Record GroupProductionControls : Type := {
  cmode : ProductionCMode.t;
  oil_target : double;
  water_target : double;
  gas_target : double;
  liquid_target : double;
  resv_target : double
}.

Record t : Type := {
  name : string;
  parent : string;
  groups : list string;
  wells : list string;
  getGroupEfficiencyFactor : double;
  isInjectionGroup : bool;
  isProductionGroup : bool;
  hasInjectionControl : Phase -> bool;
  injectionControls : Phase -> SummaryState -> GroupInjectionControls;
  productionControls : SummaryState -> GroupProductionControls;
  productionGroupControlAvailable : bool;
  injectionGroupControlAvailable : Phase -> bool
}.

(** [ctrl == FLD || ctrl == NONE]. *)
Definition prod_is_FLD_or_NONE (c : ProductionCMode.t) : bool :=
  match c with
  | ProductionCMode.FLD | ProductionCMode.NONE => true
  | _ => false
  end.

Definition inj_is_FLD_or_NONE (c : InjectionCMode.t) : bool :=
  match c with
  | InjectionCMode.FLD | InjectionCMode.NONE => true
  | _ => false
  end.
End Group.
Abbreviation Group := Group.t.

Module Well.
Module Status.
Inductive t : Type := OPEN | STOP | SHUT | AUTO.
End Status.

Module ProducerCMode.
Inductive t : Type :=
| NONE | ORAT | WRAT | GRAT | LRAT | CRAT | RESV | BHP | THP | GRUP | CMODE_UNDEFINED.
End ProducerCMode.

Module InjectorCMode.
Inductive t : Type := RATE | RESV | BHP | THP | GRUP | CMODE_UNDEFINED.
End InjectorCMode.

Record t : Type := {
  name : string;
  groupName : string;
  isProducer : bool;
  getStatus : Status.t;
  getEfficiencyFactor : double
}.

Definition isInjector (w : t) : bool := negb (isProducer w).

Definition is_SHUT (s : Status.t) : bool :=
  match s with Status.SHUT => true | _ => false end.

Definition prod_is_GRUP (c : ProducerCMode.t) : bool :=
  match c with ProducerCMode.GRUP => true | _ => false end.

Definition inj_is_GRUP (c : InjectorCMode.t) : bool :=
  match c with InjectorCMode.GRUP => true | _ => false end.
End Well.
Abbreviation Well := Well.t.

Module GConSale.
Record GCONSALEGroup : Type := {
  sales_target : double;
  max_sales_rate : double;
  min_sales_rate : double
}.
End GConSale.

Module GConSump.
Record GCONSUMPGroup : Type := {
  consumption_rate : double;
  import_rate : double
}.
End GConSump.

Module Schedule.
(** What [schedule[reportStepIdx]] and the step-indexed getters see. *)
Record ScheduleState : Type := {
  groups : gmap string Group;
  wells : gmap string Well;
  wellgroup_events : string -> ScheduleEvents.Events -> bool;
  gconsale : gmap string (SummaryState -> GConSale.GCONSALEGroup);
  gconsump : gmap string (SummaryState -> GConSump.GCONSUMPGroup)
}.

Record t : Type := {
  wells_static : gset string;
  at_step : nat -> ScheduleState
}.

(** [schedule.hasWell(name)]: some report step defines the well. *)
Definition hasWell_any (s : t) (wellName : string) : bool :=
  bool_decide (wellName ∈ wells_static s).

(** [schedule.hasWell(name, reportStepIdx)]. *)
Definition hasWell (s : t) (wellName : string) (timeStep : nat) : bool :=
  bool_decide (is_Some (wells (at_step s timeStep) !! wellName)).

Definition getGroup (s : t) (groupName : string) (timeStep : nat) : res Group :=
  match groups (at_step s timeStep) !! groupName with
  | Some g => Ok g
  | None => Throw (invalid_argument ("Group " ++ groupName ++ " does not exist"))
  end.

Definition getWell (s : t) (wellName : string) (timeStep : nat) : res Well :=
  match wells (at_step s timeStep) !! wellName with
  | Some w => Ok w
  | None => Throw (invalid_argument ("Well " ++ wellName ++ " does not exist"))
  end.
End Schedule.
Abbreviation Schedule := Schedule.t.

(** ** The guide-rate registry *)

Module GuideRateModel.
Inductive Target : Type := OIL | LIQ | GAS | WAT | RES | COMB | NONE.
End GuideRateModel.

Module GuideRate.
(** [GuideRate::RateVector {oil_rat, gas_rat, wat_rat}]. *)
Record RateVector : Type := {
  oil_rat : double;
  gas_rat : double;
  wat_rat : double
}.

(** The registry of the schedule library, seen through the member
    functions the helpers call: [has(name)], [has(name, phase)],
    [get(name, target, rates)], [get(name, phase)] and, for the one
    mutating call, the injection values that
    [compute(name, phase, report_step, value)] records. *)
Record t : Type := {
  has : string -> bool;
  get : string -> GuideRateModel.Target -> RateVector -> double;
  injection_group_values : gmap (Phase * string) double;
  injection_group_default : Phase -> string -> nat -> double -> option double
}.

Definition has_inj (gr : t) (name : string) (phase : Phase) : bool :=
  bool_decide (is_Some (injection_group_values gr !! (phase, name))).

Definition get_inj (gr : t) (name : string) (phase : Phase) : res double :=
  match injection_group_values gr !! (phase, name) with
  | Some v => Ok v
  | None => Throw (logic_error ("No such injection group: " ++ name))
  end.

(** [compute(wgname, phase, report_step, guide_rate)]: the registry
    decides from its configuration whether and which value to record
    ([injection_group_default]); it does not throw. *)
Definition compute (gr : t) (wgname : string) (phase : Phase) (report_step : nat)
    (guide_rate : double) : t :=
  match injection_group_default gr phase wgname report_step guide_rate with
  | Some v =>
      {| has := has gr; get := get gr;
         injection_group_values := <[(phase, wgname) := v]> (injection_group_values gr);
         injection_group_default := injection_group_default gr |}
  | None => gr
  end.
End GuideRate.
Abbreviation GuideRate := GuideRate.t.

(** ** The well state *)

Module GroupState.
Record t : Type := {
  production_controls : gmap string Group.ProductionCMode.t
}.

Definition has_production_control (gs : t) (gname : string) : bool :=
  bool_decide (is_Some (production_controls gs !! gname)).
End GroupState.
Abbreviation GroupState := GroupState.t.

Module WellState.
(** Modelled from the spec: the class [WellStateFullyImplicitBlackoil] is
    declared in a header that is not part of the sources at hand.  The spec
    describes it as the per-well and per-group mutable rate/control snapshot
    keyed by name: well name to rate vector, current control mode per
    well/group/phase, and the derived aggregates (group target-reduction
    vector, REIN vector, VREP scalar, reservoir injection rates, current
    well rates, group production rates).  A getter of a per-group or
    per-well entry that was never set throws. *)
Record t : Type := {
  numPhases : nat;
  wellMap : gmap string (nat * nat * nat);
  wellIsOwned : nat -> string -> bool;
  wellRates : list double;
  wellReservoirRates : list double;
  solventWellRate : nat -> double;
  currentInjectionControls : list Well.InjectorCMode.t;
  currentProductionControls : list Well.ProducerCMode.t;
  isProductionGrup : string -> bool;
  isInjectionGrup : string -> bool;
  getALQ : string -> double;
  groupState : GroupState;
  injection_group_controls : gmap (Phase * string) Group.InjectionCMode.t;
  production_group_reduction_rates : gmap string (list double);
  injection_group_reduction_rates : gmap string (list double);
  injection_rein_rates : gmap string (list double);
  injection_vrep_rates : gmap string double;
  injection_group_reservoir_rates : gmap string (list double);
  well_rates : gmap string (list double);
  production_group_rates : gmap string (list double);
  group_grat_target_from_sales : gmap string double
}.

Definition lookup_or_throw {K V : Type} `{Countable K} (m : gmap K V) (k : K)
    (what : string) : res V :=
  match m !! k with
  | Some v => Ok v
  | None => Throw (logic_error what)
  end.

Definition hasInjectionGroupControl (ws : t) (phase : Phase) (groupName : string) : bool :=
  bool_decide (is_Some (injection_group_controls ws !! (phase, groupName))).

Definition currentInjectionGroupControl (ws : t) (phase : Phase) (groupName : string)
    : res Group.InjectionCMode.t :=
  lookup_or_throw (injection_group_controls ws) (phase, groupName)
    ("Could not find any control for injection group " ++ groupName).

Definition currentProductionGroupControl (ws : t) (groupName : string)
    : res Group.ProductionCMode.t :=
  lookup_or_throw (GroupState.production_controls (groupState ws)) groupName
    ("Could not find any control for production group " ++ groupName).

Definition currentProductionGroupReductionRates (ws : t) (groupName : string)
    : res (list double) :=
  lookup_or_throw (production_group_reduction_rates ws) groupName
    ("Could not find any reduction rates for production group " ++ groupName).

Definition currentInjectionGroupReductionRates (ws : t) (groupName : string)
    : res (list double) :=
  lookup_or_throw (injection_group_reduction_rates ws) groupName
    ("Could not find any reduction rates for injection group " ++ groupName).

Definition currentInjectionVREPRates (ws : t) (groupName : string) : res double :=
  lookup_or_throw (injection_vrep_rates ws) groupName
    ("Could not find any VREP rates for group " ++ groupName).

Definition currentInjectionGroupReservoirRates (ws : t) (groupName : string)
    : res (list double) :=
  lookup_or_throw (injection_group_reservoir_rates ws) groupName
    ("Could not find any reservoir rates for injection group " ++ groupName).

Definition currentWellRates (ws : t) (wellName : string) : res (list double) :=
  lookup_or_throw (well_rates ws) wellName
    ("Could not find any rates for well " ++ wellName).

Definition currentProductionGroupRates (ws : t) (groupName : string)
    : res (list double) :=
  lookup_or_throw (production_group_rates ws) groupName
    ("Could not find any rates for production group " ++ groupName).

Definition hasGroupGratTargetFromSales (ws : t) (groupName : string) : bool :=
  bool_decide (is_Some (group_grat_target_from_sales ws !! groupName)).

Definition currentGroupGratTargetFromSales (ws : t) (groupName : string) : res double :=
  lookup_or_throw (group_grat_target_from_sales ws) groupName
    ("Could not find any grat target from sales for group " ++ groupName).

Definition setCurrentInjectionGroupControl (ws : t) (phase : Phase) (groupName : string)
    (groupControl : Group.InjectionCMode.t) : t :=
  {| numPhases := numPhases ws; wellMap := wellMap ws; wellIsOwned := wellIsOwned ws;
     wellRates := wellRates ws; wellReservoirRates := wellReservoirRates ws;
     solventWellRate := solventWellRate ws;
     currentInjectionControls := currentInjectionControls ws;
     currentProductionControls := currentProductionControls ws;
     isProductionGrup := isProductionGrup ws; isInjectionGrup := isInjectionGrup ws;
     getALQ := getALQ ws; groupState := groupState ws;
     injection_group_controls := <[(phase, groupName) := groupControl]> (injection_group_controls ws);
     production_group_reduction_rates := production_group_reduction_rates ws;
     injection_group_reduction_rates := injection_group_reduction_rates ws;
     injection_rein_rates := injection_rein_rates ws;
     injection_vrep_rates := injection_vrep_rates ws;
     injection_group_reservoir_rates := injection_group_reservoir_rates ws;
     well_rates := well_rates ws;
     production_group_rates := production_group_rates ws;
     group_grat_target_from_sales := group_grat_target_from_sales ws |}.

Definition setCurrentProductionGroupControl (ws : t) (groupName : string)
    (groupControl : Group.ProductionCMode.t) : t :=
  {| numPhases := numPhases ws; wellMap := wellMap ws; wellIsOwned := wellIsOwned ws;
     wellRates := wellRates ws; wellReservoirRates := wellReservoirRates ws;
     solventWellRate := solventWellRate ws;
     currentInjectionControls := currentInjectionControls ws;
     currentProductionControls := currentProductionControls ws;
     isProductionGrup := isProductionGrup ws; isInjectionGrup := isInjectionGrup ws;
     getALQ := getALQ ws;
     groupState :=
       {| GroupState.production_controls :=
            <[groupName := groupControl]> (GroupState.production_controls (groupState ws)) |};
     injection_group_controls := injection_group_controls ws;
     production_group_reduction_rates := production_group_reduction_rates ws;
     injection_group_reduction_rates := injection_group_reduction_rates ws;
     injection_rein_rates := injection_rein_rates ws;
     injection_vrep_rates := injection_vrep_rates ws;
     injection_group_reservoir_rates := injection_group_reservoir_rates ws;
     well_rates := well_rates ws;
     production_group_rates := production_group_rates ws;
     group_grat_target_from_sales := group_grat_target_from_sales ws |}.

(** The well state with one of its derived maps replaced. *)
Definition with_production_group_reduction_rates (ws : t) (m : gmap string (list double)) : t :=
  {| numPhases := numPhases ws; wellMap := wellMap ws; wellIsOwned := wellIsOwned ws;
     wellRates := wellRates ws; wellReservoirRates := wellReservoirRates ws;
     solventWellRate := solventWellRate ws;
     currentInjectionControls := currentInjectionControls ws;
     currentProductionControls := currentProductionControls ws;
     isProductionGrup := isProductionGrup ws; isInjectionGrup := isInjectionGrup ws;
     getALQ := getALQ ws; groupState := groupState ws;
     injection_group_controls := injection_group_controls ws;
     production_group_reduction_rates := m;
     injection_group_reduction_rates := injection_group_reduction_rates ws;
     injection_rein_rates := injection_rein_rates ws;
     injection_vrep_rates := injection_vrep_rates ws;
     injection_group_reservoir_rates := injection_group_reservoir_rates ws;
     well_rates := well_rates ws; production_group_rates := production_group_rates ws;
     group_grat_target_from_sales := group_grat_target_from_sales ws |}.

Definition with_injection_group_reduction_rates (ws : t) (m : gmap string (list double)) : t :=
  {| numPhases := numPhases ws; wellMap := wellMap ws; wellIsOwned := wellIsOwned ws;
     wellRates := wellRates ws; wellReservoirRates := wellReservoirRates ws;
     solventWellRate := solventWellRate ws;
     currentInjectionControls := currentInjectionControls ws;
     currentProductionControls := currentProductionControls ws;
     isProductionGrup := isProductionGrup ws; isInjectionGrup := isInjectionGrup ws;
     getALQ := getALQ ws; groupState := groupState ws;
     injection_group_controls := injection_group_controls ws;
     production_group_reduction_rates := production_group_reduction_rates ws;
     injection_group_reduction_rates := m;
     injection_rein_rates := injection_rein_rates ws;
     injection_vrep_rates := injection_vrep_rates ws;
     injection_group_reservoir_rates := injection_group_reservoir_rates ws;
     well_rates := well_rates ws; production_group_rates := production_group_rates ws;
     group_grat_target_from_sales := group_grat_target_from_sales ws |}.

Definition with_injection_rein_rates (ws : t) (m : gmap string (list double)) : t :=
  {| numPhases := numPhases ws; wellMap := wellMap ws; wellIsOwned := wellIsOwned ws;
     wellRates := wellRates ws; wellReservoirRates := wellReservoirRates ws;
     solventWellRate := solventWellRate ws;
     currentInjectionControls := currentInjectionControls ws;
     currentProductionControls := currentProductionControls ws;
     isProductionGrup := isProductionGrup ws; isInjectionGrup := isInjectionGrup ws;
     getALQ := getALQ ws; groupState := groupState ws;
     injection_group_controls := injection_group_controls ws;
     production_group_reduction_rates := production_group_reduction_rates ws;
     injection_group_reduction_rates := injection_group_reduction_rates ws;
     injection_rein_rates := m; injection_vrep_rates := injection_vrep_rates ws;
     injection_group_reservoir_rates := injection_group_reservoir_rates ws;
     well_rates := well_rates ws; production_group_rates := production_group_rates ws;
     group_grat_target_from_sales := group_grat_target_from_sales ws |}.

Definition with_injection_vrep_rates (ws : t) (m : gmap string (double)) : t :=
  {| numPhases := numPhases ws; wellMap := wellMap ws; wellIsOwned := wellIsOwned ws;
     wellRates := wellRates ws; wellReservoirRates := wellReservoirRates ws;
     solventWellRate := solventWellRate ws;
     currentInjectionControls := currentInjectionControls ws;
     currentProductionControls := currentProductionControls ws;
     isProductionGrup := isProductionGrup ws; isInjectionGrup := isInjectionGrup ws;
     getALQ := getALQ ws; groupState := groupState ws;
     injection_group_controls := injection_group_controls ws;
     production_group_reduction_rates := production_group_reduction_rates ws;
     injection_group_reduction_rates := injection_group_reduction_rates ws;
     injection_rein_rates := injection_rein_rates ws; injection_vrep_rates := m;
     injection_group_reservoir_rates := injection_group_reservoir_rates ws;
     well_rates := well_rates ws; production_group_rates := production_group_rates ws;
     group_grat_target_from_sales := group_grat_target_from_sales ws |}.

Definition with_injection_group_reservoir_rates (ws : t) (m : gmap string (list double)) : t :=
  {| numPhases := numPhases ws; wellMap := wellMap ws; wellIsOwned := wellIsOwned ws;
     wellRates := wellRates ws; wellReservoirRates := wellReservoirRates ws;
     solventWellRate := solventWellRate ws;
     currentInjectionControls := currentInjectionControls ws;
     currentProductionControls := currentProductionControls ws;
     isProductionGrup := isProductionGrup ws; isInjectionGrup := isInjectionGrup ws;
     getALQ := getALQ ws; groupState := groupState ws;
     injection_group_controls := injection_group_controls ws;
     production_group_reduction_rates := production_group_reduction_rates ws;
     injection_group_reduction_rates := injection_group_reduction_rates ws;
     injection_rein_rates := injection_rein_rates ws;
     injection_vrep_rates := injection_vrep_rates ws;
     injection_group_reservoir_rates := m; well_rates := well_rates ws;
     production_group_rates := production_group_rates ws;
     group_grat_target_from_sales := group_grat_target_from_sales ws |}.

Definition with_well_rates (ws : t) (m : gmap string (list double)) : t :=
  {| numPhases := numPhases ws; wellMap := wellMap ws; wellIsOwned := wellIsOwned ws;
     wellRates := wellRates ws; wellReservoirRates := wellReservoirRates ws;
     solventWellRate := solventWellRate ws;
     currentInjectionControls := currentInjectionControls ws;
     currentProductionControls := currentProductionControls ws;
     isProductionGrup := isProductionGrup ws; isInjectionGrup := isInjectionGrup ws;
     getALQ := getALQ ws; groupState := groupState ws;
     injection_group_controls := injection_group_controls ws;
     production_group_reduction_rates := production_group_reduction_rates ws;
     injection_group_reduction_rates := injection_group_reduction_rates ws;
     injection_rein_rates := injection_rein_rates ws;
     injection_vrep_rates := injection_vrep_rates ws;
     injection_group_reservoir_rates := injection_group_reservoir_rates ws;
     well_rates := m; production_group_rates := production_group_rates ws;
     group_grat_target_from_sales := group_grat_target_from_sales ws |}.

Definition with_production_group_rates (ws : t) (m : gmap string (list double)) : t :=
  {| numPhases := numPhases ws; wellMap := wellMap ws; wellIsOwned := wellIsOwned ws;
     wellRates := wellRates ws; wellReservoirRates := wellReservoirRates ws;
     solventWellRate := solventWellRate ws;
     currentInjectionControls := currentInjectionControls ws;
     currentProductionControls := currentProductionControls ws;
     isProductionGrup := isProductionGrup ws; isInjectionGrup := isInjectionGrup ws;
     getALQ := getALQ ws; groupState := groupState ws;
     injection_group_controls := injection_group_controls ws;
     production_group_reduction_rates := production_group_reduction_rates ws;
     injection_group_reduction_rates := injection_group_reduction_rates ws;
     injection_rein_rates := injection_rein_rates ws;
     injection_vrep_rates := injection_vrep_rates ws;
     injection_group_reservoir_rates := injection_group_reservoir_rates ws;
     well_rates := well_rates ws; production_group_rates := m;
     group_grat_target_from_sales := group_grat_target_from_sales ws |}.

Definition setCurrentProductionGroupReductionRates (ws : t) (groupName : string) (target : list double) : t :=
  with_production_group_reduction_rates ws (<[groupName := target]> (production_group_reduction_rates ws)).

Definition setCurrentInjectionGroupReductionRates (ws : t) (groupName : string) (target : list double) : t :=
  with_injection_group_reduction_rates ws (<[groupName := target]> (injection_group_reduction_rates ws)).

Definition setCurrentInjectionREINRates (ws : t) (groupName : string) (target : list double) : t :=
  with_injection_rein_rates ws (<[groupName := target]> (injection_rein_rates ws)).

Definition setCurrentInjectionVREPRates (ws : t) (groupName : string) (target : double) : t :=
  with_injection_vrep_rates ws (<[groupName := target]> (injection_vrep_rates ws)).

Definition setCurrentInjectionGroupReservoirRates (ws : t) (groupName : string) (target : list double) : t :=
  with_injection_group_reservoir_rates ws (<[groupName := target]> (injection_group_reservoir_rates ws)).

Definition setCurrentWellRates (ws : t) (wellName : string) (rates : list double) : t :=
  with_well_rates ws (<[wellName := rates]> (well_rates ws)).

Definition setCurrentProductionGroupRates (ws : t) (groupName : string) (rates : list double) : t :=
  with_production_group_rates ws (<[groupName := rates]> (production_group_rates ws)).

(** What the update helpers read from the well state that they write to. *)
Definition reads (ws : t) :=
  (numPhases ws, wellMap ws, wellIsOwned ws, currentInjectionControls ws,
   currentProductionControls ws, groupState ws, injection_group_controls ws).

End WellState.
Abbreviation WellStateFullyImplicitBlackoil := WellState.t.

(** ** [namespace WellGroupHelpers]: seeding the group controls *)

(** The [group_state] argument of [setCmodeGroup] is a reference to a
    constant [GroupState].  Production controls are written through
    [wellState]; when the caller passes the well state's own group state
    the reference sees these writes, when it passes another object it does
    not. *)
Inductive GroupStateRef : Type :=
| group_state_of_wellState
| group_state_object (gs : GroupState).

Definition deref_group_state (r : GroupStateRef) (wellState : WellState.t) : GroupState :=
  match r with
  | group_state_of_wellState => WellState.groupState wellState
  | group_state_object gs => gs
  end.

(** The statements of [setCmodeGroup] for [group] itself, in their order.
    First: use NONE as default injection control. *)
Definition seed_default_injection (group : Group) (wellState : WellState.t) : WellState.t :=
  foldl (fun wellState phase =>
    if negb (WellState.hasInjectionGroupControl wellState phase (Group.name group))
    then WellState.setCurrentInjectionGroupControl wellState phase (Group.name group)
           Group.InjectionCMode.NONE
    else wellState) wellState all_phases.

(** Use NONE as default production control, when [group_state] has none. *)
Definition seed_default_production (group : Group) (group_state : GroupStateRef)
    (wellState : WellState.t) : WellState.t :=
  if negb (GroupState.has_production_control
             (deref_group_state group_state wellState) (Group.name group))
  then WellState.setCurrentProductionGroupControl wellState (Group.name group)
         Group.ProductionCMode.NONE
  else wellState.

(** The injection controls declared at the report step. *)
Definition seed_injection_event (group : Group) (schedule : Schedule)
    (summaryState : SummaryState) (reportStepIdx : nat) (wellState : WellState.t)
    : WellState.t :=
  let events := Schedule.wellgroup_events (Schedule.at_step schedule reportStepIdx) in
  if Group.isInjectionGroup group
     && events (Group.name group) ScheduleEvents.GROUP_INJECTION_UPDATE
  then foldl (fun wellState phase =>
         if negb (Group.hasInjectionControl group phase) then wellState
         else
           let controls := Group.injectionControls group phase summaryState in
           WellState.setCurrentInjectionGroupControl wellState phase (Group.name group)
             (Group.inj_cmode controls)) wellState all_phases
  else wellState.

(** The production controls declared at the report step. *)
Definition seed_production_event (group : Group) (schedule : Schedule)
    (summaryState : SummaryState) (reportStepIdx : nat) (wellState : WellState.t)
    : WellState.t :=
  let events := Schedule.wellgroup_events (Schedule.at_step schedule reportStepIdx) in
  if Group.isProductionGroup group
     && events (Group.name group) ScheduleEvents.GROUP_PRODUCTION_UPDATE
  then
    let controls := Group.productionControls group summaryState in
    WellState.setCurrentProductionGroupControl wellState (Group.name group)
      (Group.cmode controls)
  else wellState.

(** A gas-sale declaration makes SALE the injection control for gas. *)
Definition seed_gas_sale (group : Group) (schedule : Schedule) (reportStepIdx : nat)
    (wellState : WellState.t) : WellState.t :=
  if bool_decide (is_Some (Schedule.gconsale (Schedule.at_step schedule reportStepIdx)
                             !! Group.name group))
  then WellState.setCurrentInjectionGroupControl wellState GAS (Group.name group)
         Group.InjectionCMode.SALE
  else wellState.

Definition seed_group_controls (group : Group) (schedule : Schedule)
    (summaryState : SummaryState) (reportStepIdx : nat) (group_state : GroupStateRef)
    (wellState : WellState.t) : WellState.t :=
  let wellState := seed_default_injection group wellState in
  let wellState := seed_default_production group group_state wellState in
  let wellState := seed_injection_event group schedule summaryState reportStepIdx wellState in
  let wellState := seed_production_event group schedule summaryState reportStepIdx wellState in
  seed_gas_sale group schedule reportStepIdx wellState.

Fixpoint setCmodeGroup (fuel : nat) (group : Group) (schedule : Schedule)
    (summaryState : SummaryState) (reportStepIdx : nat)
    (wellState : WellState.t) (group_state : GroupStateRef) : res WellState.t :=
  match fuel with
  | O => OutOfFuel
  | S fuel =>
    wellState ← for_each (Group.groups group) (fun groupName wellState =>
      sub ← Schedule.getGroup schedule groupName reportStepIdx;
      setCmodeGroup fuel sub schedule summaryState reportStepIdx wellState group_state)
      wellState;
    Ok (seed_group_controls group schedule summaryState reportStepIdx group_state wellState)
  end.

(** ** Rate aggregation *)

(** The body of the loop over the wells of a group in
    [sumWellPhaseRates]. *)
Definition add_well_rate (rates : list double) (schedule : Schedule)
    (wellState : WellState.t) (reportStepIdx : nat) (phasePos : nat) (injector : bool)
    (wellName : string) (rate : double) : res double :=
  match WellState.wellMap wellState !! wellName with
  | None => Ok rate (* the well is not found *)
  | Some it =>
    let well_index := it.1.1 in
    if negb (WellState.wellIsOwned wellState well_index wellName)
    then Ok rate (* Only sum once *)
    else
      wellEcl ← Schedule.getWell schedule wellName reportStepIdx;
      (* only count producers or injectors *)
      if (Well.isProducer wellEcl && injector)
         || (Well.isInjector wellEcl && negb injector) then Ok rate
      else if Well.is_SHUT (Well.getStatus wellEcl) then Ok rate
      else
        let factor := Well.getEfficiencyFactor wellEcl in
        let wellrate_index := (well_index * WellState.numPhases wellState)%nat in
        if injector
        then Ok (rate + factor * vec_at rates (wellrate_index + phasePos))
        else Ok (rate - factor * vec_at rates (wellrate_index + phasePos))
  end.

Fixpoint sumWellPhaseRates (fuel : nat) (rates : list double) (group : Group)
    (schedule : Schedule) (wellState : WellState.t) (reportStepIdx : nat)
    (phasePos : nat) (injector : bool) : res double :=
  match fuel with
  | O => OutOfFuel
  | S fuel =>
    rate ← for_each (Group.groups group) (fun groupName rate =>
      groupTmp ← Schedule.getGroup schedule groupName reportStepIdx;
      sub ← sumWellPhaseRates fuel rates groupTmp schedule wellState reportStepIdx
              phasePos injector;
      Ok (rate + sub)) 0;
    rate ← for_each (Group.wells group)
             (add_well_rate rates schedule wellState reportStepIdx phasePos injector) rate;
    let gefac := Group.getGroupEfficiencyFactor group in
    Ok (gefac * rate)
  end.

Definition sumWellRates (fuel : nat) (group : Group) (schedule : Schedule)
    (wellState : WellState.t) (reportStepIdx : nat) (phasePos : nat)
    (injector : bool) : res double :=
  sumWellPhaseRates fuel (WellState.wellRates wellState) group schedule wellState
    reportStepIdx phasePos injector.

Definition sumWellResRates (fuel : nat) (group : Group) (schedule : Schedule)
    (wellState : WellState.t) (reportStepIdx : nat) (phasePos : nat)
    (injector : bool) : res double :=
  sumWellPhaseRates fuel (WellState.wellReservoirRates wellState) group schedule
    wellState reportStepIdx phasePos injector.

(** ** Guide rates of injection groups *)

(** The body of the loop over the phases in
    [updateGuideRatesForInjectionGroups]. *)
Definition update_phase_guide_rate (group : Group) (summaryState : SummaryState)
    (pu : PhaseUsage) (reportStepIdx : nat) (wellState : WellState.t)
    (phase : Phase) (guideRate : GuideRate) : res GuideRate :=
  if negb (Group.hasInjectionControl group phase) then Ok guideRate
  else
    let controls := Group.injectionControls group phase summaryState in
    guideRateValue ←
      match Group.guide_rate_def controls with
      | Group.GuideRateInjTarget.RATE => Ok 0
      | Group.GuideRateInjTarget.VOID =>
          WellState.currentInjectionVREPRates wellState (Group.name group)
      | Group.GuideRateInjTarget.NETV =>
          guideRateValue ← WellState.currentInjectionVREPRates wellState (Group.name group);
          injRES ← WellState.currentInjectionGroupReservoirRates wellState (Group.name group);
          let guideRateValue :=
            if negb (bool_decide (phase = OIL)) && phase_used pu BlackoilPhases.Liquid
            then guideRateValue - vec_at injRES (phase_pos pu BlackoilPhases.Liquid)
            else guideRateValue in
          let guideRateValue :=
            if negb (bool_decide (phase = GAS)) && phase_used pu BlackoilPhases.Vapour
            then guideRateValue - vec_at injRES (phase_pos pu BlackoilPhases.Vapour)
            else guideRateValue in
          let guideRateValue :=
            if negb (bool_decide (phase = WATER)) && phase_used pu BlackoilPhases.Aqua
            then guideRateValue - vec_at injRES (phase_pos pu BlackoilPhases.Aqua)
            else guideRateValue in
          Ok guideRateValue
      | Group.GuideRateInjTarget.RESV =>
          Throw (runtime_error
                   ("GUIDE PHASE RESV not implemented. Group " ++ Group.name group))
      | Group.GuideRateInjTarget.POTN => Ok 0
      | Group.GuideRateInjTarget.NO_GUIDE_RATE => Ok 0
      end;
    Ok (GuideRate.compute guideRate (Group.name group) phase reportStepIdx guideRateValue).

Fixpoint updateGuideRatesForInjectionGroups (fuel : nat) (group : Group)
    (schedule : Schedule) (summaryState : SummaryState) (pu : PhaseUsage)
    (reportStepIdx : nat) (wellState : WellState.t) (guideRate : GuideRate)
    : res GuideRate :=
  match fuel with
  | O => OutOfFuel
  | S fuel =>
    guideRate ← for_each (Group.groups group) (fun groupName guideRate =>
      groupTmp ← Schedule.getGroup schedule groupName reportStepIdx;
      updateGuideRatesForInjectionGroups fuel groupTmp schedule summaryState pu
        reportStepIdx wellState guideRate) guideRate;
    for_each all_phases
      (update_phase_guide_rate group summaryState pu reportStepIdx wellState) guideRate
  end.

(** ** Counting the wells under group control *)

(** Whether a child group is counted: it is the always-included child, or
    its control is FLD or NONE.  ([groupControlledWells] and
    [FractionCalculator::guideRateSum] have the same test.) *)
Definition child_group_included (well_state : WellState.t)
    (always_included_child : string) (is_production_group : bool)
    (injection_phase : Phase) (child_group : string) : res bool :=
  let included := String.eqb child_group always_included_child in
  if is_production_group then
    ctrl ← WellState.currentProductionGroupControl well_state child_group;
    Ok (included || Group.prod_is_FLD_or_NONE ctrl)
  else
    ctrl ← WellState.currentInjectionGroupControl well_state injection_phase child_group;
    Ok (included || Group.inj_is_FLD_or_NONE ctrl).

(** Whether a child well is counted: it is the always-included child, or it
    is under group control. *)
Definition child_well_included (well_state : WellState.t)
    (always_included_child : string) (is_production_group : bool)
    (child_well : string) : bool :=
  let included := String.eqb child_well always_included_child in
  if is_production_group
  then included || WellState.isProductionGrup well_state child_well
  else included || WellState.isInjectionGrup well_state child_well.

Fixpoint groupControlledWells (fuel : nat) (schedule : Schedule)
    (well_state : WellState.t) (report_step : nat) (group_name : string)
    (always_included_child : string) (is_production_group : bool)
    (injection_phase : Phase) : res nat :=
  match fuel with
  | O => OutOfFuel
  | S fuel =>
    group ← Schedule.getGroup schedule group_name report_step;
    num_wells ← for_each (Group.groups group) (fun child_group num_wells =>
      included ← child_group_included well_state always_included_child
                   is_production_group injection_phase child_group;
      if (included : bool) then
        n ← groupControlledWells fuel schedule well_state report_step child_group
              always_included_child is_production_group injection_phase;
        Ok (num_wells + n)%nat
      else Ok num_wells) 0%nat;
    Ok (foldl (fun num_wells child_well =>
          if child_well_included well_state always_included_child is_production_group
               child_well
          then S num_wells else num_wells) num_wells (Group.wells group))
  end.

(** ** Group target reductions *)

(** The position of an injection phase in the rate vectors, when the phase
    is active ([else continue] in the source). *)
Definition injection_phasePos (pu : PhaseUsage) (phase : Phase) : option nat :=
  if bool_decide (phase = GAS) && phase_used pu BlackoilPhases.Vapour
  then Some (phase_pos pu BlackoilPhases.Vapour)
  else if bool_decide (phase = OIL) && phase_used pu BlackoilPhases.Liquid
  then Some (phase_pos pu BlackoilPhases.Liquid)
  else if bool_decide (phase = WATER) && phase_used pu BlackoilPhases.Aqua
  then Some (phase_pos pu BlackoilPhases.Aqua)
  else None.

(** The contribution of a sub group to the reduction of its parent, once
    the reduction of the sub group is known ("accumulate group contribution
    from sub group"). *)
Definition accumulate_subgroup (fuel : nat) (schedule : Schedule) (reportStepIdx : nat)
    (isInjector : bool) (pu : PhaseUsage) (guide_rate : GuideRate)
    (wellStateNupcol : WellState.t) (wellState : WellState.t) (np : nat)
    (subGroupName : string) (subGroup : Group) (subGroupTargetReduction : list double)
    (groupTargetReduction : list double) : res (list double) :=
  if isInjector then
    for_each all_phases (fun phase groupTargetReduction =>
      currentGroupControl ←
        WellState.currentInjectionGroupControl wellState phase subGroupName;
      match injection_phasePos pu phase with
      | None => Ok groupTargetReduction
      | Some phasePos =>
        if negb (Group.inj_is_FLD_or_NONE currentGroupControl) then
          (* Subgroup is under individual control. *)
          r ← sumWellRates fuel subGroup schedule wellStateNupcol reportStepIdx
                phasePos isInjector;
          Ok (vec_add_at groupTargetReduction phasePos r)
        else
          Ok (vec_add_at groupTargetReduction phasePos
                (vec_at subGroupTargetReduction phasePos))
      end) groupTargetReduction
  else
    currentGroupControl ← WellState.currentProductionGroupControl wellState subGroupName;
    let individual_control := negb (Group.prod_is_FLD_or_NONE currentGroupControl) in
    num_group_controlled_wells ←
      groupControlledWells fuel schedule wellStateNupcol reportStepIdx subGroupName ""
        (negb isInjector) OIL;
    if individual_control || Nat.eqb num_group_controlled_wells 0 then
      for_each (seq 0 np) (fun phase groupTargetReduction =>
        r ← sumWellRates fuel subGroup schedule wellStateNupcol reportStepIdx
              phase isInjector;
        Ok (vec_add_at groupTargetReduction phase r)) groupTargetReduction
    else
      (* The subgroup may participate in group control. *)
      if negb (GuideRate.has guide_rate subGroupName) then
        (* Accumulate from this subgroup only if no group guide rate is set for it. *)
        Ok (foldl (fun groupTargetReduction phase =>
                     vec_add_at groupTargetReduction phase
                       (vec_at subGroupTargetReduction phase))
                  groupTargetReduction (seq 0 np))
      else Ok groupTargetReduction.

(** The body of the loop over the wells of a group in
    [updateGroupTargetReduction]: the contribution of a well that is not
    under group control. *)
Definition add_well_reduction (schedule : Schedule) (reportStepIdx : nat)
    (isInjector : bool) (wellStateNupcol : WellState.t) (wellState : WellState.t)
    (np : nat) (wellName : string) (groupTargetReduction : list double)
    : res (list double) :=
  wellTmp ← Schedule.getWell schedule wellName reportStepIdx;
  if Well.isProducer wellTmp && isInjector then Ok groupTargetReduction
  else if Well.isInjector wellTmp && negb isInjector then Ok groupTargetReduction
  else if Well.is_SHUT (Well.getStatus wellTmp) then Ok groupTargetReduction
  else
    match WellState.wellMap wellState !! wellName with
    | None => Ok groupTargetReduction (* the well is not found *)
    | Some it =>
      let well_index := it.1.1 in
      if negb (WellState.wellIsOwned wellState well_index wellName)
      then Ok groupTargetReduction (* Only sum once *)
      else
        let wellrate_index := (well_index * WellState.numPhases wellState)%nat in
        let efficiency := Well.getEfficiencyFactor wellTmp in
        (* add contribution from wells not under group control *)
        if isInjector then
          if negb (Well.inj_is_GRUP
                     (default Well.InjectorCMode.CMODE_UNDEFINED
                        (WellState.currentInjectionControls wellState !! well_index)))
          then Ok (foldl (fun groupTargetReduction phase =>
                     vec_add_at groupTargetReduction phase
                       (vec_at (WellState.wellRates wellStateNupcol) (wellrate_index + phase)
                        * efficiency)) groupTargetReduction (seq 0 np))
          else Ok groupTargetReduction
        else
          if negb (Well.prod_is_GRUP
                     (default Well.ProducerCMode.CMODE_UNDEFINED
                        (WellState.currentProductionControls wellState !! well_index)))
          then Ok (foldl (fun groupTargetReduction phase =>
                     vec_add_at groupTargetReduction phase
                       (- (vec_at (WellState.wellRates wellStateNupcol) (wellrate_index + phase)
                           * efficiency))) groupTargetReduction (seq 0 np))
          else Ok groupTargetReduction
    end.

(** [setCurrentInjectionGroupReductionRates] for injectors,
    [setCurrentProductionGroupReductionRates] for producers. *)
Definition setCurrentGroupReductionRates (isInjector : bool) (wellState : WellState.t)
    (groupName : string) (target : list double) : WellState.t :=
  if isInjector
  then WellState.setCurrentInjectionGroupReductionRates wellState groupName target
  else WellState.setCurrentProductionGroupReductionRates wellState groupName target.

Fixpoint updateGroupTargetReduction (fuel : nat) (group : Group) (schedule : Schedule)
    (reportStepIdx : nat) (isInjector : bool) (pu : PhaseUsage) (guide_rate : GuideRate)
    (wellStateNupcol : WellState.t) (wellState : WellState.t)
    (groupTargetReduction : list double) : res (WellState.t * list double) :=
  match fuel with
  | O => OutOfFuel
  | S fuel =>
    let np := WellState.numPhases wellState in
    '(wellState, groupTargetReduction) ←
      for_each (Group.groups group) (fun subGroupName '(wellState, groupTargetReduction) =>
        let subGroupTargetReduction := vec_zero np in
        subGroup ← Schedule.getGroup schedule subGroupName reportStepIdx;
        '(wellState, subGroupTargetReduction) ←
          updateGroupTargetReduction fuel subGroup schedule reportStepIdx isInjector pu
            guide_rate wellStateNupcol wellState subGroupTargetReduction;
        groupTargetReduction ←
          accumulate_subgroup fuel schedule reportStepIdx isInjector pu guide_rate
            wellStateNupcol wellState np subGroupName subGroup subGroupTargetReduction
            groupTargetReduction;
        Ok (wellState, groupTargetReduction))
        (wellState, groupTargetReduction);
    groupTargetReduction ←
      for_each (Group.wells group)
        (add_well_reduction schedule reportStepIdx isInjector wellStateNupcol wellState np)
        groupTargetReduction;
    let groupEfficiency := Group.getGroupEfficiencyFactor group in
    let groupTargetReduction := map (fun elem => elem * groupEfficiency) groupTargetReduction in
    Ok (setCurrentGroupReductionRates isInjector wellState (Group.name group)
          groupTargetReduction, groupTargetReduction)
  end.

(** ** Derived group rates *)

Fixpoint updateVREPForGroups (fuel : nat) (group : Group) (schedule : Schedule)
    (reportStepIdx : nat) (wellStateNupcol : WellState.t) (wellState : WellState.t)
    : res WellState.t :=
  match fuel with
  | O => OutOfFuel
  | S fuel =>
    wellState ← for_each (Group.groups group) (fun groupName wellState =>
      groupTmp ← Schedule.getGroup schedule groupName reportStepIdx;
      updateVREPForGroups fuel groupTmp schedule reportStepIdx wellStateNupcol wellState)
      wellState;
    let np := WellState.numPhases wellState in
    resv ← for_each (seq 0 np) (fun phase resv =>
      r ← sumWellPhaseRates (S fuel) (WellState.wellReservoirRates wellStateNupcol) group
            schedule wellState reportStepIdx phase false;
      Ok (resv + r)) 0;
    Ok (WellState.setCurrentInjectionVREPRates wellState (Group.name group) resv)
  end.

(** [resv[phase] = x] for [phase] from [0] to [np - 1] on a vector of
    length [np]: the loop builds the vector entry by entry. *)
Definition fill_phases (np : nat) (entry : nat -> res double) : res (list double) :=
  for_each (seq 0 np) (fun phase v => x ← entry phase; Ok (<[phase := x]> v)) (vec_zero np).

Fixpoint updateReservoirRatesInjectionGroups (fuel : nat) (group : Group)
    (schedule : Schedule) (reportStepIdx : nat) (wellStateNupcol : WellState.t)
    (wellState : WellState.t) : res WellState.t :=
  match fuel with
  | O => OutOfFuel
  | S fuel =>
    wellState ← for_each (Group.groups group) (fun groupName wellState =>
      groupTmp ← Schedule.getGroup schedule groupName reportStepIdx;
      updateReservoirRatesInjectionGroups fuel groupTmp schedule reportStepIdx
        wellStateNupcol wellState) wellState;
    let np := WellState.numPhases wellState in
    resv ← fill_phases np (fun phase =>
      sumWellPhaseRates (S fuel) (WellState.wellReservoirRates wellStateNupcol) group
        schedule wellState reportStepIdx phase true);
    Ok (WellState.setCurrentInjectionGroupReservoirRates wellState (Group.name group) resv)
  end.

(** The body of the loop over the wells of a group in [updateWellRates]. *)
Definition update_well_rate (schedule : Schedule) (reportStepIdx : nat)
    (wellStateNupcol : WellState.t) (np : nat) (wellName : string)
    (wellState : WellState.t) : res WellState.t :=
  rates ←
    match WellState.wellMap wellState !! wellName with
    | Some it => (* the well is found on this node *)
      let well_index := it.1.1 in
      wellTmp ← Schedule.getWell schedule wellName reportStepIdx;
      (* production wellRates are negative. The users of currentWellRates
         use the convention that production and injection rates are
         positive. *)
      let sign : double := if negb (Well.isInjector wellTmp) then - 1 else 1 in
      fill_phases np (fun phase =>
        Ok (sign * vec_at (WellState.wellRates wellStateNupcol) (well_index * np + phase)))
    | None => Ok (vec_zero np)
    end;
  Ok (WellState.setCurrentWellRates wellState wellName rates).

Fixpoint updateWellRates (fuel : nat) (group : Group) (schedule : Schedule)
    (reportStepIdx : nat) (wellStateNupcol : WellState.t) (wellState : WellState.t)
    : res WellState.t :=
  match fuel with
  | O => OutOfFuel
  | S fuel =>
    wellState ← for_each (Group.groups group) (fun groupName wellState =>
      groupTmp ← Schedule.getGroup schedule groupName reportStepIdx;
      updateWellRates fuel groupTmp schedule reportStepIdx wellStateNupcol wellState)
      wellState;
    let np := WellState.numPhases wellState in
    for_each (Group.wells group)
      (update_well_rate schedule reportStepIdx wellStateNupcol np) wellState
  end.

Fixpoint updateGroupProductionRates (fuel : nat) (group : Group) (schedule : Schedule)
    (reportStepIdx : nat) (wellStateNupcol : WellState.t) (wellState : WellState.t)
    : res WellState.t :=
  match fuel with
  | O => OutOfFuel
  | S fuel =>
    wellState ← for_each (Group.groups group) (fun groupName wellState =>
      groupTmp ← Schedule.getGroup schedule groupName reportStepIdx;
      updateGroupProductionRates fuel groupTmp schedule reportStepIdx wellStateNupcol
        wellState) wellState;
    let np := WellState.numPhases wellState in
    rates ← fill_phases np (fun phase =>
      sumWellPhaseRates (S fuel) (WellState.wellRates wellStateNupcol) group schedule
        wellState reportStepIdx phase false);
    Ok (WellState.setCurrentProductionGroupRates wellState (Group.name group) rates)
  end.

Fixpoint updateREINForGroups (fuel : nat) (group : Group) (schedule : Schedule)
    (reportStepIdx : nat) (pu : PhaseUsage) (st : SummaryState)
    (wellStateNupcol : WellState.t) (wellState : WellState.t) : res WellState.t :=
  match fuel with
  | O => OutOfFuel
  | S fuel =>
    let np := WellState.numPhases wellState in
    wellState ← for_each (Group.groups group) (fun groupName wellState =>
      groupTmp ← Schedule.getGroup schedule groupName reportStepIdx;
      updateREINForGroups fuel groupTmp schedule reportStepIdx pu st wellStateNupcol
        wellState) wellState;
    rein ← fill_phases np (fun phase =>
      sumWellPhaseRates (S fuel) (WellState.wellRates wellStateNupcol) group schedule
        wellState reportStepIdx phase false);
    (* add import rate and subtract consumption rate for group for gas *)
    let rein :=
      match Schedule.gconsump (Schedule.at_step schedule reportStepIdx) !! Group.name group with
      | Some get =>
        let gconsump := get st in
        if phase_used pu BlackoilPhases.Vapour then
          let rein := vec_add_at rein (phase_pos pu BlackoilPhases.Vapour)
                        (GConSump.import_rate gconsump) in
          vec_add_at rein (phase_pos pu BlackoilPhases.Vapour)
            (- GConSump.consumption_rate gconsump)
        else rein
      | None => rein
      end in
    Ok (WellState.setCurrentInjectionREINRates wellState (Group.name group) rein)
  end.

(** ** The network pressures *)

Module Network.
Record Branch : Type := {
  downtree_node : string;
  uptree_node : string;
  vfp_table : option nat
}.

Record Node : Type := {
  name : string;
  terminal_pressure : option double;
  add_gas_lift_gas : bool
}.

Record ExtNetwork : Type := {
  active : bool;
  root_name : string;
  nodes : gmap string Node;
  downtree_branches : string -> list Branch;
  uptree_branch : string -> option Branch
}.

Definition node (network : ExtNetwork) (name : string) : res Node :=
  match nodes network !! name with
  | Some n => Ok n
  | None => Throw (invalid_argument ("No such node: " ++ name))
  end.

Definition root (network : ExtNetwork) : res Node := node network (root_name network).
End Network.

(** The production VFP tables: [bhp(table_id, aqua, liquid, vapour, thp, alq)]. *)
Record VFPProdProperties : Type := {
  bhp : nat -> double -> double -> double -> double -> double -> double
}.

(** [std::set<std::string>::insert]: the set is kept as a strictly
    increasing list, the order in which a range-based [for] visits it. *)
Fixpoint set_insert (x : string) (s : list string) : list string :=
  match s with
  | [] => [x]
  | y :: s' =>
    match String.compare x y with
    | Lt => x :: s
    | Eq => s
    | Gt => y :: set_insert x s'
    end
  end.

(** [m[k]] on a [std::map]: a missing key is first inserted with a
    value-initialised entry. *)
Definition map_index {V : Type} (dflt : V) (m : gmap string V) (k : string)
    : V * gmap string V :=
  match m !! k with
  | Some v => (v, m)
  | None => (dflt, <[k := dflt]> m)
  end.

(** The first loop: all nodes in an order where a child comes after its
    parent, and the leaves.  [children] is the stack, its top first. *)
Fixpoint network_nodes (fuel : nat) (network : Network.ExtNetwork)
    (children : list string) (leaf_nodes : list string)
    (root_to_child_nodes : list string) : res (list string * list string) :=
  match children with
  | [] => Ok (leaf_nodes, root_to_child_nodes)
  | node :: children =>
    match fuel with
    | O => OutOfFuel
    | S fuel =>
      let root_to_child_nodes := (root_to_child_nodes ++ [node])%list in
      let branches := Network.downtree_branches network node in
      let leaf_nodes :=
        match branches with
        | [] => set_insert node leaf_nodes
        | _ => leaf_nodes
        end in
      let children :=
        foldl (fun children branch => Network.downtree_node branch :: children)
          children branches in
      network_nodes fuel network children leaf_nodes root_to_child_nodes
    end
  end.

(** One turn of the last loop: the pressure of [node], given the pressures
    computed so far. *)
Definition node_pressure_step (network : Network.ExtNetwork)
    (vfp_prod_props : VFPProdProperties)
    (node_inflows : gmap string (list double))
    (node : string) (node_pressures : gmap string double) : res (gmap string double) :=
  n ← Network.node network node;
  match Network.terminal_pressure n with
  | Some press => Ok (<[node := press]> node_pressures)
  | None =>
    match Network.uptree_branch network node with
    | None => Throw (logic_error ("No uptree branch for node " ++ node))
    | Some upbranch =>
      let '(up_press, node_pressures) :=
        map_index 0 node_pressures (Network.uptree_node upbranch) in
      match Network.vfp_table upbranch with
      | Some vfp_table =>
        (* The rates are here positive, but the VFP code expects the
           convention that production rates are negative, so we must
           take a copy and flip signs. *)
        let rates := map (fun r => r * - 1) (map_index [] node_inflows node).1 in
        let alq := 0 in
        Ok (<[node := bhp vfp_prod_props vfp_table
                        (vec_at rates (BlackoilPhases.index BlackoilPhases.Aqua))
                        (vec_at rates (BlackoilPhases.index BlackoilPhases.Liquid))
                        (vec_at rates (BlackoilPhases.index BlackoilPhases.Vapour))
                        up_press alq]> node_pressures)
      | None =>
        (* Table number specified as 9999 in the deck, no pressure loss. *)
        Ok (<[node := up_press]> node_pressures)
      end
    end
  end.

(** One turn of the accumulation loop: the inflow of [node] is added to
    the inflow of the node up its branch. *)
Definition accumulate_step (network : Network.ExtNetwork) (node : string)
    (node_inflows : gmap string (list double)) : gmap string (list double) :=
  match Network.uptree_branch network node with
  | Some upbranch =>
    let '(up, node_inflows) :=
      map_index [] node_inflows (Network.uptree_node upbranch) in
    let '(down, node_inflows) := map_index [] node_inflows node in
    let up :=
      match up with
      | [] => down
      | _ => foldl (fun up ii => vec_add_at up ii (vec_at down ii)) up (seq 0 (length up))
      end in
    <[Network.uptree_node upbranch := up]> node_inflows
  | None => node_inflows
  end.

Definition computeNetworkPressures (fuel : nat) (network : Network.ExtNetwork)
    (well_state : WellState.t) (vfp_prod_props : VFPProdProperties)
    (schedule : Schedule) (report_time_step : nat) : res (gmap string double) :=
  if negb (Network.active network) then Ok ∅
  else
    root ← Network.root network;
    '(leaf_nodes, root_to_child_nodes) ←
      network_nodes fuel network [Network.name root] [] [];
    (* Starting with the leaf nodes of the network, get the flow rates
       from the corresponding groups. *)
    node_inflows ← for_each leaf_nodes (fun node node_inflows =>
      rates ← WellState.currentProductionGroupRates well_state node;
      let node_inflows := <[node := rates]> node_inflows in
      (* Add the ALQ amounts to the gas rates if requested. *)
      n ← Network.node network node;
      if Network.add_gas_lift_gas n then
        group ← Schedule.getGroup schedule node report_time_step;
        Ok (foldl (fun node_inflows wellname =>
              alter (fun v => vec_add_at v (BlackoilPhases.index BlackoilPhases.Vapour)
                                (WellState.getALQ well_state wellname)) node node_inflows)
            node_inflows (Group.wells group))
      else Ok node_inflows) ∅;
    (* Accumulate in the network, towards the roots. *)
    let child_to_root_nodes := rev root_to_child_nodes in
    let node_inflows :=
      foldl (fun node_inflows node => accumulate_step network node node_inflows)
        node_inflows child_to_root_nodes in
    (* Going the other way (from roots to leafs), calculate the pressure
       at each node using VFP tables and rates. *)
    for_each root_to_child_nodes
      (node_pressure_step network vfp_prod_props node_inflows) ∅.

(** ** Rate vectors for the guide-rate registry *)

Definition getGuideRateVector (rates : list double) (pu : PhaseUsage) : GuideRate.RateVector :=
  let oilRate :=
    if phase_used pu BlackoilPhases.Liquid
    then vec_at rates (phase_pos pu BlackoilPhases.Liquid) else 0 in
  let gasRate :=
    if phase_used pu BlackoilPhases.Vapour
    then vec_at rates (phase_pos pu BlackoilPhases.Vapour) else 0 in
  let waterRate :=
    if phase_used pu BlackoilPhases.Aqua
    then vec_at rates (phase_pos pu BlackoilPhases.Aqua) else 0 in
  {| GuideRate.oil_rat := oilRate; GuideRate.gas_rat := gasRate;
     GuideRate.wat_rat := waterRate |}.

Definition getWellRateVector (well_state : WellState.t) (pu : PhaseUsage) (name : string)
    : res GuideRate.RateVector :=
  rates ← WellState.currentWellRates well_state name;
  Ok (getGuideRateVector rates pu).

Definition getProductionGroupRateVector (well_state : WellState.t) (pu : PhaseUsage)
    (group_name : string) : res GuideRate.RateVector :=
  rates ← WellState.currentProductionGroupRates well_state group_name;
  Ok (getGuideRateVector rates pu).

(** ** The fraction calculator *)

Module FractionCalculator.
Record t : Type := {
  schedule_ : Schedule;
  summary_state_ : SummaryState;
  well_state_ : WellState.t;
  report_step_ : nat;
  guide_rate_ : GuideRate;
  target_ : GuideRateModel.Target;
  pu_ : PhaseUsage;
  is_producer_ : bool;
  injection_phase_ : Phase
}.

Definition guide_rate_epsilon : double := dbl 1 1000000000000.

Definition parent (fc : t) (name : string) : res string :=
  if Schedule.hasWell_any (schedule_ fc) name then
    w ← Schedule.getWell (schedule_ fc) name (report_step_ fc);
    Ok (Well.groupName w)
  else
    g ← Schedule.getGroup (schedule_ fc) name (report_step_ fc);
    Ok (Group.parent g).

Definition groupControlledWells (fuel : nat) (fc : t) (group_name : string)
    (always_included_child : string) : res nat :=
  groupControlledWells fuel (schedule_ fc) (well_state_ fc) (report_step_ fc) group_name
    always_included_child (is_producer_ fc) (injection_phase_ fc).

Definition getGroupRateVector (fc : t) (group_name : string) : res GuideRate.RateVector :=
  getProductionGroupRateVector (well_state_ fc) (pu_ fc) group_name.

(** The body of [FractionCalculator::guideRate].  The member function and
    [guideRateSum] call each other; [guideRateSum_rec] stands for the call
    back into [guideRateSum], so that the recursion budget is counted by
    [guideRateSum] alone, once per level of the group tree. *)
Definition guideRate_body (fuel : nat) (fc : t)
    (guideRateSum_rec : Group -> string -> res double)
    (name : string) (always_included_child : string) : res double :=
  if Schedule.hasWell (schedule_ fc) name (report_step_ fc) then
    rv ← getWellRateVector (well_state_ fc) (pu_ fc) name;
    Ok (GuideRate.get (guide_rate_ fc) name (target_ fc) rv)
  else
    n ← groupControlledWells fuel fc name always_included_child;
    if Nat.ltb 0 n then
      if is_producer_ fc && GuideRate.has (guide_rate_ fc) name then
        rv ← getGroupRateVector fc name;
        Ok (GuideRate.get (guide_rate_ fc) name (target_ fc) rv)
      else if negb (is_producer_ fc)
              && GuideRate.has_inj (guide_rate_ fc) name (injection_phase_ fc) then
        GuideRate.get_inj (guide_rate_ fc) name (injection_phase_ fc)
      else
        (* We are a group, with default guide rate.
           Compute guide rate by accumulating our children's guide rates. *)
        group ← Schedule.getGroup (schedule_ fc) name (report_step_ fc);
        guideRateSum_rec group always_included_child
    else
      (* No group-controlled subordinate wells. *)
      Ok 0.

Fixpoint guideRateSum (fuel : nat) (fc : t) (group : Group)
    (always_included_child : string) : res double :=
  match fuel with
  | O => OutOfFuel
  | S fuel =>
    let guideRate := guideRate_body fuel fc (guideRateSum fuel fc) in
    total_guide_rate ← for_each (Group.groups group) (fun child_group total_guide_rate =>
      included ← child_group_included (well_state_ fc) always_included_child
                   (is_producer_ fc) (injection_phase_ fc) child_group;
      if (included : bool) then
        g ← guideRate child_group always_included_child;
        Ok (total_guide_rate + g)
      else Ok total_guide_rate) 0;
    for_each (Group.wells group) (fun child_well total_guide_rate =>
      if child_well_included (well_state_ fc) always_included_child (is_producer_ fc)
           child_well
      then
        g ← guideRate child_well always_included_child;
        Ok (total_guide_rate + g)
      else Ok total_guide_rate) total_guide_rate
  end.

Definition guideRate (fuel : nat) (fc : t) (name : string)
    (always_included_child : string) : res double :=
  guideRate_body fuel fc (guideRateSum fuel fc) name always_included_child.

Definition localFraction (fuel : nat) (fc : t) (name : string)
    (always_included_child : string) : res double :=
  my_guide_rate ← guideRate fuel fc name always_included_child;
  parent_name ← parent fc name;
  parent_group ← Schedule.getGroup (schedule_ fc) parent_name (report_step_ fc);
  total_guide_rate ← guideRateSum fuel fc parent_group always_included_child;
  Ok (if Qclt_le_dec guide_rate_epsilon total_guide_rate
      then my_guide_rate / total_guide_rate
      else 0).

(** The condition of the [assert] in [localFraction],
    [total_guide_rate >= my_guide_rate], at the same call: a build with
    assertions stops there when it is [false]. *)
Definition localFraction_assertion (fuel : nat) (fc : t) (name : string)
    (always_included_child : string) : res bool :=
  my_guide_rate ← guideRate fuel fc name always_included_child;
  parent_name ← parent fc name;
  parent_group ← Schedule.getGroup (schedule_ fc) parent_name (report_step_ fc);
  total_guide_rate ← guideRateSum fuel fc parent_group always_included_child;
  Ok (if Qclt_le_dec total_guide_rate my_guide_rate then false else true).

(** The [while (current != control_group_name)] loop of [fraction];
    [turns] bounds the number of its turns. *)
Fixpoint fraction_loop (turns : nat) (fuel : nat) (fc : t) (name : string)
    (control_group_name : string) (always_include_this : bool)
    (fraction : double) (current : string) : res double :=
  if String.eqb current control_group_name then Ok fraction
  else
    match turns with
    | O => OutOfFuel
    | S turns =>
      f ← localFraction fuel fc current (if always_include_this then name else "");
      let fraction := fraction * f in
      current ← parent fc current;
      fraction_loop turns fuel fc name control_group_name always_include_this
        fraction current
    end.

Definition fraction (fuel : nat) (fc : t) (name : string) (control_group_name : string)
    (always_include_this : bool) : res double :=
  fraction_loop fuel fuel fc name control_group_name always_include_this 1 name.

(** Whether the assertion of [localFraction] holds at every turn of the
    loop of [fraction]. *)
Fixpoint fraction_assertions (turns : nat) (fuel : nat) (fc : t) (name : string)
    (control_group_name : string) (always_include_this : bool) (current : string)
    : res bool :=
  if String.eqb current control_group_name then Ok true
  else
    match turns with
    | O => OutOfFuel
    | S turns =>
      holds ← localFraction_assertion fuel fc current
                (if always_include_this then name else "");
      if (holds : bool) then
        current ← parent fc current;
        fraction_assertions turns fuel fc name control_group_name always_include_this
          current
      else Ok false
    end.
End FractionCalculator.

(** ** The chain of groups from a control group down to a well or group *)

Fixpoint groupChain_loop (turns : nat) (schedule : Schedule) (report_step : nat)
    (top : string) (parent : string) (chain : list string) : res (list string) :=
  if String.eqb parent top then Ok chain
  else
    match turns with
    | O => OutOfFuel
    | S turns =>
      g ← Schedule.getGroup schedule parent report_step;
      let parent := Group.parent g in
      groupChain_loop turns schedule report_step top parent (chain ++ [parent])%list
    end.

Definition groupChainTopBot (fuel : nat) (bottom : string) (top : string)
    (schedule : Schedule) (report_step : nat) : res (list string) :=
  (* Get initial parent, 'bottom' can be a well or a group. *)
  parent ←
    (if Schedule.hasWell schedule bottom report_step then
       w ← Schedule.getWell schedule bottom report_step;
       Ok (Well.groupName w)
     else
       g ← Schedule.getGroup schedule bottom report_step;
       Ok (Group.parent g));
  (* Build the chain from bottom to top. *)
  chain ← groupChain_loop fuel schedule report_step top parent [bottom; parent];
  (* Reverse order and return. *)
  Ok (rev chain).

(** ** The target calculators *)

Module TargetCalculator.
(** The member functions of the class [TargetCalculator] that the
    production checker calls.  The class itself is declared in
    [TargetCalculator.hpp]. *)
Record t : Type := {
  calcModeRateFromRates : list double -> double;
  groupTarget : Group.GroupProductionControls -> double;
  guideTargetMode : GuideRateModel.Target
}.
End TargetCalculator.

Module InjectionTargetCalculator.
(** The member functions of the class [InjectionTargetCalculator] that the
    injection checker calls; [groupTarget] may throw. *)
Record t : Type := {
  calcModeRateFromRates : list double -> double;
  groupTarget : Group.GroupInjectionControls -> res double;
  guideTargetMode : GuideRateModel.Target
}.
End InjectionTargetCalculator.

(** Modelled from the spec: the constructor and the member functions of
    [TargetCalculator] are in [TargetCalculator.hpp], which is not part of
    the sources at hand.  The spec says that, given a control mode and a
    phase-rate vector, the calculator computes one scalar mode rate by
    selecting or combining phase components per mode: the reservoir-volume
    mode sums all phases weighted by the given RESV coefficients, the rate
    modes pick one phase (the liquid mode the sum of oil and water); the
    numeric target is the declared target of the mode, for the gas mode the
    sales-adjusted target when there is one. *)
Definition TargetCalculator_spec (cmode : Group.ProductionCMode.t) (pu : PhaseUsage)
    (resv_coeff : list double) (group_grat_target_from_sales : double)
    : TargetCalculator.t :=
  {| TargetCalculator.calcModeRateFromRates := fun rates =>
       match cmode with
       | Group.ProductionCMode.ORAT => vec_at rates (phase_pos pu BlackoilPhases.Liquid)
       | Group.ProductionCMode.WRAT => vec_at rates (phase_pos pu BlackoilPhases.Aqua)
       | Group.ProductionCMode.GRAT => vec_at rates (phase_pos pu BlackoilPhases.Vapour)
       | Group.ProductionCMode.LRAT =>
           vec_at rates (phase_pos pu BlackoilPhases.Liquid)
           + vec_at rates (phase_pos pu BlackoilPhases.Aqua)
       | Group.ProductionCMode.RESV =>
           foldl (fun mode_rate phase =>
                    if phase_used pu phase
                    then mode_rate + vec_at resv_coeff (phase_pos pu phase)
                                     * vec_at rates (phase_pos pu phase)
                    else mode_rate) 0
                 [BlackoilPhases.Aqua; BlackoilPhases.Liquid; BlackoilPhases.Vapour]
       | _ => vec_at rates 0
       end;
     TargetCalculator.groupTarget := fun ctrl =>
       match cmode with
       | Group.ProductionCMode.ORAT => Group.oil_target ctrl
       | Group.ProductionCMode.WRAT => Group.water_target ctrl
       | Group.ProductionCMode.GRAT =>
           if Qclt_le_dec 0 group_grat_target_from_sales
           then group_grat_target_from_sales
           else Group.gas_target ctrl
       | Group.ProductionCMode.LRAT => Group.liquid_target ctrl
       | Group.ProductionCMode.RESV => Group.resv_target ctrl
       | _ => 0
       end;
     TargetCalculator.guideTargetMode :=
       match cmode with
       | Group.ProductionCMode.ORAT => GuideRateModel.OIL
       | Group.ProductionCMode.WRAT => GuideRateModel.WAT
       | Group.ProductionCMode.GRAT => GuideRateModel.GAS
       | Group.ProductionCMode.LRAT => GuideRateModel.LIQ
       | Group.ProductionCMode.RESV => GuideRateModel.RES
       | _ => GuideRateModel.NONE
       end |}.

(** ** The constraint checkers *)

(** What a checker has found when it returns: either an early
    "unconstrained" return, or the current rate and the target rate from
    which the returned pair is made. *)
Inductive CheckOutcome : Type :=
| Unconstrained
| AgainstTarget (current_rate target_rate : double).

(** The pair that the checker returns: [std::make_pair(false, 1.0)],
    respectively
    [std::make_pair(current_rate > target_rate, target_rate / current_rate)].
    At a zero current rate the quotient of the source is an infinity, with
    the sign of the zero, and the quotient here is [0]; the flag is [false]
    in both. *)
Definition outcome_pair (o : CheckOutcome) : bool * double :=
  match o with
  | Unconstrained => (false, 1)
  | AgainstTarget current_rate target_rate =>
      (bool_decide (target_rate < current_rate), target_rate / current_rate)
  end.

(** The level of the chain at which the current well is part of the local
    reduction. *)
Definition local_reduction_level_of (has_guide_rate : string -> bool)
    (chain : list string) (num_ancestors : nat) : nat :=
  foldl (fun local_reduction_level ii =>
           if Nat.eqb ii 0 || has_guide_rate (default "" (chain !! ii))
           then ii else local_reduction_level) 0%nat (seq 0 num_ancestors).

(** The walk down the chain that both checkers share, from the target of
    the control group to the target of [name].  The checkers differ in the
    reductions they read, in the guide-rate test and in the role for which
    group-controlled wells are counted. *)
Definition chain_target (fuel : nat) (schedule : Schedule) (wellState : WellState.t)
    (reportStepIdx : nat) (fcalc : FractionCalculator.t)
    (has_guide_rate : string -> bool) (localReduction : string -> res double)
    (is_producer : bool) (injectionPhase : Phase)
    (name : string) (chain : list string) (orig_target : double)
    (current_rate : double) (efficiencyFactorInclGroup : double) : res double :=
  (* Because 'name' is the last of the elements, and not an ancestor, we subtract one below. *)
  let num_ancestors := (length chain - 1)%nat in
  let local_reduction_level := local_reduction_level_of has_guide_rate chain num_ancestors in
  for_each (seq 0 num_ancestors) (fun ii target =>
    target ←
      (if Nat.eqb ii 0 || has_guide_rate (default "" (chain !! ii)) then
         (* Apply local reductions only at the control level (top) and for
            levels where we have a specified group guide rate. *)
         r ← localReduction (default "" (chain !! ii));
         let target := target - r in
         (* Add my reduction back at the level where it is included in the local reduction *)
         if Nat.eqb local_reduction_level ii
         then Ok (target + current_rate * efficiencyFactorInclGroup)
         else Ok target
       else Ok target);
    target ←
      (if Nat.ltb ii (num_ancestors - 1) then
         (* Not final level. Add sub-level reduction back, if it was
            nonzero due to having no group-controlled wells. *)
         num_gr_ctrl ←
           groupControlledWells fuel schedule wellState reportStepIdx
             (default "" (chain !! S ii)) "" is_producer injectionPhase;
         if Nat.eqb num_gr_ctrl 0 then
           if has_guide_rate (default "" (chain !! S ii)) then
             r ← localReduction (default "" (chain !! S ii));
             Ok (target + r)
           else Ok target
         else Ok target
       else Ok target);
    f ← FractionCalculator.localFraction fuel fcalc (default "" (chain !! S ii)) name;
    Ok (target * f)) orig_target.

(** The floor of the target rates, [1e-12]. *)
Definition target_rate_floor : double := dbl 1 1000000000000.

Section Checkers.

(** The constructors of the two calculator classes, which are declared in
    [TargetCalculator.hpp]. *)
Variable new_TargetCalculator :
  Group.ProductionCMode.t -> PhaseUsage -> list double -> double -> TargetCalculator.t.
Variable new_InjectionTargetCalculator :
  Group.InjectionCMode.t -> PhaseUsage -> list double -> string -> double ->
  WellState.t -> Phase -> res InjectionTargetCalculator.t.

Fixpoint checkGroupConstraintsProd_outcome (fuel : nat) (name : string) (parent : string)
    (group : Group) (wellState : WellState.t) (reportStepIdx : nat)
    (guideRate : GuideRate) (rates : list double) (pu : PhaseUsage)
    (efficiencyFactor : double) (schedule : Schedule) (summaryState : SummaryState)
    (resv_coeff : list double) : res CheckOutcome :=
  match fuel with
  | O => OutOfFuel
  | S fuel' =>
    currentGroupControl ← WellState.currentProductionGroupControl wellState (Group.name group);
    if Group.prod_is_FLD_or_NONE currentGroupControl then
      (* Return if we are not available for parent group. *)
      if negb (Group.productionGroupControlAvailable group) then Ok Unconstrained
      else
        (* Otherwise: check production share of parent's control. *)
        parentGroup ← Schedule.getGroup schedule (Group.parent group) reportStepIdx;
        checkGroupConstraintsProd_outcome fuel' name parent parentGroup wellState
          reportStepIdx guideRate rates pu
          (efficiencyFactor * Group.getGroupEfficiencyFactor group)
          schedule summaryState resv_coeff
    else
      (* This can be false for FLD-controlled groups, we must therefore
         check for FLD first (done above). *)
      if negb (Group.isProductionGroup group) then Ok Unconstrained
      else
        (* If we are here, we are at the topmost group to be visited in the recursion.
           This is the group containing the control we will check against. *)
        gratTargetFromSales ←
          (if WellState.hasGroupGratTargetFromSales wellState (Group.name group)
           then WellState.currentGroupGratTargetFromSales wellState (Group.name group)
           else Ok 0);
        let tcalc := new_TargetCalculator currentGroupControl pu resv_coeff gratTargetFromSales in
        let fcalc :=
          {| FractionCalculator.schedule_ := schedule;
             FractionCalculator.summary_state_ := summaryState;
             FractionCalculator.well_state_ := wellState;
             FractionCalculator.report_step_ := reportStepIdx;
             FractionCalculator.guide_rate_ := guideRate;
             FractionCalculator.target_ := TargetCalculator.guideTargetMode tcalc;
             FractionCalculator.pu_ := pu;
             FractionCalculator.is_producer_ := true;
             FractionCalculator.injection_phase_ := OIL |} in
        let localReduction := fun group_name =>
          groupTargetReductions ←
            WellState.currentProductionGroupReductionRates wellState group_name;
          Ok (TargetCalculator.calcModeRateFromRates tcalc groupTargetReductions) in
        let orig_target :=
          TargetCalculator.groupTarget tcalc (Group.productionControls group summaryState) in
        (* Switch sign since 'rates' are negative for producers. *)
        let current_rate := - TargetCalculator.calcModeRateFromRates tcalc rates in
        chain ← groupChainTopBot fuel name (Group.name group) schedule reportStepIdx;
        let efficiencyFactorInclGroup :=
          efficiencyFactor * Group.getGroupEfficiencyFactor group in
        target ← chain_target fuel schedule wellState reportStepIdx fcalc
                   (GuideRate.has guideRate) localReduction true OIL
                   name chain orig_target current_rate efficiencyFactorInclGroup;
        (* Avoid negative target rates coming from too large local reductions. *)
        let target_rate := std_max target_rate_floor (target / efficiencyFactorInclGroup) in
        Ok (AgainstTarget current_rate target_rate)
  end.

Definition checkGroupConstraintsProd (fuel : nat) (name : string) (parent : string)
    (group : Group) (wellState : WellState.t) (reportStepIdx : nat)
    (guideRate : GuideRate) (rates : list double) (pu : PhaseUsage)
    (efficiencyFactor : double) (schedule : Schedule) (summaryState : SummaryState)
    (resv_coeff : list double) : res (bool * double) :=
  o ← checkGroupConstraintsProd_outcome fuel name parent group wellState reportStepIdx
        guideRate rates pu efficiencyFactor schedule summaryState resv_coeff;
  Ok (outcome_pair o).

Fixpoint checkGroupConstraintsInj_outcome (fuel : nat) (name : string) (parent : string)
    (group : Group) (wellState : WellState.t) (reportStepIdx : nat)
    (guideRate : GuideRate) (rates : list double) (injectionPhase : Phase)
    (pu : PhaseUsage) (efficiencyFactor : double) (schedule : Schedule)
    (summaryState : SummaryState) (resv_coeff : list double) : res CheckOutcome :=
  match fuel with
  | O => OutOfFuel
  | S fuel' =>
    currentGroupControl ←
      WellState.currentInjectionGroupControl wellState injectionPhase (Group.name group);
    if Group.inj_is_FLD_or_NONE currentGroupControl then
      (* Return if we are not available for parent group. *)
      if negb (Group.injectionGroupControlAvailable group injectionPhase) then Ok Unconstrained
      else
        (* Otherwise: check production share of parent's control. *)
        parentGroup ← Schedule.getGroup schedule (Group.parent group) reportStepIdx;
        checkGroupConstraintsInj_outcome fuel' name parent parentGroup wellState
          reportStepIdx guideRate rates injectionPhase pu
          (efficiencyFactor * Group.getGroupEfficiencyFactor group)
          schedule summaryState resv_coeff
    else
      (* This can be false for FLD-controlled groups, we must therefore
         check for FLD first (done above). *)
      if negb (Group.isInjectionGroup group) then Ok Unconstrained
      else
        (* If we are here, we are at the topmost group to be visited in the recursion.
           This is the group containing the control we will check against. *)
        let sales_target :=
          match Schedule.gconsale (Schedule.at_step schedule reportStepIdx)
                  !! Group.name group with
          | Some get => GConSale.sales_target (get summaryState)
          | None => 0
          end in
        tcalc ← new_InjectionTargetCalculator currentGroupControl pu resv_coeff
                  (Group.name group) sales_target wellState injectionPhase;
        let fcalc :=
          {| FractionCalculator.schedule_ := schedule;
             FractionCalculator.summary_state_ := summaryState;
             FractionCalculator.well_state_ := wellState;
             FractionCalculator.report_step_ := reportStepIdx;
             FractionCalculator.guide_rate_ := guideRate;
             FractionCalculator.target_ := InjectionTargetCalculator.guideTargetMode tcalc;
             FractionCalculator.pu_ := pu;
             FractionCalculator.is_producer_ := false;
             FractionCalculator.injection_phase_ := injectionPhase |} in
        let localReduction := fun group_name =>
          groupTargetReductions ←
            WellState.currentInjectionGroupReductionRates wellState group_name;
          Ok (InjectionTargetCalculator.calcModeRateFromRates tcalc groupTargetReductions) in
        orig_target ←
          InjectionTargetCalculator.groupTarget tcalc
            (Group.injectionControls group injectionPhase summaryState);
        let current_rate := InjectionTargetCalculator.calcModeRateFromRates tcalc rates in
        chain ← groupChainTopBot fuel name (Group.name group) schedule reportStepIdx;
        let efficiencyFactorInclGroup :=
          efficiencyFactor * Group.getGroupEfficiencyFactor group in
        target ← chain_target fuel schedule wellState reportStepIdx fcalc
                   (fun n => GuideRate.has_inj guideRate n injectionPhase) localReduction
                   false injectionPhase
                   name chain orig_target current_rate efficiencyFactorInclGroup;
        (* Avoid negative target rates coming from too large local reductions. *)
        let target_rate := std_max target_rate_floor (target / efficiencyFactorInclGroup) in
        Ok (AgainstTarget current_rate target_rate)
  end.

Definition checkGroupConstraintsInj (fuel : nat) (name : string) (parent : string)
    (group : Group) (wellState : WellState.t) (reportStepIdx : nat)
    (guideRate : GuideRate) (rates : list double) (injectionPhase : Phase)
    (pu : PhaseUsage) (efficiencyFactor : double) (schedule : Schedule)
    (summaryState : SummaryState) (resv_coeff : list double) : res (bool * double) :=
  o ← checkGroupConstraintsInj_outcome fuel name parent group wellState reportStepIdx
        guideRate rates injectionPhase pu efficiencyFactor schedule summaryState resv_coeff;
  Ok (outcome_pair o).

End Checkers.

(** ** Well-formed group trees *)

(** The tree below [group] is finite, of depth at most [fuel]: every
    child group and every well that it names exists at the report step. *)
Fixpoint group_tree_ok (fuel : nat) (schedule : Schedule) (reportStepIdx : nat)
    (group : Group) : bool :=
  match fuel with
  | O => false
  | S fuel =>
    forallb (fun groupName =>
      match Schedule.groups (Schedule.at_step schedule reportStepIdx) !! groupName with
      | Some sub => group_tree_ok fuel schedule reportStepIdx sub
      | None => false
      end) (Group.groups group)
    && forallb (fun wellName => Schedule.hasWell schedule wellName reportStepIdx)
         (Group.wells group)
  end.

(** ** The sum of the well rates, as the specification words it *)

(** The wells of the tree below [group], each with the product of the
    efficiency factors of the groups on its chain of ancestors, from
    [group] down to the group that owns the well; [chain_factor] is the
    product collected above [group]. *)
Fixpoint wells_below (fuel : nat) (schedule : Schedule) (reportStepIdx : nat)
    (group : Group) (chain_factor : double) : list (string * double) :=
  match fuel with
  | O => []
  | S fuel =>
    let chain_factor := chain_factor * Group.getGroupEfficiencyFactor group in
    (flat_map (fun groupName =>
       match Schedule.groups (Schedule.at_step schedule reportStepIdx) !! groupName with
       | Some sub => wells_below fuel schedule reportStepIdx sub chain_factor
       | None => []
       end) (Group.groups group)
     ++ map (fun wellName => (wellName, chain_factor)) (Group.wells group))%list
  end.

(** A well counts for a role when it is present in the well-state map,
    owned by this process, of the role asked for, and not shut. *)
Definition counted_well (schedule : Schedule) (wellState : WellState.t)
    (reportStepIdx : nat) (injector : bool) (wellName : string) : option (Well * nat) :=
  match WellState.wellMap wellState !! wellName with
  | None => None
  | Some it =>
    if WellState.wellIsOwned wellState it.1.1 wellName then
      match Schedule.wells (Schedule.at_step schedule reportStepIdx) !! wellName with
      | None => None
      | Some w =>
        if Bool.eqb (Well.isInjector w) injector && negb (Well.is_SHUT (Well.getStatus w))
        then Some (w, it.1.1)
        else None
      end
    else None
  end.

(** The sign-normalised phase rate of a well: the stored rate of an
    injector, the negated stored rate of a producer. *)
Definition normalized_rate (rates : list double) (wellState : WellState.t)
    (phasePos : nat) (injector : bool) (well_index : nat) : double :=
  let r := vec_at rates (well_index * WellState.numPhases wellState + phasePos) in
  if injector then r else - r.

(** The sum over the listed wells that count, of the normalised rate times
    the well's efficiency factor times the factor of its chain. *)
Definition weighted_rate_sum (rates : list double) (schedule : Schedule)
    (wellState : WellState.t) (reportStepIdx : nat) (phasePos : nat) (injector : bool)
    (l : list (string * double)) : double :=
  foldr (fun '(wellName, chain_factor) acc =>
           match counted_well schedule wellState reportStepIdx injector wellName with
           | Some (w, well_index) =>
               normalized_rate rates wellState phasePos injector well_index
               * Well.getEfficiencyFactor w * chain_factor + acc
           | None => acc
           end) 0 l.

(** ** The groups of a tree *)

(** The groups of the tree below [group], children before parents, in the
    order in which the recursive helpers finish with them. *)
Fixpoint groups_below (fuel : nat) (schedule : Schedule) (reportStepIdx : nat)
    (group : Group) : list Group :=
  match fuel with
  | O => []
  | S fuel =>
    (flat_map (fun groupName =>
       match Schedule.groups (Schedule.at_step schedule reportStepIdx) !! groupName with
       | Some sub => groups_below fuel schedule reportStepIdx sub
       | None => []
       end) (Group.groups group)
     ++ [group])%list
  end.

(** ** Injection groups and their guide-rate targets *)

Definition is_RESV_target (t : Group.GuideRateInjTarget.t) : bool :=
  match t with Group.GuideRateInjTarget.RESV => true | _ => false end.

(** The injection controls of [group] for [phase] declare the guide-rate
    target RESV. *)
Definition phase_declares_RESV (summaryState : SummaryState) (group : Group)
    (phase : Phase) : bool :=
  Group.hasInjectionControl group phase
  && is_RESV_target (Group.guide_rate_def (Group.injectionControls group phase summaryState)).

Definition declares_RESV (summaryState : SummaryState) (group : Group) : bool :=
  existsb (phase_declares_RESV summaryState group) all_phases.

(** The exception for a group that declares RESV. *)
Definition RESV_message (group : Group) : exception :=
  runtime_error ("GUIDE PHASE RESV not implemented. Group " ++ Group.name group).

(** The well state holds what the guide-rate target of [group] for [phase]
    reads: for VOID the voidage rate of the group and, for NETV, also its
    reservoir injection rates. *)
Definition phase_inputs_present (summaryState : SummaryState) (wellState : WellState.t)
    (group : Group) (phase : Phase) : bool :=
  if Group.hasInjectionControl group phase then
    match Group.guide_rate_def (Group.injectionControls group phase summaryState) with
    | Group.GuideRateInjTarget.VOID =>
        bool_decide (is_Some (WellState.injection_vrep_rates wellState !! Group.name group))
    | Group.GuideRateInjTarget.NETV =>
        bool_decide (is_Some (WellState.injection_vrep_rates wellState !! Group.name group))
        && bool_decide (is_Some (WellState.injection_group_reservoir_rates wellState
                                   !! Group.name group))
    | _ => true
    end
  else true.

(** The same for the three phases of the loop. *)
Definition guide_inputs_present (summaryState : SummaryState) (wellState : WellState.t)
    (group : Group) : bool :=
  forallb (phase_inputs_present summaryState wellState group) all_phases.

(** ** The group controls held by the well state *)

Definition injection_control_of (wellState : WellState.t) (phase : Phase) (name : string)
    : option Group.InjectionCMode.t :=
  WellState.injection_group_controls wellState !! (phase, name).

Definition production_control_of (wellState : WellState.t) (name : string)
    : option Group.ProductionCMode.t :=
  GroupState.production_controls (WellState.groupState wellState) !! name.

(** The [group_state] argument reports a production control only for
    groups that have one in the well state.  This holds in particular when
    the argument is the well state's own group state. *)
Definition group_state_agrees (group_state : GroupStateRef) (wellState : WellState.t)
    : Prop :=
  match group_state with
  | group_state_of_wellState => True
  | group_state_object gs =>
      forall name, GroupState.has_production_control gs name = true ->
                   is_Some (production_control_of wellState name)
  end.

(** A group of [G] called [name] is an injection group whose controls
    were updated at the report step and declare the mode [v] for [phase]. *)
Definition injection_event_supplies (schedule : Schedule) (summaryState : SummaryState)
    (reportStepIdx : nat) (G : list Group) (phase : Phase) (name : string)
    (v : Group.InjectionCMode.t) : Prop :=
  exists g, g ∈ G /\ Group.name g = name
    /\ Group.isInjectionGroup g = true
    /\ Schedule.wellgroup_events (Schedule.at_step schedule reportStepIdx) name
         ScheduleEvents.GROUP_INJECTION_UPDATE = true
    /\ Group.hasInjectionControl g phase = true
    /\ v = Group.inj_cmode (Group.injectionControls g phase summaryState).

Definition production_event_supplies (schedule : Schedule) (summaryState : SummaryState)
    (reportStepIdx : nat) (G : list Group) (name : string)
    (v : Group.ProductionCMode.t) : Prop :=
  exists g, g ∈ G /\ Group.name g = name
    /\ Group.isProductionGroup g = true
    /\ Schedule.wellgroup_events (Schedule.at_step schedule reportStepIdx) name
         ScheduleEvents.GROUP_PRODUCTION_UPDATE = true
    /\ v = Group.cmode (Group.productionControls g summaryState).

(** The group called [name] has a gas-sale declaration, which makes [SALE]
    its injection control for gas. *)
Definition sale_supplies (schedule : Schedule) (reportStepIdx : nat) (phase : Phase)
    (name : string) (v : Group.InjectionCMode.t) : Prop :=
  phase = GAS
  /\ is_Some (Schedule.gconsale (Schedule.at_step schedule reportStepIdx) !! name)
  /\ v = Group.InjectionCMode.SALE.

(** Where the controls of [wellState'] come from, [wellState] being the
    state before the call: from that state, from the default NONE, from
    an event of a group of [G], or from a gas-sale declaration. *)
Definition controls_seeded_from (schedule : Schedule) (summaryState : SummaryState)
    (reportStepIdx : nat) (G : list Group) (wellState wellState' : WellState.t) : Prop :=
  (forall phase name, is_Some (injection_control_of wellState phase name) ->
                      is_Some (injection_control_of wellState' phase name))
  /\ (forall name, is_Some (production_control_of wellState name) ->
                   is_Some (production_control_of wellState' name))
  /\ (forall phase name v, injection_control_of wellState' phase name = Some v ->
        v = Group.InjectionCMode.NONE
        \/ injection_control_of wellState phase name = Some v
        \/ injection_event_supplies schedule summaryState reportStepIdx G phase name v
        \/ sale_supplies schedule reportStepIdx phase name v)
  /\ (forall name v, production_control_of wellState' name = Some v ->
        v = Group.ProductionCMode.NONE
        \/ production_control_of wellState name = Some v
        \/ production_event_supplies schedule summaryState reportStepIdx G name v).

(** Every group of [G] has an injection control for each of the three
    phases and a production control. *)
Definition controls_defined (G : list Group) (wellState : WellState.t) : Prop :=
  forall g, g ∈ G ->
    (forall phase, phase ∈ all_phases ->
                   is_Some (injection_control_of wellState phase (Group.name g)))
    /\ is_Some (production_control_of wellState (Group.name g)).

(** ** The derived maps of the well state as the targets of writes *)

(** One of the derived maps of the well state, with its getter and the
    function that replaces it. *)
Record derived_map (V : Type) : Type := {
  dget : WellState.t -> gmap string V;
  dset : WellState.t -> gmap string V -> WellState.t
}.
Arguments dget {V} _ _.
Arguments dset {V} _ _ _.

Definition production_reductions : derived_map (list double) :=
  {| dget := WellState.production_group_reduction_rates;
     dset := WellState.with_production_group_reduction_rates |}.
Definition injection_reductions : derived_map (list double) :=
  {| dget := WellState.injection_group_reduction_rates;
     dset := WellState.with_injection_group_reduction_rates |}.
Definition rein_rates : derived_map (list double) :=
  {| dget := WellState.injection_rein_rates;
     dset := WellState.with_injection_rein_rates |}.
Definition vrep_rates : derived_map double :=
  {| dget := WellState.injection_vrep_rates;
     dset := WellState.with_injection_vrep_rates |}.
Definition injection_reservoir_rates : derived_map (list double) :=
  {| dget := WellState.injection_group_reservoir_rates;
     dset := WellState.with_injection_group_reservoir_rates |}.
Definition current_well_rates : derived_map (list double) :=
  {| dget := WellState.well_rates;
     dset := WellState.with_well_rates |}.
Definition production_rates : derived_map (list double) :=
  {| dget := WellState.production_group_rates;
     dset := WellState.with_production_group_rates |}.

(** The reductions that [updateGroupTargetReduction] writes. *)
Definition reductions (isInjector : bool) : derived_map (list double) :=
  if isInjector then injection_reductions else production_reductions.

(** The laws of a derived map: replacing it twice is replacing it once,
    replacing it by itself changes nothing, and what the helpers read is
    not touched. *)
Record derived_map_ok {V : Type} (L : derived_map V) : Prop := {
  dset_dset : forall ws m m', dset L (dset L ws m) m' = dset L ws m';
  dset_dget : forall ws, dset L ws (dget L ws) = ws;
  dget_dset : forall ws m, dget L (dset L ws m) = m;
  reads_dset : forall ws m, WellState.reads (dset L ws m) = WellState.reads ws
}.

(** A sequence of writes [m[k] = v] applied to a map. *)
Definition apply_writes {V : Type} (W : list (string * V)) (m : gmap string V)
    : gmap string V :=
  foldl (fun m kv => <[kv.1 := kv.2]> m) m W.

(** The plain form of [writes_only] below, for a helper that returns the
    state alone. *)
Definition writes_plain {V : Type} (L : derived_map V)
    (f : WellState.t -> res WellState.t) : Prop :=
  forall ws ws', f ws = Ok ws' ->
    exists W, forall m, f (dset L ws m) = Ok (dset L ws (apply_writes W m)).

(** A helper [f] only writes to the derived map [L], and what it writes and
    returns does not depend on the content of [L]: when it returns on a
    state, there is a sequence of writes that it performs on every state
    that differs from this one in [L] only. *)
Definition writes_only {V B : Type} (L : derived_map V)
    (f : WellState.t -> res (WellState.t * B)) : Prop :=
  forall ws r, f ws = Ok r ->
    exists W, forall m, f (dset L ws m) = Ok (dset L ws (apply_writes W m), r.2).

(** ** Well-formed inputs of the fraction calculator *)

(** All guide-rate values that the registry returns are non-negative. *)
Definition guide_rates_nonneg (guide_rate : GuideRate) : Prop :=
  (forall name target rates, 0 <= GuideRate.get guide_rate name target rates)
  /\ (forall key v, GuideRate.injection_group_values guide_rate !! key = Some v -> 0 <= v).

(** The well state has the control of the child group that the calculator
    reads for its role. *)
Definition child_control_present (fc : FractionCalculator.t) (child_group : string) : bool :=
  if FractionCalculator.is_producer_ fc
  then bool_decide (is_Some (production_control_of (FractionCalculator.well_state_ fc)
                               child_group))
  else bool_decide (is_Some (injection_control_of (FractionCalculator.well_state_ fc)
                               (FractionCalculator.injection_phase_ fc) child_group)).

(** The tree below [group] is finite, of depth at most [fuel], and the
    schedule and the well state hold what the calculator reads in it: every
    child group exists, is not also the name of a well, has its control in
    the well state, and has its production rates there when it has a guide
    rate of its own; every well exists and has its current rates in the
    well state. *)
Fixpoint guide_tree_ok (fuel : nat) (fc : FractionCalculator.t) (group : Group) : bool :=
  match fuel with
  | O => false
  | S fuel =>
    forallb (fun child_group =>
      negb (Schedule.hasWell (FractionCalculator.schedule_ fc) child_group
              (FractionCalculator.report_step_ fc))
      && child_control_present fc child_group
      && (if FractionCalculator.is_producer_ fc
             && GuideRate.has (FractionCalculator.guide_rate_ fc) child_group
          then bool_decide (is_Some (WellState.production_group_rates
                                       (FractionCalculator.well_state_ fc) !! child_group))
          else true)
      && match Schedule.groups (Schedule.at_step (FractionCalculator.schedule_ fc)
                                  (FractionCalculator.report_step_ fc)) !! child_group with
         | Some sub => guide_tree_ok fuel fc sub
         | None => false
         end) (Group.groups group)
    && forallb (fun child_well =>
         Schedule.hasWell (FractionCalculator.schedule_ fc) child_well
           (FractionCalculator.report_step_ fc)
         && bool_decide (is_Some (WellState.well_rates (FractionCalculator.well_state_ fc)
                                    !! child_well))) (Group.wells group)
  end.

(** [current] is one of the children of [parent_group] that
    [guideRateSum] counts. *)
Definition eligible_child (fc : FractionCalculator.t) (always_included_child : string)
    (parent_group : Group) (current : string) : bool :=
  (existsb (String.eqb current) (Group.groups parent_group)
   && match child_group_included (FractionCalculator.well_state_ fc) always_included_child
              (FractionCalculator.is_producer_ fc) (FractionCalculator.injection_phase_ fc)
              current with
      | Ok included => included
      | _ => false
      end)
  || (existsb (String.eqb current) (Group.wells parent_group)
      && child_well_included (FractionCalculator.well_state_ fc) always_included_child
           (FractionCalculator.is_producer_ fc) current).

(** The chain of parents from [current] reaches [control_group_name] in at
    most [turns] steps, and at every step the parent group is well formed
    and counts the child it is reached from. *)
Fixpoint fraction_chain_ok (turns : nat) (fuel : nat) (fc : FractionCalculator.t)
    (always_included_child : string) (control_group_name : string) (current : string)
    : bool :=
  if String.eqb current control_group_name then true
  else
    match turns with
    | O => false
    | S turns =>
      match FractionCalculator.parent fc current with
      | Ok parent_name =>
        match Schedule.groups (Schedule.at_step (FractionCalculator.schedule_ fc)
                                 (FractionCalculator.report_step_ fc)) !! parent_name with
        | Some parent_group =>
          guide_tree_ok fuel fc parent_group
          && eligible_child fc always_included_child parent_group current
          && fraction_chain_ok turns fuel fc always_included_child control_group_name
               parent_name
        | None => false
        end
      | _ => false
      end
    end.

(** ** The two-level scenario: FIELD, G1, and the wells W1 and W2 *)

Module Scenario.
(** Three active phases, stored at the positions of their enumerators. *)
Definition pu : PhaseUsage :=
  {| phase_used := fun _ => true; phase_pos := BlackoilPhases.index |}.

Definition no_injection : Group.GroupInjectionControls :=
  {| Group.inj_cmode := Group.InjectionCMode.NONE;
     Group.surface_max_rate := 0; Group.resv_max_rate := 0;
     Group.target_reinj_fraction := 0; Group.target_void_fraction := 0;
     Group.guide_rate_def := Group.GuideRateInjTarget.NO_GUIDE_RATE |}.

Definition production (cmode : Group.ProductionCMode.t) (oil_target : double)
    : Group.GroupProductionControls :=
  {| Group.cmode := cmode; Group.oil_target := oil_target;
     Group.water_target := 0; Group.gas_target := 0;
     Group.liquid_target := 0; Group.resv_target := 0 |}.

(** G1 is under oil-rate control with target 100. *)
Definition G1 : Group :=
  {| Group.name := "G1"; Group.parent := "FIELD";
     Group.groups := []; Group.wells := ["W1"; "W2"];
     Group.getGroupEfficiencyFactor := 1;
     Group.isInjectionGroup := true; Group.isProductionGroup := true;
     Group.hasInjectionControl := fun _ => false;
     Group.injectionControls := fun _ _ => no_injection;
     Group.productionControls := fun _ => production Group.ProductionCMode.ORAT (dbl 100 1);
     Group.productionGroupControlAvailable := true;
     Group.injectionGroupControlAvailable := fun _ => true |}.

Definition field (groups : list string) : Group :=
  {| Group.name := "FIELD"; Group.parent := "";
     Group.groups := groups; Group.wells := [];
     Group.getGroupEfficiencyFactor := 1;
     Group.isInjectionGroup := false; Group.isProductionGroup := false;
     Group.hasInjectionControl := fun _ => false;
     Group.injectionControls := fun _ _ => no_injection;
     Group.productionControls := fun _ => production Group.ProductionCMode.NONE 0;
     Group.productionGroupControlAvailable := false;
     Group.injectionGroupControlAvailable := fun _ => false |}.

Definition FIELD : Group := field ["G1"].

Definition producer (name : string) : Well :=
  {| Well.name := name; Well.groupName := "G1"; Well.isProducer := true;
     Well.getStatus := Well.Status.OPEN; Well.getEfficiencyFactor := 1 |}.

Definition schedule_of (groups : gmap string Group) : Schedule :=
  {| Schedule.wells_static := {["W1"; "W2"]};
     Schedule.at_step := fun _ =>
       {| Schedule.groups := groups;
          Schedule.wells := {["W1" := producer "W1"; "W2" := producer "W2"]};
          Schedule.wellgroup_events := fun _ _ => false;
          Schedule.gconsale := ∅;
          Schedule.gconsump := ∅ |} |}.

Definition schedule : Schedule := schedule_of {["FIELD" := FIELD; "G1" := G1]}.

(** W1 has guide rate 3 and W2 has guide rate 1; no group has one. *)
Definition guideRate : GuideRate :=
  {| GuideRate.has := fun _ => false;
     GuideRate.get := fun name _ _ =>
       if String.eqb name "W1" then dbl 3 1
       else if String.eqb name "W2" then 1 else 0;
     GuideRate.injection_group_values := ∅;
     GuideRate.injection_group_default := fun _ _ _ _ => None |}.

(** A registry in which every guide rate is zero. *)
Definition guideRate_zero : GuideRate :=
  {| GuideRate.has := fun _ => false;
     GuideRate.get := fun _ _ _ => 0;
     GuideRate.injection_group_values := ∅;
     GuideRate.injection_group_default := fun _ _ _ _ => None |}.

(** The stored reduction of G1 is zero, [wellRates] holds the stored
    (negative) rates of W1 followed by those of W2, and
    [isProductionGrup] tells which of the producers are under group
    control. *)
Definition wellState_with (isProductionGrup : string -> bool) (wellRates : list double)
    : WellState.t :=
  {| WellState.numPhases := 3;
     WellState.wellMap := {["W1" := (0, 0, 1)%nat; "W2" := (1, 1, 1)%nat]};
     WellState.wellIsOwned := fun _ _ => true;
     WellState.wellRates := wellRates;
     WellState.wellReservoirRates := wellRates;
     WellState.solventWellRate := fun _ => 0;
     WellState.currentInjectionControls :=
       [Well.InjectorCMode.CMODE_UNDEFINED; Well.InjectorCMode.CMODE_UNDEFINED];
     WellState.currentProductionControls :=
       map (fun wellName => if isProductionGrup wellName then Well.ProducerCMode.GRUP
                            else Well.ProducerCMode.ORAT) ["W1"; "W2"];
     WellState.isProductionGrup := isProductionGrup;
     WellState.isInjectionGrup := fun _ => false;
     WellState.getALQ := fun _ => 0;
     WellState.groupState :=
       {| GroupState.production_controls :=
            {["FIELD" := Group.ProductionCMode.NONE; "G1" := Group.ProductionCMode.ORAT]} |};
     WellState.injection_group_controls :=
       {[(WATER, "FIELD") := Group.InjectionCMode.NONE;
         (WATER, "G1") := Group.InjectionCMode.RATE]};
     WellState.production_group_reduction_rates :=
       {["FIELD" := vec_zero 3; "G1" := vec_zero 3]};
     WellState.injection_group_reduction_rates :=
       {["FIELD" := vec_zero 3; "G1" := vec_zero 3]};
     WellState.injection_rein_rates := ∅;
     WellState.injection_vrep_rates := ∅;
     WellState.injection_group_reservoir_rates := ∅;
     WellState.well_rates := {["W1" := vec_zero 3; "W2" := vec_zero 3]};
     WellState.production_group_rates := ∅;
     WellState.group_grat_target_from_sales := ∅ |}.

(** Both wells are producers under group control. *)
Definition wellState (wellRates : list double) : WellState.t :=
  wellState_with (fun _ => true) wellRates.

(** W1 is under a control of its own, W2 under group control. *)
Definition wellState_W1_individual : WellState.t :=
  wellState_with (fun wellName => String.eqb wellName "W2") [].

(** The stored rates of the two wells: W1 produces oil at 40 and W2 at 2. *)
Definition stored_rates : list double := [0; dbl (-40) 1; 0; 0; dbl (-2) 1; 0].

(** A well state in which no group control has been set yet. *)
Definition wellState_fresh : WellState.t :=
  {| WellState.numPhases := 3;
     WellState.wellMap := {["W1" := (0, 0, 1)%nat; "W2" := (1, 1, 1)%nat]};
     WellState.wellIsOwned := fun _ _ => true;
     WellState.wellRates := vec_zero 6;
     WellState.wellReservoirRates := vec_zero 6;
     WellState.solventWellRate := fun _ => 0;
     WellState.currentInjectionControls :=
       [Well.InjectorCMode.CMODE_UNDEFINED; Well.InjectorCMode.CMODE_UNDEFINED];
     WellState.currentProductionControls :=
       [Well.ProducerCMode.GRUP; Well.ProducerCMode.GRUP];
     WellState.isProductionGrup := fun _ => true;
     WellState.isInjectionGrup := fun _ => false;
     WellState.getALQ := fun _ => 0;
     WellState.groupState := {| GroupState.production_controls := ∅ |};
     WellState.injection_group_controls := ∅;
     WellState.production_group_reduction_rates := ∅;
     WellState.injection_group_reduction_rates := ∅;
     WellState.injection_rein_rates := ∅;
     WellState.injection_vrep_rates := ∅;
     WellState.injection_group_reservoir_rates := ∅;
     WellState.well_rates := ∅;
     WellState.production_group_rates := ∅;
     WellState.group_grat_target_from_sales := ∅ |}.

(** A group state, not the one of the well state, that already holds a
    production control for G1. *)
Definition other_group_state : GroupState :=
  {| GroupState.production_controls := {["G1" := Group.ProductionCMode.ORAT]} |}.

(** The checker called for W1 with parent G1 and group G1, W1 having
    the stored rates [rates]. *)
Definition check_W1 (fuel : nat) (rates : list double) : res CheckOutcome :=
  checkGroupConstraintsProd_outcome TargetCalculator_spec fuel "W1" "G1" G1
    (wellState (rates ++ vec_zero 3)) 0 guideRate rates pu 1 schedule ∅ [1; 1; 1].

(** The fraction calculator of the production checker in the scenario. *)
Definition fcalc_with (well_state : WellState.t) (guideRate : GuideRate)
    : FractionCalculator.t :=
  {| FractionCalculator.schedule_ := schedule;
     FractionCalculator.summary_state_ := ∅;
     FractionCalculator.well_state_ := well_state;
     FractionCalculator.report_step_ := 0;
     FractionCalculator.guide_rate_ := guideRate;
     FractionCalculator.target_ := GuideRateModel.OIL;
     FractionCalculator.pu_ := pu;
     FractionCalculator.is_producer_ := true;
     FractionCalculator.injection_phase_ := OIL |}.

Definition fcalc (guideRate : GuideRate) : FractionCalculator.t :=
  fcalc_with (wellState []) guideRate.

(** A calculator for the surface-rate injection mode of one phase: the
    mode rate is the rate of the phase, the target the declared maximal
    surface rate. *)
Definition surface_rate_calculator (cmode : Group.InjectionCMode.t) (pu : PhaseUsage)
    (resv_coeff : list double) (group_name : string) (sales_target : double)
    (well_state : WellState.t) (injection_phase : Phase)
    : res InjectionTargetCalculator.t :=
  match injection_phasePos pu injection_phase with
  | Some pos =>
    Ok {| InjectionTargetCalculator.calcModeRateFromRates := fun rates => vec_at rates pos;
          InjectionTargetCalculator.groupTarget := fun ctrl => Ok (Group.surface_max_rate ctrl);
          InjectionTargetCalculator.guideTargetMode := GuideRateModel.WAT |}
  | None => Throw (logic_error "Invalid injection phase in InjectionTargetCalculator")
  end.

(** The injection checker called for W1 and the water phase. *)
Definition check_W1_inj (fuel : nat) (rates : list double) : res CheckOutcome :=
  checkGroupConstraintsInj_outcome surface_rate_calculator fuel "W1" "G1" G1
    (wellState (rates ++ vec_zero 3)) 0 guideRate rates WATER pu 1 schedule ∅ [1; 1; 1].

(** A second group below FIELD, under FLD control for production and for
    the injection of water. *)
Definition G2 : Group :=
  {| Group.name := "G2"; Group.parent := "FIELD";
     Group.groups := []; Group.wells := [];
     Group.getGroupEfficiencyFactor := 1;
     Group.isInjectionGroup := false; Group.isProductionGroup := false;
     Group.hasInjectionControl := fun _ => false;
     Group.injectionControls := fun _ _ => no_injection;
     Group.productionControls := fun _ => production Group.ProductionCMode.FLD 0;
     Group.productionGroupControlAvailable := true;
     Group.injectionGroupControlAvailable := fun _ => true |}.

Definition schedule_G2 : Schedule :=
  schedule_of {["FIELD" := field ["G1"; "G2"]; "G1" := G1; "G2" := G2]}.

(** An injection group below FIELD whose water injection controls declare
    the guide-rate target RESV. *)
Definition G3 : Group :=
  {| Group.name := "G3"; Group.parent := "FIELD";
     Group.groups := []; Group.wells := [];
     Group.getGroupEfficiencyFactor := 1;
     Group.isInjectionGroup := true; Group.isProductionGroup := false;
     Group.hasInjectionControl := fun phase => bool_decide (phase = WATER);
     Group.injectionControls := fun _ _ =>
       {| Group.inj_cmode := Group.InjectionCMode.RATE;
          Group.surface_max_rate := dbl 10 1; Group.resv_max_rate := 0;
          Group.target_reinj_fraction := 0; Group.target_void_fraction := 0;
          Group.guide_rate_def := Group.GuideRateInjTarget.RESV |};
     Group.productionControls := fun _ => production Group.ProductionCMode.NONE 0;
     Group.productionGroupControlAvailable := true;
     Group.injectionGroupControlAvailable := fun _ => true |}.

Definition schedule_G3 : Schedule :=
  schedule_of {["FIELD" := field ["G1"; "G3"]; "G1" := G1; "G3" := G3]}.

(** A network of two nodes: the root PLAT with the fixed pressure 50, and
    the leaf G1 connected to it by a branch without a VFP table. *)
Definition branch_G1 : Network.Branch :=
  {| Network.downtree_node := "G1"; Network.uptree_node := "PLAT";
     Network.vfp_table := None |}.

Definition network : Network.ExtNetwork :=
  {| Network.active := true;
     Network.root_name := "PLAT";
     Network.nodes :=
       {["PLAT" := {| Network.name := "PLAT"; Network.terminal_pressure := Some (dbl 50 1);
                      Network.add_gas_lift_gas := false |};
         "G1" := {| Network.name := "G1"; Network.terminal_pressure := None;
                    Network.add_gas_lift_gas := false |}]};
     Network.downtree_branches := fun node =>
       if String.eqb node "PLAT" then [branch_G1] else [];
     Network.uptree_branch := fun node =>
       if String.eqb node "G1" then Some branch_G1 else None |}.

(** The leaf group G1 produces gas at the rate 10. *)
Definition wellState_network : WellState.t :=
  WellState.setCurrentProductionGroupRates (wellState []) "G1" [0; 0; dbl 10 1].

Definition no_vfp : VFPProdProperties := {| bhp := fun _ _ _ _ _ _ => 0 |}.

Definition wellState_G2 : WellState.t :=
  WellState.setCurrentInjectionGroupControl
    (WellState.setCurrentProductionGroupControl (wellState []) "G2" Group.ProductionCMode.FLD)
    WATER "G2" Group.InjectionCMode.FLD.
End Scenario.

(** ** Chains of transparent groups *)

(** [transparent_chain_prod schedule wellState step group n]: [group] is
    under FLD or NONE production control, and so is every ancestor up the
    chain of parents, until after [n] groups one is reached whose
    production group control is not available. *)
Inductive transparent_chain_prod (schedule : Schedule) (wellState : WellState.t)
    (reportStepIdx : nat) : Group -> nat -> Prop :=
| transparent_prod_top (group : Group) (c : Group.ProductionCMode.t) :
    WellState.currentProductionGroupControl wellState (Group.name group) = Ok c ->
    Group.prod_is_FLD_or_NONE c = true ->
    Group.productionGroupControlAvailable group = false ->
    transparent_chain_prod schedule wellState reportStepIdx group 1
| transparent_prod_up (group parentGroup : Group) (c : Group.ProductionCMode.t) (n : nat) :
    WellState.currentProductionGroupControl wellState (Group.name group) = Ok c ->
    Group.prod_is_FLD_or_NONE c = true ->
    Group.productionGroupControlAvailable group = true ->
    Schedule.getGroup schedule (Group.parent group) reportStepIdx = Ok parentGroup ->
    transparent_chain_prod schedule wellState reportStepIdx parentGroup n ->
    transparent_chain_prod schedule wellState reportStepIdx group (S n).

Inductive transparent_chain_inj (schedule : Schedule) (wellState : WellState.t)
    (reportStepIdx : nat) (injectionPhase : Phase) : Group -> nat -> Prop :=
| transparent_inj_top (group : Group) (c : Group.InjectionCMode.t) :
    WellState.currentInjectionGroupControl wellState injectionPhase (Group.name group) = Ok c ->
    Group.inj_is_FLD_or_NONE c = true ->
    Group.injectionGroupControlAvailable group injectionPhase = false ->
    transparent_chain_inj schedule wellState reportStepIdx injectionPhase group 1
| transparent_inj_up (group parentGroup : Group) (c : Group.InjectionCMode.t) (n : nat) :
    WellState.currentInjectionGroupControl wellState injectionPhase (Group.name group) = Ok c ->
    Group.inj_is_FLD_or_NONE c = true ->
    Group.injectionGroupControlAvailable group injectionPhase = true ->
    Schedule.getGroup schedule (Group.parent group) reportStepIdx = Ok parentGroup ->
    transparent_chain_inj schedule wellState reportStepIdx injectionPhase parentGroup n ->
    transparent_chain_inj schedule wellState reportStepIdx injectionPhase group (S n).

(** ** Further helpers of the namespace *)

(** [accumulateGroupEfficiencyFactor]: [factor] is the in/out argument;
    the function returns its final value. *)
Fixpoint accumulateGroupEfficiencyFactor (fuel : nat) (group : Group) (schedule : Schedule)
    (reportStepIdx : nat) (factor : double) : res double :=
  match fuel with
  | O => OutOfFuel
  | S fuel =>
    let factor := factor * Group.getGroupEfficiencyFactor group in
    if negb (String.eqb (Group.parent group) "FIELD") then
      parentGroup ← Schedule.getGroup schedule (Group.parent group) reportStepIdx;
      accumulateGroupEfficiencyFactor fuel parentGroup schedule reportStepIdx factor
    else Ok factor
  end.

(** The body of the loop over the wells of a group in [sumSolventRates]. *)
Definition add_well_solvent_rate (schedule : Schedule) (wellState : WellState.t)
    (reportStepIdx : nat) (injector : bool) (wellName : string) (rate : double)
    : res double :=
  match WellState.wellMap wellState !! wellName with
  | None => Ok rate (* the well is not found *)
  | Some it =>
    let well_index := it.1.1 in
    if negb (WellState.wellIsOwned wellState well_index wellName)
    then Ok rate (* Only sum once *)
    else
      wellEcl ← Schedule.getWell schedule wellName reportStepIdx;
      (* only count producers or injectors *)
      if (Well.isProducer wellEcl && injector)
         || (Well.isInjector wellEcl && negb injector) then Ok rate
      else if Well.is_SHUT (Well.getStatus wellEcl) then Ok rate
      else
        let factor := Well.getEfficiencyFactor wellEcl in
        if injector
        then Ok (rate + factor * WellState.solventWellRate wellState well_index)
        else Ok (rate - factor * WellState.solventWellRate wellState well_index)
  end.

Fixpoint sumSolventRates (fuel : nat) (group : Group) (schedule : Schedule)
    (wellState : WellState.t) (reportStepIdx : nat) (injector : bool) : res double :=
  match fuel with
  | O => OutOfFuel
  | S fuel =>
    rate ← for_each (Group.groups group) (fun groupName rate =>
      groupTmp ← Schedule.getGroup schedule groupName reportStepIdx;
      sub ← sumSolventRates fuel groupTmp schedule wellState reportStepIdx injector;
      Ok (rate + sub)) 0;
    rate ← for_each (Group.wells group)
             (add_well_solvent_rate schedule wellState reportStepIdx injector) rate;
    let gefac := Group.getGroupEfficiencyFactor group in
    Ok (gefac * rate)
  end.

(** The body of the loop over the wells of a group in [getGuideRate]. *)
Definition add_producer_guide_rate (schedule : Schedule) (wellState : WellState.t)
    (reportStepIdx : nat) (guideRate : GuideRate) (target : GuideRateModel.Target)
    (pu : PhaseUsage) (wellName : string) (totalGuideRate : double) : res double :=
  wellTmp ← Schedule.getWell schedule wellName reportStepIdx;
  if Well.isInjector wellTmp then Ok totalGuideRate
  else if Well.is_SHUT (Well.getStatus wellTmp) then Ok totalGuideRate
  (* Only count wells under group control *)
  else if negb (WellState.isProductionGrup wellState wellName) then Ok totalGuideRate
  else
    rv ← getWellRateVector wellState pu wellName;
    Ok (totalGuideRate + GuideRate.get guideRate wellName target rv).

Fixpoint getGuideRate (fuel : nat) (name : string) (schedule : Schedule)
    (wellState : WellState.t) (reportStepIdx : nat) (guideRate : GuideRate)
    (target : GuideRateModel.Target) (pu : PhaseUsage) : res double :=
  match fuel with
  | O => OutOfFuel
  | S fuel =>
    if Schedule.hasWell schedule name reportStepIdx then
      rv ← getWellRateVector wellState pu name;
      Ok (GuideRate.get guideRate name target rv)
    else if GuideRate.has guideRate name then
      rv ← getProductionGroupRateVector wellState pu name;
      Ok (GuideRate.get guideRate name target rv)
    else
      group ← Schedule.getGroup schedule name reportStepIdx;
      totalGuideRate ← for_each (Group.groups group) (fun groupName totalGuideRate =>
        currentGroupControl ← WellState.currentProductionGroupControl wellState groupName;
        if Group.prod_is_FLD_or_NONE currentGroupControl then
          (* accumulate from sub wells/groups *)
          g ← getGuideRate fuel groupName schedule wellState reportStepIdx guideRate
                target pu;
          Ok (totalGuideRate + g)
        else Ok totalGuideRate) 0;
      for_each (Group.wells group)
        (add_producer_guide_rate schedule wellState reportStepIdx guideRate target pu)
        totalGuideRate
  end.

(** The body of the loop over the wells of a group in [getGuideRateInj]. *)
Definition add_injector_guide_rate (schedule : Schedule) (wellState : WellState.t)
    (reportStepIdx : nat) (guideRate : GuideRate) (target : GuideRateModel.Target)
    (pu : PhaseUsage) (wellName : string) (totalGuideRate : double) : res double :=
  wellTmp ← Schedule.getWell schedule wellName reportStepIdx;
  if negb (Well.isInjector wellTmp) then Ok totalGuideRate
  else if Well.is_SHUT (Well.getStatus wellTmp) then Ok totalGuideRate
  (* Only count wells under group control *)
  else if negb (WellState.isInjectionGrup wellState wellName) then Ok totalGuideRate
  else
    rv ← getWellRateVector wellState pu wellName;
    Ok (totalGuideRate + GuideRate.get guideRate wellName target rv).

Fixpoint getGuideRateInj (fuel : nat) (name : string) (schedule : Schedule)
    (wellState : WellState.t) (reportStepIdx : nat) (guideRate : GuideRate)
    (target : GuideRateModel.Target) (injectionPhase : Phase) (pu : PhaseUsage)
    : res double :=
  match fuel with
  | O => OutOfFuel
  | S fuel =>
    if Schedule.hasWell schedule name reportStepIdx then
      rv ← getWellRateVector wellState pu name;
      Ok (GuideRate.get guideRate name target rv)
    else if GuideRate.has_inj guideRate name injectionPhase then
      GuideRate.get_inj guideRate name injectionPhase
    else
      group ← Schedule.getGroup schedule name reportStepIdx;
      totalGuideRate ← for_each (Group.groups group) (fun groupName totalGuideRate =>
        currentGroupControl ←
          WellState.currentInjectionGroupControl wellState injectionPhase groupName;
        if Group.inj_is_FLD_or_NONE currentGroupControl then
          (* accumulate from sub wells/groups *)
          g ← getGuideRateInj fuel groupName schedule wellState reportStepIdx guideRate
                target injectionPhase pu;
          Ok (totalGuideRate + g)
        else Ok totalGuideRate) 0;
      for_each (Group.wells group)
        (add_injector_guide_rate schedule wellState reportStepIdx guideRate target pu)
        totalGuideRate
  end.

(** ** The chain of groups below FIELD *)

(** [chain_below_FIELD schedule step group l]: [l] lists [group] and its
    ancestors, from [group] up to the group whose parent is FIELD. *)
Inductive chain_below_FIELD (schedule : Schedule) (reportStepIdx : nat)
    : Group -> list Group -> Prop :=
| chain_below_FIELD_top (group : Group) :
    Group.parent group = "FIELD" ->
    chain_below_FIELD schedule reportStepIdx group [group]
| chain_below_FIELD_up (group parentGroup : Group) (l : list Group) :
    Group.parent group <> "FIELD" ->
    Schedule.getGroup schedule (Group.parent group) reportStepIdx = Ok parentGroup ->
    chain_below_FIELD schedule reportStepIdx parentGroup l ->
    chain_below_FIELD schedule reportStepIdx group (group :: l).

(** The product of the efficiency factors of the groups of a list. *)
Definition efficiency_product (l : list Group) : double :=
  foldr (fun g acc => Group.getGroupEfficiencyFactor g * acc) 1 l.

(** ** A three-level field: FIELD, PLAT, SAT *)

Module Field3.
Definition group (name parent : string) (groups wells : list string) (gefac : double)
    : Group :=
  {| Group.name := name; Group.parent := parent;
     Group.groups := groups; Group.wells := wells;
     Group.getGroupEfficiencyFactor := gefac;
     Group.isInjectionGroup := false; Group.isProductionGroup := true;
     Group.hasInjectionControl := fun _ => false;
     Group.injectionControls := fun _ _ => Scenario.no_injection;
     Group.productionControls := fun _ =>
       Scenario.production Group.ProductionCMode.NONE 0;
     Group.productionGroupControlAvailable := true;
     Group.injectionGroupControlAvailable := fun _ => true |}.

(** The platform PLAT, with efficiency factor 1/2, has the producer P1 and
    the satellite SAT, with efficiency factor 1/4, which has the producer
    P2 and the injector I1. *)
Definition FIELD : Group := group "FIELD" "" ["PLAT"] [] 1.
Definition PLAT : Group := group "PLAT" "FIELD" ["SAT"] ["P1"] (dbl 1 2).
Definition SAT : Group := group "SAT" "PLAT" [] ["P2"; "I1"] (dbl 1 4).

Definition well (name groupName : string) (isProducer : bool) (efficiency : double)
    : Well :=
  {| Well.name := name; Well.groupName := groupName; Well.isProducer := isProducer;
     Well.getStatus := Well.Status.OPEN; Well.getEfficiencyFactor := efficiency |}.

Definition schedule : Schedule :=
  {| Schedule.wells_static := {["P1"; "P2"; "I1"]};
     Schedule.at_step := fun _ =>
       {| Schedule.groups := {["FIELD" := FIELD; "PLAT" := PLAT; "SAT" := SAT]};
          Schedule.wells :=
            {["P1" := well "P1" "PLAT" true 1;
              "P2" := well "P2" "SAT" true (dbl 1 2);
              "I1" := well "I1" "SAT" false 1]};
          Schedule.wellgroup_events := fun _ _ => false;
          Schedule.gconsale := ∅;
          Schedule.gconsump :=
            {["PLAT" := fun _ => {| GConSump.consumption_rate := dbl 3 1;
                                    GConSump.import_rate := dbl 5 1 |}]} |} |}.

(** The stored rates (water, oil, gas) of P1, P2 and I1: P1 produces oil
    at 40 and gas at 8, P2 oil at 20, and I1 injects water at 30.  The
    solvent rates of the three wells are -4, -2 and 6. *)
Definition stored_rates : list double :=
  [0; dbl (-40) 1; dbl (-8) 1;  0; dbl (-20) 1; 0;  dbl 30 1; 0; 0].

Definition solvent_rates : list double := [dbl (-4) 1; dbl (-2) 1; dbl 6 1].

Definition wellState : WellState.t :=
  {| WellState.numPhases := 3;
     WellState.wellMap :=
       {["P1" := (0, 0, 1)%nat; "P2" := (1, 1, 1)%nat; "I1" := (2, 2, 1)%nat]};
     WellState.wellIsOwned := fun _ _ => true;
     WellState.wellRates := stored_rates;
     WellState.wellReservoirRates := stored_rates;
     WellState.solventWellRate := vec_at solvent_rates;
     WellState.currentInjectionControls :=
       [Well.InjectorCMode.CMODE_UNDEFINED; Well.InjectorCMode.CMODE_UNDEFINED;
        Well.InjectorCMode.RATE];
     WellState.currentProductionControls :=
       [Well.ProducerCMode.GRUP; Well.ProducerCMode.ORAT;
        Well.ProducerCMode.CMODE_UNDEFINED];
     WellState.isProductionGrup := fun wellName => String.eqb wellName "P1";
     WellState.isInjectionGrup := fun _ => false;
     WellState.getALQ := fun _ => 0;
     WellState.groupState :=
       {| GroupState.production_controls :=
            {["FIELD" := Group.ProductionCMode.NONE; "PLAT" := Group.ProductionCMode.ORAT;
              "SAT" := Group.ProductionCMode.FLD]} |};
     WellState.injection_group_controls :=
       {[(WATER, "FIELD") := Group.InjectionCMode.NONE;
         (WATER, "PLAT") := Group.InjectionCMode.NONE;
         (WATER, "SAT") := Group.InjectionCMode.FLD]};
     WellState.production_group_reduction_rates := ∅;
     WellState.injection_group_reduction_rates := ∅;
     WellState.injection_rein_rates := ∅;
     WellState.injection_vrep_rates := ∅;
     WellState.injection_group_reservoir_rates := ∅;
     WellState.well_rates :=
       {["P1" := [0; dbl 40 1; dbl 8 1]; "P2" := [0; dbl 20 1; 0];
         "I1" := [dbl 30 1; 0; 0]]};
     WellState.production_group_rates := ∅;
     WellState.group_grat_target_from_sales := ∅ |}.

(** A registry in which the wells have the guide rates 3 (P1), 1 (P2) and
    2 (I1), and no group has one. *)
Definition guideRate : GuideRate :=
  {| GuideRate.has := fun _ => false;
     GuideRate.get := fun name _ _ =>
       if String.eqb name "P1" then dbl 3 1
       else if String.eqb name "P2" then 1
       else if String.eqb name "I1" then dbl 2 1 else 0;
     GuideRate.injection_group_values := ∅;
     GuideRate.injection_group_default := fun _ _ _ _ => None |}.
End Field3.

(** ** The gas that a group imports and consumes *)

(** The entry [sum] of the reinjection vector of the group called [name]
    after the import rate has been added and the consumption rate
    subtracted, in this order, which happens at the position of the gas
    phase when that phase is active and the group has a GCONSUMP
    declaration; everywhere else the entry stays as it is. *)
Definition gas_adjusted (schedule : Schedule) (reportStepIdx : nat) (st : SummaryState)
    (pu : PhaseUsage) (name : string) (phase : nat) (sum : double) : double :=
  match Schedule.gconsump (Schedule.at_step schedule reportStepIdx) !! name with
  | Some get =>
    if phase_used pu BlackoilPhases.Vapour
       && Nat.eqb phase (phase_pos pu BlackoilPhases.Vapour)
    then sum + GConSump.import_rate (get st) + - GConSump.consumption_rate (get st)
    else sum
  | None => sum
  end.

(** ** The current rates of a well *)

(** What [updateWellRates] stores for a well: the nupcol rates of the well
    with the sign convention that production and injection rates are both
    positive, and zeros for a well that is not in the well-state map. *)
Definition signed_well_rates (schedule : Schedule) (reportStepIdx : nat)
    (wellStateNupcol wellState : WellState.t) (wellName : string) : list double :=
  let np := WellState.numPhases wellState in
  match WellState.wellMap wellState !! wellName with
  | Some it =>
    let sign : double :=
      match Schedule.wells (Schedule.at_step schedule reportStepIdx) !! wellName with
      | Some w => if Well.isInjector w then 1 else - 1
      | None => 1
      end in
    map (fun phase => sign * vec_at (WellState.wellRates wellStateNupcol)
                               (it.1.1 * np + phase)) (seq 0 np)
  | None => vec_zero np
  end.

(** The state [ws] holds the signed rates for the wells that [Q] selects,
    and what the helpers read in it is what they read in [ws0]. *)
Definition signed_rates_stored (schedule : Schedule) (reportStepIdx : nat)
    (wellStateNupcol ws0 : WellState.t) (Q : string -> Prop) (ws : WellState.t) : Prop :=
  WellState.reads ws = WellState.reads ws0
  /\ forall wellName,
       Q wellName ->
       WellState.well_rates ws !! wellName
       = Some (signed_well_rates schedule reportStepIdx wellStateNupcol ws0 wellName).

(** ** The order of the nodes of the network *)

(** [node] is at the lower end of a branch that leaves [parent]. *)
Definition child_of (network : Network.ExtNetwork) (parent node : string) : Prop :=
  exists branch,
    branch ∈ Network.downtree_branches network parent
    /\ Network.downtree_node branch = node.

(** Every element of [order] but the first comes after a node of which it
    is a child. *)
Definition parents_first (network : Network.ExtNetwork) (order : list string) : Prop :=
  forall i node,
    order !! S i = Some node ->
    exists j parent,
      (j <= i)%nat /\ order !! j = Some parent /\ child_of network parent node.

(** A network of three nodes: the root PLAT with the fixed pressure 50,
    the manifold MANI below it, on a branch with the VFP table 1, and the
    leaf G1 below the manifold, on a branch without a table. *)
Module Network3.
Definition branch_MANI : Network.Branch :=
  {| Network.downtree_node := "MANI"; Network.uptree_node := "PLAT";
     Network.vfp_table := Some 1%nat |}.

Definition branch_G1 : Network.Branch :=
  {| Network.downtree_node := "G1"; Network.uptree_node := "MANI";
     Network.vfp_table := None |}.

Definition node (name : string) (terminal_pressure : option double) : Network.Node :=
  {| Network.name := name; Network.terminal_pressure := terminal_pressure;
     Network.add_gas_lift_gas := false |}.

Definition network : Network.ExtNetwork :=
  {| Network.active := true;
     Network.root_name := "PLAT";
     Network.nodes :=
       {["PLAT" := node "PLAT" (Some (dbl 50 1)); "MANI" := node "MANI" None;
         "G1" := node "G1" None]};
     Network.downtree_branches := fun name =>
       if String.eqb name "PLAT" then [branch_MANI]
       else if String.eqb name "MANI" then [branch_G1] else [];
     Network.uptree_branch := fun name =>
       if String.eqb name "MANI" then Some branch_MANI
       else if String.eqb name "G1" then Some branch_G1 else None |}.

(** A table in which the pressure loss is the gas rate. *)
Definition vfp : VFPProdProperties :=
  {| bhp := fun _ aqua liquid vapour thp alq => thp - vapour |}.
End Network3.

(** ** The controls that [setCmodeGroup] writes, key by key *)

(** What a sequence of the statements of [setCmodeGroup] does to the
    control stored under one key: nothing, a default for a missing control,
    or a new control. *)
Inductive control_update (V : Type) : Type :=
| keep
| fill (dflt : V)
| put (v : V).
Arguments keep {V}.
Arguments fill {V} dflt.
Arguments put {V} v.

Definition apply_update {V : Type} (u : control_update V) (o : option V) : option V :=
  match u with
  | keep => o
  | fill dflt => Some (default dflt o)
  | put v => Some v
  end.

(** [u1] followed by [u2]. *)
Definition then_update {V : Type} (u1 u2 : control_update V) : control_update V :=
  match u2 with
  | keep => u1
  | put v => put v
  | fill dflt =>
    match u1 with
    | keep => fill dflt
    | fill dflt1 => fill dflt1
    | put v => put v
    end
  end.

(** The statements of [setCmodeGroup] for [group], seen from the injection
    control of [phase] and the group called [name]. *)
Definition injection_update (schedule : Schedule) (summaryState : SummaryState)
    (reportStepIdx : nat) (group : Group) (phase : Phase) (name : string)
    : control_update Group.InjectionCMode.t :=
  if String.eqb name (Group.name group) then
    let events := Schedule.wellgroup_events (Schedule.at_step schedule reportStepIdx) in
    let dflt :=
      if bool_decide (phase ∈ all_phases) then fill Group.InjectionCMode.NONE else keep in
    let event :=
      if Group.isInjectionGroup group
         && events (Group.name group) ScheduleEvents.GROUP_INJECTION_UPDATE
         && bool_decide (phase ∈ all_phases)
         && Group.hasInjectionControl group phase
      then put (Group.inj_cmode (Group.injectionControls group phase summaryState))
      else keep in
    let sale :=
      if bool_decide (is_Some (Schedule.gconsale (Schedule.at_step schedule reportStepIdx)
                                 !! Group.name group))
         && bool_decide (phase = GAS)
      then put Group.InjectionCMode.SALE
      else keep in
    then_update (then_update dflt event) sale
  else keep.

(** The same for the production control of the group called [name]. *)
Definition production_update (schedule : Schedule) (summaryState : SummaryState)
    (reportStepIdx : nat) (group_state : GroupStateRef) (group : Group) (name : string)
    : control_update Group.ProductionCMode.t :=
  if String.eqb name (Group.name group) then
    let events := Schedule.wellgroup_events (Schedule.at_step schedule reportStepIdx) in
    let dflt :=
      match group_state with
      | group_state_of_wellState => fill Group.ProductionCMode.NONE
      | group_state_object gs =>
        if GroupState.has_production_control gs (Group.name group) then keep
        else put Group.ProductionCMode.NONE
      end in
    let event :=
      if Group.isProductionGroup group
         && events (Group.name group) ScheduleEvents.GROUP_PRODUCTION_UPDATE
      then put (Group.cmode (Group.productionControls group summaryState))
      else keep in
    then_update dflt event
  else keep.

(** The updates of the groups of a list, one after the other. *)
Definition updates_of {V : Type} (update : Group -> control_update V) (G : list Group)
    : control_update V :=
  foldl (fun u g => then_update u (update g)) keep G.

(** What [setCmodeGroup] does not write: everything in the well state but
    the group controls. *)
Definition besides_group_controls (ws : WellState.t) :=
  (WellState.numPhases ws, WellState.wellMap ws, WellState.wellIsOwned ws,
   WellState.wellRates ws, WellState.wellReservoirRates ws, WellState.solventWellRate ws,
   WellState.currentInjectionControls ws, WellState.currentProductionControls ws,
   WellState.isProductionGrup ws, WellState.isInjectionGrup ws, WellState.getALQ ws,
   WellState.production_group_reduction_rates ws,
   WellState.injection_group_reduction_rates ws, WellState.injection_rein_rates ws,
   WellState.injection_vrep_rates ws, WellState.injection_group_reservoir_rates ws,
   WellState.well_rates ws, WellState.production_group_rates ws,
   WellState.group_grat_target_from_sales ws).

(** [wellState'] is [wellState] with the group controls updated key by
    key. *)
Definition controls_updated
    (inj : Phase -> string -> control_update Group.InjectionCMode.t)
    (prod : string -> control_update Group.ProductionCMode.t)
    (wellState wellState' : WellState.t) : Prop :=
  besides_group_controls wellState' = besides_group_controls wellState
  /\ (forall phase name,
        injection_control_of wellState' phase name
        = apply_update (inj phase name) (injection_control_of wellState phase name))
  /\ (forall name,
        production_control_of wellState' name
        = apply_update (prod name) (production_control_of wellState name)).

(** ** A group that sells gas *)

Module Sales.
(** GS, below FIELD, is an injection group whose gas injection controls
    declare the mode RATE, and a production group under oil-rate control;
    both controls are updated at the report step, and GS has a gas-sale
    declaration. *)
Definition GS : Group :=
  {| Group.name := "GS"; Group.parent := "FIELD";
     Group.groups := []; Group.wells := [];
     Group.getGroupEfficiencyFactor := 1;
     Group.isInjectionGroup := true; Group.isProductionGroup := true;
     Group.hasInjectionControl := fun phase => bool_decide (phase = GAS);
     Group.injectionControls := fun _ _ =>
       {| Group.inj_cmode := Group.InjectionCMode.RATE;
          Group.surface_max_rate := dbl 10 1; Group.resv_max_rate := 0;
          Group.target_reinj_fraction := 0; Group.target_void_fraction := 0;
          Group.guide_rate_def := Group.GuideRateInjTarget.RATE |};
     Group.productionControls := fun _ =>
       Scenario.production Group.ProductionCMode.ORAT (dbl 100 1);
     Group.productionGroupControlAvailable := true;
     Group.injectionGroupControlAvailable := fun _ => true |}.

Definition FIELD : Group := Scenario.field ["GS"].

Definition schedule : Schedule :=
  {| Schedule.wells_static := ∅;
     Schedule.at_step := fun _ =>
       {| Schedule.groups := {["FIELD" := FIELD; "GS" := GS]};
          Schedule.wells := ∅;
          Schedule.wellgroup_events := fun name _ => String.eqb name "GS";
          Schedule.gconsale :=
            {["GS" := fun _ => {| GConSale.sales_target := dbl 7 1;
                                  GConSale.max_sales_rate := dbl 9 1;
                                  GConSale.min_sales_rate := 0 |}]};
          Schedule.gconsump := ∅ |} |}.
End Sales.

(** ** Wells under a control of their own *)

(** The well is in the well-state map and its current control, for the
    role asked for, is not the group control GRUP. *)
Definition individually_controlled (wellState : WellState.t) (isInjector : bool)
    (wellName : string) : bool :=
  match WellState.wellMap wellState !! wellName with
  | Some it =>
    if isInjector
    then negb (Well.inj_is_GRUP
                 (default Well.InjectorCMode.CMODE_UNDEFINED
                    (WellState.currentInjectionControls wellState !! it.1.1)))
    else negb (Well.prod_is_GRUP
                 (default Well.ProducerCMode.CMODE_UNDEFINED
                    (WellState.currentProductionControls wellState !! it.1.1)))
  | None => false
  end.

(** ** The sums in binary64 arithmetic *)

(** Whether a sum of products is the product of a factor and a sum
    depends on the rounding of the machine.  This module has
    [sumWellPhaseRates] once more, on the same records and with the same
    control flow, in the arithmetic of IEEE 754 binary64 numbers: every
    number is rounded to the nearest binary64 number where the function
    reads it, and every operation is that of the kernel's primitive
    floats. *)
Module Binary64.

(** The binary64 number nearest to an integer below 2^63 in absolute
    value; exact below 2^53. *)
Definition of_Z (z : Z) : float :=
  match z with
  | Z0 => PrimFloat.zero
  | Zpos _ => PrimFloat.of_uint63 (Uint63.of_Z z)
  | Zneg p => PrimFloat.opp (PrimFloat.of_uint63 (Uint63.of_Z (Zpos p)))
  end.

(** The binary64 number nearest to a rational whose numerator and
    denominator are below 2^53 in absolute value: the quotient of the two,
    which are exact, rounded once. *)
Definition of_double (x : double) : float :=
  PrimFloat.div (of_Z (Qnum x)) (of_Z (Zpos (Qden x))).

(** The body of the loop over the wells of a group in
    [sumWellPhaseRates]. *)
Definition add_well_rate (rates : list double) (schedule : Schedule)
    (wellState : WellState.t) (reportStepIdx : nat) (phasePos : nat) (injector : bool)
    (wellName : string) (rate : float) : res float :=
  match WellState.wellMap wellState !! wellName with
  | None => Ok rate (* the well is not found *)
  | Some it =>
    let well_index := it.1.1 in
    if negb (WellState.wellIsOwned wellState well_index wellName)
    then Ok rate (* Only sum once *)
    else
      wellEcl ← Schedule.getWell schedule wellName reportStepIdx;
      (* only count producers or injectors *)
      if (Well.isProducer wellEcl && injector)
         || (Well.isInjector wellEcl && negb injector) then Ok rate
      else if Well.is_SHUT (Well.getStatus wellEcl) then Ok rate
      else
        let factor := of_double (Well.getEfficiencyFactor wellEcl) in
        let wellrate_index := (well_index * WellState.numPhases wellState)%nat in
        if injector
        then Ok (PrimFloat.add rate
                   (PrimFloat.mul factor
                      (of_double (vec_at rates (wellrate_index + phasePos)))))
        else Ok (PrimFloat.sub rate
                   (PrimFloat.mul factor
                      (of_double (vec_at rates (wellrate_index + phasePos)))))
  end.

Fixpoint sumWellPhaseRates (fuel : nat) (rates : list double) (group : Group)
    (schedule : Schedule) (wellState : WellState.t) (reportStepIdx : nat)
    (phasePos : nat) (injector : bool) : res float :=
  match fuel with
  | O => OutOfFuel
  | S fuel =>
    rate ← for_each (Group.groups group) (fun groupName rate =>
      groupTmp ← Schedule.getGroup schedule groupName reportStepIdx;
      sub ← sumWellPhaseRates fuel rates groupTmp schedule wellState reportStepIdx
              phasePos injector;
      Ok (PrimFloat.add rate sub)) PrimFloat.zero;
    rate ← for_each (Group.wells group)
             (add_well_rate rates schedule wellState reportStepIdx phasePos injector) rate;
    let gefac := of_double (Group.getGroupEfficiencyFactor group) in
    Ok (PrimFloat.mul gefac rate)
  end.

Definition sumWellRates (fuel : nat) (group : Group) (schedule : Schedule)
    (wellState : WellState.t) (reportStepIdx : nat) (phasePos : nat)
    (injector : bool) : res float :=
  sumWellPhaseRates fuel (WellState.wellRates wellState) group schedule wellState
    reportStepIdx phasePos injector.

(** The sum as the specification words it, in the same arithmetic: the
    wells of the tree with the products of the efficiency factors of their
    ancestors, and the sum of the normalised rates times these factors. *)
Fixpoint wells_below (fuel : nat) (schedule : Schedule) (reportStepIdx : nat)
    (group : Group) (chain_factor : float) : list (string * float) :=
  match fuel with
  | O => []
  | S fuel =>
    let chain_factor :=
      PrimFloat.mul chain_factor (of_double (Group.getGroupEfficiencyFactor group)) in
    (flat_map (fun groupName =>
       match Schedule.groups (Schedule.at_step schedule reportStepIdx) !! groupName with
       | Some sub => wells_below fuel schedule reportStepIdx sub chain_factor
       | None => []
       end) (Group.groups group)
     ++ map (fun wellName => (wellName, chain_factor)) (Group.wells group))%list
  end.

Definition normalized_rate (rates : list double) (wellState : WellState.t)
    (phasePos : nat) (injector : bool) (well_index : nat) : float :=
  let r := of_double (vec_at rates (well_index * WellState.numPhases wellState + phasePos)) in
  if injector then r else PrimFloat.opp r.

Definition weighted_rate_sum (rates : list double) (schedule : Schedule)
    (wellState : WellState.t) (reportStepIdx : nat) (phasePos : nat) (injector : bool)
    (l : list (string * float)) : float :=
  foldr (fun '(wellName, chain_factor) acc =>
           match counted_well schedule wellState reportStepIdx injector wellName with
           | Some (w, well_index) =>
               PrimFloat.add
                 (PrimFloat.mul
                    (PrimFloat.mul
                       (normalized_rate rates wellState phasePos injector well_index)
                       (of_double (Well.getEfficiencyFactor w)))
                    chain_factor)
                 acc
           | None => acc
           end) PrimFloat.zero l.

End Binary64.

(** ** A group with the efficiency factor 9/10 *)

(** G1, below FIELD, has the efficiency factor 9/10 and the two producers
    of the two-level scenario, W1 and W2, which produce oil at 40 and at 2
    and have the efficiency factor 1. *)
Module Derated.
Definition FIELD : Group := Field3.group "FIELD" "" ["G1"] [] 1.
Definition G1 : Group := Field3.group "G1" "FIELD" [] ["W1"; "W2"] (dbl 9 10).

Definition schedule : Schedule :=
  {| Schedule.wells_static := {["W1"; "W2"]};
     Schedule.at_step := fun _ =>
       {| Schedule.groups := {["FIELD" := FIELD; "G1" := G1]};
          Schedule.wells :=
            {["W1" := Field3.well "W1" "G1" true 1;
              "W2" := Field3.well "W2" "G1" true 1]};
          Schedule.wellgroup_events := fun _ _ => false;
          Schedule.gconsale := ∅;
          Schedule.gconsump := ∅ |} |}.

Definition wellState : WellState.t := Scenario.wellState Scenario.stored_rates.
End Derated.

(** * Properties *)

(** ** Generalities on the result monad *)

Lemma bind_Ok {A B : Type} (m : res A) (f : A -> res B) (b : B) :
  (m ≫= f) = Ok b -> exists a, m = Ok a /\ f a = Ok b.
Proof. destruct m as [a| |]; simpl; intros H; try discriminate. by exists a. Qed.

Lemma for_each_app {A S : Type} (l1 l2 : list A) (body : A -> S -> res S) (s : S) :
  for_each (l1 ++ l2) body s = (for_each l1 body s ≫= for_each l2 body).
Proof.
  revert s. induction l1 as [|x l1 IH]; intros s; simpl; [done|].
  destruct (body x s); simpl; auto.
Qed.

Lemma getGroup_Some (schedule : Schedule) (groupName : string) (step : nat) (g : Group) :
  Schedule.groups (Schedule.at_step schedule step) !! groupName = Some g ->
  Schedule.getGroup schedule groupName step = Ok g.
Proof. unfold Schedule.getGroup. by intros ->. Qed.

Lemma getWell_Some (schedule : Schedule) (wellName : string) (step : nat) (w : Well) :
  Schedule.wells (Schedule.at_step schedule step) !! wellName = Some w ->
  Schedule.getWell schedule wellName step = Ok w.
Proof. unfold Schedule.getWell. by intros ->. Qed.

(** ** Rate aggregation *)

#[local] Arguments weighted_rate_sum : simpl never.

Section RateSum.
Variables (rates : list double) (schedule : Schedule) (wellState : WellState.t).
Variables (reportStepIdx phasePos : nat) (injector : bool).

Local Abbreviation wsum :=
  (weighted_rate_sum rates schedule wellState reportStepIdx phasePos injector).

Lemma weighted_rate_sum_app (l1 l2 : list (string * double)) :
  wsum (l1 ++ l2) = wsum l1 + wsum l2.
Proof.
  unfold weighted_rate_sum. induction l1 as [|[w c] l1 IH]; simpl.
  - ring.
  - rewrite IH. destruct (counted_well _ _ _ _ w) as [[? ?]|]; ring.
Qed.

Lemma add_well_rate_spec (wellName : string) (c rate : double) :
  Schedule.hasWell schedule wellName reportStepIdx = true ->
  exists r,
    add_well_rate rates schedule wellState reportStepIdx phasePos injector wellName rate = Ok r
    /\ c * r = c * rate + wsum [(wellName, c)].
Proof.
  intros Hw. apply bool_decide_eq_true in Hw as [w Hw].
  unfold add_well_rate, weighted_rate_sum, counted_well, normalized_rate,
    Schedule.getWell, Well.isInjector. simpl.
  destruct (WellState.wellMap wellState !! wellName) as [[[idx a] b]|]; simpl.
  2:{ eexists; split; [done | ring]. }
  destruct (WellState.wellIsOwned wellState idx wellName); simpl.
  2:{ eexists; split; [done | ring]. }
  rewrite Hw. simpl.
  destruct (Well.isProducer w), injector, (Well.is_SHUT (Well.getStatus w)); simpl;
    (eexists; split; [done | ring]).
Qed.

Lemma add_well_rate_loop (wellNames : list string) (c rate : double) :
  forallb (fun wellName => Schedule.hasWell schedule wellName reportStepIdx) wellNames = true ->
  exists r,
    for_each wellNames
      (add_well_rate rates schedule wellState reportStepIdx phasePos injector) rate = Ok r
    /\ c * r = c * rate + wsum (map (fun wellName => (wellName, c)) wellNames).
Proof.
  revert rate. induction wellNames as [|w l IH]; intros rate Hall; simpl.
  - exists rate. split; [done|]. unfold weighted_rate_sum. simpl. ring.
  - simpl in Hall. apply andb_prop in Hall as [Hw Hl].
    destruct (add_well_rate_spec w c rate Hw) as (r1 & -> & E1). simpl.
    destruct (IH r1 Hl) as (r2 & -> & E2).
    exists r2. split; [done|].
    change ((w, c) :: map (fun wellName => (wellName, c)) l)
      with ([(w, c)] ++ map (fun wellName => (wellName, c)) l)%list.
    rewrite weighted_rate_sum_app, E2, E1. ring.
Qed.

Lemma sumWellPhaseRates_spec (fuel : nat) :
  forall (group : Group) (c : double),
    group_tree_ok fuel schedule reportStepIdx group = true ->
    exists r,
      sumWellPhaseRates fuel rates group schedule wellState reportStepIdx phasePos injector
        = Ok r
      /\ c * r = wsum (wells_below fuel schedule reportStepIdx group c).
Proof.
  induction fuel as [|fuel IH]; intros group c Hok; [discriminate|].
  simpl in Hok. apply andb_prop in Hok as [Hg Hw].
  set (c' := c * Group.getGroupEfficiencyFactor group).
  assert (Hsub : forall acc, exists r,
    for_each (Group.groups group) (fun groupName rate =>
      groupTmp ← Schedule.getGroup schedule groupName reportStepIdx;
      sub ← sumWellPhaseRates fuel rates groupTmp schedule wellState reportStepIdx
              phasePos injector;
      Ok (rate + sub)) acc = Ok r
    /\ c' * r = c' * acc
        + wsum (flat_map (fun groupName =>
            match Schedule.groups (Schedule.at_step schedule reportStepIdx) !! groupName with
            | Some sub => wells_below fuel schedule reportStepIdx sub c'
            | None => []
            end) (Group.groups group))).
  { clear Hw. induction (Group.groups group) as [|g l IHl]; intros acc; simpl.
    - exists acc. split; [done|]. unfold weighted_rate_sum. simpl. ring.
    - simpl in Hg. apply andb_prop in Hg as [Hg1 Hg2].
      destruct (Schedule.groups (Schedule.at_step schedule reportStepIdx) !! g)
        as [sub|] eqn:Eg; [|discriminate].
      rewrite (getGroup_Some _ _ _ _ Eg). simpl.
      destruct (IH sub c' Hg1) as (r1 & -> & E1). simpl.
      destruct (IHl Hg2 (acc + r1)) as (r2 & -> & E2).
      exists r2. split; [done|].
      rewrite weighted_rate_sum_app, E2, <- E1. ring. }
  destruct (Hsub 0) as (r1 & E1 & S1).
  destruct (add_well_rate_loop (Group.wells group) c' r1 Hw) as (r2 & E2 & S2).
  exists (Group.getGroupEfficiencyFactor group * r2). split.
  - simpl. rewrite E1. simpl. rewrite E2. done.
  - simpl. fold c'. rewrite weighted_rate_sum_app.
    transitivity (c' * r2); [unfold c'; ring|].
    rewrite S2, S1. ring.
Qed.

End RateSum.

(** C4, as the code has it.  On a finite group tree, and in exact
    arithmetic, [sumWellRates] applied to the root group returns the sum,
    over the wells of the tree that count for the role (present in the
    well-state map, owned by this process, of the role asked for, not
    shut), of the sign-normalised phase rate times the well's efficiency
    factor times the product of the efficiency factors of the groups on
    the well's chain of ancestors.  The function itself multiplies the sum
    of a group by the efficiency factor of the group; that this is the sum
    of the products is the distributive law. *)
Theorem sumWellRates_is_weighted_sum (fuel : nat) (root : Group) (schedule : Schedule)
    (wellState : WellState.t) (reportStepIdx phasePos : nat) (injector : bool) :
  group_tree_ok fuel schedule reportStepIdx root = true ->
  sumWellRates fuel root schedule wellState reportStepIdx phasePos injector
  = Ok (weighted_rate_sum (WellState.wellRates wellState) schedule wellState
          reportStepIdx phasePos injector
          (wells_below fuel schedule reportStepIdx root 1)).
Proof.
  intros Hok. unfold sumWellRates.
  destruct (sumWellPhaseRates_spec (WellState.wellRates wellState) schedule wellState
              reportStepIdx phasePos injector fuel root 1 Hok) as (r & -> & E).
  f_equal. rewrite <- E. ring.
Qed.

(** ** The two-level scenario *)

(** Evaluation of a closed call that returns a number. *)
Ltac eval_res :=
  lazymatch goal with
  | |- ?X = Ok ?q =>
    let v := eval vm_compute in X in
    transitivity v;
    [ vm_compute; reflexivity
    | first [ reflexivity | apply (f_equal Ok), Qc_is_canon; vm_compute; reflexivity ] ]
  end.

Lemma scenario_chain :
  groupChainTopBot 2 "W1" "G1" Scenario.schedule 0 = Ok ["G1"; "W1"].
Proof. reflexivity. Qed.

Lemma scenario_localFraction (wellRates : list double) (target : GuideRateModel.Target) :
  FractionCalculator.localFraction 2
    {| FractionCalculator.schedule_ := Scenario.schedule;
       FractionCalculator.summary_state_ := ∅;
       FractionCalculator.well_state_ := Scenario.wellState wellRates;
       FractionCalculator.report_step_ := 0;
       FractionCalculator.guide_rate_ := Scenario.guideRate;
       FractionCalculator.target_ := target;
       FractionCalculator.pu_ := Scenario.pu;
       FractionCalculator.is_producer_ := true;
       FractionCalculator.injection_phase_ := OIL |} "W1" "W1"
  = Ok (dbl 3 4).
Proof. eval_res. Qed.

Lemma check_W1_formula (rates : list double) :
  Scenario.check_W1 2 rates
  = Ok (AgainstTarget (- vec_at rates 1)
          (std_max target_rate_floor (dbl 3 4 * (dbl 100 1 + - vec_at rates 1)))).
Proof.
  unfold Scenario.check_W1.
  cbn [checkGroupConstraintsProd_outcome].
  change (WellState.currentProductionGroupControl _ (Group.name Scenario.G1))
    with (Ok (A := Group.ProductionCMode.t) Group.ProductionCMode.ORAT).
  cbn [mbind res_bind Group.prod_is_FLD_or_NONE Group.isProductionGroup Scenario.G1 negb].
  change (WellState.hasGroupGratTargetFromSales _ _) with false.
  cbn [mbind res_bind Group.name Group.getGroupEfficiencyFactor Group.productionControls
       Scenario.G1].
  rewrite scenario_chain.
  cbn [mbind res_bind]. unfold chain_target.
  cbn [length Nat.sub seq for_each local_reduction_level_of foldl Nat.eqb orb Nat.ltb
       Nat.leb lookup list_lookup default mbind res_bind].
  change (WellState.currentProductionGroupReductionRates _ "G1")
    with (Ok (vec_zero 3)).
  cbn [mbind res_bind TargetCalculator.guideTargetMode TargetCalculator_spec].
  rewrite scenario_localFraction.
  cbn [mbind res_bind TargetCalculator.calcModeRateFromRates TargetCalculator.groupTarget
       TargetCalculator_spec Scenario.production Group.oil_target phase_pos Scenario.pu
       BlackoilPhases.index].
  change (WellState.currentProductionGroupReductionRates _ _)
    with (Ok (vec_zero 3)).
  cbn [mbind res_bind]. do 2 f_equal.
  change (vec_at (vec_zero 3) 1) with (Q2Qc 0). f_equal.
  field. discriminate.
Qed.

Lemma check_W1_idle :
  Scenario.check_W1 2 [0; 0; 0] = Ok (AgainstTarget 0 (dbl 75 1)).
Proof. rewrite check_W1_formula. do 2 f_equal; apply Qc_is_canon; reflexivity. Qed.

(** C1, as the code has it.  In the two-level scenario (G1 under oil-rate
    control with target 100, guide rates 3 and 1, both wells producers
    under group control, efficiency factors 1, stored reduction of G1
    zero), the checker called for W1 adds the current rate of W1 back to the
    target before it takes the share of W1: the target rate is the maximum
    of 1e-12 and 3/4 of (100 + current rate), where the current rate is the
    negated stored oil rate of W1.  It is 75 when W1 does not flow. *)
Theorem scenario_target_rate :
  (forall rates : list double,
     let current_rate := - vec_at rates 1 in
     Scenario.check_W1 2 rates
     = Ok (AgainstTarget current_rate
             (std_max target_rate_floor (dbl 3 4 * (dbl 100 1 + current_rate)))))
  /\ Scenario.check_W1 2 [0; 0; 0] = Ok (AgainstTarget 0 (dbl 75 1)).
Proof.
  split.
  - intros rates. apply check_W1_formula.
  - apply check_W1_idle.
Qed.

(** C1, as the specification words it, fails: with a stored oil rate of
    -40 for W1 the target rate is 105, not 75. *)
Lemma scenario_target_rate_not_75 :
  ~ (forall rates : list double,
       exists current_rate,
         Scenario.check_W1 2 rates = Ok (AgainstTarget current_rate (dbl 75 1))).
Proof.
  intros H. destruct (H [0; dbl (-40) 1; 0]) as [c Hc].
  rewrite check_W1_formula in Hc.
  assert (E : std_max target_rate_floor
                (dbl 3 4 * (dbl 100 1 + - vec_at [0; dbl (-40) 1; 0] 1)) = dbl 75 1)
    by congruence.
  apply (f_equal this) in E. vm_compute in E. discriminate.
Qed.

(** The sum of the oil rates of PLAT in the three-level field, where the
    efficiency factors are 1/2 (PLAT), 1/4 (SAT) and 1/2 (the well P2):
    40 * 1/2 from P1 and 20 * 1/2 * (1/2 * 1/4) from P2, which is 85/4. *)
Lemma sumWellRates_is_weighted_sum_witness :
  sumWellRates 3 Field3.PLAT Field3.schedule Field3.wellState 0 1 false
  = Ok (weighted_rate_sum (WellState.wellRates Field3.wellState) Field3.schedule
          Field3.wellState 0 1 false (wells_below 3 Field3.schedule 0 Field3.PLAT 1))
  /\ weighted_rate_sum (WellState.wellRates Field3.wellState) Field3.schedule
       Field3.wellState 0 1 false (wells_below 3 Field3.schedule 0 Field3.PLAT 1)
     = dbl 85 4.
Proof.
  split.
  - apply (sumWellRates_is_weighted_sum 3 Field3.PLAT Field3.schedule Field3.wellState
             0 1 false).
    reflexivity.
  - apply Qc_is_canon. vm_compute. reflexivity.
Defined.

(** In binary64 arithmetic the sum of G1 (efficiency factor 9/10, wells
    producing 40 and 2) is 0.9 * (40 + 2), which is
    37.800000000000004 (0x1.2e66666666667p+5); the sum of the products,
    40 * 0.9 + 2 * 0.9, in either order, is the binary64 number nearest to
    37.8 (0x1.2e66666666666p+5). *)
Lemma derated_sums :
  Binary64.sumWellRates 2 Derated.FIELD Derated.schedule Derated.wellState 0 1 false
  = Ok 0x1.2e66666666667p+5%float
  /\ Binary64.weighted_rate_sum (WellState.wellRates Derated.wellState) Derated.schedule
       Derated.wellState 0 1 false
       (Binary64.wells_below 2 Derated.schedule 0 Derated.FIELD PrimFloat.one)
     = 0x1.2e66666666666p+5%float
  /\ PrimFloat.add
       (PrimFloat.mul (Binary64.of_double (dbl 2 1)) (Binary64.of_double (dbl 9 10)))
       (PrimFloat.mul (Binary64.of_double (dbl 40 1)) (Binary64.of_double (dbl 9 10)))
     = 0x1.2e66666666666p+5%float.
Proof. repeat split; vm_compute; reflexivity. Qed.

(** C4, as the specification words it, fails in the arithmetic of the
    machine: for G1 under FIELD the sum that [sumWellRates] returns
    differs, in the last binary digit, from the sum of the products of the
    rates and the efficiency factors. *)
Lemma sumWellRates_not_weighted_sum_binary64 :
  ~ (forall (fuel : nat) (root : Group) (schedule : Schedule) (wellState : WellState.t)
       (reportStepIdx phasePos : nat) (injector : bool),
       group_tree_ok fuel schedule reportStepIdx root = true ->
       Binary64.sumWellRates fuel root schedule wellState reportStepIdx phasePos injector
       = Ok (Binary64.weighted_rate_sum (WellState.wellRates wellState) schedule
               wellState reportStepIdx phasePos injector
               (Binary64.wells_below fuel schedule reportStepIdx root PrimFloat.one))).
Proof.
  intros H.
  specialize (H 2%nat Derated.FIELD Derated.schedule Derated.wellState 0%nat 1%nat false
                eq_refl).
  destruct derated_sums as (Hnested & Hflat & _). rewrite Hnested, Hflat in H.
  apply (f_equal (fun r => match r with
                           | Ok x => PrimFloat.eqb x 0x1.2e66666666666p+5%float
                           | _ => true
                           end)) in H.
  vm_compute in H. discriminate.
Qed.

(** ** The constraint checkers *)

Ltac bind_inv H :=
  let x := fresh "x" in
  let E := fresh "E" in
  apply bind_Ok in H as (x & E & H).

Tactic Notation "bind_split" hyp(H) "as" ident(x) ident(E) :=
  apply bind_Ok in H as (x & E & H).

Lemma std_max_ge_l (a b : double) : a <= std_max a b.
Proof.
  unfold std_max. destruct (Qclt_le_dec a b) as [Hlt|Hle].
  - by apply Qclt_le_weak.
  - apply Qcle_refl.
Qed.

Section CheckerProperties.
Variable new_TargetCalculator :
  Group.ProductionCMode.t -> PhaseUsage -> list double -> double -> TargetCalculator.t.
Variable new_InjectionTargetCalculator :
  Group.InjectionCMode.t -> PhaseUsage -> list double -> string -> double ->
  WellState.t -> Phase -> res InjectionTargetCalculator.t.

Lemma prod_target_rate_floored (fuel : nat) :
  forall (name parent : string) (group : Group) (wellState : WellState.t)
    (reportStepIdx : nat) (guideRate : GuideRate) (rates : list double) (pu : PhaseUsage)
    (efficiencyFactor : double) (schedule : Schedule) (summaryState : SummaryState)
    (resv_coeff : list double) (current_rate target_rate : double),
    checkGroupConstraintsProd_outcome new_TargetCalculator fuel name parent group wellState
      reportStepIdx guideRate rates pu efficiencyFactor schedule summaryState resv_coeff
    = Ok (AgainstTarget current_rate target_rate) ->
    target_rate_floor <= target_rate.
Proof.
  induction fuel as [|fuel IH]; intros until target_rate; intros H; [discriminate|].
  cbn [checkGroupConstraintsProd_outcome] in H.
  bind_inv H. destruct (Group.prod_is_FLD_or_NONE x).
  - destruct (Group.productionGroupControlAvailable group); [|discriminate].
    cbn [negb] in H. bind_inv H. by eapply IH.
  - destruct (Group.isProductionGroup group); [|discriminate].
    cbn [negb] in H. do 3 bind_inv H.
    injection H as _ <-. apply std_max_ge_l.
Qed.

Lemma inj_target_rate_floored (fuel : nat) :
  forall (name parent : string) (group : Group) (wellState : WellState.t)
    (reportStepIdx : nat) (guideRate : GuideRate) (rates : list double)
    (injectionPhase : Phase) (pu : PhaseUsage)
    (efficiencyFactor : double) (schedule : Schedule) (summaryState : SummaryState)
    (resv_coeff : list double) (current_rate target_rate : double),
    checkGroupConstraintsInj_outcome new_InjectionTargetCalculator fuel name parent group
      wellState reportStepIdx guideRate rates injectionPhase pu efficiencyFactor schedule
      summaryState resv_coeff
    = Ok (AgainstTarget current_rate target_rate) ->
    target_rate_floor <= target_rate.
Proof.
  induction fuel as [|fuel IH]; intros until target_rate; intros H; [discriminate|].
  cbn [checkGroupConstraintsInj_outcome] in H.
  bind_inv H. destruct (Group.inj_is_FLD_or_NONE x).
  - destruct (Group.injectionGroupControlAvailable group injectionPhase); [|discriminate].
    cbn [negb] in H. bind_inv H. by eapply IH.
  - destruct (Group.isInjectionGroup group); [|discriminate].
    cbn [negb] in H. do 4 bind_inv H.
    injection H as _ <-. apply std_max_ge_l.
Qed.

Lemma prod_unconstrained (schedule : Schedule) (wellState : WellState.t)
    (reportStepIdx : nat) (group : Group) (n : nat) :
  transparent_chain_prod schedule wellState reportStepIdx group n ->
  forall (fuel : nat) (name parent : string) (guideRate : GuideRate) (rates : list double)
    (pu : PhaseUsage) (efficiencyFactor : double) (summaryState : SummaryState)
    (resv_coeff : list double),
    (n <= fuel)%nat ->
    checkGroupConstraintsProd_outcome new_TargetCalculator fuel name parent group wellState
      reportStepIdx guideRate rates pu efficiencyFactor schedule summaryState resv_coeff
    = Ok Unconstrained.
Proof.
  induction 1 as [group c Hc Hfld Hav|group parentGroup c n Hc Hfld Hav Hp _ IH];
    intros [|fuel] name parent guideRate rates pu eff st resv Hle; try lia;
    cbn [checkGroupConstraintsProd_outcome]; rewrite Hc; cbn [mbind res_bind];
    rewrite Hfld, Hav; cbn [negb]; [done|].
  rewrite Hp. cbn [mbind res_bind]. apply IH. lia.
Qed.

Lemma inj_unconstrained (schedule : Schedule) (wellState : WellState.t)
    (reportStepIdx : nat) (injectionPhase : Phase) (group : Group) (n : nat) :
  transparent_chain_inj schedule wellState reportStepIdx injectionPhase group n ->
  forall (fuel : nat) (name parent : string) (guideRate : GuideRate) (rates : list double)
    (pu : PhaseUsage) (efficiencyFactor : double) (summaryState : SummaryState)
    (resv_coeff : list double),
    (n <= fuel)%nat ->
    checkGroupConstraintsInj_outcome new_InjectionTargetCalculator fuel name parent group
      wellState reportStepIdx guideRate rates injectionPhase pu efficiencyFactor schedule
      summaryState resv_coeff
    = Ok Unconstrained.
Proof.
  induction 1 as [group c Hc Hfld Hav|group parentGroup c n Hc Hfld Hav Hp _ IH];
    intros [|fuel] name parent guideRate rates pu eff st resv Hle; try lia;
    cbn [checkGroupConstraintsInj_outcome]; rewrite Hc; cbn [mbind res_bind];
    rewrite Hfld, Hav; cbn [negb]; [done|].
  rewrite Hp. cbn [mbind res_bind]. apply IH. lia.
Qed.

(** C3. Whenever a checker reaches the controlling ancestor, the target
    rate from which it makes the returned pair (violated: the current rate
    exceeds the target rate; scale: target rate over current rate) is at
    least 1e-12, whatever the reductions are. *)
Theorem target_rate_at_least_floor (fuel : nat) (name parent : string) (group : Group)
    (wellState : WellState.t) (reportStepIdx : nat) (guideRate : GuideRate)
    (rates : list double) (injectionPhase : Phase) (pu : PhaseUsage)
    (efficiencyFactor : double) (schedule : Schedule) (summaryState : SummaryState)
    (resv_coeff : list double) (current_rate target_rate : double) :
  (checkGroupConstraintsProd_outcome new_TargetCalculator fuel name parent group wellState
     reportStepIdx guideRate rates pu efficiencyFactor schedule summaryState resv_coeff
   = Ok (AgainstTarget current_rate target_rate) ->
   dbl 1 1000000000000 <= target_rate
   /\ checkGroupConstraintsProd new_TargetCalculator fuel name parent group wellState
        reportStepIdx guideRate rates pu efficiencyFactor schedule summaryState resv_coeff
      = Ok (bool_decide (target_rate < current_rate), target_rate / current_rate))
  /\ (checkGroupConstraintsInj_outcome new_InjectionTargetCalculator fuel name parent group
        wellState reportStepIdx guideRate rates injectionPhase pu efficiencyFactor schedule
        summaryState resv_coeff
      = Ok (AgainstTarget current_rate target_rate) ->
      dbl 1 1000000000000 <= target_rate
      /\ checkGroupConstraintsInj new_InjectionTargetCalculator fuel name parent group
           wellState reportStepIdx guideRate rates injectionPhase pu efficiencyFactor
           schedule summaryState resv_coeff
         = Ok (bool_decide (target_rate < current_rate), target_rate / current_rate)).
Proof.
  split; intros H.
  - split; [by eapply prod_target_rate_floored|].
    unfold checkGroupConstraintsProd. by rewrite H.
  - split; [by eapply inj_target_rate_floored|].
    unfold checkGroupConstraintsInj. by rewrite H.
Qed.

(** C6. If the group passed to a checker is under FLD or NONE control, and
    so is every ancestor up the chain until a group is reached whose group
    control is not available, the checker returns (false, 1). *)
Theorem transparent_chain_is_unconstrained (schedule : Schedule) (wellState : WellState.t)
    (reportStepIdx : nat) (injectionPhase : Phase) (group : Group) (n fuel : nat)
    (name parent : string) (guideRate : GuideRate) (rates : list double)
    (pu : PhaseUsage) (efficiencyFactor : double) (summaryState : SummaryState)
    (resv_coeff : list double) :
  (n <= fuel)%nat ->
  (transparent_chain_prod schedule wellState reportStepIdx group n ->
   checkGroupConstraintsProd new_TargetCalculator fuel name parent group wellState
     reportStepIdx guideRate rates pu efficiencyFactor schedule summaryState resv_coeff
   = Ok (false, 1))
  /\ (transparent_chain_inj schedule wellState reportStepIdx injectionPhase group n ->
      checkGroupConstraintsInj new_InjectionTargetCalculator fuel name parent group
        wellState reportStepIdx guideRate rates injectionPhase pu efficiencyFactor
        schedule summaryState resv_coeff
      = Ok (false, 1)).
Proof.
  intros Hle. split; intros Hchain.
  - unfold checkGroupConstraintsProd.
    by rewrite (prod_unconstrained _ _ _ _ _ Hchain fuel).
  - unfold checkGroupConstraintsInj.
    by rewrite (inj_unconstrained _ _ _ _ _ _ Hchain fuel).
Qed.

End CheckerProperties.

Lemma check_W1_inj_value :
  Scenario.check_W1_inj 2 [dbl 5 1; 0; 0]
  = Ok (AgainstTarget (dbl 5 1) (dbl 5 1)).
Proof.
  match goal with
  | |- ?X = _ => let v := eval vm_compute in X in transitivity v; [vm_compute; reflexivity|]
  end.
  do 2 f_equal; apply Qc_is_canon; reflexivity.
Qed.

(** In the scenario both checkers reach the controlling group G1. *)
Lemma target_rate_at_least_floor_witness :
  (dbl 1 1000000000000 <= dbl 75 1
   /\ checkGroupConstraintsProd TargetCalculator_spec 2 "W1" "G1" Scenario.G1
        (Scenario.wellState ([0; 0; 0] ++ vec_zero 3)) 0 Scenario.guideRate [0; 0; 0]
        Scenario.pu 1 Scenario.schedule ∅ [1; 1; 1]
      = Ok (bool_decide (dbl 75 1 < 0), dbl 75 1 / 0))
  /\ (dbl 1 1000000000000 <= dbl 5 1
      /\ checkGroupConstraintsInj Scenario.surface_rate_calculator 2 "W1" "G1" Scenario.G1
           (Scenario.wellState ([dbl 5 1; 0; 0] ++ vec_zero 3)) 0 Scenario.guideRate
           [dbl 5 1; 0; 0] WATER Scenario.pu 1 Scenario.schedule ∅ [1; 1; 1]
         = Ok (bool_decide (dbl 5 1 < dbl 5 1), dbl 5 1 / dbl 5 1)).
Proof.
  split.
  - exact (proj1 (target_rate_at_least_floor TargetCalculator_spec
                    Scenario.surface_rate_calculator
                    2 "W1" "G1" Scenario.G1 (Scenario.wellState ([0; 0; 0] ++ vec_zero 3)) 0
                    Scenario.guideRate [0; 0; 0] WATER Scenario.pu 1 Scenario.schedule ∅
                    [1; 1; 1] 0 (dbl 75 1))
                 check_W1_idle).
  - exact (proj2 (target_rate_at_least_floor TargetCalculator_spec
                    Scenario.surface_rate_calculator
                    2 "W1" "G1" Scenario.G1
                    (Scenario.wellState ([dbl 5 1; 0; 0] ++ vec_zero 3)) 0
                    Scenario.guideRate [dbl 5 1; 0; 0] WATER Scenario.pu 1 Scenario.schedule ∅
                    [1; 1; 1] (dbl 5 1) (dbl 5 1))
                 check_W1_inj_value).
Defined.

(** G2 is under FLD control and its parent FIELD, under NONE control, is
    not available for group control. *)
Lemma transparent_chain_is_unconstrained_witness :
  checkGroupConstraintsProd TargetCalculator_spec 2 "G2" "FIELD" Scenario.G2
    Scenario.wellState_G2 0 Scenario.guideRate [0; 0; 0] Scenario.pu 1
    Scenario.schedule_G2 ∅ [1; 1; 1]
  = Ok (false, 1)
  /\ checkGroupConstraintsInj Scenario.surface_rate_calculator 2 "G2" "FIELD" Scenario.G2
       Scenario.wellState_G2 0 Scenario.guideRate [0; 0; 0] WATER Scenario.pu 1
       Scenario.schedule_G2 ∅ [1; 1; 1]
     = Ok (false, 1).
Proof.
  assert (Hle : (2 <= 2)%nat) by lia.
  pose proof (transparent_chain_is_unconstrained TargetCalculator_spec
                Scenario.surface_rate_calculator Scenario.schedule_G2 Scenario.wellState_G2
                0 WATER Scenario.G2 2 2 "G2" "FIELD" Scenario.guideRate [0; 0; 0]
                Scenario.pu 1 ∅ [1; 1; 1] Hle) as [Hprod Hinj].
  split.
  - apply Hprod.
    apply (transparent_prod_up _ _ _ Scenario.G2 (Scenario.field ["G1"; "G2"])
             Group.ProductionCMode.FLD 1); [vm_compute; reflexivity ..|].
    apply (transparent_prod_top _ _ _ _ Group.ProductionCMode.NONE);
      vm_compute; reflexivity.
  - apply Hinj.
    apply (transparent_inj_up _ _ _ _ Scenario.G2 (Scenario.field ["G1"; "G2"])
             Group.InjectionCMode.FLD 1); [vm_compute; reflexivity ..|].
    apply (transparent_inj_top _ _ _ _ _ Group.InjectionCMode.NONE);
      vm_compute; reflexivity.
Defined.

(** ** The fraction calculator *)

(** C5. When the sum of the guide rates of the eligible siblings is below
    the epsilon 1e-12 (indeed, when it is not strictly greater),
    [localFraction] returns exactly 0; it returns the quotient of the two
    guide rates only when the sum is strictly greater than 1e-12. *)
Theorem localFraction_guards_division (fuel : nat) (fc : FractionCalculator.t)
    (name always_included_child parent_name : string) (parent_group : Group)
    (my_guide_rate total_guide_rate : double) :
  FractionCalculator.guideRate fuel fc name always_included_child = Ok my_guide_rate ->
  FractionCalculator.parent fc name = Ok parent_name ->
  Schedule.getGroup (FractionCalculator.schedule_ fc) parent_name
    (FractionCalculator.report_step_ fc) = Ok parent_group ->
  FractionCalculator.guideRateSum fuel fc parent_group always_included_child
    = Ok total_guide_rate ->
  (total_guide_rate < dbl 1 1000000000000 ->
   FractionCalculator.localFraction fuel fc name always_included_child = Ok 0)
  /\ (total_guide_rate <= dbl 1 1000000000000 ->
      FractionCalculator.localFraction fuel fc name always_included_child = Ok 0)
  /\ (dbl 1 1000000000000 < total_guide_rate ->
      FractionCalculator.localFraction fuel fc name always_included_child
      = Ok (my_guide_rate / total_guide_rate)).
Proof.
  intros Hmy Hp Hg Htot. unfold FractionCalculator.localFraction.
  rewrite Hmy. cbn [mbind res_bind]. rewrite Hp. cbn [mbind res_bind].
  rewrite Hg. cbn [mbind res_bind]. rewrite Htot. cbn [mbind res_bind].
  change FractionCalculator.guide_rate_epsilon with (dbl 1 1000000000000).
  destruct (Qclt_le_dec (dbl 1 1000000000000) total_guide_rate) as [Hlt|Hle].
  - split; [|split]; intros H; [| |done].
    + exfalso. eapply Qclt_not_le; [exact Hlt|]. by apply Qclt_le_weak.
    + exfalso. by eapply Qclt_not_le.
  - split; [|split]; intros H; [done|done|].
    exfalso. by eapply Qclt_not_le.
Qed.

(** With all guide rates zero the sum for G1 is zero, and the fraction of
    W1 is zero. *)
Lemma localFraction_guards_division_witness :
  FractionCalculator.localFraction 2 (Scenario.fcalc Scenario.guideRate_zero) "W1" "W1" = Ok 0.
Proof.
  refine (proj1 (localFraction_guards_division 2 (Scenario.fcalc Scenario.guideRate_zero)
                   "W1" "W1" "G1" Scenario.G1 0 0 _ _ _ _) _).
  - vm_compute. reflexivity.
  - vm_compute. reflexivity.
  - vm_compute. reflexivity.
  - vm_compute. reflexivity.
  - vm_compute. reflexivity.
Defined.

(** ** Guide rates of injection groups *)

Section InjectionGuideRates.
Variables (schedule : Schedule) (summaryState : SummaryState) (pu : PhaseUsage).
Variables (reportStepIdx : nat) (wellState : WellState.t).

Lemma lookup_or_throw_Some {K V : Type} `{Countable K} (m : gmap K V) (k : K)
    (what : string) :
  is_Some (m !! k) -> exists v, WellState.lookup_or_throw m k what = Ok v.
Proof. intros [v Hv]. exists v. unfold WellState.lookup_or_throw. by rewrite Hv. Qed.

(** One phase of one group: the step throws when the phase declares RESV,
    and otherwise completes. *)
Lemma update_phase_spec (group : Group) (phase : Phase) (guideRate : GuideRate) :
  phase_inputs_present summaryState wellState group phase = true ->
  if phase_declares_RESV summaryState group phase
  then update_phase_guide_rate group summaryState pu reportStepIdx wellState phase guideRate
       = Throw (RESV_message group)
  else exists guideRate',
         update_phase_guide_rate group summaryState pu reportStepIdx wellState phase guideRate
         = Ok guideRate'.
Proof.
  unfold phase_inputs_present, phase_declares_RESV, update_phase_guide_rate.
  destruct (Group.hasInjectionControl group phase); cbn [negb andb]; [|by eexists].
  destruct (Group.guide_rate_def (Group.injectionControls group phase summaryState));
    cbn [is_RESV_target mbind res_bind]; intros Hin; try (by eexists).
  - apply bool_decide_eq_true in Hin.
    destruct (lookup_or_throw_Some _ _
                ("Could not find any VREP rates for group " ++ Group.name group) Hin)
      as [v Hv].
    unfold WellState.currentInjectionVREPRates. rewrite Hv. by eexists.
  - apply andb_prop in Hin as [H1 H2].
    apply bool_decide_eq_true in H1. apply bool_decide_eq_true in H2.
    destruct (lookup_or_throw_Some _ _
                ("Could not find any VREP rates for group " ++ Group.name group) H1)
      as [v Hv].
    destruct (lookup_or_throw_Some _ _
                ("Could not find any reservoir rates for injection group "
                 ++ Group.name group) H2)
      as [r Hr].
    unfold WellState.currentInjectionVREPRates,
      WellState.currentInjectionGroupReservoirRates.
    rewrite Hv. cbn [mbind res_bind]. rewrite Hr. by eexists.
Qed.

(** The loop over the phases of one group: it throws at the first phase
    that declares RESV, and otherwise completes. *)
Lemma update_phases_spec (group : Group) (phases : list Phase) :
  forall guideRate : GuideRate,
    forallb (phase_inputs_present summaryState wellState group) phases = true ->
    if existsb (phase_declares_RESV summaryState group) phases
    then for_each phases
           (update_phase_guide_rate group summaryState pu reportStepIdx wellState) guideRate
         = Throw (RESV_message group)
    else exists guideRate',
           for_each phases
             (update_phase_guide_rate group summaryState pu reportStepIdx wellState) guideRate
           = Ok guideRate'.
Proof.
  induction phases as [|phase phases IH]; intros guideRate Hin; cbn [existsb for_each].
  - by eexists.
  - cbn [forallb] in Hin. apply andb_prop in Hin as [Hphase Hrest].
    pose proof (update_phase_spec group phase guideRate Hphase) as Hstep.
    destruct (phase_declares_RESV summaryState group phase); cbn [orb].
    + by rewrite Hstep.
    + destruct Hstep as [guideRate' ->]. cbn [mbind res_bind]. apply IH, Hrest.
Qed.

Local Abbreviation subtrees fuel l :=
  (flat_map (fun groupName =>
     match Schedule.groups (Schedule.at_step schedule reportStepIdx) !! groupName with
     | Some sub => groups_below fuel schedule reportStepIdx sub
     | None => []
     end) l).

Lemma update_tree_spec (fuel : nat) :
  forall (group : Group) (guideRate : GuideRate),
    group_tree_ok fuel schedule reportStepIdx group = true ->
    forallb (guide_inputs_present summaryState wellState)
      (groups_below fuel schedule reportStepIdx group) = true ->
    if existsb (declares_RESV summaryState) (groups_below fuel schedule reportStepIdx group)
    then exists offender,
           offender ∈ groups_below fuel schedule reportStepIdx group
           /\ declares_RESV summaryState offender = true
           /\ updateGuideRatesForInjectionGroups fuel group schedule summaryState pu
                reportStepIdx wellState guideRate
              = Throw (RESV_message offender)
    else exists guideRate',
           updateGuideRatesForInjectionGroups fuel group schedule summaryState pu
             reportStepIdx wellState guideRate
           = Ok guideRate'.
Proof.
  induction fuel as [|fuel IH]; intros group guideRate Hok Hin; [discriminate|].
  cbn [group_tree_ok] in Hok. apply andb_prop in Hok as [Hg _].
  cbn [groups_below] in *.
  rewrite forallb_app in Hin. apply andb_prop in Hin as [Hsub Hown].
  cbn [forallb] in Hown. rewrite andb_true_r in Hown.
  rewrite existsb_app. cbn [existsb]. rewrite orb_false_r.
  cbn [updateGuideRatesForInjectionGroups].
  assert (Hchildren : forall gr,
    if existsb (declares_RESV summaryState) (subtrees fuel (Group.groups group))
    then exists offender,
           offender ∈ subtrees fuel (Group.groups group)
           /\ declares_RESV summaryState offender = true
           /\ for_each (Group.groups group) (fun groupName guideRate =>
                groupTmp ← Schedule.getGroup schedule groupName reportStepIdx;
                updateGuideRatesForInjectionGroups fuel groupTmp schedule summaryState pu
                  reportStepIdx wellState guideRate) gr
              = Throw (RESV_message offender)
    else exists gr',
           for_each (Group.groups group) (fun groupName guideRate =>
             groupTmp ← Schedule.getGroup schedule groupName reportStepIdx;
             updateGuideRatesForInjectionGroups fuel groupTmp schedule summaryState pu
               reportStepIdx wellState guideRate) gr
           = Ok gr').
  { clear Hown. induction (Group.groups group) as [|g l IHl]; intros gr.
    - cbn. by eexists.
    - cbn [forallb] in Hg. apply andb_prop in Hg as [Hg1 Hg2].
      cbn [flat_map] in *.
      destruct (Schedule.groups (Schedule.at_step schedule reportStepIdx) !! g)
        as [sub|] eqn:Eg; [|discriminate].
      rewrite forallb_app in Hsub. apply andb_prop in Hsub as [Hs1 Hs2].
      rewrite existsb_app. cbn [for_each].
      rewrite (getGroup_Some _ _ _ _ Eg). cbn [mbind res_bind].
      pose proof (IH sub gr Hg1 Hs1) as Hfirst.
      destruct (existsb (declares_RESV summaryState)
                  (groups_below fuel schedule reportStepIdx sub)); cbn [orb].
      + destruct Hfirst as (offender & Hmem & Hdecl & ->).
        exists offender. split; [|done]. apply elem_of_app. by left.
      + destruct Hfirst as [gr1 ->]. cbn [mbind res_bind].
        pose proof (IHl Hg2 Hs2 gr1) as Hrest.
        destruct (existsb (declares_RESV summaryState) (subtrees fuel l)).
        * destruct Hrest as (offender & Hmem & Hdecl & Hthrow).
          exists offender. split; [|done]. apply elem_of_app. by right.
        * exact Hrest. }
  pose proof (Hchildren guideRate) as Hc.
  destruct (existsb (declares_RESV summaryState) (subtrees fuel (Group.groups group)));
    cbn [orb].
  - destruct Hc as (offender & Hmem & Hdecl & ->).
    exists offender. split; [|done]. apply elem_of_app. by left.
  - destruct Hc as [gr1 ->]. cbn [mbind res_bind].
    pose proof (update_phases_spec group all_phases gr1 Hown) as Hp.
    fold (declares_RESV summaryState group) in Hp.
    destruct (declares_RESV summaryState group) eqn:Hd.
    + exists group. split; [|done]. apply elem_of_app. right. apply list_elem_of_singleton.
      done.
    + exact Hp.
Qed.

End InjectionGuideRates.

(** C7. On a finite group tree whose groups have the voidage and reservoir
    rates that the targets VOID and NETV read: if some injection group of
    the tree declares the guide-rate target RESV for one of the phases,
    [updateGuideRatesForInjectionGroups] throws a runtime error whose
    message ends with the name of such a group; if no group declares RESV
    (all targets are RATE, VOID, NETV, POTN or NO_GUIDE_RATE) it does not
    throw. *)
Theorem RESV_guide_rate_target_throws (fuel : nat) (group : Group) (schedule : Schedule)
    (summaryState : SummaryState) (pu : PhaseUsage) (reportStepIdx : nat)
    (wellState : WellState.t) (guideRate : GuideRate) :
  group_tree_ok fuel schedule reportStepIdx group = true ->
  forallb (guide_inputs_present summaryState wellState)
    (groups_below fuel schedule reportStepIdx group) = true ->
  (existsb (declares_RESV summaryState) (groups_below fuel schedule reportStepIdx group)
     = true ->
   exists offender,
     offender ∈ groups_below fuel schedule reportStepIdx group
     /\ declares_RESV summaryState offender = true
     /\ updateGuideRatesForInjectionGroups fuel group schedule summaryState pu
          reportStepIdx wellState guideRate
        = Throw (runtime_error
                   ("GUIDE PHASE RESV not implemented. Group " ++ Group.name offender)))
  /\ (existsb (declares_RESV summaryState) (groups_below fuel schedule reportStepIdx group)
      = false ->
      exists guideRate',
        updateGuideRatesForInjectionGroups fuel group schedule summaryState pu
          reportStepIdx wellState guideRate
        = Ok guideRate').
Proof.
  intros Hok Hin.
  pose proof (update_tree_spec schedule summaryState pu reportStepIdx wellState fuel
                group guideRate Hok Hin) as H.
  split; intros E; rewrite E in H; exact H.
Qed.

(** With the group G3, which declares RESV for water, the update throws;
    in the scenario without it the update completes. *)
Lemma RESV_guide_rate_target_throws_witness :
  (exists offender,
     offender ∈ groups_below 2 Scenario.schedule_G3 0 (Scenario.field ["G1"; "G3"])
     /\ declares_RESV ∅ offender = true
     /\ updateGuideRatesForInjectionGroups 2 (Scenario.field ["G1"; "G3"])
          Scenario.schedule_G3 ∅ Scenario.pu 0 (Scenario.wellState []) Scenario.guideRate
        = Throw (runtime_error
                   ("GUIDE PHASE RESV not implemented. Group " ++ Group.name offender)))
  /\ (exists guideRate',
        updateGuideRatesForInjectionGroups 2 Scenario.FIELD Scenario.schedule ∅ Scenario.pu 0
          (Scenario.wellState []) Scenario.guideRate
        = Ok guideRate').
Proof.
  split.
  - refine (proj1 (RESV_guide_rate_target_throws 2 (Scenario.field ["G1"; "G3"])
                     Scenario.schedule_G3 ∅ Scenario.pu 0 (Scenario.wellState [])
                     Scenario.guideRate _ _) _);
      vm_compute; reflexivity.
  - refine (proj2 (RESV_guide_rate_target_throws 2 Scenario.FIELD
                     Scenario.schedule ∅ Scenario.pu 0 (Scenario.wellState [])
                     Scenario.guideRate _ _) _);
      vm_compute; reflexivity.
Defined.

(** ** The network pressures *)

Section NetworkPressures.
Variables (network : Network.ExtNetwork) (vfp_prod_props : VFPProdProperties).
Variable node_inflows : gmap string (list double).

Local Abbreviation step := (node_pressure_step network vfp_prod_props node_inflows).

Lemma map_index_lookup {V : Type} (dflt : V) (m : gmap string V) (k : string) :
  (map_index dflt m k).2 !! k = Some (map_index dflt m k).1.
Proof.
  unfold map_index. destruct (m !! k) as [v|] eqn:E; cbn [fst snd]; [done|].
  apply lookup_insert_eq.
Qed.

Lemma map_index_other {V : Type} (dflt : V) (m : gmap string V) (k k' : string) :
  is_Some (m !! k') -> (map_index dflt m k).2 !! k' = m !! k'.
Proof.
  intros [v' Hk']. unfold map_index. destruct (m !! k) as [v|] eqn:E; cbn [snd]; [done|].
  apply lookup_insert_ne. intros ->. congruence.
Qed.

(** A turn of the loop changes no pressure but that of its node. *)
Lemma node_pressure_step_other (node : string) (p p' : gmap string double) (k : string) :
  step node p = Ok p' -> k <> node -> is_Some (p !! k) -> p' !! k = p !! k.
Proof.
  unfold node_pressure_step. intros H Hne Hk. bind_inv H.
  destruct (Network.terminal_pressure x) as [press|].
  { injection H as <-. by rewrite lookup_insert_ne. }
  destruct (Network.uptree_branch network node) as [upbranch|]; [|discriminate].
  pose proof (map_index_other 0 p (Network.uptree_node upbranch) k Hk) as Hother.
  destruct (map_index 0 p (Network.uptree_node upbranch)) as [up p1]. cbn [snd] in Hother.
  destruct (Network.vfp_table upbranch);
    injection H as <-; by rewrite lookup_insert_ne.
Qed.

Lemma node_pressure_step_defined (node : string) (p p' : gmap string double) (k : string) :
  step node p = Ok p' -> is_Some (p !! k) -> is_Some (p' !! k).
Proof.
  intros H Hk. destruct (decide (k = node)) as [->|Hne].
  - unfold node_pressure_step in H. bind_inv H.
    destruct (Network.terminal_pressure x) as [press|].
    { injection H as <-. rewrite lookup_insert_eq. by eexists. }
    destruct (Network.uptree_branch network node) as [upbranch|]; [|discriminate].
    destruct (map_index 0 p (Network.uptree_node upbranch)) as [up p1].
    destruct (Network.vfp_table upbranch);
      injection H as <-; rewrite lookup_insert_eq; by eexists.
  - by rewrite (node_pressure_step_other node p p' k H Hne Hk).
Qed.

Lemma node_pressures_other (l : list string) :
  forall (p p' : gmap string double) (k : string),
    for_each l step p = Ok p' -> k ∉ l -> is_Some (p !! k) -> p' !! k = p !! k.
Proof.
  induction l as [|node l IH]; intros p p' k H Hnotin Hk; cbn [for_each] in H.
  - by injection H as <-.
  - bind_inv H. apply not_elem_of_cons in Hnotin as [Hne Hnotin].
    rewrite (IH x p' k H Hnotin).
    + by apply (node_pressure_step_other node).
    + by apply (node_pressure_step_defined node p).
Qed.

(** The turn for a node without a fixed pressure whose branch has no
    table: the node gets the pressure that its parent has at that time. *)
Lemma node_pressure_step_no_table (node : string) (n : Network.Node)
    (upbranch : Network.Branch) (p p' : gmap string double) :
  Network.node network node = Ok n ->
  Network.terminal_pressure n = None ->
  Network.uptree_branch network node = Some upbranch ->
  Network.vfp_table upbranch = None ->
  step node p = Ok p' ->
  p' = <[node := (map_index 0 p (Network.uptree_node upbranch)).1]>
         (map_index 0 p (Network.uptree_node upbranch)).2
  /\ p' !! node = p' !! Network.uptree_node upbranch
  /\ is_Some (p' !! node).
Proof.
  intros Hn Hterm Hup Hvfp H. unfold node_pressure_step in H.
  rewrite Hn in H. cbn [mbind res_bind] in H. rewrite Hterm, Hup in H.
  pose proof (map_index_lookup 0 p (Network.uptree_node upbranch)) as Hparent.
  destruct (map_index 0 p (Network.uptree_node upbranch)) as [up p1].
  cbn [fst snd] in *. rewrite Hvfp in H. injection H as <-.
  split; [done|]. rewrite lookup_insert_eq. split; [|by eexists].
  destruct (decide (node = Network.uptree_node upbranch)) as [<-|Hne].
  - by rewrite lookup_insert_eq.
  - by rewrite lookup_insert_ne.
Qed.

Lemma node_pressures_no_table (l1 l2 : list string) (node : string) (n : Network.Node)
    (upbranch : Network.Branch) (p0 final : gmap string double) :
  for_each (l1 ++ node :: l2) step p0 = Ok final ->
  node ∉ l2 ->
  Network.uptree_node upbranch ∉ l2 ->
  Network.node network node = Ok n ->
  Network.terminal_pressure n = None ->
  Network.uptree_branch network node = Some upbranch ->
  Network.vfp_table upbranch = None ->
  final !! node = final !! Network.uptree_node upbranch /\ is_Some (final !! node).
Proof.
  intros H Hnode Hparent Hn Hterm Hup Hvfp.
  rewrite for_each_app in H. bind_inv H. cbn [for_each] in H. bind_inv H.
  destruct (node_pressure_step_no_table node n upbranch x x0 Hn Hterm Hup Hvfp E0)
    as (_ & Heq & Hsome).
  rewrite (node_pressures_other l2 x0 final node H Hnode Hsome).
  rewrite (node_pressures_other l2 x0 final (Network.uptree_node upbranch) H Hparent).
  - done.
  - by rewrite <- Heq.
Qed.

End NetworkPressures.

Lemma scenario_network_pressures (well_state : WellState.t)
    (vfp_prod_props : VFPProdProperties) (schedule : Schedule) (report_time_step : nat)
    (rates : list double) :
  WellState.currentProductionGroupRates well_state "G1" = Ok rates ->
  computeNetworkPressures 2 Scenario.network well_state vfp_prod_props schedule
    report_time_step
  = Ok (<["G1" := dbl 50 1]> (<["PLAT" := dbl 50 1]> ∅)).
Proof.
  intros Hrates.
  assert (Hroot : Network.root Scenario.network
                  = Ok {| Network.name := "PLAT";
                          Network.terminal_pressure := Some (dbl 50 1);
                          Network.add_gas_lift_gas := false |}) by reflexivity.
  assert (Hplat : Network.node Scenario.network "PLAT"
                  = Ok {| Network.name := "PLAT";
                          Network.terminal_pressure := Some (dbl 50 1);
                          Network.add_gas_lift_gas := false |}) by reflexivity.
  assert (Hleaf : Network.node Scenario.network "G1"
                  = Ok {| Network.name := "G1"; Network.terminal_pressure := None;
                          Network.add_gas_lift_gas := false |}) by reflexivity.
  assert (Hnodes : network_nodes 2 Scenario.network ["PLAT"] [] []
                   = Ok (["G1"], ["PLAT"; "G1"])) by reflexivity.
  assert (Hup : Network.uptree_branch Scenario.network "G1" = Some Scenario.branch_G1)
    by reflexivity.
  unfold computeNetworkPressures.
  change (Network.active Scenario.network) with true. cbn [negb].
  rewrite Hroot. cbn [mbind res_bind Network.name]. rewrite Hnodes.
  cbn [mbind res_bind for_each]. rewrite Hrates. cbn [mbind res_bind]. rewrite Hleaf.
  cbn [mbind res_bind Network.add_gas_lift_gas].
  unfold node_pressure_step. rewrite Hplat, Hleaf.
  cbn [mbind res_bind Network.terminal_pressure]. rewrite Hup.
  cbn [Network.uptree_node Network.vfp_table Scenario.branch_G1].
  unfold map_index. rewrite lookup_insert_eq. done.
Qed.

(** C9. In the map that [computeNetworkPressures] returns, a node without
    a fixed pressure whose uptree branch carries no VFP table has exactly
    the pressure of its parent node, whenever the parent is not visited
    after the node (the order of the nodes lists a parent before its
    children); and in the network of a root with the fixed pressure 50 and
    one leaf connected by a branch without a table, the pressure of the
    leaf is 50 whatever the production rates of the leaf group are. *)
Theorem no_table_inherits_parent_pressure :
  (forall (fuel : nat) (network : Network.ExtNetwork) (well_state : WellState.t)
     (vfp_prod_props : VFPProdProperties) (schedule : Schedule) (report_time_step : nat)
     (node_pressures : gmap string double) (root : Network.Node)
     (leaf_nodes before after : list string) (node : string) (n : Network.Node)
     (upbranch : Network.Branch),
     computeNetworkPressures fuel network well_state vfp_prod_props schedule
       report_time_step = Ok node_pressures ->
     Network.active network = true ->
     Network.root network = Ok root ->
     network_nodes fuel network [Network.name root] [] []
       = Ok (leaf_nodes, (before ++ node :: after)%list) ->
     node ∉ after ->
     Network.uptree_node upbranch ∉ after ->
     Network.node network node = Ok n ->
     Network.terminal_pressure n = None ->
     Network.uptree_branch network node = Some upbranch ->
     Network.vfp_table upbranch = None ->
     node_pressures !! node = node_pressures !! Network.uptree_node upbranch
     /\ is_Some (node_pressures !! node))
  /\ (forall (well_state : WellState.t) (vfp_prod_props : VFPProdProperties)
        (schedule : Schedule) (report_time_step : nat) (rates : list double),
        WellState.currentProductionGroupRates well_state "G1" = Ok rates ->
        exists node_pressures,
          computeNetworkPressures 2 Scenario.network well_state vfp_prod_props schedule
            report_time_step = Ok node_pressures
          /\ node_pressures !! "PLAT" = Some (dbl 50 1)
          /\ node_pressures !! "G1" = Some (dbl 50 1)).
Proof.
  split.
  - intros fuel network well_state vfp_prod_props schedule report_time_step node_pressures
      root leaf_nodes before after node n upbranch H Hactive Hroot Hnodes Hnode Hparent
      Hn Hterm Hup Hvfp.
    unfold computeNetworkPressures in H. rewrite Hactive, Hroot in H.
    cbn [negb mbind res_bind] in H. rewrite Hnodes in H. cbn [mbind res_bind] in H.
    bind_inv H.
    by eapply node_pressures_no_table.
  - intros well_state vfp_prod_props schedule report_time_step rates Hrates.
    eexists. split; [by eapply scenario_network_pressures|].
    split; reflexivity.
Qed.

(** The two-node network, with the leaf group producing gas at rate 10. *)
Lemma no_table_inherits_parent_pressure_witness :
  ((<["G1" := dbl 50 1]> (<["PLAT" := dbl 50 1]> ∅) : gmap string double) !! "G1"
   = (<["G1" := dbl 50 1]> (<["PLAT" := dbl 50 1]> ∅) : gmap string double) !! "PLAT"
   /\ is_Some ((<["G1" := dbl 50 1]> (<["PLAT" := dbl 50 1]> ∅) : gmap string double)
                 !! "G1"))
  /\ exists node_pressures,
       computeNetworkPressures 2 Scenario.network Scenario.wellState_network
         Scenario.no_vfp Scenario.schedule 0 = Ok node_pressures
       /\ node_pressures !! "PLAT" = Some (dbl 50 1)
       /\ node_pressures !! "G1" = Some (dbl 50 1).
Proof.
  split.
  - refine (proj1 no_table_inherits_parent_pressure 2%nat Scenario.network
              Scenario.wellState_network Scenario.no_vfp Scenario.schedule 0%nat
              (<["G1" := dbl 50 1]> (<["PLAT" := dbl 50 1]> ∅))
              {| Network.name := "PLAT"; Network.terminal_pressure := Some (dbl 50 1);
                 Network.add_gas_lift_gas := false |}
              ["G1"] ["PLAT"] [] "G1"
              {| Network.name := "G1"; Network.terminal_pressure := None;
                 Network.add_gas_lift_gas := false |}
              Scenario.branch_G1 _ _ _ _ _ _ _ _ _ _);
      try (vm_compute; reflexivity); apply not_elem_of_nil.
  - refine (proj2 no_table_inherits_parent_pressure Scenario.wellState_network
              Scenario.no_vfp Scenario.schedule 0%nat [0; 0; dbl 10 1] _).
    vm_compute; reflexivity.
Defined.

(** ** Seeding the group controls *)

Lemma injection_control_set_inj (ws : WellState.t) (p p' : Phase) (n n' : string)
    (c : Group.InjectionCMode.t) :
  injection_control_of (WellState.setCurrentInjectionGroupControl ws p n c) p' n'
  = if decide ((p, n) = (p', n')) then Some c else injection_control_of ws p' n'.
Proof.
  unfold injection_control_of, WellState.setCurrentInjectionGroupControl. cbn.
  apply lookup_insert.
Qed.

Lemma production_control_set_prod (ws : WellState.t) (n n' : string)
    (c : Group.ProductionCMode.t) :
  production_control_of (WellState.setCurrentProductionGroupControl ws n c) n'
  = if decide (n = n') then Some c else production_control_of ws n'.
Proof.
  unfold production_control_of, WellState.setCurrentProductionGroupControl. cbn.
  apply lookup_insert.
Qed.

Section Seeding.
Variables (schedule : Schedule) (summaryState : SummaryState) (reportStepIdx : nat).

Local Abbreviation seeded := (controls_seeded_from schedule summaryState reportStepIdx).

Lemma seeded_refl (G : list Group) (ws : WellState.t) : seeded G ws ws.
Proof. repeat split; auto. Qed.

Lemma seeded_trans (G : list Group) (ws0 ws1 ws2 : WellState.t) :
  seeded G ws0 ws1 -> seeded G ws1 ws2 -> seeded G ws0 ws2.
Proof.
  intros (I1 & P1 & Iv1 & Pv1) (I2 & P2 & Iv2 & Pv2). repeat split.
  - intros phase name H. by apply I2, I1.
  - intros name H. by apply P2, P1.
  - intros phase name v H.
    destruct (Iv2 phase name v H) as [?|[H1|[?|?]]]; auto.
  - intros name v H.
    destruct (Pv2 name v H) as [?|[H1|?]]; auto.
Qed.

Lemma seeded_weaken (G G' : list Group) (ws0 ws1 : WellState.t) :
  (forall g, g ∈ G -> g ∈ G') -> seeded G ws0 ws1 -> seeded G' ws0 ws1.
Proof.
  intros Hsub (I1 & P1 & Iv1 & Pv1). repeat split; auto.
  - intros phase name v H.
    destruct (Iv1 phase name v H) as [?|[?|[(g & ? & ?)|?]]]; auto.
    right; right; left. exists g. auto.
  - intros name v H.
    destruct (Pv1 name v H) as [?|[?|(g & ? & ?)]]; auto.
    right; right. exists g. auto.
Qed.

(** Writing an injection control whose value is accounted for. *)
Lemma seeded_set_inj (G : list Group) (ws : WellState.t) (p : Phase) (n : string)
    (c : Group.InjectionCMode.t) :
  c = Group.InjectionCMode.NONE
  \/ injection_event_supplies schedule summaryState reportStepIdx G p n c
  \/ sale_supplies schedule reportStepIdx p n c ->
  seeded G ws (WellState.setCurrentInjectionGroupControl ws p n c).
Proof.
  intros Hc. repeat split.
  - intros phase name H. rewrite injection_control_set_inj. case_decide; [by eexists|done].
  - auto.
  - intros phase name v. rewrite injection_control_set_inj.
    case_decide as Heq; [|auto]. injection Heq as <- <-. intros [= <-].
    destruct Hc as [?|[?|?]]; auto.
  - auto.
Qed.

Lemma seeded_set_prod (G : list Group) (ws : WellState.t) (n : string)
    (c : Group.ProductionCMode.t) :
  c = Group.ProductionCMode.NONE
  \/ production_event_supplies schedule summaryState reportStepIdx G n c ->
  seeded G ws (WellState.setCurrentProductionGroupControl ws n c).
Proof.
  intros Hc. repeat split.
  - auto.
  - intros name H. rewrite production_control_set_prod. case_decide; [by eexists|done].
  - auto.
  - intros name v. rewrite production_control_set_prod.
    case_decide as Heq; [|auto]. subst name. intros [= <-].
    destruct Hc as [?|?]; auto.
Qed.

Lemma seed_default_injection_seeded (G : list Group) (g : Group) (ws : WellState.t) :
  seeded G ws (seed_default_injection g ws).
Proof.
  unfold seed_default_injection. revert ws.
  induction all_phases as [|phase l IH]; intros ws; cbn [foldl]; [apply seeded_refl|].
  eapply seeded_trans; [|apply IH].
  destruct (negb _); [|apply seeded_refl]. apply seeded_set_inj. auto.
Qed.

Lemma seed_default_injection_defined (G : list Group) (g : Group) (ws : WellState.t)
    (phase : Phase) :
  phase ∈ all_phases ->
  is_Some (injection_control_of (seed_default_injection g ws) phase (Group.name g)).
Proof.
  unfold seed_default_injection. revert ws.
  induction all_phases as [|p l IH]; intros ws Hin; [by apply elem_of_nil in Hin|].
  cbn [foldl]. apply elem_of_cons in Hin as [->|Hin]; [|by apply IH].
  set (ws1 := if negb _ then _ else ws).
  assert (Hdef : is_Some (injection_control_of ws1 p (Group.name g))).
  { subst ws1. unfold WellState.hasInjectionGroupControl.
    case_bool_decide as Hhas; cbn [negb]; [exact Hhas|].
    rewrite injection_control_set_inj. case_decide; [by eexists|done]. }
  clearbody ws1. revert ws1 Hdef. clear IH.
  induction l as [|q l IH]; intros ws1 Hdef; cbn [foldl]; [done|].
  apply IH. destruct (negb _); [|done].
  rewrite injection_control_set_inj. case_decide; [by eexists|done].
Qed.

Lemma seed_default_production_seeded (G : list Group) (g : Group) (r : GroupStateRef)
    (ws : WellState.t) :
  seeded G ws (seed_default_production g r ws).
Proof.
  unfold seed_default_production. destruct (negb _); [|apply seeded_refl].
  apply seeded_set_prod. auto.
Qed.

Lemma seed_default_production_defined (g : Group) (r : GroupStateRef) (ws : WellState.t) :
  group_state_agrees r ws ->
  is_Some (production_control_of (seed_default_production g r ws) (Group.name g)).
Proof.
  intros Hagree. unfold seed_default_production.
  destruct (GroupState.has_production_control _ _) eqn:Hhas; cbn [negb].
  - destruct r as [|gs]; cbn [deref_group_state group_state_agrees] in *.
    + by apply bool_decide_eq_true in Hhas.
    + by apply Hagree.
  - rewrite production_control_set_prod. case_decide; [by eexists|done].
Qed.

Lemma seed_injection_event_seeded (G : list Group) (g : Group) (ws : WellState.t) :
  g ∈ G -> seeded G ws (seed_injection_event g schedule summaryState reportStepIdx ws).
Proof.
  intros Hg. unfold seed_injection_event.
  destruct (Group.isInjectionGroup g) eqn:Hinj; cbn [andb]; [|apply seeded_refl].
  destruct (Schedule.wellgroup_events _ _ _) eqn:Hev; [|apply seeded_refl].
  revert ws. induction all_phases as [|phase l IH]; intros ws; cbn [foldl];
    [apply seeded_refl|].
  eapply seeded_trans; [|apply IH].
  destruct (Group.hasInjectionControl g phase) eqn:Hc; cbn [negb]; [|apply seeded_refl].
  apply seeded_set_inj. right; left. exists g. auto 10.
Qed.

Lemma seed_production_event_seeded (G : list Group) (g : Group) (ws : WellState.t) :
  g ∈ G -> seeded G ws (seed_production_event g schedule summaryState reportStepIdx ws).
Proof.
  intros Hg. unfold seed_production_event.
  destruct (Group.isProductionGroup g) eqn:Hprod; cbn [andb]; [|apply seeded_refl].
  destruct (Schedule.wellgroup_events _ _ _) eqn:Hev; [|apply seeded_refl].
  apply seeded_set_prod. right. exists g. auto 10.
Qed.

Lemma seed_gas_sale_seeded (G : list Group) (g : Group) (ws : WellState.t) :
  seeded G ws (seed_gas_sale g schedule reportStepIdx ws).
Proof.
  unfold seed_gas_sale. case_bool_decide as Hsale; [|apply seeded_refl].
  apply seeded_set_inj. right; right. done.
Qed.

Lemma seed_group_controls_seeded (G : list Group) (g : Group) (r : GroupStateRef)
    (ws : WellState.t) :
  g ∈ G ->
  seeded G ws (seed_group_controls g schedule summaryState reportStepIdx r ws).
Proof.
  intros Hg. unfold seed_group_controls. cbv zeta.
  eapply seeded_trans; [|apply seed_gas_sale_seeded].
  eapply seeded_trans; [|by apply seed_production_event_seeded].
  eapply seeded_trans; [|by apply seed_injection_event_seeded].
  eapply seeded_trans; [|apply seed_default_production_seeded].
  apply seed_default_injection_seeded.
Qed.

Lemma group_state_agrees_seeded (G : list Group) (r : GroupStateRef)
    (ws ws' : WellState.t) :
  group_state_agrees r ws -> seeded G ws ws' -> group_state_agrees r ws'.
Proof.
  intros Hagree (_ & P & _). destruct r as [|gs]; [done|].
  intros name Hhas. by apply P, Hagree.
Qed.

Lemma seed_group_controls_defined (g : Group) (r : GroupStateRef) (ws : WellState.t) :
  group_state_agrees r ws ->
  controls_defined [g] (seed_group_controls g schedule summaryState reportStepIdx r ws).
Proof.
  intros Hagree g' Hg'. apply list_elem_of_singleton in Hg' as ->.
  unfold seed_group_controls. cbv zeta.
  set (ws1 := seed_default_injection g ws).
  set (ws2 := seed_default_production g r ws1).
  assert (H12 : seeded [g] ws1 ws2) by apply seed_default_production_seeded.
  assert (H2 : seeded [g] ws2
                 (seed_gas_sale g schedule reportStepIdx
                    (seed_production_event g schedule summaryState reportStepIdx
                       (seed_injection_event g schedule summaryState reportStepIdx ws2)))).
  { eapply seeded_trans; [|apply seed_gas_sale_seeded].
    eapply seeded_trans; [|apply seed_production_event_seeded, list_elem_of_singleton; done].
    apply seed_injection_event_seeded, list_elem_of_singleton; done. }
  destruct H2 as (I2 & P2 & _). destruct H12 as (I12 & _).
  split.
  - intros phase Hphase. apply I2, I12.
    by apply (seed_default_injection_defined [g]).
  - apply P2. apply seed_default_production_defined.
    eapply group_state_agrees_seeded; [exact Hagree|].
    apply (seed_default_injection_seeded [g]).
Qed.

Lemma controls_defined_seeded (G G' : list Group) (ws ws' : WellState.t) :
  controls_defined G ws -> seeded G' ws ws' -> controls_defined G ws'.
Proof.
  intros Hdef (I & P & _) g Hg. destruct (Hdef g Hg) as [Hi Hp]. split; auto.
Qed.

Local Abbreviation subtrees fuel l :=
  (flat_map (fun groupName =>
     match Schedule.groups (Schedule.at_step schedule reportStepIdx) !! groupName with
     | Some sub => groups_below fuel schedule reportStepIdx sub
     | None => []
     end) l).

Lemma setCmodeGroup_spec (fuel : nat) :
  forall (group : Group) (ws : WellState.t) (r : GroupStateRef),
    group_tree_ok fuel schedule reportStepIdx group = true ->
    group_state_agrees r ws ->
    exists ws',
      setCmodeGroup fuel group schedule summaryState reportStepIdx ws r = Ok ws'
      /\ seeded (groups_below fuel schedule reportStepIdx group) ws ws'
      /\ controls_defined (groups_below fuel schedule reportStepIdx group) ws'.
Proof.
  induction fuel as [|fuel IH]; intros group ws r Hok Hagree; [discriminate|].
  cbn [group_tree_ok] in Hok. apply andb_prop in Hok as [Hg _].
  cbn [groups_below setCmodeGroup].
  assert (Hchildren : forall ws0, group_state_agrees r ws0 -> exists ws1,
    for_each (Group.groups group) (fun groupName wellState =>
      sub ← Schedule.getGroup schedule groupName reportStepIdx;
      setCmodeGroup fuel sub schedule summaryState reportStepIdx wellState r) ws0 = Ok ws1
    /\ seeded (subtrees fuel (Group.groups group)) ws0 ws1
    /\ controls_defined (subtrees fuel (Group.groups group)) ws1).
  { induction (Group.groups group) as [|g l IHl]; intros ws0 Hagree0.
    - exists ws0. split; [done|]. split; [apply seeded_refl|].
      intros g Hin. by apply elem_of_nil in Hin.
    - cbn [forallb] in Hg. apply andb_prop in Hg as [Hg1 Hg2].
      cbn [flat_map for_each].
      destruct (Schedule.groups (Schedule.at_step schedule reportStepIdx) !! g)
        as [sub|] eqn:Eg; [|discriminate].
      rewrite (getGroup_Some _ _ _ _ Eg). cbn [mbind res_bind].
      destruct (IH sub ws0 r Hg1 Hagree0) as (ws1 & -> & Hs1 & Hd1). cbn [mbind res_bind].
      destruct (IHl Hg2 ws1 (group_state_agrees_seeded _ _ _ _ Hagree0 Hs1))
        as (ws2 & -> & Hs2 & Hd2).
      exists ws2. split; [done|]. split.
      + eapply seeded_trans; eapply seeded_weaken; [| exact Hs1 | | exact Hs2];
          intros g' Hg'; apply elem_of_app; auto.
      + intros g' Hg'. apply elem_of_app in Hg' as [Hg'|Hg'].
        * by apply (controls_defined_seeded _ _ _ _ Hd1 Hs2).
        * by apply Hd2. }
  destruct (Hchildren ws Hagree) as (ws1 & -> & Hs1 & Hd1). cbn [mbind res_bind].
  eexists. split; [done|].
  assert (Hseed : seeded (subtrees fuel (Group.groups group) ++ [group]) ws1
                    (seed_group_controls group schedule summaryState reportStepIdx r ws1)).
  { apply seed_group_controls_seeded. apply elem_of_app. right.
    by apply list_elem_of_singleton. }
  split.
  - eapply seeded_trans; [|exact Hseed].
    eapply seeded_weaken; [|exact Hs1]. intros g' Hg'. apply elem_of_app. auto.
  - intros g' Hg'. apply elem_of_app in Hg' as [Hg'|Hg'].
    + by apply (controls_defined_seeded _ _ _ _ Hd1 Hseed).
    + apply seed_group_controls_defined; [|done].
      by eapply group_state_agrees_seeded.
Qed.

(** The injection controls need no condition on [group_state]. *)
Lemma seed_group_controls_injection_defined (g : Group) (r : GroupStateRef)
    (ws : WellState.t) (phase : Phase) :
  phase ∈ all_phases ->
  is_Some (injection_control_of
             (seed_group_controls g schedule summaryState reportStepIdx r ws) phase
             (Group.name g)).
Proof.
  intros Hphase. unfold seed_group_controls. cbv zeta.
  set (ws1 := seed_default_injection g ws).
  assert (H : seeded [g] ws1
                (seed_gas_sale g schedule reportStepIdx
                   (seed_production_event g schedule summaryState reportStepIdx
                      (seed_injection_event g schedule summaryState reportStepIdx
                         (seed_default_production g r ws1))))).
  { eapply seeded_trans; [|apply seed_gas_sale_seeded].
    eapply seeded_trans; [|apply seed_production_event_seeded, list_elem_of_singleton; done].
    eapply seeded_trans; [|apply seed_injection_event_seeded, list_elem_of_singleton; done].
    apply seed_default_production_seeded. }
  destruct H as (I & _). apply I. by apply (seed_default_injection_defined [g]).
Qed.

Lemma setCmodeGroup_injection_spec (fuel : nat) :
  forall (group : Group) (ws : WellState.t) (r : GroupStateRef),
    group_tree_ok fuel schedule reportStepIdx group = true ->
    exists ws',
      setCmodeGroup fuel group schedule summaryState reportStepIdx ws r = Ok ws'
      /\ seeded (groups_below fuel schedule reportStepIdx group) ws ws'
      /\ forall g, g ∈ groups_below fuel schedule reportStepIdx group ->
           forall phase, phase ∈ all_phases ->
             is_Some (injection_control_of ws' phase (Group.name g)).
Proof.
  induction fuel as [|fuel IH]; intros group ws r Hok; [discriminate|].
  cbn [group_tree_ok] in Hok. apply andb_prop in Hok as [Hg _].
  cbn [groups_below setCmodeGroup].
  assert (Hchildren : forall ws0, exists ws1,
    for_each (Group.groups group) (fun groupName wellState =>
      sub ← Schedule.getGroup schedule groupName reportStepIdx;
      setCmodeGroup fuel sub schedule summaryState reportStepIdx wellState r) ws0 = Ok ws1
    /\ seeded (subtrees fuel (Group.groups group)) ws0 ws1
    /\ forall g, g ∈ subtrees fuel (Group.groups group) ->
         forall phase, phase ∈ all_phases ->
           is_Some (injection_control_of ws1 phase (Group.name g))).
  { induction (Group.groups group) as [|g l IHl]; intros ws0.
    - exists ws0. split; [done|]. split; [apply seeded_refl|].
      intros g Hin. by apply elem_of_nil in Hin.
    - cbn [forallb] in Hg. apply andb_prop in Hg as [Hg1 Hg2].
      cbn [flat_map for_each].
      destruct (Schedule.groups (Schedule.at_step schedule reportStepIdx) !! g)
        as [sub|] eqn:Eg; [|discriminate].
      rewrite (getGroup_Some _ _ _ _ Eg). cbn [mbind res_bind].
      destruct (IH sub ws0 r Hg1) as (ws1 & -> & Hs1 & Hd1). cbn [mbind res_bind].
      destruct (IHl Hg2 ws1) as (ws2 & -> & Hs2 & Hd2).
      exists ws2. split; [done|]. split.
      + eapply seeded_trans; eapply seeded_weaken; [| exact Hs1 | | exact Hs2];
          intros g' Hg'; apply elem_of_app; auto.
      + intros g' Hg' phase Hphase. apply elem_of_app in Hg' as [Hg'|Hg'].
        * destruct Hs2 as (I2 & _). apply I2. by apply Hd1.
        * by apply Hd2. }
  destruct (Hchildren ws) as (ws1 & -> & Hs1 & Hd1). cbn [mbind res_bind].
  eexists. split; [done|].
  assert (Hseed : seeded (subtrees fuel (Group.groups group) ++ [group]) ws1
                    (seed_group_controls group schedule summaryState reportStepIdx r ws1)).
  { apply seed_group_controls_seeded. apply elem_of_app. right.
    by apply list_elem_of_singleton. }
  split.
  - eapply seeded_trans; [|exact Hseed].
    eapply seeded_weaken; [|exact Hs1]. intros g' Hg'. apply elem_of_app. auto.
  - intros g' Hg' phase Hphase. apply elem_of_app in Hg' as [Hg'|Hg'].
    + destruct Hseed as (I & _). apply I. by apply Hd1.
    + apply list_elem_of_singleton in Hg' as ->.
      by apply seed_group_controls_injection_defined.
Qed.

End Seeding.

(** C10, as the code has it.  On a finite group tree [setCmodeGroup]
    returns, and afterwards every group of the tree has an injection
    control for each of WATER, OIL and GAS, whatever the [group_state]
    argument; it has a production control when the [group_state] argument
    reports a production control only for groups that have one in the well
    state (as it does when it is the well state's own group state).  Each
    of these controls is NONE unless it was present before the call, or an
    update event of a group of that name supplies it, or (for gas
    injection) a gas-sale declaration does. *)
Theorem setCmodeGroup_seeds_controls (fuel : nat) (group : Group) (schedule : Schedule)
    (summaryState : SummaryState) (reportStepIdx : nat) (wellState : WellState.t)
    (group_state : GroupStateRef) :
  group_tree_ok fuel schedule reportStepIdx group = true ->
  exists wellState',
    setCmodeGroup fuel group schedule summaryState reportStepIdx wellState group_state
      = Ok wellState'
    /\ forall g, g ∈ groups_below fuel schedule reportStepIdx group ->
         (forall phase, phase ∈ all_phases ->
            exists v,
              injection_control_of wellState' phase (Group.name g) = Some v
              /\ (v = Group.InjectionCMode.NONE
                  \/ injection_control_of wellState phase (Group.name g) = Some v
                  \/ injection_event_supplies schedule summaryState reportStepIdx
                       (groups_below fuel schedule reportStepIdx group) phase
                       (Group.name g) v
                  \/ sale_supplies schedule reportStepIdx phase (Group.name g) v))
         /\ (group_state_agrees group_state wellState ->
             is_Some (production_control_of wellState' (Group.name g)))
         /\ (forall v,
               production_control_of wellState' (Group.name g) = Some v ->
               v = Group.ProductionCMode.NONE
               \/ production_control_of wellState (Group.name g) = Some v
               \/ production_event_supplies schedule summaryState reportStepIdx
                    (groups_below fuel schedule reportStepIdx group)
                    (Group.name g) v).
Proof.
  intros Hok.
  destruct (setCmodeGroup_injection_spec schedule summaryState reportStepIdx fuel group
              wellState group_state Hok) as (ws' & Hrun & (_ & _ & Iv & Pv) & Hdef).
  exists ws'. split; [done|]. intros g Hg. split; [|split].
  - intros phase Hphase. destruct (Hdef g Hg phase Hphase) as [v Hv]. exists v.
    split; [done|]. by apply Iv.
  - intros Hagree.
    destruct (setCmodeGroup_spec schedule summaryState reportStepIdx fuel group wellState
                group_state Hok Hagree) as (ws'' & Hrun' & _ & Hboth).
    rewrite Hrun in Hrun'. injection Hrun' as <-. by destruct (Hboth g Hg).
  - intros v Hv. by apply Pv.
Qed.

(** C10, as stated without a condition on [group_state], fails: when the
    argument is a group state of its own that already holds a production
    control for G1, the well state has no production control for G1 after
    the call. *)
Lemma setCmodeGroup_production_control_missing :
  ~ (forall (fuel : nat) (group : Group) (schedule : Schedule)
       (summaryState : SummaryState) (reportStepIdx : nat) (wellState : WellState.t)
       (group_state : GroupStateRef) (wellState' : WellState.t),
       group_tree_ok fuel schedule reportStepIdx group = true ->
       setCmodeGroup fuel group schedule summaryState reportStepIdx wellState group_state
         = Ok wellState' ->
       forall g, g ∈ groups_below fuel schedule reportStepIdx group ->
         is_Some (production_control_of wellState' (Group.name g))).
Proof.
  intros H.
  destruct (setCmodeGroup 2 Scenario.FIELD Scenario.schedule ∅ 0 Scenario.wellState_fresh
              (group_state_object Scenario.other_group_state)) as [ws'| |] eqn:Hrun;
    [|vm_compute in Hrun; discriminate..].
  assert (Hin : Scenario.G1 ∈ groups_below 2 Scenario.schedule 0 Scenario.FIELD).
  { apply list_elem_of_In. vm_compute. auto. }
  pose proof (H 2%nat Scenario.FIELD Scenario.schedule ∅ 0%nat Scenario.wellState_fresh
                (group_state_object Scenario.other_group_state) ws' eq_refl Hrun
                Scenario.G1 Hin) as [v Hv].
  assert (Hnone : (ws'' ← setCmodeGroup 2 Scenario.FIELD Scenario.schedule ∅ 0
                            Scenario.wellState_fresh
                            (group_state_object Scenario.other_group_state);
                   Ok (production_control_of ws'' "G1")) = Ok None)
    by (vm_compute; reflexivity).
  rewrite Hrun in Hnone. cbn [mbind res_bind] in Hnone.
  change (Group.name Scenario.G1) with "G1" in Hv. congruence.
Qed.

(** In the scenario, with a group state of its own that already holds a
    production control for G1: the injection controls of G1 and FIELD are
    all there after the call.  With the well state's own group state the
    production controls are there as well. *)
Lemma setCmodeGroup_seeds_controls_witness :
  (exists wellState',
     setCmodeGroup 2 Scenario.FIELD Scenario.schedule ∅ 0 Scenario.wellState_fresh
       (group_state_object Scenario.other_group_state) = Ok wellState'
     /\ forall g, g ∈ groups_below 2 Scenario.schedule 0 Scenario.FIELD ->
          forall phase, phase ∈ all_phases ->
            is_Some (injection_control_of wellState' phase (Group.name g)))
  /\ (exists wellState',
        setCmodeGroup 2 Scenario.FIELD Scenario.schedule ∅ 0 Scenario.wellState_fresh
          group_state_of_wellState = Ok wellState'
        /\ forall g, g ∈ groups_below 2 Scenario.schedule 0 Scenario.FIELD ->
             (forall phase, phase ∈ all_phases ->
                is_Some (injection_control_of wellState' phase (Group.name g)))
             /\ is_Some (production_control_of wellState' (Group.name g))).
Proof.
  split.
  - destruct (setCmodeGroup_seeds_controls 2 Scenario.FIELD Scenario.schedule ∅ 0
                Scenario.wellState_fresh (group_state_object Scenario.other_group_state))
      as (ws' & Hrun & H); [vm_compute; reflexivity|].
    exists ws'. split; [exact Hrun|]. intros g Hg phase Hphase.
    destruct (H g Hg) as (Hinj & _). destruct (Hinj phase Hphase) as (v & Hv & _).
    by exists v.
  - destruct (setCmodeGroup_seeds_controls 2 Scenario.FIELD Scenario.schedule ∅ 0
                Scenario.wellState_fresh group_state_of_wellState)
      as (ws' & Hrun & H); [vm_compute; reflexivity|].
    exists ws'. split; [exact Hrun|]. intros g Hg.
    destruct (H g Hg) as (Hinj & Hprod & _). split.
    + intros phase Hphase. destruct (Hinj phase Hphase) as (v & Hv & _). by exists v.
    + apply Hprod. exact I.
Defined.

(** ** The update helpers write without reading what they write *)

Lemma production_reductions_ok : derived_map_ok production_reductions.
Proof. split; intros; try destruct ws; reflexivity. Qed.
Lemma injection_reductions_ok : derived_map_ok injection_reductions.
Proof. split; intros; try destruct ws; reflexivity. Qed.
Lemma rein_rates_ok : derived_map_ok rein_rates.
Proof. split; intros; try destruct ws; reflexivity. Qed.
Lemma vrep_rates_ok : derived_map_ok vrep_rates.
Proof. split; intros; try destruct ws; reflexivity. Qed.
Lemma injection_reservoir_rates_ok : derived_map_ok injection_reservoir_rates.
Proof. split; intros; try destruct ws; reflexivity. Qed.
Lemma current_well_rates_ok : derived_map_ok current_well_rates.
Proof. split; intros; try destruct ws; reflexivity. Qed.
Lemma production_rates_ok : derived_map_ok production_rates.
Proof. split; intros; try destruct ws; reflexivity. Qed.

Section Writes.
Context {V : Type}.

(** What a key holds after a sequence of writes. *)
Lemma apply_writes_lookup (W : list (string * V)) (k : string) :
  forall m : gmap string V,
    apply_writes W m !! k
    = foldl (fun o kv => if decide (kv.1 = k) then Some kv.2 else o) (m !! k) W.
Proof.
  unfold apply_writes. induction W as [|[k0 v0] W IH]; intros m; cbn [foldl]; [done|].
  rewrite IH. cbn [fst snd]. by rewrite lookup_insert.
Qed.

Lemma last_write_absorbs (W : list (string * V)) (k : string) :
  forall o : option V,
    foldl (fun o kv => if decide (kv.1 = k) then Some kv.2 else o) o W
    = match foldl (fun o kv => if decide (kv.1 = k) then Some kv.2 else o) None W with
      | Some v => Some v
      | None => o
      end.
Proof.
  induction W as [|[k0 v0] W IH]; intros o; cbn [foldl fst snd]; [done|].
  rewrite IH. rewrite (IH (if decide (k0 = k) then Some v0 else None)).
  destruct (foldl _ None W); [done|]. by case_decide.
Qed.

(** Performing the same writes a second time changes nothing. *)
Lemma apply_writes_idemp (W : list (string * V)) (m : gmap string V) :
  apply_writes W (apply_writes W m) = apply_writes W m.
Proof.
  apply map_eq. intros k. rewrite !apply_writes_lookup.
  rewrite (last_write_absorbs W k (foldl _ (m !! k) W)).
  rewrite (last_write_absorbs W k (m !! k)).
  by destruct (foldl _ None W).
Qed.

Lemma apply_writes_app (W1 W2 : list (string * V)) (m : gmap string V) :
  apply_writes (W1 ++ W2) m = apply_writes W2 (apply_writes W1 m).
Proof. unfold apply_writes. apply foldl_app. Qed.

Variable L : derived_map V.
Hypothesis L_ok : derived_map_ok L.

(** A helper that only writes is idempotent. *)
Lemma writes_plain_idemp (f : WellState.t -> res WellState.t) (ws ws' : WellState.t) :
  writes_plain L f -> f ws = Ok ws' -> f ws' = Ok ws'.
Proof.
  intros Hf Hrun. destruct (Hf ws ws' Hrun) as [W HW].
  assert (Hws' : ws' = dset L ws (apply_writes W (dget L ws))).
  { pose proof (HW (dget L ws)) as H. rewrite (dset_dget L L_ok) in H. congruence. }
  rewrite Hws' at 1. rewrite HW, apply_writes_idemp. by rewrite Hws'.
Qed.

Lemma writes_only_idemp {B : Type} (f : WellState.t -> res (WellState.t * B))
    (ws ws' : WellState.t) (b : B) :
  writes_only L f -> f ws = Ok (ws', b) -> f ws' = Ok (ws', b).
Proof.
  intros Hf Hrun. destruct (Hf ws (ws', b) Hrun) as [W HW]. cbn [snd] in HW.
  assert (Hws' : ws' = dset L ws (apply_writes W (dget L ws))).
  { pose proof (HW (dget L ws)) as H. rewrite (dset_dget L L_ok) in H. congruence. }
  rewrite Hws' at 1. rewrite HW, apply_writes_idemp. by rewrite Hws'.
Qed.

(** The state that a writing helper returns. *)
Lemma writes_result (f : WellState.t -> res WellState.t) (ws ws' : WellState.t)
    (W : list (string * V)) :
  f ws = Ok ws' ->
  (forall m, f (dset L ws m) = Ok (dset L ws (apply_writes W m))) ->
  ws' = dset L ws (apply_writes W (dget L ws)).
Proof.
  intros Hrun HW. pose proof (HW (dget L ws)) as H.
  rewrite (dset_dget L L_ok) in H. congruence.
Qed.

(** The loop over the child groups of a helper that recurses into them. *)
Lemma children_loop_writes (rec : Group -> WellState.t -> res WellState.t)
    (schedule : Schedule) (reportStepIdx : nat) (l : list string) :
  (forall g, writes_plain L (rec g)) ->
  writes_plain L (for_each l (fun groupName wellState =>
    groupTmp ← Schedule.getGroup schedule groupName reportStepIdx;
    rec groupTmp wellState)).
Proof.
  intros Hrec. induction l as [|g l IH]; intros ws ws' H.
  - exists []. intros m. done.
  - cbn [for_each] in H. bind_inv H. bind_inv E.
    destruct (Hrec x0 ws x E) as [W1 HW1].
    destruct (IH x ws' H) as [W2 HW2].
    pose proof (writes_result (rec x0) ws x W1 E HW1) as Hx.
    exists (W1 ++ W2)%list. intros m. cbn [for_each]. rewrite E0. cbn [mbind res_bind].
    rewrite HW1. cbn [mbind res_bind].
    specialize (HW2 (apply_writes W1 m)).
    rewrite Hx, !(dset_dset L L_ok) in HW2. by rewrite HW2, apply_writes_app.
Qed.

End Writes.

Lemma for_each_ext {A S : Type} (l : list A) (body1 body2 : A -> S -> res S) (s : S) :
  (forall x s, body1 x s = body2 x s) -> for_each l body1 s = for_each l body2 s.
Proof.
  intros Hext. revert s. induction l as [|x l IH]; intros s; cbn [for_each]; [done|].
  rewrite Hext. destruct (body2 x s); cbn [mbind res_bind]; auto.
Qed.

Lemma fill_phases_ext (np : nat) (entry1 entry2 : nat -> res double) :
  (forall phase, entry1 phase = entry2 phase) -> fill_phases np entry1 = fill_phases np entry2.
Proof. intros Hext. unfold fill_phases. apply for_each_ext. intros x s. by rewrite Hext. Qed.

(** What the helpers read is all that the sum of the rates depends on. *)
Lemma reads_inv (ws1 ws2 : WellState.t) :
  WellState.reads ws1 = WellState.reads ws2 ->
  WellState.numPhases ws1 = WellState.numPhases ws2
  /\ WellState.wellMap ws1 = WellState.wellMap ws2
  /\ WellState.wellIsOwned ws1 = WellState.wellIsOwned ws2
  /\ WellState.currentInjectionControls ws1 = WellState.currentInjectionControls ws2
  /\ WellState.currentProductionControls ws1 = WellState.currentProductionControls ws2
  /\ WellState.groupState ws1 = WellState.groupState ws2
  /\ WellState.injection_group_controls ws1 = WellState.injection_group_controls ws2.
Proof. unfold WellState.reads. intros [= -> -> -> -> -> -> ->]. done. Qed.

Lemma sumWellPhaseRates_reads (fuel : nat) :
  forall (rates : list double) (group : Group) (schedule : Schedule)
    (ws1 ws2 : WellState.t) (reportStepIdx phasePos : nat) (injector : bool),
    WellState.reads ws1 = WellState.reads ws2 ->
    sumWellPhaseRates fuel rates group schedule ws1 reportStepIdx phasePos injector
    = sumWellPhaseRates fuel rates group schedule ws2 reportStepIdx phasePos injector.
Proof.
  induction fuel as [|fuel IH]; intros rates group schedule ws1 ws2 step pos inj Hreads;
    [done|].
  cbn [sumWellPhaseRates].
  rewrite (for_each_ext (Group.groups group) _
             (fun groupName rate =>
                groupTmp ← Schedule.getGroup schedule groupName step;
                sub ← sumWellPhaseRates fuel rates groupTmp schedule ws2 step pos inj;
                Ok (rate + sub))).
  2:{ intros x s. destruct (Schedule.getGroup schedule x step); cbn [mbind res_bind]; [|done..].
      by rewrite (IH rates a schedule ws1 ws2 step pos inj Hreads). }
  destruct (for_each (Group.groups group) _ _) as [rate| |]; cbn [mbind res_bind];
    [|done..].
  rewrite (for_each_ext (Group.wells group) _ (add_well_rate rates schedule ws2 step pos inj)).
  2:{ intros x s. unfold add_well_rate.
      destruct (reads_inv ws1 ws2 Hreads) as (-> & -> & -> & _). done. }
  done.
Qed.

(** A write through a setter, seen as a write to the derived map. *)
Lemma reads_after_writes {V : Type} (L : derived_map V) (L_ok : derived_map_ok L)
    (ws ws1 : WellState.t) (m1 m2 : gmap string V) :
  ws1 = dset L ws m1 -> WellState.reads (dset L ws m2) = WellState.reads ws1.
Proof. intros ->. by rewrite !(reads_dset L L_ok). Qed.

Lemma numPhases_dset {V : Type} (L : derived_map V) (L_ok : derived_map_ok L)
    (ws : WellState.t) (m : gmap string V) :
  WellState.numPhases (dset L ws m) = WellState.numPhases ws.
Proof. by destruct (reads_inv _ _ (reads_dset L L_ok ws m)) as (-> & _). Qed.

Lemma wellMap_dset {V : Type} (L : derived_map V) (L_ok : derived_map_ok L)
    (ws : WellState.t) (m : gmap string V) :
  WellState.wellMap (dset L ws m) = WellState.wellMap ws.
Proof. by destruct (reads_inv _ _ (reads_dset L L_ok ws m)) as (_ & -> & _). Qed.

Lemma updateVREPForGroups_writes (fuel : nat) :
  forall (group : Group) (schedule : Schedule) (reportStepIdx : nat)
    (wellStateNupcol : WellState.t),
    writes_plain vrep_rates
      (updateVREPForGroups fuel group schedule reportStepIdx wellStateNupcol).
Proof.
  induction fuel as [|fuel IH]; intros group schedule step nupcol ws ws' H; [discriminate|].
  cbn [updateVREPForGroups] in H. bind_inv H. bind_inv H. injection H as <-.
  destruct (children_loop_writes vrep_rates vrep_rates_ok
              (fun g ws => updateVREPForGroups fuel g schedule step nupcol ws)
              schedule step (Group.groups group) (fun g => IH g schedule step nupcol)
              ws x E) as [Wc HWc].
  pose proof (writes_result vrep_rates vrep_rates_ok _ ws x Wc E HWc) as Hx.
  exists (Wc ++ [(Group.name group, x0)])%list. intros m.
  cbn [updateVREPForGroups]. rewrite HWc. cbn [mbind res_bind].
  pose proof (reads_after_writes vrep_rates vrep_rates_ok ws x _ (apply_writes Wc m) Hx)
    as Hreads.
  destruct (reads_inv _ _ Hreads) as (-> & _).
  rewrite (for_each_ext _ _
             (fun phase resv =>
                r ← sumWellPhaseRates (S fuel) (WellState.wellReservoirRates nupcol) group
                      schedule x step phase false;
                Ok (resv + r))).
  2:{ intros phase s. by rewrite (sumWellPhaseRates_reads (S fuel) _ _ _ _ x _ _ _ Hreads). }
  rewrite E0. cbn [mbind res_bind]. f_equal.
  change (WellState.setCurrentInjectionVREPRates ?w ?n ?v)
    with (dset vrep_rates w (<[n := v]> (dget vrep_rates w))).
  rewrite (dset_dset _ vrep_rates_ok), (dget_dset _ vrep_rates_ok), apply_writes_app.
  done.
Qed.

Lemma updateReservoirRatesInjectionGroups_writes (fuel : nat) :
  forall (group : Group) (schedule : Schedule) (reportStepIdx : nat)
    (wellStateNupcol : WellState.t),
    writes_plain injection_reservoir_rates
      (updateReservoirRatesInjectionGroups fuel group schedule reportStepIdx wellStateNupcol).
Proof.
  induction fuel as [|fuel IH]; intros group schedule step nupcol ws ws' H; [discriminate|].
  cbn [updateReservoirRatesInjectionGroups] in H. bind_inv H. bind_inv H. injection H as <-.
  destruct (children_loop_writes injection_reservoir_rates injection_reservoir_rates_ok
              (fun g ws => updateReservoirRatesInjectionGroups fuel g schedule step nupcol ws)
              schedule step (Group.groups group) (fun g => IH g schedule step nupcol)
              ws x E) as [Wc HWc].
  pose proof (writes_result _ injection_reservoir_rates_ok _ ws x Wc E HWc) as Hx.
  exists (Wc ++ [(Group.name group, x0)])%list. intros m.
  cbn [updateReservoirRatesInjectionGroups]. rewrite HWc. cbn [mbind res_bind].
  pose proof (reads_after_writes _ injection_reservoir_rates_ok ws x _
                (apply_writes Wc m) Hx) as Hreads.
  destruct (reads_inv _ _ Hreads) as (-> & _).
  rewrite (fill_phases_ext _ _
             (fun phase =>
                sumWellPhaseRates (S fuel) (WellState.wellReservoirRates nupcol) group
                  schedule x step phase true)).
  2:{ intros phase. by rewrite (sumWellPhaseRates_reads (S fuel) _ _ _ _ x _ _ _ Hreads). }
  rewrite E0. cbn [mbind res_bind]. f_equal.
  change (WellState.setCurrentInjectionGroupReservoirRates ?w ?n ?v)
    with (dset injection_reservoir_rates w (<[n := v]> (dget injection_reservoir_rates w))).
  rewrite (dset_dset _ injection_reservoir_rates_ok),
    (dget_dset _ injection_reservoir_rates_ok), apply_writes_app.
  done.
Qed.

Lemma updateGroupProductionRates_writes (fuel : nat) :
  forall (group : Group) (schedule : Schedule) (reportStepIdx : nat)
    (wellStateNupcol : WellState.t),
    writes_plain production_rates
      (updateGroupProductionRates fuel group schedule reportStepIdx wellStateNupcol).
Proof.
  induction fuel as [|fuel IH]; intros group schedule step nupcol ws ws' H; [discriminate|].
  cbn [updateGroupProductionRates] in H. bind_inv H. bind_inv H. injection H as <-.
  destruct (children_loop_writes production_rates production_rates_ok
              (fun g ws => updateGroupProductionRates fuel g schedule step nupcol ws)
              schedule step (Group.groups group) (fun g => IH g schedule step nupcol)
              ws x E) as [Wc HWc].
  pose proof (writes_result _ production_rates_ok _ ws x Wc E HWc) as Hx.
  exists (Wc ++ [(Group.name group, x0)])%list. intros m.
  cbn [updateGroupProductionRates]. rewrite HWc. cbn [mbind res_bind].
  pose proof (reads_after_writes _ production_rates_ok ws x _ (apply_writes Wc m) Hx)
    as Hreads.
  destruct (reads_inv _ _ Hreads) as (-> & _).
  rewrite (fill_phases_ext _ _
             (fun phase =>
                sumWellPhaseRates (S fuel) (WellState.wellRates nupcol) group
                  schedule x step phase false)).
  2:{ intros phase. by rewrite (sumWellPhaseRates_reads (S fuel) _ _ _ _ x _ _ _ Hreads). }
  rewrite E0. cbn [mbind res_bind]. f_equal.
  change (WellState.setCurrentProductionGroupRates ?w ?n ?v)
    with (dset production_rates w (<[n := v]> (dget production_rates w))).
  rewrite (dset_dset _ production_rates_ok), (dget_dset _ production_rates_ok),
    apply_writes_app.
  done.
Qed.

Lemma updateREINForGroups_writes (fuel : nat) :
  forall (group : Group) (schedule : Schedule) (reportStepIdx : nat) (pu : PhaseUsage)
    (st : SummaryState) (wellStateNupcol : WellState.t),
    writes_plain rein_rates
      (updateREINForGroups fuel group schedule reportStepIdx pu st wellStateNupcol).
Proof.
  induction fuel as [|fuel IH]; intros group schedule step pu st nupcol ws ws' H;
    [discriminate|].
  cbn [updateREINForGroups] in H. bind_inv H. bind_inv H. injection H as <-.
  destruct (children_loop_writes rein_rates rein_rates_ok
              (fun g ws => updateREINForGroups fuel g schedule step pu st nupcol ws)
              schedule step (Group.groups group) (fun g => IH g schedule step pu st nupcol)
              ws x E) as [Wc HWc].
  pose proof (writes_result _ rein_rates_ok _ ws x Wc E HWc) as Hx.
  eexists (Wc ++ [(Group.name group, _)])%list. intros m.
  cbn [updateREINForGroups]. rewrite HWc. cbn [mbind res_bind].
  pose proof (reads_after_writes _ rein_rates_ok ws x _ (apply_writes Wc m) Hx)
    as Hreads.
  rewrite (numPhases_dset _ rein_rates_ok).
  rewrite (fill_phases_ext _ _
             (fun phase =>
                sumWellPhaseRates (S fuel) (WellState.wellRates nupcol) group
                  schedule x step phase false)).
  2:{ intros phase. by apply sumWellPhaseRates_reads. }
  rewrite E0. cbn [mbind res_bind]. f_equal.
  change (WellState.setCurrentInjectionREINRates ?w ?n ?v)
    with (dset rein_rates w (<[n := v]> (dget rein_rates w))).
  rewrite (dset_dset _ rein_rates_ok), (dget_dset _ rein_rates_ok), apply_writes_app.
  done.
Qed.

Lemma for_each_writes {A V : Type} (L : derived_map V) (L_ok : derived_map_ok L)
    (body : A -> WellState.t -> res WellState.t) (l : list A) :
  (forall x, writes_plain L (body x)) -> writes_plain L (for_each l body).
Proof.
  intros Hbody. induction l as [|a l IH]; intros ws ws' H.
  - exists []. intros m. done.
  - cbn [for_each] in H. bind_inv H.
    destruct (Hbody a ws x E) as [W1 HW1].
    destruct (IH x ws' H) as [W2 HW2].
    pose proof (writes_result L L_ok (body a) ws x W1 E HW1) as Hx.
    exists (W1 ++ W2)%list. intros m. cbn [for_each].
    rewrite HW1. cbn [mbind res_bind].
    specialize (HW2 (apply_writes W1 m)).
    rewrite Hx, !(dset_dset L L_ok) in HW2. by rewrite HW2, apply_writes_app.
Qed.

Lemma update_well_rate_writes (schedule : Schedule) (reportStepIdx : nat)
    (wellStateNupcol : WellState.t) (np : nat) (wellName : string) :
  writes_plain current_well_rates
    (update_well_rate schedule reportStepIdx wellStateNupcol np wellName).
Proof.
  intros ws ws' H. unfold update_well_rate in H. bind_inv H. injection H as <-.
  exists [(wellName, x)]. intros m. unfold update_well_rate.
  rewrite (wellMap_dset _ current_well_rates_ok), E. cbn [mbind res_bind]. done.
Qed.

Lemma updateWellRates_writes (fuel : nat) :
  forall (group : Group) (schedule : Schedule) (reportStepIdx : nat)
    (wellStateNupcol : WellState.t),
    writes_plain current_well_rates
      (updateWellRates fuel group schedule reportStepIdx wellStateNupcol).
Proof.
  induction fuel as [|fuel IH]; intros group schedule step nupcol ws ws' H; [discriminate|].
  cbn [updateWellRates] in H. bind_inv H.
  destruct (children_loop_writes current_well_rates current_well_rates_ok
              (fun g ws => updateWellRates fuel g schedule step nupcol ws)
              schedule step (Group.groups group) (fun g => IH g schedule step nupcol)
              ws x E) as [Wc HWc].
  pose proof (writes_result _ current_well_rates_ok _ ws x Wc E HWc) as Hx.
  destruct (for_each_writes current_well_rates current_well_rates_ok
              (update_well_rate schedule step nupcol (WellState.numPhases x))
              (Group.wells group)
              (update_well_rate_writes schedule step nupcol (WellState.numPhases x))
              x ws' H) as [Ww HWw].
  exists (Wc ++ Ww)%list. intros m.
  cbn [updateWellRates]. rewrite HWc. cbn [mbind res_bind].
  rewrite (numPhases_dset _ current_well_rates_ok).
  specialize (HWw (apply_writes Wc m)).
  rewrite Hx, !(dset_dset _ current_well_rates_ok) in HWw.
  rewrite (numPhases_dset _ current_well_rates_ok) in HWw.
  by rewrite HWw, apply_writes_app.
Qed.

Lemma reductions_ok (isInjector : bool) : derived_map_ok (reductions isInjector).
Proof.
  destruct isInjector; [apply injection_reductions_ok | apply production_reductions_ok].
Qed.

Lemma setCurrentGroupReductionRates_dset (isInjector : bool) (ws : WellState.t)
    (groupName : string) (target : list double) :
  setCurrentGroupReductionRates isInjector ws groupName target
  = dset (reductions isInjector) ws (<[groupName := target]> (dget (reductions isInjector) ws)).
Proof. by destruct isInjector. Qed.

Lemma accumulate_subgroup_reads (fuel : nat) (schedule : Schedule) (reportStepIdx : nat)
    (isInjector : bool) (pu : PhaseUsage) (guide_rate : GuideRate)
    (wellStateNupcol ws1 ws2 : WellState.t) (np : nat) (subGroupName : string)
    (subGroup : Group) (sub gtr : list double) :
  WellState.reads ws1 = WellState.reads ws2 ->
  accumulate_subgroup fuel schedule reportStepIdx isInjector pu guide_rate wellStateNupcol
    ws1 np subGroupName subGroup sub gtr
  = accumulate_subgroup fuel schedule reportStepIdx isInjector pu guide_rate wellStateNupcol
      ws2 np subGroupName subGroup sub gtr.
Proof.
  intros Hreads. destruct (reads_inv _ _ Hreads) as (_ & _ & _ & _ & _ & Hgs & Hic).
  unfold accumulate_subgroup, WellState.currentInjectionGroupControl,
    WellState.currentProductionGroupControl.
  by rewrite Hgs, Hic.
Qed.

Lemma add_well_reduction_reads (schedule : Schedule) (reportStepIdx : nat)
    (isInjector : bool) (wellStateNupcol ws1 ws2 : WellState.t) (np : nat)
    (wellName : string) (gtr : list double) :
  WellState.reads ws1 = WellState.reads ws2 ->
  add_well_reduction schedule reportStepIdx isInjector wellStateNupcol ws1 np wellName gtr
  = add_well_reduction schedule reportStepIdx isInjector wellStateNupcol ws2 np wellName gtr.
Proof.
  intros Hreads.
  destruct (reads_inv _ _ Hreads) as (Hnp & Hmap & Hown & Hinj & Hprod & _).
  unfold add_well_reduction. by rewrite Hnp, Hmap, Hown, Hinj, Hprod.
Qed.

Lemma updateGroupTargetReduction_writes (fuel : nat) :
  forall (group : Group) (schedule : Schedule) (reportStepIdx : nat) (isInjector : bool)
    (pu : PhaseUsage) (guide_rate : GuideRate) (wellStateNupcol : WellState.t)
    (groupTargetReduction : list double),
    writes_only (reductions isInjector)
      (fun wellState =>
         updateGroupTargetReduction fuel group schedule reportStepIdx isInjector pu
           guide_rate wellStateNupcol wellState groupTargetReduction).
Proof.
  induction fuel as [|fuel IH];
    intros group schedule step isInj pu gr nupcol gtr0 ws r H; [discriminate|].
  set (L := reductions isInj). pose proof (reductions_ok isInj) as L_ok. fold L in L_ok.
  cbn [updateGroupTargetReduction] in H.
  set (np := WellState.numPhases ws) in H.
  set (body := fun subGroupName '(wellState, groupTargetReduction) =>
         subGroup ← Schedule.getGroup schedule subGroupName step;
         '(wellState, subGroupTargetReduction) ←
           updateGroupTargetReduction fuel subGroup schedule step isInj pu gr nupcol
             wellState (vec_zero np);
         groupTargetReduction ←
           accumulate_subgroup fuel schedule step isInj pu gr nupcol wellState np
             subGroupName subGroup subGroupTargetReduction groupTargetReduction;
         Ok (wellState, groupTargetReduction)) in H.
  assert (Hloop : forall (l : list string) (ws0 : WellState.t) (g0 : list double)
                    (r0 : WellState.t * list double),
            for_each l body (ws0, g0) = Ok r0 ->
            exists W, forall m,
              for_each l body (dset L ws0 m, g0)
              = Ok (dset L ws0 (apply_writes W m), r0.2)).
  { induction l as [|a l IHl]; intros ws0 g0 r0 Hl.
    - exists []. intros m. cbn [for_each] in *. injection Hl as <-. done.
    - cbn [for_each] in Hl. bind_split Hl as st1 Hbody. destruct st1 as [ws1 g1].
      unfold body at 1 in Hbody. bind_split Hbody as subGroup Hsub.
      bind_split Hbody as st2 Hrec. destruct st2 as [ws2 sub].
      bind_split Hbody as g2 Hacc. injection Hbody as <- <-.
      destruct (IH subGroup schedule step isInj pu gr nupcol (vec_zero np) ws0 (ws2, sub)
                  Hrec) as [W1 HW1]. cbn [snd] in HW1. fold L in HW1.
      assert (Hws2 : ws2 = dset L ws0 (apply_writes W1 (dget L ws0))).
      { pose proof (HW1 (dget L ws0)) as Hm. rewrite (dset_dget L L_ok) in Hm. congruence. }
      destruct (IHl ws2 g2 r0 Hl) as [W2 HW2].
      exists (W1 ++ W2)%list. intros m. cbn [for_each].
      assert (Hstep : body a (dset L ws0 m, g0) = Ok (dset L ws0 (apply_writes W1 m), g2)).
      { unfold body. rewrite Hsub. cbn [mbind res_bind]. rewrite HW1. cbn [mbind res_bind].
        rewrite (accumulate_subgroup_reads _ _ _ _ _ _ _ _ ws2).
        2:{ by apply (reads_after_writes L L_ok ws0 ws2 (apply_writes W1 (dget L ws0))). }
        by rewrite Hacc. }
      rewrite Hstep. cbn [mbind res_bind].
      specialize (HW2 (apply_writes W1 m)).
      rewrite Hws2, !(dset_dset L L_ok) in HW2.
      by rewrite HW2, apply_writes_app. }
  bind_split H as st1 Hchildren. destruct st1 as [ws1 g1].
  bind_split H as g2 Hwells. injection H as <-.
  destruct (Hloop (Group.groups group) ws gtr0 (ws1, g1) Hchildren) as [Wc HWc].
  cbn [snd] in HWc.
  assert (Hws1 : ws1 = dset L ws (apply_writes Wc (dget L ws))).
  { pose proof (HWc (dget L ws)) as Hm. rewrite (dset_dget L L_ok) in Hm. congruence. }
  eexists (Wc ++ [(Group.name group, _)])%list. intros m.
  cbn [updateGroupTargetReduction]. rewrite (numPhases_dset L L_ok). fold np. fold body.
  rewrite HWc. cbn [mbind res_bind].
  rewrite (for_each_ext _ _ (add_well_reduction schedule step isInj nupcol ws1 np)).
  2:{ intros w s. apply add_well_reduction_reads.
      by apply (reads_after_writes L L_ok ws ws1 (apply_writes Wc (dget L ws))). }
  rewrite Hwells. cbn [mbind res_bind snd]. f_equal. f_equal.
  rewrite setCurrentGroupReductionRates_dset. fold L.
  by rewrite (dset_dset L L_ok), (dget_dset L L_ok), apply_writes_app.
Qed.

(** C8. Each of the update helpers, called a second time with the same
    arguments on the well state that the first call returned, returns that
    same well state: the helpers write their results without reading what
    they write.  (For [updateGroupTargetReduction] the in/out vector is an
    argument like the others: it has the same value at both calls.) *)
Theorem update_helpers_idempotent :
  (forall fuel group schedule reportStepIdx isInjector pu guide_rate wellStateNupcol
      wellState groupTargetReduction wellState1 groupTargetReduction1,
     updateGroupTargetReduction fuel group schedule reportStepIdx isInjector pu guide_rate
       wellStateNupcol wellState groupTargetReduction
     = Ok (wellState1, groupTargetReduction1) ->
     updateGroupTargetReduction fuel group schedule reportStepIdx isInjector pu guide_rate
       wellStateNupcol wellState1 groupTargetReduction
     = Ok (wellState1, groupTargetReduction1))
  /\ (forall fuel group schedule reportStepIdx pu st wellStateNupcol wellState wellState1,
        updateREINForGroups fuel group schedule reportStepIdx pu st wellStateNupcol wellState
        = Ok wellState1 ->
        updateREINForGroups fuel group schedule reportStepIdx pu st wellStateNupcol wellState1
        = Ok wellState1)
  /\ (forall fuel group schedule reportStepIdx wellStateNupcol wellState wellState1,
        updateVREPForGroups fuel group schedule reportStepIdx wellStateNupcol wellState
        = Ok wellState1 ->
        updateVREPForGroups fuel group schedule reportStepIdx wellStateNupcol wellState1
        = Ok wellState1)
  /\ (forall fuel group schedule reportStepIdx wellStateNupcol wellState wellState1,
        updateReservoirRatesInjectionGroups fuel group schedule reportStepIdx
          wellStateNupcol wellState = Ok wellState1 ->
        updateReservoirRatesInjectionGroups fuel group schedule reportStepIdx
          wellStateNupcol wellState1 = Ok wellState1)
  /\ (forall fuel group schedule reportStepIdx wellStateNupcol wellState wellState1,
        updateWellRates fuel group schedule reportStepIdx wellStateNupcol wellState
        = Ok wellState1 ->
        updateWellRates fuel group schedule reportStepIdx wellStateNupcol wellState1
        = Ok wellState1)
  /\ (forall fuel group schedule reportStepIdx wellStateNupcol wellState wellState1,
        updateGroupProductionRates fuel group schedule reportStepIdx wellStateNupcol
          wellState = Ok wellState1 ->
        updateGroupProductionRates fuel group schedule reportStepIdx wellStateNupcol
          wellState1 = Ok wellState1).
Proof.
  repeat split.
  - intros fuel group schedule step isInj pu gr nupcol ws gtr ws1 gtr1 H.
    apply (writes_only_idemp (reductions isInj) (reductions_ok isInj)
             (fun wellState =>
                updateGroupTargetReduction fuel group schedule step isInj pu gr nupcol
                  wellState gtr) ws ws1 gtr1); [|exact H].
    apply updateGroupTargetReduction_writes.
  - intros fuel group schedule step pu st nupcol ws ws1 H.
    eapply (writes_plain_idemp rein_rates rein_rates_ok); [|exact H].
    apply updateREINForGroups_writes.
  - intros fuel group schedule step nupcol ws ws1 H.
    eapply (writes_plain_idemp vrep_rates vrep_rates_ok); [|exact H].
    apply updateVREPForGroups_writes.
  - intros fuel group schedule step nupcol ws ws1 H.
    eapply (writes_plain_idemp injection_reservoir_rates injection_reservoir_rates_ok);
      [|exact H].
    apply updateReservoirRatesInjectionGroups_writes.
  - intros fuel group schedule step nupcol ws ws1 H.
    eapply (writes_plain_idemp current_well_rates current_well_rates_ok); [|exact H].
    apply updateWellRates_writes.
  - intros fuel group schedule step nupcol ws ws1 H.
    eapply (writes_plain_idemp production_rates production_rates_ok); [|exact H].
    apply updateGroupProductionRates_writes.
Qed.

Ltac run_first_call E :=
  lazymatch goal with
  | |- exists r, ?f = Ok r /\ _ =>
    destruct f as [r| |] eqn:E; [exists r; split; [reflexivity|] | vm_compute in E; discriminate ..]
  end.

(** The six helpers called twice on the scenario. *)
Lemma update_helpers_idempotent_witness :
  (exists r,
     updateGroupTargetReduction 2 Scenario.FIELD Scenario.schedule 0 false Scenario.pu
       Scenario.guideRate (Scenario.wellState Scenario.stored_rates)
       (Scenario.wellState Scenario.stored_rates) (vec_zero 3) = Ok r
     /\ updateGroupTargetReduction 2 Scenario.FIELD Scenario.schedule 0 false Scenario.pu
          Scenario.guideRate (Scenario.wellState Scenario.stored_rates) r.1 (vec_zero 3)
        = Ok r)
  /\ (exists r,
        updateREINForGroups 2 Scenario.FIELD Scenario.schedule 0 Scenario.pu ∅
          (Scenario.wellState Scenario.stored_rates)
          (Scenario.wellState Scenario.stored_rates) = Ok r
        /\ updateREINForGroups 2 Scenario.FIELD Scenario.schedule 0 Scenario.pu ∅
             (Scenario.wellState Scenario.stored_rates) r = Ok r)
  /\ (exists r,
        updateVREPForGroups 2 Scenario.FIELD Scenario.schedule 0
          (Scenario.wellState Scenario.stored_rates)
          (Scenario.wellState Scenario.stored_rates) = Ok r
        /\ updateVREPForGroups 2 Scenario.FIELD Scenario.schedule 0
             (Scenario.wellState Scenario.stored_rates) r = Ok r)
  /\ (exists r,
        updateReservoirRatesInjectionGroups 2 Scenario.FIELD Scenario.schedule 0
          (Scenario.wellState Scenario.stored_rates)
          (Scenario.wellState Scenario.stored_rates) = Ok r
        /\ updateReservoirRatesInjectionGroups 2 Scenario.FIELD Scenario.schedule 0
             (Scenario.wellState Scenario.stored_rates) r = Ok r)
  /\ (exists r,
        updateWellRates 2 Scenario.FIELD Scenario.schedule 0
          (Scenario.wellState Scenario.stored_rates)
          (Scenario.wellState Scenario.stored_rates) = Ok r
        /\ updateWellRates 2 Scenario.FIELD Scenario.schedule 0
             (Scenario.wellState Scenario.stored_rates) r = Ok r)
  /\ (exists r,
        updateGroupProductionRates 2 Scenario.FIELD Scenario.schedule 0
          (Scenario.wellState Scenario.stored_rates)
          (Scenario.wellState Scenario.stored_rates) = Ok r
        /\ updateGroupProductionRates 2 Scenario.FIELD Scenario.schedule 0
             (Scenario.wellState Scenario.stored_rates) r = Ok r).
Proof.
  destruct update_helpers_idempotent as (H1 & H2 & H3 & H4 & H5 & H6).
  repeat split.
  - run_first_call E. destruct r as [ws1 gtr1]. eapply H1. exact E.
  - run_first_call E. eapply H2. exact E.
  - run_first_call E. eapply H3. exact E.
  - run_first_call E. eapply H4. exact E.
  - run_first_call E. eapply H5. exact E.
  - run_first_call E. eapply H6. exact E.
Defined.

(** ** The fractions are between 0 and 1 *)

Lemma Qc_div_le_1 (a b : double) : 0 <= a -> a <= b -> 0 < b -> 0 <= a / b /\ a / b <= 1.
Proof.
  intros Ha Hab Hb. pose proof (Qcinv_pos b Hb) as Hinv.
  assert (Hne : b <> 0). { intros ->. by apply (Qclt_not_le _ _ Hb). }
  unfold Qcdiv. split.
  - apply Qcmult_nonneg_nonneg; [done | by apply Qclt_le_weak].
  - rewrite <- (Qcmult_inv_r b Hne). by apply Qcmult_le_mono_pos_r.
Qed.

Lemma Qc_mult_unit_interval (x y : double) :
  0 <= x -> x <= 1 -> 0 <= y -> y <= 1 -> 0 <= x * y /\ x * y <= 1.
Proof.
  intros Hx0 Hx1 Hy0 Hy1. split; [by apply Qcmult_nonneg_nonneg|].
  apply Qcle_trans with (1 * y); [by apply Qcmult_le_compat_r|].
  by rewrite Qcmult_1_l.
Qed.

Lemma for_each_mono {A S : Type} (l : list A) (body1 body2 : A -> S -> res S) :
  (forall x s r, body1 x s = Ok r -> body2 x s = Ok r) ->
  forall s r, for_each l body1 s = Ok r -> for_each l body2 s = Ok r.
Proof.
  intros Hmono. induction l as [|x l IH]; intros s r H; cbn [for_each] in *; [done|].
  bind_split H as s1 Hx. rewrite (Hmono x s s1 Hx). cbn [mbind res_bind]. by apply IH.
Qed.

Lemma groupControlledWells_S (fuel : nat) (schedule : Schedule) (well_state : WellState.t)
    (report_step : nat) (group_name always_included_child : string)
    (is_production_group : bool) (injection_phase : Phase) :
  groupControlledWells (S fuel) schedule well_state report_step group_name
    always_included_child is_production_group injection_phase
  = (group ← Schedule.getGroup schedule group_name report_step;
     num_wells ← for_each (Group.groups group) (fun child_group num_wells =>
       included ← child_group_included well_state always_included_child
                    is_production_group injection_phase child_group;
       if (included : bool) then
         n ← groupControlledWells fuel schedule well_state report_step child_group
               always_included_child is_production_group injection_phase;
         Ok (num_wells + n)%nat
       else Ok num_wells) 0%nat;
     Ok (foldl (fun num_wells child_well =>
           if child_well_included well_state always_included_child is_production_group
                child_well
           then S num_wells else num_wells) num_wells (Group.wells group))).
Proof. reflexivity. Qed.

Lemma guideRateSum_S (fuel : nat) (fc : FractionCalculator.t) (group : Group)
    (aic : string) :
  FractionCalculator.guideRateSum (S fuel) fc group aic
  = (total_guide_rate ←
       for_each (Group.groups group) (fun child_group total_guide_rate =>
         included ← child_group_included (FractionCalculator.well_state_ fc) aic
                      (FractionCalculator.is_producer_ fc)
                      (FractionCalculator.injection_phase_ fc) child_group;
         if (included : bool) then
           g ← FractionCalculator.guideRate fuel fc child_group aic;
           Ok (total_guide_rate + g)
         else Ok total_guide_rate) 0;
     for_each (Group.wells group) (fun child_well total_guide_rate =>
       if child_well_included (FractionCalculator.well_state_ fc) aic
            (FractionCalculator.is_producer_ fc) child_well
       then
         g ← FractionCalculator.guideRate fuel fc child_well aic;
         Ok (total_guide_rate + g)
       else Ok total_guide_rate) total_guide_rate).
Proof. reflexivity. Qed.

(** More fuel does not change a result. *)
Lemma groupControlledWells_mono (fuel : nat) :
  forall (schedule : Schedule) (well_state : WellState.t) (report_step : nat)
    (group_name always_included_child : string) (is_production_group : bool)
    (injection_phase : Phase) (n : nat),
    groupControlledWells fuel schedule well_state report_step group_name
      always_included_child is_production_group injection_phase = Ok n ->
    groupControlledWells (S fuel) schedule well_state report_step group_name
      always_included_child is_production_group injection_phase = Ok n.
Proof.
  induction fuel as [|fuel IH];
    intros schedule ws step name aic prod phase n H; [discriminate|].
  rewrite groupControlledWells_S in H. bind_split H as group Hgroup.
  bind_split H as num Hloop. injection H as <-.
  rewrite groupControlledWells_S. rewrite Hgroup. cbn [mbind res_bind].
  erewrite for_each_mono; [| |exact Hloop]; [done|].
  intros c s r Hc. bind_split Hc as included Hinc. rewrite Hinc. cbn [mbind res_bind].
  destruct included; [|done]. bind_split Hc as k Hk.
  by rewrite (IH _ _ _ _ _ _ _ _ Hk).
Qed.

Section FractionBounds.
Variable fc : FractionCalculator.t.

Local Abbreviation sched := (FractionCalculator.schedule_ fc).
Local Abbreviation step := (FractionCalculator.report_step_ fc).
Local Abbreviation state := (FractionCalculator.well_state_ fc).

Lemma guideRate_body_mono (fuel : nat)
    (rec1 rec2 : Group -> string -> res double) (name aic : string) (v : double) :
  (forall g a r, rec1 g a = Ok r -> rec2 g a = Ok r) ->
  FractionCalculator.guideRate_body fuel fc rec1 name aic = Ok v ->
  FractionCalculator.guideRate_body (S fuel) fc rec2 name aic = Ok v.
Proof.
  intros Hrec H. unfold FractionCalculator.guideRate_body in *.
  destruct (Schedule.hasWell sched name step); [done|].
  bind_split H as n Hn. unfold FractionCalculator.groupControlledWells in *.
  rewrite (groupControlledWells_mono _ _ _ _ _ _ _ _ _ Hn). cbn [mbind res_bind].
  destruct (Nat.ltb 0 n); [|done].
  destruct (_ && _); [done|]. destruct (_ && _); [done|].
  bind_split H as group Hgroup. rewrite Hgroup. cbn [mbind res_bind]. by apply Hrec.
Qed.

Lemma guideRate_mono_from (fuel : nat) (name aic : string) (v : double) :
  (forall g a r, FractionCalculator.guideRateSum fuel fc g a = Ok r ->
                 FractionCalculator.guideRateSum (S fuel) fc g a = Ok r) ->
  FractionCalculator.guideRate fuel fc name aic = Ok v ->
  FractionCalculator.guideRate (S fuel) fc name aic = Ok v.
Proof. intros Hsum. unfold FractionCalculator.guideRate. by apply guideRate_body_mono. Qed.

Lemma guideRateSum_mono (fuel : nat) :
  forall (group : Group) (aic : string) (v : double),
    FractionCalculator.guideRateSum fuel fc group aic = Ok v ->
    FractionCalculator.guideRateSum (S fuel) fc group aic = Ok v.
Proof.
  induction fuel as [|fuel IH]; intros group aic v H; [discriminate|].
  rewrite guideRateSum_S in H. bind_split H as total Hgroups.
  rewrite guideRateSum_S.
  erewrite for_each_mono; [| |exact Hgroups].
  - cbn [mbind res_bind]. eapply for_each_mono; [|exact H].
    intros w s r Hw. cbv beta in Hw. destruct (child_well_included _ _ _ _); [|done].
    bind_split Hw as g Hg. rewrite (guideRate_mono_from fuel w aic g IH Hg). exact Hw.
  - intros c s r Hc. bind_split Hc as included Hinc. rewrite Hinc. cbn [mbind res_bind].
    destruct included; [|done]. bind_split Hc as g Hg.
    rewrite (guideRate_mono_from fuel c aic g IH Hg). exact Hc.
Qed.

Lemma guideRate_mono (fuel : nat) (name aic : string) (v : double) :
  FractionCalculator.guideRate fuel fc name aic = Ok v ->
  FractionCalculator.guideRate (S fuel) fc name aic = Ok v.
Proof. apply guideRate_mono_from. intros g a r. apply guideRateSum_mono. Qed.

End FractionBounds.

(** A loop that adds the non-negative terms of the counted elements: it
    returns, its result is at least the start value, and at least the start
    value plus the term of any counted element. *)
Lemma sum_loop {A : Type} (l : list A) (inc : A -> res bool) (term : A -> res double) :
  (forall x, x ∈ l -> exists b, inc x = Ok b) ->
  (forall x, x ∈ l -> exists v, term x = Ok v /\ 0 <= v) ->
  forall acc,
    exists r,
      for_each l (fun x s => b ← inc x;
                             if (b : bool) then g ← term x; Ok (s + g) else Ok s) acc = Ok r
      /\ acc <= r
      /\ forall x, x ∈ l -> inc x = Ok true -> exists v, term x = Ok v /\ acc + v <= r.
Proof.
  induction l as [|a l IH]; intros Hinc Hterm acc.
  - exists acc. split; [done|]. split; [apply Qcle_refl|].
    intros x Hx. by apply elem_of_nil in Hx.
  - destruct (Hinc a) as [b Hb]; [by left|].
    destruct (Hterm a) as (v & Hv & Hv0); [by left|].
    assert (Hacc : acc <= acc + v).
    { rewrite <- (Qcplus_0_r acc) at 1. by apply Qcplus_le_compat; [apply Qcle_refl|]. }
    destruct (IH (fun x Hx => Hinc x (list_elem_of_further _ _ _ Hx))
                 (fun x Hx => Hterm x (list_elem_of_further _ _ _ Hx))
                 (if b then acc + v else acc)) as (r & Hr & Hle & Hsummand).
    exists r. cbn [for_each]. rewrite Hb. cbn [mbind res_bind].
    assert (Hstep : (if b then term a ≫= (fun g => Ok (acc + g)) else Ok acc)
                    = Ok (if b then acc + v else acc)).
    { destruct b; [by rewrite Hv|done]. }
    rewrite Hstep. cbn [mbind res_bind]. split; [exact Hr|].
    assert (Hacc' : acc <= (if b then acc + v else acc)).
    { destruct b; [done|apply Qcle_refl]. }
    split; [by eapply Qcle_trans|].
    intros x Hx Hincx. apply elem_of_cons in Hx as [->|Hx].
    + exists v. split; [done|]. rewrite Hb in Hincx. injection Hincx as ->. done.
    + destruct (Hsummand x Hx Hincx) as (w & Hw & Hwle). exists w. split; [done|].
      eapply Qcle_trans; [|exact Hwle]. by apply Qcplus_le_compat; [|apply Qcle_refl].
Qed.

Lemma existsb_eqb_elem_of (x : string) (l : list string) :
  existsb (String.eqb x) l = true -> x ∈ l.
Proof.
  intros H. apply existsb_exists in H as (y & Hy & Heq).
  apply String.eqb_eq in Heq as ->. by apply list_elem_of_In.
Qed.

Lemma forallb_elem_of {A : Type} (f : A -> bool) (l : list A) (x : A) :
  forallb f l = true -> x ∈ l -> f x = true.
Proof. intros H Hx. apply (proj1 (forallb_forall f l) H). by apply list_elem_of_In. Qed.

Section FractionTotal.
Variable fc : FractionCalculator.t.
Hypothesis nonneg : guide_rates_nonneg (FractionCalculator.guide_rate_ fc).

Local Abbreviation sched := (FractionCalculator.schedule_ fc).
Local Abbreviation step := (FractionCalculator.report_step_ fc).
Local Abbreviation state := (FractionCalculator.well_state_ fc).

Lemma child_group_included_total (aic child_group : string) :
  child_control_present fc child_group = true ->
  exists b, child_group_included state aic (FractionCalculator.is_producer_ fc)
              (FractionCalculator.injection_phase_ fc) child_group = Ok b.
Proof.
  unfold child_control_present, child_group_included.
  destruct (FractionCalculator.is_producer_ fc); intros H;
    apply bool_decide_eq_true in H as [v Hv].
  - unfold WellState.currentProductionGroupControl, WellState.lookup_or_throw.
    unfold production_control_of in Hv. rewrite Hv. by eexists.
  - unfold WellState.currentInjectionGroupControl, WellState.lookup_or_throw.
    unfold injection_control_of in Hv. rewrite Hv. by eexists.
Qed.

Lemma groupControlledWells_total (fuel : nat) :
  forall (name : string) (group : Group) (aic : string),
    Schedule.groups (Schedule.at_step sched step) !! name = Some group ->
    guide_tree_ok fuel fc group = true ->
    exists n, FractionCalculator.groupControlledWells fuel fc name aic = Ok n.
Proof.
  induction fuel as [|fuel IH]; intros name group aic Hgroup Hok; [discriminate|].
  cbn [guide_tree_ok] in Hok. apply andb_prop in Hok as [Hgroups _].
  unfold FractionCalculator.groupControlledWells.
  rewrite groupControlledWells_S, (getGroup_Some _ _ _ _ Hgroup). cbn [mbind res_bind].
  assert (Hloop : forall acc, exists n,
    for_each (Group.groups group) (fun child_group num_wells =>
      included ← child_group_included state aic (FractionCalculator.is_producer_ fc)
                   (FractionCalculator.injection_phase_ fc) child_group;
      if (included : bool) then
        n ← groupControlledWells fuel sched state step child_group aic
              (FractionCalculator.is_producer_ fc) (FractionCalculator.injection_phase_ fc);
        Ok (num_wells + n)%nat
      else Ok num_wells) acc = Ok n).
  { induction (Group.groups group) as [|c l IHl]; intros acc; [by eexists|].
    cbn [forallb] in Hgroups. apply andb_prop in Hgroups as [Hc Hl].
    apply andb_prop in Hc as [Hc Hsub]. apply andb_prop in Hc as [Hc _].
    apply andb_prop in Hc as [_ Hctrl].
    destruct (child_group_included_total aic c Hctrl) as [b Hb].
    cbn [for_each]. rewrite Hb. cbn [mbind res_bind]. destruct b; [|by apply IHl].
    destruct (Schedule.groups (Schedule.at_step sched step) !! c) as [sub|] eqn:Ec;
      [|discriminate].
    destruct (IH c sub aic Ec Hsub) as [n Hn].
    unfold FractionCalculator.groupControlledWells in Hn. rewrite Hn.
    cbn [mbind res_bind]. by apply IHl. }
  destruct (Hloop 0%nat) as [n ->]. cbn [mbind res_bind]. by eexists.
Qed.

(** The guide rate of a child well. *)
Lemma guideRate_well (fuel : nat) (child_well aic : string) :
  Schedule.hasWell sched child_well step
  && bool_decide (is_Some (WellState.well_rates state !! child_well)) = true ->
  exists v, FractionCalculator.guideRate fuel fc child_well aic = Ok v /\ 0 <= v.
Proof.
  intros H. apply andb_prop in H as [Hwell Hrates].
  apply bool_decide_eq_true in Hrates as [rates Hrates].
  unfold FractionCalculator.guideRate, FractionCalculator.guideRate_body.
  rewrite Hwell. unfold getWellRateVector, WellState.currentWellRates,
    WellState.lookup_or_throw. rewrite Hrates. cbn [mbind res_bind].
  eexists. split; [done|]. apply nonneg.
Qed.

(** The guide rate of a child group, when the sums below it return. *)
Lemma guideRate_group (fuel : nat) (child_group aic : string) :
  (forall sub, guide_tree_ok fuel fc sub = true ->
     exists total, FractionCalculator.guideRateSum fuel fc sub aic = Ok total /\ 0 <= total) ->
  negb (Schedule.hasWell sched child_group step)
  && child_control_present fc child_group
  && (if FractionCalculator.is_producer_ fc
         && GuideRate.has (FractionCalculator.guide_rate_ fc) child_group
      then bool_decide (is_Some (WellState.production_group_rates state !! child_group))
      else true)
  && match Schedule.groups (Schedule.at_step sched step) !! child_group with
     | Some sub => guide_tree_ok fuel fc sub
     | None => false
     end = true ->
  exists v, FractionCalculator.guideRate fuel fc child_group aic = Ok v /\ 0 <= v.
Proof.
  intros Hsum H. apply andb_prop in H as [H Hsub]. apply andb_prop in H as [H Hrates].
  apply andb_prop in H as [Hwell Hctrl]. apply negb_true_iff in Hwell.
  destruct (Schedule.groups (Schedule.at_step sched step) !! child_group) as [sub|] eqn:Ec;
    [|discriminate].
  unfold FractionCalculator.guideRate, FractionCalculator.guideRate_body.
  rewrite Hwell.
  destruct (groupControlledWells_total fuel child_group sub aic Ec Hsub) as [n ->].
  cbn [mbind res_bind]. destruct (Nat.ltb 0 n).
  2:{ exists 0. split; [done|]. apply Qcle_refl. }
  destruct (FractionCalculator.is_producer_ fc
            && GuideRate.has (FractionCalculator.guide_rate_ fc) child_group) eqn:Hprod.
  { apply bool_decide_eq_true in Hrates as [rates Hr].
    unfold FractionCalculator.getGroupRateVector, getProductionGroupRateVector,
      WellState.currentProductionGroupRates, WellState.lookup_or_throw.
    rewrite Hr. cbn [mbind res_bind]. eexists. split; [done|]. apply nonneg. }
  destruct (negb (FractionCalculator.is_producer_ fc)
            && GuideRate.has_inj (FractionCalculator.guide_rate_ fc) child_group
                 (FractionCalculator.injection_phase_ fc)) eqn:Hinj.
  { apply andb_prop in Hinj as [_ Hhas]. apply bool_decide_eq_true in Hhas as [v Hv].
    unfold GuideRate.get_inj. rewrite Hv. exists v. split; [done|].
    by apply (proj2 nonneg _ _ Hv). }
  rewrite (getGroup_Some _ _ _ _ Ec). cbn [mbind res_bind]. by apply Hsum.
Qed.

End FractionTotal.

Section FractionRange.
Variable fc : FractionCalculator.t.
Hypothesis nonneg : guide_rates_nonneg (FractionCalculator.guide_rate_ fc).

Local Abbreviation sched := (FractionCalculator.schedule_ fc).
Local Abbreviation step := (FractionCalculator.report_step_ fc).
Local Abbreviation state := (FractionCalculator.well_state_ fc).

(** On a well-formed tree the sum of the guide rates returns a
    non-negative value, and every child that it counts has a guide rate
    between 0 and the sum. *)
Lemma guideRateSum_spec (fuel : nat) :
  forall (group : Group) (aic : string),
    guide_tree_ok (S fuel) fc group = true ->
    exists total,
      FractionCalculator.guideRateSum (S fuel) fc group aic = Ok total
      /\ 0 <= total
      /\ forall current, eligible_child fc aic group current = true ->
           exists v, FractionCalculator.guideRate fuel fc current aic = Ok v
                     /\ 0 <= v /\ v <= total.
Proof.
  induction fuel as [fuel IH] using lt_wf_ind. intros group aic Hok.
  assert (Hsum : forall sub, guide_tree_ok fuel fc sub = true ->
            exists total, FractionCalculator.guideRateSum fuel fc sub aic = Ok total
                          /\ 0 <= total).
  { intros sub Hsub. destruct fuel as [|fuel']; [discriminate|].
    destruct (IH fuel' (Nat.lt_succ_diag_r fuel') sub aic Hsub) as (total & Ht & Ht0 & _).
    by exists total. }
  cbn [guide_tree_ok] in Hok. apply andb_prop in Hok as [Hgroups Hwells].
  destruct (sum_loop (Group.groups group)
              (child_group_included state aic (FractionCalculator.is_producer_ fc)
                 (FractionCalculator.injection_phase_ fc))
              (fun child_group => FractionCalculator.guideRate fuel fc child_group aic))
    with (acc := Q2Qc 0) as (r1 & Hr1 & Hle1 & Hsummand1).
  { intros c Hc. pose proof (forallb_elem_of _ _ c Hgroups Hc) as H.
    apply andb_prop in H as [H _]. apply andb_prop in H as [H _].
    apply andb_prop in H as [_ Hctrl]. by apply child_group_included_total. }
  { intros c Hc. pose proof (forallb_elem_of _ _ c Hgroups Hc) as H.
    by apply guideRate_group. }
  destruct (sum_loop (Group.wells group)
              (fun child_well =>
                 Ok (child_well_included state aic (FractionCalculator.is_producer_ fc)
                       child_well))
              (fun child_well => FractionCalculator.guideRate fuel fc child_well aic))
    with (acc := r1) as (r2 & Hr2 & Hle2 & Hsummand2).
  { intros w Hw. by eexists. }
  { intros w Hw. pose proof (forallb_elem_of _ _ w Hwells Hw) as H.
    by apply guideRate_well. }
  exists r2. rewrite guideRateSum_S. rewrite Hr1. cbn [mbind res_bind].
  split; [exact Hr2|]. split; [by eapply Qcle_trans|].
  intros current Helig. unfold eligible_child in Helig.
  apply orb_prop in Helig as [Hg|Hw].
  - apply andb_prop in Hg as [Hin Hinc]. apply existsb_eqb_elem_of in Hin.
    destruct (child_group_included _ _ _ _ current) as [b| |] eqn:Hb; try discriminate.
    subst b. destruct (Hsummand1 current Hin Hb) as (v & Hv & Hvle).
    rewrite Qcplus_0_l in Hvle.
    pose proof (forallb_elem_of _ _ current Hgroups Hin) as H.
    destruct (guideRate_group fc nonneg fuel current aic Hsum H) as (v' & Hv' & Hv0).
    exists v. split; [done|]. split; [congruence|]. by eapply Qcle_trans.
  - apply andb_prop in Hw as [Hin Hinc]. apply existsb_eqb_elem_of in Hin.
    destruct (Hsummand2 current Hin) as (v & Hv & Hvle); [by rewrite Hinc|].
    pose proof (forallb_elem_of _ _ current Hwells Hin) as H.
    destruct (guideRate_well fc nonneg fuel current aic H) as (v' & Hv' & Hv0).
    assert (v = v') as <- by congruence.
    exists v. split; [done|]. split; [done|].
    eapply Qcle_trans; [|exact Hvle].
    rewrite <- (Qcplus_0_l v) at 1. by apply Qcplus_le_compat; [|apply Qcle_refl].
Qed.

(** One step of the chain: the local fraction is between 0 and 1. *)
Lemma localFraction_range (fuel : nat) (current aic parent_name : string)
    (parent_group : Group) :
  FractionCalculator.parent fc current = Ok parent_name ->
  Schedule.groups (Schedule.at_step sched step) !! parent_name = Some parent_group ->
  guide_tree_ok fuel fc parent_group = true ->
  eligible_child fc aic parent_group current = true ->
  (exists f, FractionCalculator.localFraction fuel fc current aic = Ok f
             /\ 0 <= f /\ f <= 1)
  /\ FractionCalculator.localFraction_assertion fuel fc current aic = Ok true.
Proof.
  intros Hparent Hgroup Hok Helig. destruct fuel as [|fuel]; [discriminate|].
  destruct (guideRateSum_spec fuel parent_group aic Hok) as (total & Htotal & Ht0 & Hchild).
  destruct (Hchild current Helig) as (my & Hmy & Hmy0 & Hmyle).
  unfold FractionCalculator.localFraction, FractionCalculator.localFraction_assertion.
  rewrite (guideRate_mono fc fuel current aic my Hmy). cbn [mbind res_bind].
  rewrite Hparent. cbn [mbind res_bind].
  rewrite (getGroup_Some _ _ _ _ Hgroup). cbn [mbind res_bind].
  rewrite Htotal. cbn [mbind res_bind]. split.
  - eexists. split; [done|].
    destruct (Qclt_le_dec FractionCalculator.guide_rate_epsilon total) as [Hlt|Hle].
    + apply Qc_div_le_1; [done|done|].
      eapply Qclt_trans; [|exact Hlt]. done.
    + split; [apply Qcle_refl|done].
  - destruct (Qclt_le_dec total my) as [Hlt|Hle]; [|done].
    exfalso. by eapply Qclt_not_le.
Qed.

(** The loop of [fraction]: the product stays between 0 and 1. *)
Lemma fraction_loop_range (turns : nat) :
  forall (fuel : nat) (name control : string) (always : bool) (fraction : double)
    (current : string),
    fraction_chain_ok turns fuel fc (if always then name else "") control current = true ->
    0 <= fraction -> fraction <= 1 ->
    (exists f,
       FractionCalculator.fraction_loop turns fuel fc name control always fraction current
         = Ok f
       /\ 0 <= f /\ f <= 1)
    /\ FractionCalculator.fraction_assertions turns fuel fc name control always current
       = Ok true.
Proof.
  induction turns as [|turns IH]; intros fuel name control always fraction current Hok H0 H1.
  - cbn [fraction_chain_ok FractionCalculator.fraction_loop
         FractionCalculator.fraction_assertions] in *.
    destruct (String.eqb current control); [|discriminate].
    split; [by exists fraction|done].
  - cbn [fraction_chain_ok FractionCalculator.fraction_loop
         FractionCalculator.fraction_assertions] in *.
    destruct (String.eqb current control); [split; [by exists fraction|done]|].
    destruct (FractionCalculator.parent fc current) as [parent_name| |] eqn:Hparent;
      try discriminate.
    destruct (Schedule.groups (Schedule.at_step sched step) !! parent_name)
      as [parent_group|] eqn:Hgroup; [|discriminate].
    apply andb_prop in Hok as [Hok Hrest]. apply andb_prop in Hok as [Htree Helig].
    destruct (localFraction_range fuel current _ parent_name parent_group Hparent Hgroup
                Htree Helig) as [(f & Hf & Hf0 & Hf1) Hassert].
    rewrite Hf, Hassert. cbn [mbind res_bind].
    destruct (Qc_mult_unit_interval fraction f H0 H1 Hf0 Hf1) as [Hp0 Hp1].
    by apply IH.
Qed.

End FractionRange.

(** C2, as the code has it.  When all guide-rate values of the registry
    are non-negative, the chain of parents from [name] reaches the control
    group, the trees below the groups of the chain are well formed, and
    every element of the chain is one of the children that its parent
    counts ([name] itself because [always_include_this] is set or because
    it is under group control, a group on the way because its control is
    FLD or NONE), then [fraction] returns a value between 0 and 1, and the
    assertion of [localFraction] holds at every turn of its loop, so that a
    build with assertions returns the same value. *)
Theorem fraction_in_unit_interval (fuel : nat) (fc : FractionCalculator.t)
    (name control_group_name : string) (always_include_this : bool) :
  guide_rates_nonneg (FractionCalculator.guide_rate_ fc) ->
  fraction_chain_ok fuel fuel fc (if always_include_this then name else "")
    control_group_name name = true ->
  (exists f,
     FractionCalculator.fraction fuel fc name control_group_name always_include_this = Ok f
     /\ 0 <= f /\ f <= 1)
  /\ FractionCalculator.fraction_assertions fuel fuel fc name control_group_name
       always_include_this name = Ok true.
Proof.
  intros Hnonneg Hchain. unfold FractionCalculator.fraction.
  apply fraction_loop_range; done.
Qed.

Lemma scenario_guideRate_nonneg : guide_rates_nonneg Scenario.guideRate.
Proof.
  split.
  - intros name target rates. cbn [GuideRate.get Scenario.guideRate].
    destruct (String.eqb name "W1"); [done|]. destruct (String.eqb name "W2"); done.
  - intros key v H. cbn in H. by rewrite lookup_empty in H.
Qed.

(** For the well W1 under a control of its own, and without
    [always_include_this], the assertion of [localFraction] does not hold:
    the guide rate 3 of W1 is above the sum 1 of the guide rates that G1
    counts.  A build with assertions stops there and returns no value. *)
Lemma scenario_fraction_assertion_fails :
  FractionCalculator.fraction_assertions 2 2
    (Scenario.fcalc_with Scenario.wellState_W1_individual Scenario.guideRate)
    "W1" "G1" false "W1" = Ok false.
Proof. vm_compute. reflexivity. Qed.

(** C2, as the specification words it, fails: for the well W1, which is
    under a control of its own, and without [always_include_this], the
    guide rate 3 of W1 is divided by the sum 1 of the guide rates of the
    wells under group control, and the fraction is 3. *)
Lemma fraction_can_exceed_1 :
  ~ (forall (fuel : nat) (fc : FractionCalculator.t) (name control_group_name : string)
       (always_include_this : bool) (f : double),
       guide_rates_nonneg (FractionCalculator.guide_rate_ fc) ->
       FractionCalculator.fraction fuel fc name control_group_name always_include_this
         = Ok f ->
       0 <= f /\ f <= 1).
Proof.
  intros H.
  destruct (H 2%nat
              (Scenario.fcalc_with Scenario.wellState_W1_individual Scenario.guideRate)
              "W1" "G1" false (dbl 3 1) scenario_guideRate_nonneg) as [_ Hle].
  - vm_compute. reflexivity.
  - revert Hle. vm_compute. intros Hle. by apply Hle.
Qed.

(** In the scenario, the fraction of W1 under G1. *)
Lemma fraction_in_unit_interval_witness :
  (exists f,
     FractionCalculator.fraction 2 (Scenario.fcalc Scenario.guideRate) "W1" "G1" true = Ok f
     /\ 0 <= f /\ f <= 1)
  /\ FractionCalculator.fraction_assertions 2 2 (Scenario.fcalc Scenario.guideRate)
       "W1" "G1" true "W1" = Ok true.
Proof.
  apply (fraction_in_unit_interval 2 (Scenario.fcalc Scenario.guideRate) "W1" "G1" true).
  - exact scenario_guideRate_nonneg.
  - vm_compute. reflexivity.
Defined.

(** * Further properties of the helpers *)

(** ** The verdict of the checkers *)

Lemma Qc_lt_irrefl (x : double) : ~ x < x.
Proof. intros H. by apply (Qclt_not_le _ _ H), Qcle_refl. Qed.

Lemma scale_below_1 (current_rate target_rate : double) :
  0 < target_rate ->
  target_rate < current_rate <->
  0 < target_rate / current_rate /\ target_rate / current_rate < 1.
Proof.
  intros Ht. split.
  - intros Hlt. assert (Hc : 0 < current_rate) by (by eapply Qclt_trans).
    pose proof (Qcinv_pos current_rate Hc) as Hinv.
    assert (Hne : current_rate <> 0). { intros ->. by apply (Qc_lt_irrefl 0). }
    unfold Qcdiv. split.
    + by apply Qcmult_pos_pos.
    + rewrite <- (Qcmult_inv_r current_rate Hne). by apply Qcmult_lt_mono_pos_r.
  - intros [Hpos Hlt1].
    destruct (Qc_eq_dec current_rate 0) as [->|Hne].
    { exfalso. unfold Qcdiv in Hpos. revert Hpos.
      replace (/ 0) with 0 by (apply Qc_is_canon; reflexivity).
      rewrite Qcmult_0_r. apply Qc_lt_irrefl. }
    assert (Heq : target_rate / current_rate * current_rate = target_rate).
    { unfold Qcdiv. rewrite <- Qcmult_assoc, (Qcmult_comm (/ current_rate)).
      by rewrite Qcmult_inv_r, Qcmult_1_r. }
    destruct (Qclt_le_dec 0 current_rate) as [Hc|Hc].
    + pose proof (proj1 (Qcmult_lt_mono_pos_r _ _ current_rate Hc) Hlt1) as H.
      by rewrite Heq, Qcmult_1_l in H.
    + exfalso. assert (Hneg : current_rate < 0).
      { apply Qcle_lt_or_eq in Hc as [Hc|Hc]; [done|by subst]. }
      pose proof (proj1 (Qcmult_lt_mono_pos_l _ _ (target_rate / current_rate) Hpos) Hneg)
        as H.
      rewrite Heq, Qcmult_0_r in H.
      apply (Qc_lt_irrefl target_rate). by eapply Qclt_trans.
Qed.

Lemma target_rate_floor_pos : 0 < target_rate_floor.
Proof. reflexivity. Qed.

Lemma outcome_pair_verdict (o : CheckOutcome) :
  (forall current_rate target_rate,
     o = AgainstTarget current_rate target_rate -> target_rate_floor <= target_rate) ->
  (outcome_pair o).1 = true <-> 0 < (outcome_pair o).2 /\ (outcome_pair o).2 < 1.
Proof.
  intros Hfloor. destruct o as [|current_rate target_rate]; cbn [outcome_pair fst snd].
  - split; [discriminate|]. intros [_ H]. by apply Qc_lt_irrefl in H.
  - rewrite bool_decide_eq_true. apply scale_below_1.
    eapply Qclt_le_trans; [apply target_rate_floor_pos|]. by eapply Hfloor.
Qed.

(** X1.  Both checkers report a violation exactly when the scale factor that
    they return lies strictly between 0 and 1. *)
Theorem checker_violation_iff_scale_below_1
    (new_TargetCalculator :
       Group.ProductionCMode.t -> PhaseUsage -> list double -> double -> TargetCalculator.t)
    (new_InjectionTargetCalculator :
       Group.InjectionCMode.t -> PhaseUsage -> list double -> string -> double ->
       WellState.t -> Phase -> res InjectionTargetCalculator.t)
    (fuel : nat) (name parent : string) (group : Group)
    (wellState : WellState.t) (reportStepIdx : nat) (guideRate : GuideRate)
    (rates : list double) (injectionPhase : Phase) (pu : PhaseUsage)
    (efficiencyFactor : double) (schedule : Schedule) (summaryState : SummaryState)
    (resv_coeff : list double) (violated : bool) (scale : double) :
  (checkGroupConstraintsProd new_TargetCalculator fuel name parent group wellState
     reportStepIdx guideRate rates pu efficiencyFactor schedule summaryState resv_coeff
   = Ok (violated, scale) ->
   (violated = true <-> 0 < scale /\ scale < 1))
  /\ (checkGroupConstraintsInj new_InjectionTargetCalculator fuel name parent group
        wellState reportStepIdx guideRate rates injectionPhase pu efficiencyFactor
        schedule summaryState resv_coeff
      = Ok (violated, scale) ->
      (violated = true <-> 0 < scale /\ scale < 1)).
Proof.
  split; intros H.
  - unfold checkGroupConstraintsProd in H. bind_split H as o Ho.
    injection H as H. pose proof (outcome_pair_verdict o) as Hverdict.
    rewrite H in Hverdict. apply Hverdict.
    intros c t ->. by eapply prod_target_rate_floored.
  - unfold checkGroupConstraintsInj in H. bind_split H as o Ho.
    injection H as H. pose proof (outcome_pair_verdict o) as Hverdict.
    rewrite H in Hverdict. apply Hverdict.
    intros c t ->. by eapply inj_target_rate_floored.
Qed.

Lemma check_W1_violated :
  checkGroupConstraintsProd TargetCalculator_spec 2 "W1" "G1" Scenario.G1
    (Scenario.wellState ([0; dbl (-400) 1; 0] ++ vec_zero 3)) 0 Scenario.guideRate
    [0; dbl (-400) 1; 0] Scenario.pu 1 Scenario.schedule ∅ [1; 1; 1]
  = Ok (true, dbl 15 16).
Proof.
  unfold checkGroupConstraintsProd.
  change (checkGroupConstraintsProd_outcome _ _ _ _ _ _ _ _ _ _ _ _ _ _)
    with (Scenario.check_W1 2 [0; dbl (-400) 1; 0]).
  rewrite check_W1_formula. cbn [mbind res_bind outcome_pair]. f_equal.
  apply (f_equal2 pair); [vm_compute; reflexivity|].
  apply Qc_is_canon. vm_compute. reflexivity.
Qed.

Lemma check_W1_inj_not_violated :
  checkGroupConstraintsInj Scenario.surface_rate_calculator 2 "W1" "G1" Scenario.G1
    (Scenario.wellState ([dbl 5 1; 0; 0] ++ vec_zero 3)) 0 Scenario.guideRate
    [dbl 5 1; 0; 0] WATER Scenario.pu 1 Scenario.schedule ∅ [1; 1; 1]
  = Ok (false, 1).
Proof.
  unfold checkGroupConstraintsInj.
  change (checkGroupConstraintsInj_outcome _ _ _ _ _ _ _ _ _ _ _ _ _ _ _)
    with (Scenario.check_W1_inj 2 [dbl 5 1; 0; 0]).
  rewrite check_W1_inj_value. cbn [mbind res_bind outcome_pair]. f_equal.
  apply (f_equal2 pair); [vm_compute; reflexivity|].
  apply Qc_is_canon. vm_compute. reflexivity.
Qed.

(** In the two-level scenario W1, producing oil at 400, violates its share
    375 of the target, with the scale 15/16; injecting water at 5 it is
    at its target, with the scale 1. *)
Lemma checker_violation_iff_scale_below_1_witness :
  (true = true <-> 0 < dbl 15 16 /\ dbl 15 16 < 1)
  /\ (false = true <-> 0 < 1 /\ 1 < 1).
Proof.
  split.
  - exact (proj1 (checker_violation_iff_scale_below_1 TargetCalculator_spec
                    Scenario.surface_rate_calculator 2 "W1" "G1" Scenario.G1
                    (Scenario.wellState ([0; dbl (-400) 1; 0] ++ vec_zero 3)) 0
                    Scenario.guideRate [0; dbl (-400) 1; 0] WATER Scenario.pu 1
                    Scenario.schedule ∅ [1; 1; 1] true (dbl 15 16))
                 check_W1_violated).
  - exact (proj2 (checker_violation_iff_scale_below_1 TargetCalculator_spec
                    Scenario.surface_rate_calculator 2 "W1" "G1" Scenario.G1
                    (Scenario.wellState ([dbl 5 1; 0; 0] ++ vec_zero 3)) 0
                    Scenario.guideRate [dbl 5 1; 0; 0] WATER Scenario.pu 1
                    Scenario.schedule ∅ [1; 1; 1] false 1)
                 check_W1_inj_not_violated).
Defined.

(** ** The chain from the control group down to a well or group *)

Lemma groupChain_loop_shape (turns : nat) (schedule : Schedule) (report_step : nat)
    (top : string) :
  forall (parent : string) (chain r : list string),
    groupChain_loop turns schedule report_step top parent (chain ++ [parent])%list = Ok r ->
    exists mid, r = (chain ++ mid ++ [top])%list /\ top ∉ mid.
Proof.
  induction turns as [|turns IH]; intros parent chain r H;
    cbn [groupChain_loop] in H; destruct (String.eqb_spec parent top) as [->|Hne].
  - exists []. injection H as <-. split; [done|apply not_elem_of_nil].
  - discriminate.
  - exists []. injection H as <-. split; [done|apply not_elem_of_nil].
  - bind_split H as g Hg. apply IH in H as (mid & -> & Hmid).
    exists (parent :: mid). split; [by rewrite <- app_assoc|].
    apply not_elem_of_cons. split; [congruence|done].
Qed.

(** X2.  When [groupChainTopBot] returns, the chain starts with [top], ends
    with [bottom], and [top] does not occur in between: the walk stops at
    the first occurrence of [top], and the chain has at least two
    elements. *)
Theorem groupChainTopBot_shape (fuel : nat) (bottom top : string) (schedule : Schedule)
    (report_step : nat) (chain : list string) :
  groupChainTopBot fuel bottom top schedule report_step = Ok chain ->
  exists mid, chain = (top :: mid ++ [bottom])%list /\ top ∉ mid.
Proof.
  intros H. unfold groupChainTopBot in H. bind_split H as parent Hparent.
  bind_split H as r Hr. injection H as <-.
  apply (groupChain_loop_shape _ _ _ _ parent [bottom]) in Hr as (mid & -> & Hmid).
  exists (rev mid). split.
  - cbn [app rev]. by rewrite rev_app_distr.
  - by rewrite list_elem_of_In, <- in_rev, <- list_elem_of_In.
Qed.

(** In the three-level field the chain from P2 up to PLAT. *)
Lemma groupChainTopBot_shape_witness :
  groupChainTopBot 3 "P2" "PLAT" Field3.schedule 0 = Ok ["PLAT"; "SAT"; "P2"]
  /\ exists mid, ["PLAT"; "SAT"; "P2"] = ("PLAT" :: mid ++ ["P2"])%list /\ "PLAT" ∉ mid.
Proof.
  split; [vm_compute; reflexivity|].
  apply (groupChainTopBot_shape 3 "P2" "PLAT" Field3.schedule 0).
  vm_compute. reflexivity.
Defined.

(** ** The accumulated efficiency factor *)

(** X3.  [accumulateGroupEfficiencyFactor] multiplies the factor by the
    efficiency factor of the group and of each of its ancestors below
    FIELD, each once; the efficiency factor of FIELD itself is not
    applied. *)
Theorem accumulateGroupEfficiencyFactor_product (schedule : Schedule)
    (reportStepIdx : nat) (group : Group) (l : list Group) :
  chain_below_FIELD schedule reportStepIdx group l ->
  forall (fuel : nat) (factor : double),
    (length l <= fuel)%nat ->
    accumulateGroupEfficiencyFactor fuel group schedule reportStepIdx factor
    = Ok (factor * efficiency_product l).
Proof.
  induction 1 as [group Htop|group parentGroup l Hne Hparent Hchain IH];
    intros fuel factor Hfuel.
  - destruct fuel as [|fuel]; [cbn in Hfuel; lia|].
    cbn [accumulateGroupEfficiencyFactor efficiency_product foldr].
    rewrite Htop. cbn. by rewrite Qcmult_1_r.
  - destruct fuel as [|fuel]; [cbn in Hfuel; lia|].
    cbn [accumulateGroupEfficiencyFactor efficiency_product foldr].
    apply String.eqb_neq in Hne. rewrite Hne. cbn [negb].
    rewrite Hparent. cbn [mbind res_bind].
    rewrite IH by (cbn in Hfuel; lia). f_equal. unfold efficiency_product. ring.
Qed.

(** In the three-level field the factor of SAT is 1/4 times the factor
    1/2 of PLAT. *)
Lemma accumulateGroupEfficiencyFactor_product_witness :
  accumulateGroupEfficiencyFactor 2 Field3.SAT Field3.schedule 0 1
  = Ok (1 * efficiency_product [Field3.SAT; Field3.PLAT]).
Proof.
  apply (accumulateGroupEfficiencyFactor_product Field3.schedule 0 Field3.SAT
           [Field3.SAT; Field3.PLAT]).
  - apply (chain_below_FIELD_up _ _ Field3.SAT Field3.PLAT [Field3.PLAT]).
    + discriminate.
    + reflexivity.
    + by apply chain_below_FIELD_top.
  - cbn. lia.
Defined.

(** ** The sum of the solvent rates *)

(** X4.  [sumSolventRates] is [sumWellPhaseRates] on the solvent rates: for a
    rate vector that holds, at the position of a phase, the solvent rate
    of every well of the well-state map, the two functions give the same
    result, an exception included. *)
Theorem sumSolventRates_as_sumWellPhaseRates (fuel : nat) :
  forall (rates : list double) (group : Group) (schedule : Schedule)
    (wellState : WellState.t) (reportStepIdx phasePos : nat) (injector : bool),
    (forall wellName it,
       WellState.wellMap wellState !! wellName = Some it ->
       vec_at rates (it.1.1 * WellState.numPhases wellState + phasePos)
       = WellState.solventWellRate wellState it.1.1) ->
    sumSolventRates fuel group schedule wellState reportStepIdx injector
    = sumWellPhaseRates fuel rates group schedule wellState reportStepIdx phasePos injector.
Proof.
  induction fuel as [|fuel IH];
    intros rates group schedule wellState step pos injector Hrates; [done|].
  cbn [sumSolventRates sumWellPhaseRates].
  rewrite (for_each_ext (Group.groups group) _
             (fun groupName rate =>
                groupTmp ← Schedule.getGroup schedule groupName step;
                sub ← sumWellPhaseRates fuel rates groupTmp schedule wellState step pos
                        injector;
                Ok (rate + sub))).
  2:{ intros x s. destruct (Schedule.getGroup schedule x step) as [g| |];
        cbn [mbind res_bind]; [|done..].
      by rewrite (IH rates g schedule wellState step pos injector Hrates). }
  destruct (for_each (Group.groups group) _ _) as [rate| |]; cbn [mbind res_bind];
    [|done..].
  rewrite (for_each_ext (Group.wells group) _
             (add_well_rate rates schedule wellState step pos injector)); [done|].
  intros wellName s. unfold add_well_solvent_rate, add_well_rate.
  destruct (WellState.wellMap wellState !! wellName) as [it|] eqn:Hit; [|done].
  by rewrite (Hrates wellName it Hit).
Qed.

(** In the three-level field the solvent rates of P1, P2 and I1 are -4,
    -2 and 6: placed at the water position of the three wells they give
    the same sum, 17/8 for the producers below PLAT. *)
Lemma sumSolventRates_as_sumWellPhaseRates_witness :
  sumSolventRates 3 Field3.PLAT Field3.schedule Field3.wellState 0 false
  = sumWellPhaseRates 3 [dbl (-4) 1; 0; 0; dbl (-2) 1; 0; 0; dbl 6 1; 0; 0]
      Field3.PLAT Field3.schedule Field3.wellState 0 0 false
  /\ sumSolventRates 3 Field3.PLAT Field3.schedule Field3.wellState 0 false
     = Ok (dbl 17 8).
Proof.
  split.
  - apply (sumSolventRates_as_sumWellPhaseRates 3
             [dbl (-4) 1; 0; 0; dbl (-2) 1; 0; 0; dbl 6 1; 0; 0]
             Field3.PLAT Field3.schedule Field3.wellState 0 0 false).
    intros wellName it Hit. cbn in Hit.
    repeat (apply lookup_insert_Some in Hit as [[<- <-]|[_ Hit]]; [vm_compute; done|]).
    apply lookup_singleton_Some in Hit as [<- <-]. vm_compute. done.
  - eval_res.
Defined.

(** ** What the update helpers store *)

Lemma writes_plain_reads {V : Type} (L : derived_map V) (L_ok : derived_map_ok L)
    (f : WellState.t -> res WellState.t) (ws ws' : WellState.t) :
  writes_plain L f -> f ws = Ok ws' -> WellState.reads ws' = WellState.reads ws.
Proof.
  intros Hf Hrun. destruct (Hf ws ws' Hrun) as [W HW].
  rewrite (writes_result L L_ok f ws ws' W Hrun HW). apply (reads_dset L L_ok).
Qed.

Lemma group_tree_ok_children (fuel : nat) (schedule : Schedule) (reportStepIdx : nat)
    (group : Group) (groupName : string) :
  group_tree_ok (S fuel) schedule reportStepIdx group = true ->
  groupName ∈ Group.groups group ->
  exists sub,
    Schedule.groups (Schedule.at_step schedule reportStepIdx) !! groupName = Some sub
    /\ group_tree_ok fuel schedule reportStepIdx sub = true.
Proof.
  intros Hok Hin. cbn [group_tree_ok] in Hok. apply andb_prop in Hok as [Hgroups _].
  pose proof (forallb_elem_of _ _ groupName Hgroups Hin) as H. cbn beta in H.
  destruct (Schedule.groups (Schedule.at_step schedule reportStepIdx) !! groupName)
    as [sub|]; [|discriminate].
  by exists sub.
Qed.

(** The loop over the child groups returns when the recursive calls do. *)
Lemma children_loop_total {S : Type} (rec : Group -> S -> res S)
    (schedule : Schedule) (reportStepIdx : nat) (l : list string) :
  (forall groupName, groupName ∈ l ->
     exists sub,
       Schedule.groups (Schedule.at_step schedule reportStepIdx) !! groupName = Some sub
       /\ forall s, exists s', rec sub s = Ok s') ->
  forall s, exists s',
    for_each l (fun groupName s =>
      groupTmp ← Schedule.getGroup schedule groupName reportStepIdx;
      rec groupTmp s) s = Ok s'.
Proof.
  induction l as [|groupName l IH]; intros Hrec s; [by exists s|].
  destruct (Hrec groupName) as (sub & Hsub & Hrun); [by left|].
  destruct (Hrun s) as [s1 Hs1].
  destruct (IH (fun n Hn => Hrec n (list_elem_of_further _ _ _ Hn)) s1) as [s' Hs'].
  exists s'. cbn [for_each]. rewrite (getGroup_Some _ _ _ _ Hsub). cbn [mbind res_bind].
  rewrite Hs1. cbn [mbind res_bind]. exact Hs'.
Qed.

(** The loop that fills a vector of [np] entries, phase by phase. *)
Lemma fill_phases_spec (np : nat) (entry : nat -> res double) (g : nat -> double) :
  (forall phase, (phase < np)%nat -> entry phase = Ok (g phase)) ->
  fill_phases np entry = Ok (map g (seq 0 np)).
Proof.
  intros Hentry. unfold fill_phases, vec_zero.
  assert (Hloop : forall n k, (k + n = np)%nat ->
            for_each (seq k n) (fun phase v => x ← entry phase; Ok (<[phase := x]> v))
              (map g (seq 0 k) ++ replicate n 0)%list
            = Ok (map g (seq 0 np))).
  { induction n as [|n IH]; intros k Hk.
    - cbn [seq for_each replicate]. rewrite app_nil_r.
      by replace k with np by lia.
    - cbn [seq for_each]. rewrite Hentry by lia. cbn [mbind res_bind].
      replace (<[k := g k]> (map g (seq 0 k) ++ replicate (S n) 0)%list)
        with (map g (seq 0 (S k)) ++ replicate n 0)%list.
      { apply IH. lia. }
      rewrite seq_S, map_app. cbn [map replicate plus].
      rewrite <- app_assoc. cbn [app].
      assert (Hlen : length (map g (seq 0 k)) = k) by (by rewrite length_map, length_seq).
      rewrite <- Hlen at 3. rewrite <- (Nat.add_0_r (length (map g (seq 0 k)))).
      by rewrite insert_app_r. }
  apply (Hloop np 0%nat). lia.
Qed.

Section StoredSums.
Variables (schedule : Schedule) (reportStepIdx : nat) (wellStateNupcol : WellState.t).

(** The sum of the rates [rates] of the counted wells below [group], for
    one phase and one role, with the weights of [wells_below]. *)
Local Abbreviation tree_sum rates ws group fuel phase injector :=
  (weighted_rate_sum rates schedule ws reportStepIdx phase injector
     (wells_below fuel schedule reportStepIdx group 1)).

Lemma sumWellPhaseRates_tree_sum (fuel : nat) (rates : list double) (group : Group)
    (ws ws0 : WellState.t) (phase : nat) (injector : bool) :
  group_tree_ok fuel schedule reportStepIdx group = true ->
  WellState.reads ws = WellState.reads ws0 ->
  sumWellPhaseRates fuel rates group schedule ws reportStepIdx phase injector
  = Ok (tree_sum rates ws0 group fuel phase injector).
Proof.
  intros Hok Hreads.
  rewrite (sumWellPhaseRates_reads fuel rates group schedule ws ws0 _ _ _ Hreads).
  destruct (sumWellPhaseRates_spec rates schedule ws0 reportStepIdx phase injector fuel
              group 1 Hok) as (r & Hr & Hsum).
  rewrite Hr. f_equal. by rewrite Qcmult_1_l in Hsum.
Qed.

Lemma updateGroupProductionRates_total (fuel : nat) :
  forall (group : Group) (ws : WellState.t),
    group_tree_ok fuel schedule reportStepIdx group = true ->
    exists ws',
      updateGroupProductionRates fuel group schedule reportStepIdx wellStateNupcol ws
      = Ok ws'.
Proof.
  induction fuel as [|fuel IH]; intros group ws Hok; [discriminate|].
  destruct (children_loop_total
              (fun g ws => updateGroupProductionRates fuel g schedule reportStepIdx
                             wellStateNupcol ws)
              schedule reportStepIdx (Group.groups group)) with (s := ws) as [ws1 Hws1].
  { intros groupName Hin.
    destruct (group_tree_ok_children _ _ _ _ _ Hok Hin) as (sub & Hsub & Hsubok).
    exists sub. split; [done|]. intros s. by apply IH. }
  cbn [updateGroupProductionRates]. rewrite Hws1. cbn [mbind res_bind].
  rewrite (fill_phases_spec _ _
             (fun phase => tree_sum (WellState.wellRates wellStateNupcol) ws1 group
                             (S fuel) phase false)).
  2:{ intros phase _. by apply sumWellPhaseRates_tree_sum. }
  cbn [mbind res_bind]. by eexists.
Qed.

End StoredSums.

(** What the loop over the phases has filled in, when its entries are
    known to return. *)
Lemma filled_phases (np : nat) (entry : nat -> res double) (g : nat -> double)
    (v : list double) :
  (forall phase, (phase < np)%nat -> entry phase = Ok (g phase)) ->
  fill_phases np entry = Ok v ->
  length v = np
  /\ forall phase, (phase < np)%nat -> entry phase = Ok (vec_at v phase).
Proof.
  intros Hentry Hfill. rewrite (fill_phases_spec np entry g Hentry) in Hfill.
  injection Hfill as <-. split; [by rewrite length_map, length_seq|].
  intros phase Hphase. rewrite Hentry by done. f_equal.
  unfold vec_at. rewrite list_lookup_fmap.
  by rewrite (lookup_seq_lt 0 np phase Hphase).
Qed.

(** X5.  On a finite group tree [updateGroupProductionRates] returns, and
    the production rates that the well state then holds for the group
    are, phase by phase, what [sumWellPhaseRates] returns for the group on
    the nupcol rates and the well state as it was before the call: what
    the recursion has written for the sub groups does not enter the
    sums. *)
Theorem updateGroupProductionRates_stores_sums (fuel : nat) (group : Group)
    (schedule : Schedule) (reportStepIdx : nat) (wellStateNupcol wellState : WellState.t) :
  group_tree_ok fuel schedule reportStepIdx group = true ->
  exists wellState' rates,
    updateGroupProductionRates fuel group schedule reportStepIdx wellStateNupcol wellState
    = Ok wellState'
    /\ WellState.currentProductionGroupRates wellState' (Group.name group) = Ok rates
    /\ length rates = WellState.numPhases wellState
    /\ forall phase, (phase < WellState.numPhases wellState)%nat ->
         sumWellPhaseRates fuel (WellState.wellRates wellStateNupcol) group schedule
           wellState reportStepIdx phase false
         = Ok (vec_at rates phase).
Proof.
  intros Hok.
  destruct (updateGroupProductionRates_total schedule reportStepIdx wellStateNupcol fuel
              group wellState Hok) as [ws' Hrun].
  exists ws'. pose proof Hrun as Hrun0.
  destruct fuel as [|fuel]; [discriminate|].
  cbn [updateGroupProductionRates] in Hrun.
  bind_split Hrun as ws1 Hchildren. bind_split Hrun as rates Hrates.
  injection Hrun as <-.
  assert (Hreads : WellState.reads ws1 = WellState.reads wellState).
  { apply (writes_plain_reads production_rates production_rates_ok
             (for_each (Group.groups group) (fun groupName ws =>
                groupTmp ← Schedule.getGroup schedule groupName reportStepIdx;
                updateGroupProductionRates fuel groupTmp schedule reportStepIdx
                  wellStateNupcol ws))); [|done].
    apply (children_loop_writes production_rates production_rates_ok
             (fun g ws => updateGroupProductionRates fuel g schedule reportStepIdx
                            wellStateNupcol ws)).
    intros g. apply updateGroupProductionRates_writes. }
  destruct (reads_inv _ _ Hreads) as (Hnp & _).
  apply (filled_phases _ _
           (fun phase =>
              weighted_rate_sum (WellState.wellRates wellStateNupcol) schedule
                wellState reportStepIdx phase false
                (wells_below (S fuel) schedule reportStepIdx group 1))) in Hrates
    as [Hlen Hentries].
  2:{ intros phase _. by apply sumWellPhaseRates_tree_sum. }
  exists rates. split; [exact Hrun0|]. split; [|split].
  - unfold WellState.currentProductionGroupRates, WellState.lookup_or_throw.
    cbn [WellState.setCurrentProductionGroupRates WellState.with_production_group_rates
         WellState.production_group_rates].
    by rewrite lookup_insert_eq.
  - by rewrite Hlen.
  - intros phase Hphase. rewrite <- Hnp in Hphase.
    rewrite <- (Hentries phase Hphase). symmetry. by apply sumWellPhaseRates_reads.
Qed.

(** In the three-level field the oil rate stored for PLAT is 85/4: 40
    from P1 and a quarter of the half of 20 from P2, halved by the
    efficiency factor of PLAT. *)
Lemma updateGroupProductionRates_stores_sums_witness :
  exists wellState' rates,
    updateGroupProductionRates 3 Field3.PLAT Field3.schedule 0 Field3.wellState
      Field3.wellState = Ok wellState'
    /\ WellState.currentProductionGroupRates wellState' "PLAT" = Ok rates
    /\ length rates = 3%nat
    /\ vec_at rates 1 = dbl 85 4.
Proof.
  destruct (updateGroupProductionRates_stores_sums 3 Field3.PLAT Field3.schedule 0
              Field3.wellState Field3.wellState) as (ws' & rates & Hrun & Hrates & Hlen & Hsum).
  - vm_compute. reflexivity.
  - exists ws', rates. split; [exact Hrun|]. split; [exact Hrates|]. split; [exact Hlen|].
    assert (H : sumWellPhaseRates 3 (WellState.wellRates Field3.wellState) Field3.PLAT
                  Field3.schedule Field3.wellState 0 1 false = Ok (dbl 85 4))
      by eval_res.
    rewrite (Hsum 1%nat) in H by (cbn; lia). congruence.
Defined.

Lemma sum_phases_spec (l : list nat) (entry : nat -> res double) (g : nat -> double) :
  (forall phase, phase ∈ l -> entry phase = Ok (g phase)) ->
  forall acc,
    for_each l (fun phase resv => r ← entry phase; Ok (resv + r)) acc
    = Ok (foldl (fun resv phase => resv + g phase) acc l).
Proof.
  induction l as [|phase l IH]; intros Hentry acc; [done|].
  cbn [for_each foldl]. rewrite Hentry by (by left). cbn [mbind res_bind].
  apply IH. intros p Hp. apply Hentry. by right.
Qed.

Lemma vec_at_add_at (v : list double) (i j : nat) (x : double) :
  vec_at (vec_add_at v i x) j
  = if decide (i = j /\ (j < length v)%nat) then vec_at v j + x else vec_at v j.
Proof.
  unfold vec_at, vec_add_at. destruct (decide (i = j)) as [->|Hne].
  - rewrite list_lookup_alter_eq.
    destruct (decide (j = j /\ (j < length v)%nat)) as [[_ H]|H].
    + destruct (lookup_lt_is_Some_2 v j H) as [y Hy]. rewrite Hy. reflexivity.
    + rewrite lookup_ge_None_2; [reflexivity|]. apply Nat.nlt_ge. intros Hlt. by apply H.
  - rewrite list_lookup_alter_ne by done.
    destruct (decide (i = j /\ (j < length v)%nat)) as [[H _]|H]; done.
Qed.

Section StoredTotals.
Variables (schedule : Schedule) (reportStepIdx : nat) (wellStateNupcol : WellState.t).

Local Abbreviation tree_sum rates ws group fuel phase injector :=
  (weighted_rate_sum rates schedule ws reportStepIdx phase injector
     (wells_below fuel schedule reportStepIdx group 1)).

Lemma updateReservoirRatesInjectionGroups_total (fuel : nat) :
  forall (group : Group) (ws : WellState.t),
    group_tree_ok fuel schedule reportStepIdx group = true ->
    exists ws',
      updateReservoirRatesInjectionGroups fuel group schedule reportStepIdx
        wellStateNupcol ws = Ok ws'.
Proof.
  induction fuel as [|fuel IH]; intros group ws Hok; [discriminate|].
  destruct (children_loop_total
              (fun g ws => updateReservoirRatesInjectionGroups fuel g schedule
                             reportStepIdx wellStateNupcol ws)
              schedule reportStepIdx (Group.groups group)) with (s := ws) as [ws1 Hws1].
  { intros groupName Hin.
    destruct (group_tree_ok_children _ _ _ _ _ Hok Hin) as (sub & Hsub & Hsubok).
    exists sub. split; [done|]. intros s. by apply IH. }
  cbn [updateReservoirRatesInjectionGroups]. rewrite Hws1. cbn [mbind res_bind].
  rewrite (fill_phases_spec _ _
             (fun phase => tree_sum (WellState.wellReservoirRates wellStateNupcol) ws1
                             group (S fuel) phase true)).
  2:{ intros phase _. by apply sumWellPhaseRates_tree_sum. }
  cbn [mbind res_bind]. by eexists.
Qed.

Lemma updateVREPForGroups_total (fuel : nat) :
  forall (group : Group) (ws : WellState.t),
    group_tree_ok fuel schedule reportStepIdx group = true ->
    exists ws',
      updateVREPForGroups fuel group schedule reportStepIdx wellStateNupcol ws = Ok ws'.
Proof.
  induction fuel as [|fuel IH]; intros group ws Hok; [discriminate|].
  destruct (children_loop_total
              (fun g ws => updateVREPForGroups fuel g schedule reportStepIdx
                             wellStateNupcol ws)
              schedule reportStepIdx (Group.groups group)) with (s := ws) as [ws1 Hws1].
  { intros groupName Hin.
    destruct (group_tree_ok_children _ _ _ _ _ Hok Hin) as (sub & Hsub & Hsubok).
    exists sub. split; [done|]. intros s. by apply IH. }
  cbn [updateVREPForGroups]. rewrite Hws1. cbn [mbind res_bind].
  rewrite (sum_phases_spec _
             (fun phase =>
                sumWellPhaseRates (S fuel) (WellState.wellReservoirRates wellStateNupcol)
                  group schedule ws1 reportStepIdx phase false)
             (fun phase => tree_sum (WellState.wellReservoirRates wellStateNupcol) ws1
                             group (S fuel) phase false)).
  2:{ intros phase _. by apply sumWellPhaseRates_tree_sum. }
  cbn [mbind res_bind]. by eexists.
Qed.

Lemma updateREINForGroups_total (pu : PhaseUsage) (st : SummaryState) (fuel : nat) :
  forall (group : Group) (ws : WellState.t),
    group_tree_ok fuel schedule reportStepIdx group = true ->
    exists ws',
      updateREINForGroups fuel group schedule reportStepIdx pu st wellStateNupcol ws
      = Ok ws'.
Proof.
  induction fuel as [|fuel IH]; intros group ws Hok; [discriminate|].
  destruct (children_loop_total
              (fun g ws => updateREINForGroups fuel g schedule reportStepIdx pu st
                             wellStateNupcol ws)
              schedule reportStepIdx (Group.groups group)) with (s := ws) as [ws1 Hws1].
  { intros groupName Hin.
    destruct (group_tree_ok_children _ _ _ _ _ Hok Hin) as (sub & Hsub & Hsubok).
    exists sub. split; [done|]. intros s. by apply IH. }
  cbn [updateREINForGroups]. rewrite Hws1. cbn [mbind res_bind].
  rewrite (fill_phases_spec _ _
             (fun phase => tree_sum (WellState.wellRates wellStateNupcol) ws1 group
                             (S fuel) phase false)).
  2:{ intros phase _. by apply sumWellPhaseRates_tree_sum. }
  cbn [mbind res_bind]. by eexists.
Qed.

End StoredTotals.

(** X6.  On a finite group tree [updateReservoirRatesInjectionGroups]
    returns, and the reservoir injection rates that the well state then
    holds for the group are, phase by phase, what [sumWellPhaseRates]
    returns for the injectors of the group on the nupcol reservoir rates
    and the well state as it was before the call. *)
Theorem updateReservoirRatesInjectionGroups_stores_sums (fuel : nat) (group : Group)
    (schedule : Schedule) (reportStepIdx : nat) (wellStateNupcol wellState : WellState.t) :
  group_tree_ok fuel schedule reportStepIdx group = true ->
  exists wellState' resv,
    updateReservoirRatesInjectionGroups fuel group schedule reportStepIdx wellStateNupcol
      wellState = Ok wellState'
    /\ WellState.currentInjectionGroupReservoirRates wellState' (Group.name group)
       = Ok resv
    /\ length resv = WellState.numPhases wellState
    /\ forall phase, (phase < WellState.numPhases wellState)%nat ->
         sumWellPhaseRates fuel (WellState.wellReservoirRates wellStateNupcol) group
           schedule wellState reportStepIdx phase true
         = Ok (vec_at resv phase).
Proof.
  intros Hok.
  destruct (updateReservoirRatesInjectionGroups_total schedule reportStepIdx
              wellStateNupcol fuel group wellState Hok) as [ws' Hrun].
  exists ws'. pose proof Hrun as Hrun0.
  destruct fuel as [|fuel]; [discriminate|].
  cbn [updateReservoirRatesInjectionGroups] in Hrun.
  bind_split Hrun as ws1 Hchildren. bind_split Hrun as rates Hrates.
  injection Hrun as <-.
  assert (Hreads : WellState.reads ws1 = WellState.reads wellState).
  { apply (writes_plain_reads injection_reservoir_rates injection_reservoir_rates_ok
             (for_each (Group.groups group) (fun groupName ws =>
                groupTmp ← Schedule.getGroup schedule groupName reportStepIdx;
                updateReservoirRatesInjectionGroups fuel groupTmp schedule reportStepIdx
                  wellStateNupcol ws))); [|done].
    apply (children_loop_writes injection_reservoir_rates injection_reservoir_rates_ok
             (fun g ws => updateReservoirRatesInjectionGroups fuel g schedule
                            reportStepIdx wellStateNupcol ws)).
    intros g. apply updateReservoirRatesInjectionGroups_writes. }
  destruct (reads_inv _ _ Hreads) as (Hnp & _).
  apply (filled_phases _ _
           (fun phase =>
              weighted_rate_sum (WellState.wellReservoirRates wellStateNupcol) schedule
                wellState reportStepIdx phase true
                (wells_below (S fuel) schedule reportStepIdx group 1))) in Hrates
    as [Hlen Hentries].
  2:{ intros phase _. by apply sumWellPhaseRates_tree_sum. }
  exists rates. split; [exact Hrun0|]. split; [|split].
  - unfold WellState.currentInjectionGroupReservoirRates, WellState.lookup_or_throw.
    cbn [WellState.setCurrentInjectionGroupReservoirRates
         WellState.with_injection_group_reservoir_rates
         WellState.injection_group_reservoir_rates].
    by rewrite lookup_insert_eq.
  - by rewrite Hlen.
  - intros phase Hphase. rewrite <- Hnp in Hphase.
    rewrite <- (Hentries phase Hphase). symmetry. by apply sumWellPhaseRates_reads.
Qed.

(** In the three-level field I1 injects water at 30 below SAT, whose
    efficiency factor is 1/4, and PLAT halves that. *)
Lemma updateReservoirRatesInjectionGroups_stores_sums_witness :
  exists wellState' resv,
    updateReservoirRatesInjectionGroups 3 Field3.PLAT Field3.schedule 0 Field3.wellState
      Field3.wellState = Ok wellState'
    /\ WellState.currentInjectionGroupReservoirRates wellState' "PLAT" = Ok resv
    /\ length resv = 3%nat
    /\ vec_at resv 0 = dbl 15 4.
Proof.
  destruct (updateReservoirRatesInjectionGroups_stores_sums 3 Field3.PLAT Field3.schedule
              0 Field3.wellState Field3.wellState)
    as (ws' & resv & Hrun & Hrates & Hlen & Hsum).
  - vm_compute. reflexivity.
  - exists ws', resv. split; [exact Hrun|]. split; [exact Hrates|]. split; [exact Hlen|].
    assert (H : sumWellPhaseRates 3 (WellState.wellReservoirRates Field3.wellState)
                  Field3.PLAT Field3.schedule Field3.wellState 0 0 true
                = Ok (dbl 15 4))
      by eval_res.
    rewrite (Hsum 0%nat) in H by (cbn; lia). congruence.
Defined.

(** The loop that adds up the entries of the phases, when they are known
    to return: the entries, and their sum from the left. *)
Lemma summed_phases (np : nat) (entry : nat -> res double) (g : nat -> double)
    (total : double) :
  (forall phase, (phase < np)%nat -> entry phase = Ok (g phase)) ->
  for_each (seq 0 np) (fun phase resv => r ← entry phase; Ok (resv + r)) 0 = Ok total ->
  exists sums,
    length sums = np
    /\ (forall phase, (phase < np)%nat -> entry phase = Ok (vec_at sums phase))
    /\ total = foldl Qcplus 0 sums.
Proof.
  intros Hentry Hloop. exists (map g (seq 0 np)).
  split; [by rewrite length_map, length_seq|]. split.
  - intros phase Hphase. rewrite Hentry by done. f_equal.
    unfold vec_at. rewrite list_lookup_fmap.
    by rewrite (lookup_seq_lt 0 np phase Hphase).
  - rewrite (sum_phases_spec (seq 0 np) entry g) in Hloop.
    2:{ intros phase Hin. apply Hentry. apply elem_of_seq in Hin. lia. }
    injection Hloop as <-. generalize (seq 0 np) (0 : double).
    intros l. induction l as [|phase l IH]; intros acc; [done|].
    cbn [foldl map]. apply IH.
Qed.

(** X7.  On a finite group tree [updateVREPForGroups] returns, and the
    voidage rate that the well state then holds for the group is the sum,
    added up from the first phase to the last, of what [sumWellPhaseRates]
    returns for the producers of the group on the nupcol reservoir rates
    and the well state as it was before the call. *)
Theorem updateVREPForGroups_stores_total (fuel : nat) (group : Group)
    (schedule : Schedule) (reportStepIdx : nat) (wellStateNupcol wellState : WellState.t) :
  group_tree_ok fuel schedule reportStepIdx group = true ->
  exists wellState' sums,
    updateVREPForGroups fuel group schedule reportStepIdx wellStateNupcol wellState
    = Ok wellState'
    /\ length sums = WellState.numPhases wellState
    /\ (forall phase, (phase < WellState.numPhases wellState)%nat ->
          sumWellPhaseRates fuel (WellState.wellReservoirRates wellStateNupcol) group
            schedule wellState reportStepIdx phase false
          = Ok (vec_at sums phase))
    /\ WellState.currentInjectionVREPRates wellState' (Group.name group)
       = Ok (foldl Qcplus 0 sums).
Proof.
  intros Hok.
  destruct (updateVREPForGroups_total schedule reportStepIdx wellStateNupcol fuel group
              wellState Hok) as [ws' Hrun].
  exists ws'. pose proof Hrun as Hrun0.
  destruct fuel as [|fuel]; [discriminate|].
  cbn [updateVREPForGroups] in Hrun.
  bind_split Hrun as ws1 Hchildren. bind_split Hrun as resv Hresv.
  injection Hrun as <-.
  assert (Hreads : WellState.reads ws1 = WellState.reads wellState).
  { apply (writes_plain_reads vrep_rates vrep_rates_ok
             (for_each (Group.groups group) (fun groupName ws =>
                groupTmp ← Schedule.getGroup schedule groupName reportStepIdx;
                updateVREPForGroups fuel groupTmp schedule reportStepIdx
                  wellStateNupcol ws))); [|done].
    apply (children_loop_writes vrep_rates vrep_rates_ok
             (fun g ws => updateVREPForGroups fuel g schedule reportStepIdx
                            wellStateNupcol ws)).
    intros g. apply updateVREPForGroups_writes. }
  destruct (reads_inv _ _ Hreads) as (Hnp & _).
  apply (summed_phases _
           (fun phase =>
              sumWellPhaseRates (S fuel) (WellState.wellReservoirRates wellStateNupcol)
                group schedule ws1 reportStepIdx phase false)
           (fun phase =>
              weighted_rate_sum (WellState.wellReservoirRates wellStateNupcol) schedule
                wellState reportStepIdx phase false
                (wells_below (S fuel) schedule reportStepIdx group 1))) in Hresv
    as (sums & Hlen & Hentries & ->).
  2:{ intros phase _. by apply sumWellPhaseRates_tree_sum. }
  exists sums. split; [exact Hrun0|]. split; [by rewrite Hlen|]. split.
  - intros phase Hphase. rewrite <- Hnp in Hphase.
    rewrite <- (Hentries phase Hphase). symmetry. by apply sumWellPhaseRates_reads.
  - unfold WellState.currentInjectionVREPRates, WellState.lookup_or_throw.
    cbn [WellState.setCurrentInjectionVREPRates WellState.with_injection_vrep_rates
         WellState.injection_vrep_rates].
    by rewrite lookup_insert_eq.
Qed.

(** In the three-level field the voidage rate of PLAT is the sum 85/4 + 4
    of its oil and gas rates. *)
Lemma updateVREPForGroups_stores_total_witness :
  exists wellState',
    updateVREPForGroups 3 Field3.PLAT Field3.schedule 0 Field3.wellState Field3.wellState
    = Ok wellState'
    /\ WellState.currentInjectionVREPRates wellState' "PLAT" = Ok (dbl 101 4).
Proof.
  destruct (updateVREPForGroups_stores_total 3 Field3.PLAT Field3.schedule 0
              Field3.wellState Field3.wellState)
    as (ws' & sums & Hrun & Hlen & Hsums & Hstored).
  - vm_compute. reflexivity.
  - exists ws'. split; [exact Hrun|].
    assert (H : (ws'' ← updateVREPForGroups 3 Field3.PLAT Field3.schedule 0
                          Field3.wellState Field3.wellState;
                 WellState.currentInjectionVREPRates ws'' "PLAT") = Ok (dbl 101 4))
      by eval_res.
    rewrite Hrun in H. exact H.
Defined.

(** X8.  On a finite group tree [updateREINForGroups] returns, and the
    reinjection vector that the well state then holds for the group has
    one entry for each phase: what [sumWellPhaseRates] returns for the
    producers of the group on the nupcol rates and the well state as it
    was before the call, to which, at the position of the gas phase of a
    group with a GCONSUMP declaration, the import rate has been added and
    from which the consumption rate has then been subtracted. *)
Theorem updateREINForGroups_stores_sums (fuel : nat) (group : Group)
    (schedule : Schedule) (reportStepIdx : nat) (pu : PhaseUsage) (st : SummaryState)
    (wellStateNupcol wellState : WellState.t) :
  group_tree_ok fuel schedule reportStepIdx group = true ->
  exists wellState' rein,
    updateREINForGroups fuel group schedule reportStepIdx pu st wellStateNupcol wellState
    = Ok wellState'
    /\ WellState.injection_rein_rates wellState' !! Group.name group = Some rein
    /\ length rein = WellState.numPhases wellState
    /\ forall phase, (phase < WellState.numPhases wellState)%nat ->
         exists sum,
           sumWellPhaseRates fuel (WellState.wellRates wellStateNupcol) group schedule
             wellState reportStepIdx phase false = Ok sum
           /\ vec_at rein phase
              = gas_adjusted schedule reportStepIdx st pu (Group.name group) phase sum.
Proof.
  intros Hok.
  destruct (updateREINForGroups_total schedule reportStepIdx wellStateNupcol pu st fuel
              group wellState Hok) as [ws' Hrun].
  exists ws'. pose proof Hrun as Hrun0.
  destruct fuel as [|fuel]; [discriminate|].
  cbn [updateREINForGroups] in Hrun.
  bind_split Hrun as ws1 Hchildren. bind_split Hrun as sums Hsums.
  injection Hrun as <-.
  assert (Hreads : WellState.reads ws1 = WellState.reads wellState).
  { apply (writes_plain_reads rein_rates rein_rates_ok
             (for_each (Group.groups group) (fun groupName ws =>
                groupTmp ← Schedule.getGroup schedule groupName reportStepIdx;
                updateREINForGroups fuel groupTmp schedule reportStepIdx pu st
                  wellStateNupcol ws))); [|done].
    apply (children_loop_writes rein_rates rein_rates_ok
             (fun g ws => updateREINForGroups fuel g schedule reportStepIdx pu st
                            wellStateNupcol ws)).
    intros g. apply updateREINForGroups_writes. }
  apply (filled_phases _ _
           (fun phase =>
              weighted_rate_sum (WellState.wellRates wellStateNupcol) schedule
                wellState reportStepIdx phase false
                (wells_below (S fuel) schedule reportStepIdx group 1))) in Hsums
    as [Hlen Hentries].
  2:{ intros phase _. by apply sumWellPhaseRates_tree_sum. }
  assert (Hsum : forall phase, (phase < WellState.numPhases wellState)%nat ->
            sumWellPhaseRates (S fuel) (WellState.wellRates wellStateNupcol) group
              schedule wellState reportStepIdx phase false = Ok (vec_at sums phase)).
  { intros phase Hphase.
    rewrite <- (Hentries phase Hphase). symmetry. by apply sumWellPhaseRates_reads. }
  eexists. split; [exact Hrun0|].
  cbn [WellState.setCurrentInjectionREINRates WellState.with_injection_rein_rates
       WellState.injection_rein_rates].
  rewrite lookup_insert_eq. split; [reflexivity|].
  unfold gas_adjusted.
  destruct (Schedule.gconsump (Schedule.at_step schedule reportStepIdx)
              !! Group.name group) as [get|].
  - destruct (phase_used pu BlackoilPhases.Vapour); cbn [andb].
    + split.
      { unfold vec_add_at. rewrite !length_alter. by rewrite Hlen. }
      intros phase Hphase. exists (vec_at sums phase). split; [by apply Hsum|].
      rewrite !vec_at_add_at.
      unfold vec_add_at. rewrite !length_alter, Hlen.
      destruct (Nat.eqb_spec phase (phase_pos pu BlackoilPhases.Vapour)) as [->|Hne].
      * destruct (decide _) as [_|Hn]; [done|exfalso; by apply Hn].
      * destruct (decide _) as [[Heq _]|_]; [by subst|done].
    + split; [by rewrite Hlen|].
      intros phase Hphase. exists (vec_at sums phase). split; [by apply Hsum|done].
  - split; [by rewrite Hlen|].
    intros phase Hphase. exists (vec_at sums phase). split; [by apply Hsum|done].
Qed.

(** In the three-level field PLAT imports gas at 5 and consumes it at 3:
    its reinjection rate for gas is its gas rate 4, plus 5, minus 3. *)
Lemma updateREINForGroups_stores_sums_witness :
  exists wellState' rein,
    updateREINForGroups 3 Field3.PLAT Field3.schedule 0 Scenario.pu ∅ Field3.wellState
      Field3.wellState = Ok wellState'
    /\ WellState.injection_rein_rates wellState' !! "PLAT" = Some rein
    /\ vec_at rein 2 = dbl 6 1.
Proof.
  destruct (updateREINForGroups_stores_sums 3 Field3.PLAT Field3.schedule 0 Scenario.pu ∅
              Field3.wellState Field3.wellState)
    as (ws' & rein & Hrun & Hrein & Hlen & Hphase).
  - vm_compute. reflexivity.
  - exists ws', rein. split; [exact Hrun|]. split; [exact Hrein|].
    destruct (Hphase 2%nat) as (sum & Hsum & ->); [cbn; lia|].
    assert (H : sumWellPhaseRates 3 (WellState.wellRates Field3.wellState) Field3.PLAT
                  Field3.schedule Field3.wellState 0 2 false = Ok (dbl 4 1))
      by eval_res.
    rewrite Hsum in H. injection H as ->.
    apply Qc_is_canon. vm_compute. reflexivity.
Defined.

(** Evaluation of a result that is a vector of numbers. *)
Ltac eval_vec :=
  lazymatch goal with
  | |- ?X = Ok ?q =>
    let v := eval vm_compute in X in
    transitivity v;
    [ vm_compute; reflexivity
    | apply (f_equal Ok);
      repeat (apply (f_equal2 cons); [apply Qc_is_canon; vm_compute; reflexivity|]);
      reflexivity ]
  end.

(** ** The current well rates *)

Section WellRates.
Variables (schedule : Schedule) (reportStepIdx : nat).
Variables (wellStateNupcol ws0 : WellState.t).

Local Abbreviation stored :=
  (signed_well_rates schedule reportStepIdx wellStateNupcol ws0).
Local Abbreviation well_rates_stored :=
  (signed_rates_stored schedule reportStepIdx wellStateNupcol ws0).

Lemma update_well_rate_value (wellName : string) (ws : WellState.t) :
  WellState.reads ws = WellState.reads ws0 ->
  Schedule.hasWell schedule wellName reportStepIdx = true ->
  update_well_rate schedule reportStepIdx wellStateNupcol (WellState.numPhases ws0)
    wellName ws
  = Ok (WellState.setCurrentWellRates ws wellName (stored wellName)).
Proof.
  intros Hreads Hwell. unfold update_well_rate, signed_well_rates.
  destruct (reads_inv _ _ Hreads) as (_ & -> & _).
  apply bool_decide_eq_true in Hwell as [w Hw].
  destruct (WellState.wellMap ws0 !! wellName) as [it|]; [|done].
  rewrite (getWell_Some _ _ _ _ Hw), Hw. cbn [mbind res_bind].
  rewrite (fill_phases_spec _ _
             (fun phase => (if Well.isInjector w then 1 else - 1)
                           * vec_at (WellState.wellRates wellStateNupcol)
                               (it.1.1 * WellState.numPhases ws0 + phase))).
  2:{ intros phase _. by destruct (Well.isInjector w). }
  done.
Qed.

Lemma well_rates_stored_set (Q : string -> Prop) (wellName : string) (ws : WellState.t) :
  well_rates_stored Q ws ->
  well_rates_stored (fun n => Q n \/ n = wellName)
    (WellState.setCurrentWellRates ws wellName (stored wellName)).
Proof.
  intros [Hreads Hstored]. split; [done|].
  intros n Hn. cbn [WellState.setCurrentWellRates WellState.with_well_rates
                    WellState.well_rates].
  destruct (decide (n = wellName)) as [->|Hne]; [by rewrite lookup_insert_eq|].
  rewrite lookup_insert_ne by done. destruct Hn as [Hn|Hn]; [by apply Hstored|done].
Qed.

Lemma well_rates_stored_weaken (Q Q' : string -> Prop) (ws : WellState.t) :
  (forall n, Q' n -> Q n) -> well_rates_stored Q ws -> well_rates_stored Q' ws.
Proof. intros HQ [Hreads Hstored]. split; [done|]. intros n Hn. by apply Hstored, HQ. Qed.

Lemma update_wells_stored (l : list string) :
  forall (Q : string -> Prop) (ws : WellState.t),
    forallb (fun wellName => Schedule.hasWell schedule wellName reportStepIdx) l = true ->
    well_rates_stored Q ws ->
    exists ws',
      for_each l (update_well_rate schedule reportStepIdx wellStateNupcol
                    (WellState.numPhases ws0)) ws = Ok ws'
      /\ well_rates_stored (fun n => Q n \/ n ∈ l) ws'.
Proof.
  induction l as [|wellName l IH]; intros Q ws Hwells HQ.
  - exists ws. split; [done|]. eapply well_rates_stored_weaken; [|exact HQ].
    intros n [Hn|Hn]; [done|by apply elem_of_nil in Hn].
  - cbn [forallb] in Hwells. apply andb_prop in Hwells as [Hwell Hwells].
    destruct (IH (fun n => Q n \/ n = wellName)
                 (WellState.setCurrentWellRates ws wellName (stored wellName)) Hwells)
      as (ws' & Hrun & Hstored).
    { by apply well_rates_stored_set. }
    exists ws'. cbn [for_each].
    rewrite (update_well_rate_value wellName ws (proj1 HQ) Hwell). cbn [mbind res_bind].
    split; [exact Hrun|]. eapply well_rates_stored_weaken; [|exact Hstored].
    intros n [Hn|Hn]; [by left; left|].
    apply elem_of_cons in Hn as [->|Hn]; [by left; right|by right].
Qed.

Lemma updateWellRates_stored (fuel : nat) :
  forall (group : Group) (c : double) (Q : string -> Prop) (ws : WellState.t),
    group_tree_ok fuel schedule reportStepIdx group = true ->
    well_rates_stored Q ws ->
    exists ws',
      updateWellRates fuel group schedule reportStepIdx wellStateNupcol ws = Ok ws'
      /\ well_rates_stored
           (fun n => Q n \/ n ∈ (wells_below fuel schedule reportStepIdx group c).*1) ws'.
Proof.
  induction fuel as [|fuel IH]; intros group c Q ws Hok HQ; [discriminate|].
  pose proof Hok as Hok'. cbn [group_tree_ok] in Hok'.
  apply andb_prop in Hok' as [_ Hwells].
  set (c' := c * Group.getGroupEfficiencyFactor group).
  assert (Hchildren : forall (l : list string) (Q : string -> Prop) (ws : WellState.t),
            (forall n, n ∈ l -> n ∈ Group.groups group) ->
            well_rates_stored Q ws ->
            exists ws',
              for_each l (fun groupName ws =>
                groupTmp ← Schedule.getGroup schedule groupName reportStepIdx;
                updateWellRates fuel groupTmp schedule reportStepIdx wellStateNupcol ws) ws
              = Ok ws'
              /\ well_rates_stored
                   (fun n => Q n \/
                      n ∈ (flat_map (fun groupName =>
                             match Schedule.groups (Schedule.at_step schedule reportStepIdx)
                                     !! groupName with
                             | Some sub => wells_below fuel schedule reportStepIdx sub c'
                             | None => []
                             end) l).*1) ws').
  { clear Q ws HQ. induction l as [|groupName l IHl]; intros Q ws Hl HQ.
    - exists ws. split; [done|]. eapply well_rates_stored_weaken; [|exact HQ].
      intros n [Hn|Hn]; [done|by apply elem_of_nil in Hn].
    - destruct (group_tree_ok_children _ _ _ _ groupName Hok) as (sub & Hsub & Hsubok).
      { apply Hl. by left. }
      destruct (IH sub c' Q ws Hsubok HQ) as (ws1 & Hrun1 & Hstored1).
      destruct (IHl _ ws1 (fun n Hn => Hl n (list_elem_of_further _ _ _ Hn)) Hstored1)
        as (ws' & Hrun & Hstored).
      exists ws'. cbn [for_each]. rewrite (getGroup_Some _ _ _ _ Hsub).
      cbn [mbind res_bind]. rewrite Hrun1. cbn [mbind res_bind].
      split; [exact Hrun|]. eapply well_rates_stored_weaken; [|exact Hstored].
      intros n [Hn|Hn]; [by left; left|].
      cbn [flat_map] in Hn. rewrite Hsub, fmap_app in Hn.
      apply elem_of_app in Hn as [Hn|Hn]; [by left; right|by right]. }
  destruct (Hchildren (Group.groups group) Q ws (fun n Hn => Hn) HQ)
    as (ws1 & Hrun1 & Hstored1).
  destruct (update_wells_stored (Group.wells group) _ ws1 Hwells Hstored1)
    as (ws' & Hrun & Hstored).
  exists ws'. cbn [updateWellRates]. rewrite Hrun1. cbn [mbind res_bind].
  destruct (reads_inv _ _ (proj1 Hstored1)) as (-> & _).
  split; [exact Hrun|]. eapply well_rates_stored_weaken; [|exact Hstored].
  intros n [Hn|Hn]; [by left; left|].
  cbn [wells_below] in Hn. fold c' in Hn. rewrite fmap_app in Hn.
  apply elem_of_app in Hn as [Hn|Hn]; [by left; right|right].
  rewrite <- list_fmap_compose in Hn. by rewrite list_fmap_id in Hn.
Qed.

End WellRates.

(** X9.  On a finite group tree [updateWellRates] returns, and the well state
    then holds, for every well of the tree, the nupcol rates of the well
    with the sign that makes production rates positive; for a well that is
    not in the well-state map it holds zeros. *)
Theorem updateWellRates_stores_signed_rates (fuel : nat) (group : Group)
    (schedule : Schedule) (reportStepIdx : nat) (wellStateNupcol wellState : WellState.t) :
  group_tree_ok fuel schedule reportStepIdx group = true ->
  exists wellState',
    updateWellRates fuel group schedule reportStepIdx wellStateNupcol wellState
    = Ok wellState'
    /\ forall wellName,
         wellName ∈ (wells_below fuel schedule reportStepIdx group 1).*1 ->
         WellState.currentWellRates wellState' wellName
         = Ok (signed_well_rates schedule reportStepIdx wellStateNupcol wellState
                 wellName).
Proof.
  intros Hok.
  destruct (updateWellRates_stored schedule reportStepIdx wellStateNupcol wellState fuel
              group 1 (fun _ => False) wellState Hok) as (ws' & Hrun & _ & Hstored).
  { split; [done|]. by intros n []. }
  exists ws'. split; [exact Hrun|]. intros wellName Hin.
  unfold WellState.currentWellRates, WellState.lookup_or_throw.
  rewrite (Hstored wellName); [done|by right].
Qed.

(** In the three-level field the producers P1 and P2 get their rates with
    the sign changed, and the injector I1 its rates as they are. *)
Lemma updateWellRates_stores_signed_rates_witness :
  exists wellState',
    updateWellRates 3 Field3.PLAT Field3.schedule 0 Field3.wellState Field3.wellState
    = Ok wellState'
    /\ WellState.currentWellRates wellState' "P1" = Ok [0; dbl 40 1; dbl 8 1]
    /\ WellState.currentWellRates wellState' "P2" = Ok [0; dbl 20 1; 0]
    /\ WellState.currentWellRates wellState' "I1" = Ok [dbl 30 1; 0; 0].
Proof.
  destruct (updateWellRates_stores_signed_rates 3 Field3.PLAT Field3.schedule 0
              Field3.wellState Field3.wellState) as (ws' & Hrun & Hrates).
  - vm_compute. reflexivity.
  - exists ws'. split; [exact Hrun|].
    split; [|split]; (etransitivity; [apply Hrates; vm_compute; set_solver|eval_vec]).
Defined.

(** ** The order in which the network is visited *)

Lemma parents_first_snoc (network : Network.ExtNetwork) (order : list string)
    (node : string) :
  order <> [] ->
  parents_first network order ->
  (exists j parent, order !! j = Some parent /\ child_of network parent node) ->
  parents_first network (order ++ [node]).
Proof.
  intros Hne Horder (j & parent & Hj & Hchild) i x Hi.
  destruct (decide (S i < length order)%nat) as [Hlt|Hge].
  - rewrite lookup_app_l in Hi by done.
    destruct (Horder i x Hi) as (j' & parent' & Hle & Hj' & Hchild').
    exists j', parent'. split; [done|]. split; [|done].
    rewrite lookup_app_l; [done|]. lia.
  - pose proof (lookup_lt_Some _ _ _ Hi) as Hlen. rewrite length_app in Hlen.
    cbn [length] in Hlen.
    assert (Heq : S i = length order) by lia.
    rewrite Heq, list_lookup_middle in Hi by done. injection Hi as <-.
    exists j, parent. pose proof (lookup_lt_Some _ _ _ Hj) as Hjlt.
    split; [lia|]. split; [|done]. by rewrite lookup_app_l.
Qed.

Lemma pushed_children (network : Network.ExtNetwork) (node : string)
    (branches : list Network.Branch) :
  (forall b, b ∈ branches -> b ∈ Network.downtree_branches network node) ->
  forall (children : list string) (c : string),
    c ∈ foldl (fun children branch => Network.downtree_node branch :: children)
          children branches ->
    c ∈ children \/ child_of network node c.
Proof.
  induction branches as [|b bs IH]; intros Hsub children c Hc; cbn [foldl] in Hc;
    [by left|].
  apply IH in Hc as [Hc|Hc]; [|by right|].
  - apply elem_of_cons in Hc as [->|Hc]; [|by left].
    right. exists b. split; [|done]. apply Hsub. by left.
  - intros b' Hb'. apply Hsub. by right.
Qed.

Lemma network_nodes_order (network : Network.ExtNetwork) (fuel : nat) :
  forall (children leaf_nodes order r_leaf r_order : list string),
    network_nodes fuel network children leaf_nodes order = Ok (r_leaf, r_order) ->
    order <> [] ->
    parents_first network order ->
    (forall c, c ∈ children ->
       exists j parent, order !! j = Some parent /\ child_of network parent c) ->
    parents_first network r_order /\ exists rest, r_order = (order ++ rest)%list.
Proof.
  induction fuel as [|fuel IH];
    intros children leaf_nodes order r_leaf r_order H Hne Horder Hstack.
  - destruct children; [|discriminate]. injection H as <- <-.
    split; [done|]. exists []. by rewrite app_nil_r.
  - destruct children as [|node children].
    { injection H as <- <-. split; [done|]. exists []. by rewrite app_nil_r. }
    cbn [network_nodes] in H. apply IH in H as [Hfirst [rest ->]].
    + split; [done|]. exists (node :: rest). by rewrite <- app_assoc.
    + by destruct order.
    + apply parents_first_snoc; [done|done|]. apply Hstack. by left.
    + intros c Hc.
      apply (pushed_children network node _ (fun b Hb => Hb)) in Hc as [Hc|Hchild].
      * destruct (Hstack c) as (j & parent & Hj & Hchild); [by right|].
        exists j, parent. split; [|done]. rewrite lookup_app_l; [done|].
        by apply (lookup_lt_Some _ _ _ Hj).
      * exists (length order), node. split; [|done]. by apply list_lookup_middle.
Qed.

(** X11.  The order in which [computeNetworkPressures] visits the nodes starts
    with the root, and every other node comes after a node of which it is a
    child: a child is always after its parent. *)
Theorem network_nodes_parents_first (network : Network.ExtNetwork) (fuel : nat)
    (root : string) (leaf_nodes root_to_child_nodes : list string) :
  network_nodes fuel network [root] [] [] = Ok (leaf_nodes, root_to_child_nodes) ->
  (exists rest, root_to_child_nodes = root :: rest)
  /\ parents_first network root_to_child_nodes.
Proof.
  intros H. destruct fuel as [|fuel]; [discriminate|].
  cbn [network_nodes app] in H.
  apply network_nodes_order in H as [Hfirst [rest ->]].
  - split; [by exists rest|done].
  - done.
  - intros i node Hi. by destruct i.
  - intros c Hc. exists 0%nat, root. split; [done|].
    apply (pushed_children network root _ (fun b Hb => Hb)) in Hc as [Hc|Hc]; [|done].
    by apply elem_of_nil in Hc.
Qed.

(** In the network of three nodes the order is PLAT, MANI, G1. *)
Lemma network_nodes_parents_first_witness :
  network_nodes 3 Network3.network ["PLAT"] [] [] = Ok (["G1"], ["PLAT"; "MANI"; "G1"])
  /\ (exists rest, ["PLAT"; "MANI"; "G1"] = "PLAT" :: rest)
  /\ parents_first Network3.network ["PLAT"; "MANI"; "G1"].
Proof.
  split; [reflexivity|].
  apply (network_nodes_parents_first Network3.network 3 "PLAT" ["G1"]). reflexivity.
Defined.

(** ** The pressures of the visited nodes *)

Section VisitedPressures.
Variables (network : Network.ExtNetwork) (vfp_prod_props : VFPProdProperties).
Variable node_inflows : gmap string (list double).

Local Abbreviation step := (node_pressure_step network vfp_prod_props node_inflows).

(** The turn of a node gives the node a pressure, which is its terminal
    pressure when it has one. *)
Lemma node_pressure_step_own (node : string) (p p' : gmap string double) :
  step node p = Ok p' ->
  is_Some (p' !! node)
  /\ forall n press,
       Network.node network node = Ok n ->
       Network.terminal_pressure n = Some press ->
       p' !! node = Some press.
Proof.
  unfold node_pressure_step. intros H. bind_split H as n Hn.
  destruct (Network.terminal_pressure n) as [press|] eqn:Hterm.
  { injection H as <-. rewrite lookup_insert_eq. split; [by eexists|].
    intros n' press' Hn' Hpress'. congruence. }
  destruct (Network.uptree_branch network node) as [upbranch|]; [|discriminate].
  destruct (map_index 0 p (Network.uptree_node upbranch)) as [up p1].
  split.
  - destruct (Network.vfp_table upbranch);
      injection H as <-; rewrite lookup_insert_eq; by eexists.
  - intros n' press' Hn' Hpress'. congruence.
Qed.

Lemma node_pressures_visited (l : list string) :
  forall (p final : gmap string double) (node : string),
    for_each l step p = Ok final ->
    node ∈ l ->
    is_Some (final !! node)
    /\ forall n press,
         Network.node network node = Ok n ->
         Network.terminal_pressure n = Some press ->
         final !! node = Some press.
Proof.
  induction l as [|a l IH]; intros p final node H Hin; [by apply elem_of_nil in Hin|].
  cbn [for_each] in H. bind_split H as p1 Hstep.
  destruct (decide (node ∈ l)) as [Hl|Hl]; [by eapply IH|].
  apply elem_of_cons in Hin as [->|Hin]; [|done].
  destruct (node_pressure_step_own a p p1 Hstep) as [Hsome Hpress].
  rewrite (node_pressures_other network vfp_prod_props node_inflows l p1 final a H Hl Hsome).
  done.
Qed.

End VisitedPressures.

(** X12.  When [computeNetworkPressures] returns for an active network, every
    node that it has visited has a pressure, and a node with a fixed
    (terminal) pressure has exactly that pressure, whatever the flow
    rates. *)
Theorem visited_nodes_have_pressures (fuel : nat) (network : Network.ExtNetwork)
    (well_state : WellState.t) (vfp_prod_props : VFPProdProperties) (schedule : Schedule)
    (report_time_step : nat) (node_pressures : gmap string double) (root : Network.Node)
    (leaf_nodes root_to_child_nodes : list string) (node : string) :
  computeNetworkPressures fuel network well_state vfp_prod_props schedule
    report_time_step = Ok node_pressures ->
  Network.active network = true ->
  Network.root network = Ok root ->
  network_nodes fuel network [Network.name root] [] []
    = Ok (leaf_nodes, root_to_child_nodes) ->
  node ∈ root_to_child_nodes ->
  is_Some (node_pressures !! node)
  /\ forall n press,
       Network.node network node = Ok n ->
       Network.terminal_pressure n = Some press ->
       node_pressures !! node = Some press.
Proof.
  intros H Hactive Hroot Hnodes Hnode.
  unfold computeNetworkPressures in H. rewrite Hactive, Hroot in H.
  cbn [negb mbind res_bind] in H. rewrite Hnodes in H. cbn [mbind res_bind] in H.
  bind_split H as node_inflows Hinflows.
  by eapply node_pressures_visited.
Qed.

(** In the network of three nodes the leaf G1 has a pressure and the root
    PLAT has its terminal pressure 50. *)
Lemma visited_nodes_have_pressures_witness :
  exists node_pressures,
    computeNetworkPressures 3 Network3.network Scenario.wellState_network Network3.vfp
      Scenario.schedule 0 = Ok node_pressures
    /\ is_Some (node_pressures !! "G1")
    /\ node_pressures !! "PLAT" = Some (dbl 50 1).
Proof.
  assert (Hrun : exists node_pressures,
             computeNetworkPressures 3 Network3.network Scenario.wellState_network
               Network3.vfp Scenario.schedule 0 = Ok node_pressures).
  { vm_compute. eexists. reflexivity. }
  destruct Hrun as [node_pressures Hrun]. exists node_pressures.
  split; [exact Hrun|]. split.
  - apply (visited_nodes_have_pressures 3 Network3.network Scenario.wellState_network
             Network3.vfp Scenario.schedule 0 node_pressures
             (Network3.node "PLAT" (Some (dbl 50 1))) ["G1"] ["PLAT"; "MANI"; "G1"] "G1");
      [exact Hrun|reflexivity|reflexivity|reflexivity|set_solver].
  - refine (proj2 (visited_nodes_have_pressures 3 Network3.network
                     Scenario.wellState_network Network3.vfp Scenario.schedule 0
                     node_pressures (Network3.node "PLAT" (Some (dbl 50 1))) ["G1"]
                     ["PLAT"; "MANI"; "G1"] "PLAT" Hrun eq_refl eq_refl eq_refl _)
                  (Network3.node "PLAT" (Some (dbl 50 1))) (dbl 50 1) eq_refl eq_refl).
    set_solver.
Defined.

(** ** The controls that [setCmodeGroup] writes *)

Lemma apply_then_update {V : Type} (u1 u2 : control_update V) (o : option V) :
  apply_update (then_update u1 u2) o = apply_update u2 (apply_update u1 o).
Proof. by destruct u1, u2, o. Qed.

Lemma apply_update_idemp {V : Type} (u : control_update V) (o : option V) :
  apply_update u (apply_update u o) = apply_update u o.
Proof. by destruct u, o. Qed.

Lemma apply_updates_from {V : Type} (update : Group -> control_update V) (G : list Group) :
  forall (u : control_update V) (o : option V),
    apply_update (foldl (fun u g => then_update u (update g)) u G) o
    = apply_update (updates_of update G) (apply_update u o).
Proof.
  unfold updates_of. induction G as [|g G IH]; intros u o; cbn [foldl]; [done|].
  rewrite (IH (then_update u (update g))), (IH (then_update keep (update g))).
  by rewrite !apply_then_update.
Qed.

Lemma apply_updates_app {V : Type} (update : Group -> control_update V)
    (G1 G2 : list Group) (o : option V) :
  apply_update (updates_of update (G1 ++ G2)) o
  = apply_update (updates_of update G2) (apply_update (updates_of update G1) o).
Proof. unfold updates_of at 1. rewrite foldl_app. apply apply_updates_from. Qed.

Lemma apply_updates_singleton {V : Type} (update : Group -> control_update V)
    (g : Group) (o : option V) :
  apply_update (updates_of update [g]) o = apply_update (update g) o.
Proof. unfold updates_of. cbn [foldl]. by rewrite apply_then_update. Qed.

Lemma controls_updated_refl (ws : WellState.t) :
  controls_updated (fun _ _ => keep) (fun _ => keep) ws ws.
Proof. done. Qed.

Lemma controls_updated_trans
    (inj1 inj2 : Phase -> string -> control_update Group.InjectionCMode.t)
    (prod1 prod2 : string -> control_update Group.ProductionCMode.t)
    (ws0 ws1 ws2 : WellState.t) :
  controls_updated inj1 prod1 ws0 ws1 ->
  controls_updated inj2 prod2 ws1 ws2 ->
  controls_updated (fun phase name => then_update (inj1 phase name) (inj2 phase name))
    (fun name => then_update (prod1 name) (prod2 name)) ws0 ws2.
Proof.
  intros (B1 & I1 & P1) (B2 & I2 & P2). split; [congruence|]. split.
  - intros phase name. by rewrite apply_then_update, I2, I1.
  - intros name. by rewrite apply_then_update, P2, P1.
Qed.

Lemma controls_updated_ext
    (inj inj' : Phase -> string -> control_update Group.InjectionCMode.t)
    (prod prod' : string -> control_update Group.ProductionCMode.t)
    (ws ws' : WellState.t) :
  (forall phase name o, apply_update (inj phase name) o = apply_update (inj' phase name) o) ->
  (forall name o, apply_update (prod name) o = apply_update (prod' name) o) ->
  controls_updated inj prod ws ws' -> controls_updated inj' prod' ws ws'.
Proof.
  intros Hi Hp (B & I & P). split; [done|]. split.
  - intros phase name. by rewrite I, Hi.
  - intros name. by rewrite P, Hp.
Qed.

Lemma set_injection_updated (ws : WellState.t) (p : Phase) (n : string)
    (c : Group.InjectionCMode.t) :
  controls_updated
    (fun phase name => if decide ((p, n) = (phase, name)) then put c else keep)
    (fun _ => keep) ws (WellState.setCurrentInjectionGroupControl ws p n c).
Proof.
  split; [done|]. split; [|done]. intros phase name.
  rewrite injection_control_set_inj. by case_decide.
Qed.

Lemma set_production_updated (ws : WellState.t) (n : string)
    (c : Group.ProductionCMode.t) :
  controls_updated (fun _ _ => keep)
    (fun name => if decide (n = name) then put c else keep)
    ws (WellState.setCurrentProductionGroupControl ws n c).
Proof.
  split; [done|]. split; [done|]. intros name.
  rewrite production_control_set_prod. by case_decide.
Qed.

(** One turn of the loop that sets the default injection controls. *)
Lemma default_injection_updated (ws : WellState.t) (p : Phase) (n : string) :
  controls_updated
    (fun phase name =>
       if decide ((p, n) = (phase, name)) then fill Group.InjectionCMode.NONE else keep)
    (fun _ => keep) ws
    (if negb (WellState.hasInjectionGroupControl ws p n)
     then WellState.setCurrentInjectionGroupControl ws p n Group.InjectionCMode.NONE
     else ws).
Proof.
  unfold WellState.hasInjectionGroupControl.
  change (WellState.injection_group_controls ws !! (p, n))
    with (injection_control_of ws p n).
  case_bool_decide as Hhas; cbn [negb].
  - split; [done|]. split; [|done]. intros phase name.
    case_decide as Heq; [|done]. injection Heq as <- <-. by destruct Hhas as [v ->].
  - split; [done|]. split; [|done]. intros phase name.
    rewrite injection_control_set_inj. case_decide as Heq; [|done].
    injection Heq as <- <-.
    destruct (injection_control_of ws p n) as [v|] eqn:Hold; [|done].
    exfalso. apply Hhas. by eexists.
Qed.

Lemma in_all_phases (phase : Phase) :
  bool_decide (phase ∈ all_phases)
  = match phase with WATER | OIL | GAS => true | _ => false end.
Proof. by destruct phase. Qed.

Section SeedUpdates.
Variables (schedule : Schedule) (summaryState : SummaryState) (reportStepIdx : nat).

Lemma seed_default_injection_updated (group : Group) (ws : WellState.t) :
  controls_updated
    (fun phase name =>
       if String.eqb name (Group.name group)
       then if bool_decide (phase ∈ all_phases) then fill Group.InjectionCMode.NONE
            else keep
       else keep)
    (fun _ => keep) ws (seed_default_injection group ws).
Proof.
  unfold seed_default_injection, all_phases. cbn [foldl].
  eapply controls_updated_ext;
    [| |eapply controls_updated_trans;
         [eapply controls_updated_trans; apply default_injection_updated
         |apply default_injection_updated]]; [|done].
  intros phase name o. cbv beta. fold all_phases. rewrite in_all_phases.
  destruct (String.eqb_spec name (Group.name group)) as [->|Hne].
  - destruct phase; repeat case_decide; try congruence; by destruct o.
  - repeat case_decide; try congruence; done.
Qed.

Lemma seed_default_production_updated (group : Group) (r : GroupStateRef)
    (ws : WellState.t) :
  controls_updated (fun _ _ => keep)
    (fun name =>
       if String.eqb name (Group.name group) then
         match r with
         | group_state_of_wellState => fill Group.ProductionCMode.NONE
         | group_state_object gs =>
           if GroupState.has_production_control gs (Group.name group) then keep
           else put Group.ProductionCMode.NONE
         end
       else keep)
    ws (seed_default_production group r ws).
Proof.
  unfold seed_default_production.
  destruct (GroupState.has_production_control (deref_group_state r ws) (Group.name group))
    eqn:Hhas; cbn [negb].
  - split; [done|]. split; [done|]. intros name.
    destruct (String.eqb_spec name (Group.name group)) as [->|Hne]; [|done].
    destruct r as [|gs]; cbn [deref_group_state] in Hhas; [|by rewrite Hhas].
    apply bool_decide_eq_true in Hhas as [v Hv].
    unfold production_control_of. by rewrite Hv.
  - split; [done|]. split; [done|]. intros name.
    rewrite production_control_set_prod.
    destruct (String.eqb_spec name (Group.name group)) as [->|Hne].
    + rewrite decide_True by done.
      destruct r as [|gs]; cbn [deref_group_state] in Hhas; [|by rewrite Hhas].
      apply bool_decide_eq_false in Hhas.
      destruct (production_control_of ws (Group.name group)) as [v|] eqn:Hold; [|done].
      exfalso. apply Hhas. by eexists.
    + by rewrite decide_False by done.
Qed.

Lemma seed_injection_event_updated (group : Group) (ws : WellState.t) :
  controls_updated
    (fun phase name =>
       if String.eqb name (Group.name group) then
         if Group.isInjectionGroup group
            && Schedule.wellgroup_events (Schedule.at_step schedule reportStepIdx)
                 (Group.name group) ScheduleEvents.GROUP_INJECTION_UPDATE
            && bool_decide (phase ∈ all_phases)
            && Group.hasInjectionControl group phase
         then put (Group.inj_cmode (Group.injectionControls group phase summaryState))
         else keep
       else keep)
    (fun _ => keep) ws
    (seed_injection_event group schedule summaryState reportStepIdx ws).
Proof.
  unfold seed_injection_event. cbv zeta.
  destruct (Group.isInjectionGroup group && _) eqn:Hevent.
  - unfold all_phases. cbn [foldl].
    assert (Hstep : forall p ws,
              controls_updated
                (fun phase name =>
                   if decide ((p, Group.name group) = (phase, name))
                   then if Group.hasInjectionControl group p
                        then put (Group.inj_cmode
                                    (Group.injectionControls group p summaryState))
                        else keep
                   else keep)
                (fun _ => keep) ws
                (if negb (Group.hasInjectionControl group p) then ws
                 else WellState.setCurrentInjectionGroupControl ws p (Group.name group)
                        (Group.inj_cmode (Group.injectionControls group p summaryState)))).
    { intros p ws0. destruct (Group.hasInjectionControl group p); cbn [negb].
      - apply set_injection_updated.
      - eapply controls_updated_ext; [| |apply controls_updated_refl]; [|done].
        intros phase name o. by case_decide. }
    eapply controls_updated_ext;
      [| |eapply controls_updated_trans;
           [eapply controls_updated_trans; apply Hstep|apply Hstep]]; [|done].
    intros phase name o. cbv beta. fold all_phases. rewrite in_all_phases.
    destruct (String.eqb_spec name (Group.name group)) as [->|Hne].
    + cbn [andb].
      destruct phase; repeat case_decide; try congruence;
        by destruct (Group.hasInjectionControl group _), o.
    + repeat case_decide; try congruence; done.
  - eapply controls_updated_ext; [| |apply controls_updated_refl]; [|done].
    intros phase name o. cbv beta. by destruct (String.eqb name (Group.name group)).
Qed.

Lemma seed_production_event_updated (group : Group) (ws : WellState.t) :
  controls_updated (fun _ _ => keep)
    (fun name =>
       if String.eqb name (Group.name group) then
         if Group.isProductionGroup group
            && Schedule.wellgroup_events (Schedule.at_step schedule reportStepIdx)
                 (Group.name group) ScheduleEvents.GROUP_PRODUCTION_UPDATE
         then put (Group.cmode (Group.productionControls group summaryState))
         else keep
       else keep)
    ws (seed_production_event group schedule summaryState reportStepIdx ws).
Proof.
  unfold seed_production_event. cbv zeta.
  destruct (Group.isProductionGroup group && _).
  - eapply controls_updated_ext; [| |apply set_production_updated]; [done|].
    intros name o. cbv beta.
    destruct (String.eqb_spec name (Group.name group)) as [->|Hne].
    + by rewrite decide_True.
    + by rewrite decide_False.
  - eapply controls_updated_ext; [| |apply controls_updated_refl]; [done|].
    intros name o. cbv beta. by destruct (String.eqb name (Group.name group)).
Qed.

Lemma seed_gas_sale_updated (group : Group) (ws : WellState.t) :
  controls_updated
    (fun phase name =>
       if String.eqb name (Group.name group) then
         if bool_decide (is_Some (Schedule.gconsale
                                    (Schedule.at_step schedule reportStepIdx)
                                    !! Group.name group))
            && bool_decide (phase = GAS)
         then put Group.InjectionCMode.SALE
         else keep
       else keep)
    (fun _ => keep) ws (seed_gas_sale group schedule reportStepIdx ws).
Proof.
  unfold seed_gas_sale. destruct (bool_decide (is_Some _)); cbn [andb].
  - eapply controls_updated_ext; [| |apply set_injection_updated]; [|done].
    intros phase name o. cbv beta.
    destruct (String.eqb_spec name (Group.name group)) as [->|Hne].
    + case_decide as Heq.
      * injection Heq as <-. by rewrite bool_decide_eq_true_2.
      * rewrite bool_decide_eq_false_2; [done|]. intros ->. by apply Heq.
    + rewrite decide_False; [done|]. intros [= _ Heq]. by apply Hne.
  - eapply controls_updated_ext; [| |apply controls_updated_refl]; [|done].
    intros phase name o. cbv beta. by destruct (String.eqb name (Group.name group)).
Qed.

(** The statements of [setCmodeGroup] for one group. *)
Lemma seed_group_controls_updated (group : Group) (r : GroupStateRef) (ws : WellState.t) :
  controls_updated
    (injection_update schedule summaryState reportStepIdx group)
    (production_update schedule summaryState reportStepIdx r group)
    ws (seed_group_controls group schedule summaryState reportStepIdx r ws).
Proof.
  unfold seed_group_controls. cbv zeta.
  eapply controls_updated_ext;
    [| |eapply controls_updated_trans; [|apply seed_gas_sale_updated];
        eapply controls_updated_trans; [|apply seed_production_event_updated];
        eapply controls_updated_trans; [|apply seed_injection_event_updated];
        eapply controls_updated_trans; [|apply seed_default_production_updated];
        apply seed_default_injection_updated].
  - intros phase name o. unfold injection_update. cbv beta zeta.
    destruct (String.eqb name (Group.name group)); rewrite ?apply_then_update;
      reflexivity.
  - intros name o. unfold production_update. cbv beta zeta.
    destruct (String.eqb name (Group.name group)); rewrite ?apply_then_update;
      reflexivity.
Qed.

Local Abbreviation tree_updated fuel r group :=
  (controls_updated
     (fun phase name =>
        updates_of (fun g => injection_update schedule summaryState reportStepIdx g
                               phase name)
          (groups_below fuel schedule reportStepIdx group))
     (fun name =>
        updates_of (fun g => production_update schedule summaryState reportStepIdx r g name)
          (groups_below fuel schedule reportStepIdx group))).

(** [setCmodeGroup] updates the group controls key by key, with the
    updates of the groups of the tree, children first. *)
Lemma setCmodeGroup_updated (fuel : nat) :
  forall (group : Group) (ws ws' : WellState.t) (r : GroupStateRef),
    setCmodeGroup fuel group schedule summaryState reportStepIdx ws r = Ok ws' ->
    tree_updated fuel r group ws ws'.
Proof.
  induction fuel as [|fuel IH]; intros group ws ws' r H; [discriminate|].
  cbn [setCmodeGroup] in H. bind_split H as ws1 Hchildren. injection H as <-.
  cbn [groups_below].
  assert (Hloop : forall (l : list string) (ws0 ws1 : WellState.t),
            for_each l (fun groupName wellState =>
              sub ← Schedule.getGroup schedule groupName reportStepIdx;
              setCmodeGroup fuel sub schedule summaryState reportStepIdx wellState r) ws0
            = Ok ws1 ->
            controls_updated
              (fun phase name =>
                 updates_of (fun g => injection_update schedule summaryState reportStepIdx
                                        g phase name)
                   (flat_map (fun groupName =>
                      match Schedule.groups (Schedule.at_step schedule reportStepIdx)
                              !! groupName with
                      | Some sub => groups_below fuel schedule reportStepIdx sub
                      | None => []
                      end) l))
              (fun name =>
                 updates_of (fun g => production_update schedule summaryState
                                        reportStepIdx r g name)
                   (flat_map (fun groupName =>
                      match Schedule.groups (Schedule.at_step schedule reportStepIdx)
                              !! groupName with
                      | Some sub => groups_below fuel schedule reportStepIdx sub
                      | None => []
                      end) l))
              ws0 ws1).
  { clear ws ws1 Hchildren. induction l as [|groupName l IHl]; intros ws0 ws1 H.
    - injection H as <-. apply controls_updated_refl.
    - cbn [for_each] in H. bind_split H as ws2 Hsub. bind_split Hsub as sub Hget.
      unfold Schedule.getGroup in Hget.
      destruct (Schedule.groups (Schedule.at_step schedule reportStepIdx) !! groupName)
        as [sub'|] eqn:Hlookup; [|discriminate].
      injection Hget as ->. cbn [flat_map]. rewrite Hlookup.
      eapply controls_updated_ext;
        [| |eapply controls_updated_trans; [apply (IH _ _ _ _ Hsub)|apply (IHl _ _ H)]].
      + intros phase name o. by rewrite apply_updates_app, apply_then_update.
      + intros name o. by rewrite apply_updates_app, apply_then_update. }
  eapply controls_updated_ext;
    [| |eapply controls_updated_trans;
         [apply (Hloop _ _ _ Hchildren)|apply seed_group_controls_updated]].
  - intros phase name o.
    by rewrite apply_updates_app, apply_then_update, apply_updates_singleton.
  - intros name o.
    by rewrite apply_updates_app, apply_then_update, apply_updates_singleton.
Qed.

(** Whether [setCmodeGroup] returns does not depend on the well state. *)
Lemma setCmodeGroup_returns (fuel : nat) :
  forall (group : Group) (ws ws' ws2 : WellState.t) (r : GroupStateRef),
    setCmodeGroup fuel group schedule summaryState reportStepIdx ws r = Ok ws' ->
    exists ws2', setCmodeGroup fuel group schedule summaryState reportStepIdx ws2 r = Ok ws2'.
Proof.
  induction fuel as [|fuel IH]; intros group ws ws' ws2 r H; [discriminate|].
  cbn [setCmodeGroup] in H. bind_split H as ws1 Hchildren. clear H.
  cbn [setCmodeGroup].
  assert (Hloop : exists ws3,
            for_each (Group.groups group) (fun groupName wellState =>
              sub ← Schedule.getGroup schedule groupName reportStepIdx;
              setCmodeGroup fuel sub schedule summaryState reportStepIdx wellState r) ws2
            = Ok ws3).
  { revert ws ws1 ws2 Hchildren.
    induction (Group.groups group) as [|groupName l IHl]; intros ws ws1 ws2 H.
    - by exists ws2.
    - cbn [for_each] in *. bind_split H as ws3 Hsub. bind_split Hsub as sub Hget.
      rewrite Hget. cbn [mbind res_bind].
      destruct (IH sub ws ws3 ws2 r Hsub) as [ws4 Hws4]. rewrite Hws4.
      cbn [mbind res_bind]. by eapply IHl. }
  destruct Hloop as [ws3 ->]. cbn [mbind res_bind]. by eexists.
Qed.

End SeedUpdates.

Lemma apply_updates_fixed {V : Type} (update : Group -> control_update V) (G : list Group)
    (o : option V) :
  (forall g, g ∈ G -> apply_update (update g) o = o) ->
  apply_update (updates_of update G) o = o.
Proof.
  induction G as [|g G IH] using rev_ind; intros Hfixed; [done|].
  rewrite apply_updates_app, apply_updates_singleton, IH.
  - apply Hfixed. apply elem_of_app. right. by left.
  - intros g' Hg'. apply Hfixed. apply elem_of_app. by left.
Qed.

Lemma apply_updates_put {V : Type} (update : Group -> control_update V) (G : list Group)
    (g0 : Group) (v : V) :
  g0 ∈ G ->
  (forall o, apply_update (update g0) o = Some v) ->
  (forall g, g ∈ G -> apply_update (update g) (Some v) = Some v) ->
  forall o, apply_update (updates_of update G) o = Some v.
Proof.
  intros Hin Hput Hfixed o. apply list_elem_of_split in Hin as (G1 & G2 & ->).
  change (g0 :: G2) with ([g0] ++ G2)%list.
  rewrite !apply_updates_app, apply_updates_singleton, Hput.
  apply apply_updates_fixed. intros g Hg. apply Hfixed.
  apply elem_of_app. right. by right.
Qed.

(** Two well states with the same group controls and the same content
    besides are the same. *)
Lemma wellState_eq (ws1 ws2 : WellState.t) :
  besides_group_controls ws1 = besides_group_controls ws2 ->
  (forall phase name,
     injection_control_of ws1 phase name = injection_control_of ws2 phase name) ->
  (forall name, production_control_of ws1 name = production_control_of ws2 name) ->
  ws1 = ws2.
Proof.
  unfold besides_group_controls, injection_control_of, production_control_of.
  destruct ws1 as [? ? ? ? ? ? ? ? ? ? ? [pc1] ic1 ? ? ? ? ? ? ? ?],
           ws2 as [? ? ? ? ? ? ? ? ? ? ? [pc2] ic2 ? ? ? ? ? ? ? ?].
  cbn. intros [= -> -> -> -> -> -> -> -> -> -> -> -> -> -> -> -> -> -> ->] Hi Hp.
  assert (ic1 = ic2) as -> by (apply map_eq; intros [phase name]; apply Hi).
  assert (pc1 = pc2) as -> by (by apply map_eq).
  done.
Qed.

(** X13.  [setCmodeGroup] is idempotent: a second call, with the same arguments,
    on the state that the first call has returned returns that state. *)
Theorem setCmodeGroup_idempotent (fuel : nat) (group : Group) (schedule : Schedule)
    (summaryState : SummaryState) (reportStepIdx : nat) (wellState wellState' : WellState.t)
    (group_state : GroupStateRef) :
  setCmodeGroup fuel group schedule summaryState reportStepIdx wellState group_state
    = Ok wellState' ->
  setCmodeGroup fuel group schedule summaryState reportStepIdx wellState' group_state
    = Ok wellState'.
Proof.
  intros H.
  destruct (setCmodeGroup_returns schedule summaryState reportStepIdx fuel group
              wellState wellState' wellState' group_state H) as [ws'' H2].
  rewrite H2. f_equal.
  destruct (setCmodeGroup_updated schedule summaryState reportStepIdx fuel group
              wellState wellState' group_state H) as (B1 & I1 & P1).
  destruct (setCmodeGroup_updated schedule summaryState reportStepIdx fuel group
              wellState' ws'' group_state H2) as (B2 & I2 & P2).
  apply wellState_eq; [done| |].
  - intros phase name. by rewrite I2, I1, apply_update_idemp.
  - intros name. by rewrite P2, P1, apply_update_idemp.
Qed.

(** X14.  [setCmodeGroup] writes nothing but the group controls of the groups of
    the tree: the rest of the well state, and the controls stored for every
    other name, are as before the call. *)
Theorem setCmodeGroup_frame (fuel : nat) (group : Group) (schedule : Schedule)
    (summaryState : SummaryState) (reportStepIdx : nat) (wellState wellState' : WellState.t)
    (group_state : GroupStateRef) :
  setCmodeGroup fuel group schedule summaryState reportStepIdx wellState group_state
    = Ok wellState' ->
  besides_group_controls wellState' = besides_group_controls wellState
  /\ forall name,
       name ∉ map Group.name (groups_below fuel schedule reportStepIdx group) ->
       (forall phase,
          injection_control_of wellState' phase name
          = injection_control_of wellState phase name)
       /\ production_control_of wellState' name = production_control_of wellState name.
Proof.
  intros H.
  destruct (setCmodeGroup_updated schedule summaryState reportStepIdx fuel group
              wellState wellState' group_state H) as (B & I & P).
  split; [done|]. intros name Hname.
  assert (Hne : forall g, g ∈ groups_below fuel schedule reportStepIdx group ->
            String.eqb name (Group.name g) = false).
  { intros g Hg. apply String.eqb_neq. intros ->. apply Hname.
    apply list_elem_of_fmap. by exists g. }
  split.
  - intros phase. rewrite I. apply apply_updates_fixed. intros g Hg.
    unfold injection_update. by rewrite (Hne g Hg).
  - rewrite P. apply apply_updates_fixed. intros g Hg.
    unfold production_update. by rewrite (Hne g Hg).
Qed.

(** X15.  After [setCmodeGroup], every group of the tree that has a gas-sale
    declaration has the injection control SALE for gas, whatever control it
    had before and whatever its updated injection controls declare. *)
Theorem setCmodeGroup_gas_sale (fuel : nat) (group : Group) (schedule : Schedule)
    (summaryState : SummaryState) (reportStepIdx : nat) (wellState wellState' : WellState.t)
    (group_state : GroupStateRef) (g : Group) :
  setCmodeGroup fuel group schedule summaryState reportStepIdx wellState group_state
    = Ok wellState' ->
  g ∈ groups_below fuel schedule reportStepIdx group ->
  is_Some (Schedule.gconsale (Schedule.at_step schedule reportStepIdx) !! Group.name g) ->
  injection_control_of wellState' GAS (Group.name g) = Some Group.InjectionCMode.SALE.
Proof.
  intros H Hg Hsale.
  destruct (setCmodeGroup_updated schedule summaryState reportStepIdx fuel group
              wellState wellState' group_state H) as (_ & I & _).
  rewrite I.
  assert (Hsame : forall g' o,
            Group.name g' = Group.name g ->
            apply_update (injection_update schedule summaryState reportStepIdx g' GAS
                            (Group.name g)) o
            = Some Group.InjectionCMode.SALE).
  { intros g' o Hname. unfold injection_update.
    rewrite <- Hname, String.eqb_refl. cbv zeta.
    rewrite Hname, (bool_decide_eq_true_2 _ Hsale),
      (bool_decide_eq_true_2 (GAS = GAS) eq_refl).
    cbn [andb]. by rewrite apply_then_update. }
  apply (apply_updates_put _ _ g); [done|by intros o; apply Hsame|].
  intros g' Hg'. destruct (String.eqb_spec (Group.name g) (Group.name g')) as [Heq|Hne].
  - by apply Hsame.
  - unfold injection_update. by rewrite (proj2 (String.eqb_neq _ _) Hne).
Qed.

Lemma sales_run :
  exists wellState',
    setCmodeGroup 2 Sales.FIELD Sales.schedule ∅ 0 Scenario.wellState_fresh
      group_state_of_wellState = Ok wellState'.
Proof. vm_compute. eexists. reflexivity. Qed.

(** For the field with the group GS that sells gas, seeded from a well
    state without any group control. *)
Lemma setCmodeGroup_idempotent_witness :
  exists wellState',
    setCmodeGroup 2 Sales.FIELD Sales.schedule ∅ 0 Scenario.wellState_fresh
      group_state_of_wellState = Ok wellState'
    /\ setCmodeGroup 2 Sales.FIELD Sales.schedule ∅ 0 wellState'
         group_state_of_wellState = Ok wellState'.
Proof.
  destruct sales_run as [ws' Hrun]. exists ws'. split; [exact Hrun|].
  apply (setCmodeGroup_idempotent 2 Sales.FIELD Sales.schedule ∅ 0
           Scenario.wellState_fresh ws' group_state_of_wellState Hrun).
Defined.

(** Seeding the field with GS leaves the controls of the name G1, which is
    not a group of that field, as they are. *)
Lemma setCmodeGroup_frame_witness :
  exists wellState',
    setCmodeGroup 2 Sales.FIELD Sales.schedule ∅ 0 Scenario.wellState_fresh
      group_state_of_wellState = Ok wellState'
    /\ besides_group_controls wellState' = besides_group_controls Scenario.wellState_fresh
    /\ production_control_of wellState' "G1"
       = production_control_of Scenario.wellState_fresh "G1".
Proof.
  destruct sales_run as [ws' Hrun]. exists ws'. split; [exact Hrun|].
  destruct (setCmodeGroup_frame 2 Sales.FIELD Sales.schedule ∅ 0
              Scenario.wellState_fresh ws' group_state_of_wellState Hrun)
    as [Hbesides Hnames].
  split; [exact Hbesides|]. apply Hnames.
  intros Hin. cbn in Hin.
  apply elem_of_cons in Hin as [Hin|Hin]; [discriminate|].
  apply elem_of_cons in Hin as [Hin|Hin]; [discriminate|].
  by apply elem_of_nil in Hin.
Defined.

(** GS has the gas injection control SALE, although its updated gas
    injection controls declare RATE. *)
Lemma setCmodeGroup_gas_sale_witness :
  exists wellState',
    setCmodeGroup 2 Sales.FIELD Sales.schedule ∅ 0 Scenario.wellState_fresh
      group_state_of_wellState = Ok wellState'
    /\ injection_control_of wellState' GAS "GS" = Some Group.InjectionCMode.SALE.
Proof.
  destruct sales_run as [ws' Hrun]. exists ws'. split; [exact Hrun|].
  apply (setCmodeGroup_gas_sale 2 Sales.FIELD Sales.schedule ∅ 0
           Scenario.wellState_fresh ws' group_state_of_wellState Sales.GS Hrun).
  - cbn. by left.
  - cbn. by eexists.
Defined.

(** ** Guide rates of wells and groups *)

(** An invariant of the loop-carried state holds after a loop when every
    turn keeps it. *)
Lemma for_each_invariant {A S : Type} (P : S -> Prop) (l : list A)
    (body : A -> S -> res S) :
  (forall x s r, x ∈ l -> P s -> body x s = Ok r -> P r) ->
  forall s r, P s -> for_each l body s = Ok r -> P r.
Proof.
  induction l as [|x l IH]; intros Hbody s r Hs H; cbn [for_each] in H.
  - by injection H as <-.
  - bind_split H as s1 Hx. apply (IH (fun y s0 r0 Hy => Hbody y s0 r0 (list_elem_of_further _ _ _ Hy))
                                     s1 r); [|done].
    by apply (Hbody x s s1 (list_elem_of_here _ _)).
Qed.

Lemma Qc_plus_nonneg (x y : double) : 0 <= x -> 0 <= y -> 0 <= x + y.
Proof.
  intros Hx Hy. rewrite <- (Qcplus_0_l 0). by apply Qcplus_le_compat.
Qed.

(** X16.  [getGuideRate] and [getGuideRateInj] return no negative guide rate
    when the registry holds none. *)
Theorem getGuideRate_nonneg (fuel : nat) (name : string) (schedule : Schedule)
    (wellState : WellState.t) (reportStepIdx : nat) (guideRate : GuideRate)
    (target : GuideRateModel.Target) (injectionPhase : Phase) (pu : PhaseUsage)
    (v : double) :
  guide_rates_nonneg guideRate ->
  (getGuideRate fuel name schedule wellState reportStepIdx guideRate target pu = Ok v ->
   0 <= v)
  /\ (getGuideRateInj fuel name schedule wellState reportStepIdx guideRate target
        injectionPhase pu = Ok v ->
      0 <= v).
Proof.
  intros [Hget Hinj]. split.
  - revert name v. induction fuel as [|fuel IH]; intros name v H; [discriminate|].
    cbn [getGuideRate] in H.
    destruct (Schedule.hasWell schedule name reportStepIdx).
    { bind_split H as rv Hrv. injection H as <-. apply Hget. }
    destruct (GuideRate.has guideRate name).
    { bind_split H as rv Hrv. injection H as <-. apply Hget. }
    bind_split H as group Hgroup. bind_split H as total Hgroups.
    apply (for_each_invariant (fun s => 0 <= s)) in Hgroups; [| |apply Qcle_refl].
    2:{ intros x s r _ Hs Hx. bind_split Hx as c Hc.
        destruct (Group.prod_is_FLD_or_NONE c); [|by injection Hx as <-].
        bind_split Hx as g Hg. injection Hx as <-.
        apply Qc_plus_nonneg; [done|by eapply IH]. }
    apply (for_each_invariant (fun s => 0 <= s)) in H; [done| |done].
    intros x s r _ Hs Hx. unfold add_producer_guide_rate in Hx.
    bind_split Hx as w Hw.
    destruct (Well.isInjector w); [by injection Hx as <-|].
    destruct (Well.is_SHUT _); [by injection Hx as <-|].
    destruct (negb _); [by injection Hx as <-|].
    bind_split Hx as rv Hrv. injection Hx as <-. by apply Qc_plus_nonneg.
  - revert name v. induction fuel as [|fuel IH]; intros name v H; [discriminate|].
    cbn [getGuideRateInj] in H.
    destruct (Schedule.hasWell schedule name reportStepIdx).
    { bind_split H as rv Hrv. injection H as <-. apply Hget. }
    destruct (GuideRate.has_inj guideRate name injectionPhase).
    { unfold GuideRate.get_inj in H.
      destruct (GuideRate.injection_group_values guideRate !! (injectionPhase, name))
        as [x|] eqn:Hx; [|discriminate].
      injection H as <-. by eapply Hinj. }
    bind_split H as group Hgroup. bind_split H as total Hgroups.
    apply (for_each_invariant (fun s => 0 <= s)) in Hgroups; [| |apply Qcle_refl].
    2:{ intros x s r _ Hs Hx. bind_split Hx as c Hc.
        destruct (Group.inj_is_FLD_or_NONE c); [|by injection Hx as <-].
        bind_split Hx as g Hg. injection Hx as <-.
        apply Qc_plus_nonneg; [done|by eapply IH]. }
    apply (for_each_invariant (fun s => 0 <= s)) in H; [done| |done].
    intros x s r _ Hs Hx. unfold add_injector_guide_rate in Hx.
    bind_split Hx as w Hw.
    destruct (negb (Well.isInjector w)); [by injection Hx as <-|].
    destruct (Well.is_SHUT _); [by injection Hx as <-|].
    destruct (negb _); [by injection Hx as <-|].
    bind_split Hx as rv Hrv. injection Hx as <-. by apply Qc_plus_nonneg.
Qed.

Lemma field3_guideRate_nonneg : guide_rates_nonneg Field3.guideRate.
Proof.
  split.
  - intros name target rates. cbn [GuideRate.get Field3.guideRate].
    destruct (String.eqb name "P1"); [done|]. destruct (String.eqb name "P2"); [done|].
    destruct (String.eqb name "I1"); done.
  - intros key v H. cbn in H. by rewrite lookup_empty in H.
Qed.

(** In the three-level field the production guide rate of PLAT is the
    guide rate 3 of P1, its only producer under group control, and its
    injection guide rate for water is 0. *)
Lemma getGuideRate_nonneg_witness :
  (getGuideRate 3 "PLAT" Field3.schedule Field3.wellState 0 Field3.guideRate
     GuideRateModel.OIL Scenario.pu = Ok (dbl 3 1)
   /\ 0 <= dbl 3 1)
  /\ (getGuideRateInj 3 "PLAT" Field3.schedule Field3.wellState 0 Field3.guideRate
        GuideRateModel.WAT WATER Scenario.pu = Ok 0
      /\ 0 <= 0).
Proof.
  assert (Hprod : getGuideRate 3 "PLAT" Field3.schedule Field3.wellState 0
                    Field3.guideRate GuideRateModel.OIL Scenario.pu = Ok (dbl 3 1))
    by eval_res.
  assert (Hinj : getGuideRateInj 3 "PLAT" Field3.schedule Field3.wellState 0
                   Field3.guideRate GuideRateModel.WAT WATER Scenario.pu = Ok 0)
    by eval_res.
  split; (split; [done|]).
  - exact (proj1 (getGuideRate_nonneg 3 "PLAT" Field3.schedule Field3.wellState 0
                    Field3.guideRate GuideRateModel.OIL WATER Scenario.pu (dbl 3 1)
                    field3_guideRate_nonneg) Hprod).
  - exact (proj2 (getGuideRate_nonneg 3 "PLAT" Field3.schedule Field3.wellState 0
                    Field3.guideRate GuideRateModel.WAT WATER Scenario.pu 0
                    field3_guideRate_nonneg) Hinj).
Defined.

(** ** The number of wells under group control *)

Lemma count_wells_bound (included : string -> bool) (wells : list string) (n : nat) :
  (foldl (fun num_wells child_well => if included child_well then S num_wells else num_wells)
     n wells <= n + length wells)%nat.
Proof.
  revert n. induction wells as [|w wells IH]; intros n; cbn [foldl length]; [lia|].
  destruct (included w).
  - specialize (IH (S n)). lia.
  - specialize (IH n). lia.
Qed.

(** X17.  [groupControlledWells] counts no more wells than the tree below the
    group has. *)
Theorem groupControlledWells_bound (fuel : nat) :
  forall (schedule : Schedule) (well_state : WellState.t) (report_step : nat)
    (group_name always_included_child : string) (is_production_group : bool)
    (injection_phase : Phase) (group : Group) (chain_factor : double) (n : nat),
    groupControlledWells fuel schedule well_state report_step group_name
      always_included_child is_production_group injection_phase = Ok n ->
    Schedule.getGroup schedule group_name report_step = Ok group ->
    (n <= length (wells_below fuel schedule report_step group chain_factor))%nat.
Proof.
  induction fuel as [|fuel IH];
    intros schedule ws step name aic prod phase group c n H Hgroup; [discriminate|].
  rewrite groupControlledWells_S, Hgroup in H. cbn [mbind res_bind] in H.
  bind_split H as num Hloop. injection H as <-.
  cbn [wells_below]. rewrite length_app, length_map.
  set (c' := c * Group.getGroupEfficiencyFactor group).
  etransitivity; [apply count_wells_bound|]. apply Nat.add_le_mono_r.
  assert (Hsum : forall (l : list string) (acc r : nat),
            for_each l (fun child_group num_wells =>
              included ← child_group_included ws aic prod phase child_group;
              if (included : bool) then
                k ← groupControlledWells fuel schedule ws step child_group aic prod phase;
                Ok (num_wells + k)%nat
              else Ok num_wells) acc = Ok r ->
            (r <= acc + length (flat_map (fun groupName =>
                       match Schedule.groups (Schedule.at_step schedule step)
                               !! groupName with
                       | Some sub => wells_below fuel schedule step sub c'
                       | None => []
                       end) l))%nat).
  { induction l as [|child l IHl]; intros acc r Hrun; cbn [for_each] in Hrun.
    - injection Hrun as <-. cbn. lia.
    - bind_split Hrun as s1 Hstep. apply IHl in Hrun. cbn [flat_map].
      rewrite length_app. bind_split Hstep as included Hinc.
      destruct included; [|injection Hstep as <-; lia].
      bind_split Hstep as k Hk. injection Hstep as <-.
      destruct fuel as [|fuel']; [discriminate|].
      pose proof Hk as Hk'. rewrite groupControlledWells_S in Hk'.
      bind_split Hk' as sub Hsub. clear Hk'.
      pose proof Hsub as Hlookup. unfold Schedule.getGroup in Hlookup.
      destruct (Schedule.groups (Schedule.at_step schedule step) !! child)
        as [sub'|]; [|discriminate].
      injection Hlookup as ->.
      pose proof (IH schedule ws step child aic prod phase sub c' k Hk Hsub). lia. }
  apply (Hsum _ 0%nat num Hloop).
Qed.

(** In the three-level field the tree below PLAT has three wells, of which
    only P1 is a producer under group control. *)
Lemma groupControlledWells_bound_witness :
  groupControlledWells 3 Field3.schedule Field3.wellState 0 "PLAT" "" true OIL = Ok 1%nat
  /\ (1 <= length (wells_below 3 Field3.schedule 0 Field3.PLAT 1))%nat.
Proof.
  split; [reflexivity|].
  apply (groupControlledWells_bound 3 Field3.schedule Field3.wellState 0 "PLAT" "" true
           OIL Field3.PLAT 1 1%nat); reflexivity.
Defined.

(** ** The target reduction of a group without sub groups *)

Lemma vec_at_foldl_add_at (g : nat -> double) (np : nat) :
  forall (v : list double) (p : nat),
    vec_at (foldl (fun v phase => vec_add_at v phase (g phase)) v (seq 0 np)) p
    = (if decide ((p < np)%nat /\ (p < length v)%nat) then vec_at v p + g p else vec_at v p)
    /\ length (foldl (fun v phase => vec_add_at v phase (g phase)) v (seq 0 np))
       = length v.
Proof.
  induction np as [|np IH]; intros v p.
  - cbn [seq foldl]. split; [|done]. destruct (decide _) as [[H _]|_]; [lia|done].
  - rewrite seq_S, foldl_app. cbn [foldl plus].
    destruct (IH v p) as [Hat Hlen]. split.
    + rewrite vec_at_add_at, Hat, Hlen.
      destruct (decide (np = p /\ (p < length v)%nat)) as [[-> Hp]|Hn].
      * destruct (decide ((p < p)%nat /\ _)) as [[H _]|_]; [lia|].
        destruct (decide ((p < S p)%nat /\ _)) as [_|H]; [done|].
        exfalso. apply H. split; [lia|done].
      * destruct (decide ((p < np)%nat /\ _)) as [[H1 H2]|H1];
          destruct (decide ((p < S np)%nat /\ _)) as [[H3 H4]|H3]; try done.
        -- exfalso. apply H3. split; [lia|done].
        -- exfalso. assert (np = p) by lia. apply Hn. by split.
    + unfold vec_add_at at 1. by rewrite length_alter.
Qed.

Section LeafReduction.
Variables (schedule : Schedule) (reportStepIdx : nat) (isInjector : bool).
Variables (wellStateNupcol wellState : WellState.t).

Local Abbreviation np := (WellState.numPhases wellState).
Local Abbreviation own_sum phase l :=
  (weighted_rate_sum (WellState.wellRates wellStateNupcol) schedule wellState
     reportStepIdx phase isInjector
     (map (fun wellName => (wellName, 1))
        (List.filter (individually_controlled wellState isInjector) l))).

Lemma add_well_reduction_spec (wellName : string) (acc : list double) :
  Schedule.hasWell schedule wellName reportStepIdx = true ->
  exists acc',
    add_well_reduction schedule reportStepIdx isInjector wellStateNupcol wellState np
      wellName acc = Ok acc'
    /\ length acc' = length acc
    /\ forall phase, (phase < np)%nat -> (phase < length acc)%nat ->
         vec_at acc' phase = vec_at acc phase + own_sum phase [wellName].
Proof.
  intros Hwell. apply bool_decide_eq_true in Hwell as [w Hw].
  unfold add_well_reduction. rewrite (getWell_Some _ _ _ _ Hw). cbn [mbind res_bind].
  cbn [List.filter]. unfold individually_controlled, weighted_rate_sum, counted_well.
  unfold Well.isInjector.
  destruct (WellState.wellMap wellState !! wellName) as [it|] eqn:Hit.
  2:{ exists acc. destruct (Well.isProducer w), isInjector, (Well.is_SHUT _);
        cbn [andb negb]; (split; [done|]); (split; [done|]);
        intros phase _ _; cbn [map foldr]; by rewrite Qcplus_0_r. }
  destruct (WellState.wellIsOwned wellState it.1.1 wellName) eqn:Howned.
  2:{ exists acc. destruct (Well.isProducer w), isInjector, (Well.is_SHUT _);
        cbn [andb negb]; (split; [done|]); (split; [done|]);
        intros phase _ _;
        repeat (destruct (negb _); cbn [map foldr]; rewrite ?Hit, ?Howned);
        by rewrite Qcplus_0_r. }
  destruct (Well.isProducer w) eqn:Hprod, isInjector;
    cbn [andb negb orb Bool.eqb].
  - exists acc. split; [done|]. split; [done|]. intros phase _ _.
    destruct (negb _); cbn [map foldr]; rewrite ?Hit, ?Howned, ?Hw;
      unfold Well.isInjector; rewrite ?Hprod; cbn [negb Bool.eqb andb];
      by rewrite Qcplus_0_r.
  - destruct (Well.is_SHUT (Well.getStatus w)) eqn:Hshut.
    { exists acc. split; [done|]. split; [done|]. intros phase _ _.
      destruct (negb _); cbn [map foldr]; rewrite ?Hit, ?Howned, ?Hw;
        unfold Well.isInjector; rewrite ?Hprod, ?Hshut; cbn [negb Bool.eqb andb];
        by rewrite Qcplus_0_r. }
    destruct (negb (Well.prod_is_GRUP _)).
    + eexists. split; [done|].
      destruct (vec_at_foldl_add_at
                  (fun phase =>
                     - (vec_at (WellState.wellRates wellStateNupcol) (it.1.1 * np + phase)
                        * Well.getEfficiencyFactor w)) np acc 0) as [_ Hlen].
      split; [exact Hlen|]. intros phase Hphase Hacc.
      destruct (vec_at_foldl_add_at
                  (fun phase =>
                     - (vec_at (WellState.wellRates wellStateNupcol) (it.1.1 * np + phase)
                        * Well.getEfficiencyFactor w)) np acc phase) as [-> _].
      rewrite decide_True by done. cbn [map foldr]. rewrite Hit, Howned, Hw.
      unfold Well.isInjector. rewrite Hprod, Hshut. cbn [negb Bool.eqb andb].
      unfold normalized_rate. ring.
    + exists acc. split; [done|]. split; [done|]. intros phase _ _.
      cbn [map foldr]. by rewrite Qcplus_0_r.
  - destruct (Well.is_SHUT (Well.getStatus w)) eqn:Hshut.
    { exists acc. split; [done|]. split; [done|]. intros phase _ _.
      destruct (negb _); cbn [map foldr]; rewrite ?Hit, ?Howned, ?Hw;
        unfold Well.isInjector; rewrite ?Hprod, ?Hshut; cbn [negb Bool.eqb andb];
        by rewrite Qcplus_0_r. }
    destruct (negb (Well.inj_is_GRUP _)).
    + eexists. split; [done|].
      destruct (vec_at_foldl_add_at
                  (fun phase =>
                     vec_at (WellState.wellRates wellStateNupcol) (it.1.1 * np + phase)
                     * Well.getEfficiencyFactor w) np acc 0) as [_ Hlen].
      split; [exact Hlen|]. intros phase Hphase Hacc.
      destruct (vec_at_foldl_add_at
                  (fun phase =>
                     vec_at (WellState.wellRates wellStateNupcol) (it.1.1 * np + phase)
                     * Well.getEfficiencyFactor w) np acc phase) as [-> _].
      rewrite decide_True by done. cbn [map foldr]. rewrite Hit, Howned, Hw.
      unfold Well.isInjector. rewrite Hprod, Hshut. cbn [negb Bool.eqb andb].
      unfold normalized_rate. ring.
    + exists acc. split; [done|]. split; [done|]. intros phase _ _.
      cbn [map foldr]. by rewrite Qcplus_0_r.
  - exists acc. split; [done|]. split; [done|]. intros phase _ _.
    destruct (negb _); cbn [map foldr]; rewrite ?Hit, ?Howned, ?Hw;
      unfold Well.isInjector; rewrite ?Hprod; cbn [negb Bool.eqb andb];
      by rewrite Qcplus_0_r.
Qed.

Lemma own_sum_cons (phase : nat) (wellName : string) (l : list string) :
  own_sum phase (wellName :: l) = own_sum phase [wellName] + own_sum phase l.
Proof.
  cbn [List.filter]. destruct (individually_controlled wellState isInjector wellName).
  - change (wellName :: List.filter ?f l) with ([wellName] ++ List.filter f l)%list.
    by rewrite map_app, weighted_rate_sum_app.
  - cbn [map]. unfold weighted_rate_sum at 2. cbn [foldr]. by rewrite Qcplus_0_l.
Qed.

Lemma wells_reduction_spec (l : list string) :
  forall acc : list double,
    forallb (fun wellName => Schedule.hasWell schedule wellName reportStepIdx) l = true ->
    exists acc',
      for_each l
        (add_well_reduction schedule reportStepIdx isInjector wellStateNupcol wellState np)
        acc = Ok acc'
      /\ length acc' = length acc
      /\ forall phase, (phase < np)%nat -> (phase < length acc)%nat ->
           vec_at acc' phase = vec_at acc phase + own_sum phase l.
Proof.
  induction l as [|wellName l IH]; intros acc Hwells.
  - exists acc. split; [done|]. split; [done|]. intros phase _ _.
    unfold weighted_rate_sum. cbn [List.filter map foldr]. by rewrite Qcplus_0_r.
  - cbn [forallb] in Hwells. apply andb_prop in Hwells as [Hwell Hwells].
    destruct (add_well_reduction_spec wellName acc Hwell) as (acc1 & Hrun1 & Hlen1 & Hat1).
    destruct (IH acc1 Hwells) as (acc' & Hrun & Hlen & Hat).
    exists acc'. cbn [for_each]. rewrite Hrun1. cbn [mbind res_bind].
    split; [exact Hrun|]. split; [congruence|]. intros phase Hphase Hacc.
    rewrite (own_sum_cons phase wellName l), Hat, Hat1 by (rewrite ?Hlen1; done).
    ring.
Qed.

End LeafReduction.

Lemma vec_at_map (f : double -> double) (v : list double) (i : nat) :
  (i < length v)%nat -> vec_at (map f v) i = f (vec_at v i).
Proof.
  intros Hi. unfold vec_at. rewrite list_lookup_fmap.
  destruct (lookup_lt_is_Some_2 v i Hi) as [x ->]. done.
Qed.

(** X19.  For a group without sub groups [updateGroupTargetReduction] returns;
    it stores for the group the vector that it returns, which has the
    length of the in/out vector, and in which each phase holds the entry of
    the in/out vector plus the rates (times their efficiency factors) of
    the wells of the group that count for the role and are not under group
    control, all multiplied by the efficiency factor of the group.  Wells
    under group control contribute nothing. *)
Theorem updateGroupTargetReduction_leaf (fuel : nat) (group : Group) (schedule : Schedule)
    (reportStepIdx : nat) (isInjector : bool) (pu : PhaseUsage) (guide_rate : GuideRate)
    (wellStateNupcol wellState : WellState.t) (groupTargetReduction : list double) :
  Group.groups group = [] ->
  forallb (fun wellName => Schedule.hasWell schedule wellName reportStepIdx)
    (Group.wells group) = true ->
  exists wellState' reduction,
    updateGroupTargetReduction (S fuel) group schedule reportStepIdx isInjector pu
      guide_rate wellStateNupcol wellState groupTargetReduction
    = Ok (wellState', reduction)
    /\ dget (reductions isInjector) wellState' !! Group.name group = Some reduction
    /\ length reduction = length groupTargetReduction
    /\ forall phase,
         (phase < WellState.numPhases wellState)%nat ->
         (phase < length groupTargetReduction)%nat ->
         vec_at reduction phase
         = (vec_at groupTargetReduction phase
            + weighted_rate_sum (WellState.wellRates wellStateNupcol) schedule wellState
                reportStepIdx phase isInjector
                (map (fun wellName => (wellName, 1))
                   (List.filter (individually_controlled wellState isInjector)
                      (Group.wells group))))
           * Group.getGroupEfficiencyFactor group.
Proof.
  intros Hleaf Hwells.
  destruct (wells_reduction_spec schedule reportStepIdx isInjector wellStateNupcol
              wellState (Group.wells group) groupTargetReduction Hwells)
    as (acc & Hrun & Hlen & Hat).
  cbn [updateGroupTargetReduction]. rewrite Hleaf. cbn [for_each mbind res_bind].
  rewrite Hrun. cbn [mbind res_bind]. eexists _, _. split; [reflexivity|].
  split; [|split].
  - unfold reductions, setCurrentGroupReductionRates. destruct isInjector; cbn.
    + by rewrite lookup_insert_eq.
    + by rewrite lookup_insert_eq.
  - by rewrite length_map.
  - intros phase Hphase Hinput. rewrite vec_at_map by (by rewrite Hlen).
    by rewrite Hat.
Qed.

(** In the three-level field SAT has the producer P2 under a control of
    its own: starting from zero, the oil entry of its reduction is the oil
    rate 20 of P2 times the efficiency factors 1/2 of P2 and 1/4 of SAT. *)
Lemma updateGroupTargetReduction_leaf_witness :
  exists wellState' reduction,
    updateGroupTargetReduction 1 Field3.SAT Field3.schedule 0 false Scenario.pu
      Field3.guideRate Field3.wellState Field3.wellState (vec_zero 3)
    = Ok (wellState', reduction)
    /\ WellState.production_group_reduction_rates wellState' !! "SAT" = Some reduction
    /\ vec_at reduction 1 = dbl 5 2.
Proof.
  destruct (updateGroupTargetReduction_leaf 0 Field3.SAT Field3.schedule 0 false
              Scenario.pu Field3.guideRate Field3.wellState Field3.wellState (vec_zero 3))
    as (ws' & reduction & Hrun & Hstored & Hlen & Hat); [reflexivity..|].
  exists ws', reduction. split; [exact Hrun|]. split; [exact Hstored|].
  rewrite (Hat 1%nat) by (cbn; lia).
  apply Qc_is_canon. vm_compute. reflexivity.
Defined.
